(* ===== verification/_CoqProject ===== *)
-Q . S2P
Prelude.v
GoLib.v
Strconv.v
NetIP.v
GoParse.v
FloatText.v
Flag.v
RateLimit.v
Overtaking.v
RateLimitFacts.v
ServiceConfig.v
ConfigFacts.v
CommandLine.v
Cache.v
CacheMemory.v
CacheRedis.v
Metrics.v
ShardCommon.v
World.v
Retransmit.v
Beacon.v
Ingress.v
Server.v
Main.v
MainFacts.v
ServerRun.v
ServerFacts.v
NackFacts.v
Concurrency.v
Lifecycle.v
Rely.v
Rights.v
Account.v
Process.v
Startup.v
StartupFacts.v
Delivery.v
System.v
Gate.v
GateRun.v
Integrity.v
Aliasing.v
Scenario.v
ScenarioProcess.v
ScenarioRun.v
