(* ===== verification/Prelude.v ===== *)
(** * Verification of bitcoin-retry-endpoint

    The program caches multicast frames and retransmits them on request.  An
    ingress worker (src/ingress) receives frames and stores those that carry a
    sequence number under HashKey and SeqNum; a NACK server (src/server) takes
    requests from listeners, passes them through a four-tier rate limiter
    (src/ratelimit), looks the frame up in the cache (src/cache: in memory, or
    Redis), retransmits it by multicast (src/retransmit), at most once per
    deduplication window, and answers ACK or MISS; a beacon (src/beacon)
    advertises the endpoint; src/metrics counts and answers health checks;
    src/config and src/main.go read the configuration and wire the parts.

    ** How the program is modelled

    - A Go string or byte string is a [list Z] of values in [0, 256); integers
      are [Z], with the width of their Go type written out where it matters.
      A float64 is a [spec_float] of the standard library, so rates and
      [Duration.Seconds] are the IEEE values.
    - A slice is a reference into a backing array ([Cache.slice], [heap]), so
      aliasing is visible; only what is sent or compared is read from it.
    - A goroutine body is a [Prog]: a finite tree of atomic steps on a shared
      store, where one step is one critical section, one clock reading, one
      socket write or one counter update.  [run] executes it alone;
      [pool_step], [ServerRun.run_step] and, for the whole program,
      [Process.program_step] interleave bodies.  [Panic] is a run-time panic.
      The egress loop, which holds the retransmitter's lock, and each cache
      call are one step.
    - What happens to the cache besides is a relation, an argument of
      [program_step]: the sweeps of the in-memory cache ([mem_background]), or
      other endpoints on the same Redis server ([Gate.backend_step],
      [Integrity.neighbour]).
    - [World.World] is the store: memory, limiter, cache, recorder (nil or
      not), egress sockets, and the datagrams sent.  Its environment answers
      the clock, the success of writes and the order of map iteration.
      There is one clock, which the Redis server shares; a lookup takes one
      reading whether or not it finds an entry.
    - Errors are values of [result] or [option]; loops over received events
      take the list of events, so that every finite execution is covered.
    - [run] of main.go is two parts: the statements up to the wait for a
      signal, in a monad of errors that records what has been acquired and
      which calls are deferred ([Startup.Run]); and the life of the process
      from there, a step relation ([Lifecycle.proc_step]).
    - Code outside the repository is a parameter: golang.org/x/time/rate
      ([RateLimit.RateLib]), go-redis and its server
      ([CacheRedis.RedisLib]), bitcoin-shard-common ([ShardCommon.FrameLib],
      [ShardLib]), the constructors of OpenTelemetry and Prometheus
      ([Metrics.OTelLib]).  What the program relies on is a class of laws
      ([RedisLaws], [FrameLaws], [ShardLaws]), each with a concrete instance
      ([RedisModel], [FrameModel], [ShardModel]); [Bucket] is a token bucket
      that stands for the rate library in the examples.

    ** Files

    - Prelude: results, goroutine bodies, big-endian codecs, byte-string and
      list lemmas, the automation.  GoLib, Strconv, NetIP, GoParse: fmt, net.IP,
      float64, strings, strconv, time.ParseDuration as the program uses them.
      FloatText: a decimal text for every float64, which ParseFloat reads back.
      Flag: the flag package.
    - RateLimit, RateLimitFacts: ratelimit/ratelimit.go.  The two sliding
      windows share one section; [New], [Allow], [AllowChain], [AllowGroup].
      Overtaking: goroutines that call one sliding window.
    - ServiceConfig, ConfigFacts, CommandLine: config/config.go.  [Load] is the
      part after flag.Parse, [Load_main] the whole, from the argument list and
      the environment.
    - Cache: cache/cache.go as the class [Backend], its promises
      [BackendSpec], [BackendLaws], [Copying].  CacheMemory:
      cache/memory/memory.go.  CacheRedis: cache/redis/redis.go and the
      deployments of main.go.
    - Metrics: metrics/metrics.go ([New_recorder], the counters and their
      series, the handlers, [Serve]).
    - ShardCommon, World: the shared module's interface, the store.
    - Retransmit, Gate: retransmit/retransmit.go and its deduplication gate,
      the class [GateLaws].
    - Beacon: beacon/beacon.go.  Ingress: ingress/ingress.go.
    - Server, ServerRun: server/server.go, the handlers and the receive loop
      with its worker pool.
    - Main, MainFacts: main.go, the components of a configuration.  Startup,
      StartupFacts: main.go, [run] up to the wait for a signal, every early
      return and the deferred calls.  Lifecycle, Process: main.go, the
      goroutines and the shutdown, first for any bodies, then for the
      program's.
    - Rely: a rely-guarantee logic for goroutine bodies.  Rights, GateRun: its
      use for bodies that win a right from a shared gate, and the
      deduplication gate in the running process.  Account, Integrity: its use
      for what each goroutine may send, and everything the running process
      sends.
    - ServerFacts, NackFacts, Delivery, System, Aliasing, Concurrency: the
      properties that join components.  Scenario, ScenarioProcess,
      ScenarioRun: concrete runs.

    ** What the theorems show

    - Delivery: what one NACK can send is determined by the cache
      (NackFacts); what an admitted, a missed and a refused request does on
      every branch, with the counters (Delivery); a cached frame is
      retransmitted verbatim with a copying backend (System), while the
      in-memory cache retransmits whatever the receive buffer holds by then
      (Aliasing); one retransmission per SeqNum and window, across endpoints
      (Gate) and under every interleaving of one process whose backend others
      use as well (GateRun); and, with a copying backend, whatever the
      interleaving, everything sent is an ADVERT or answers a request that was
      taken, with an ACK, a MISS, or the received frame it asks for
      (Integrity).
    - Limits: a window tier refines the specification by history, never
      exceeds its cap when calls are in clock order, recovers, but keeps its
      keys for ever (RateLimit); when goroutines overtake each other between
      reading the clock and taking the lock the cap is exceeded by at most one
      call for each goroutine but one, and by that many from a cap of 2 on
      (Overtaking); token buckets are isolated by key, and keys identify their
      parts (RateLimitFacts).
    - Cache: the in-memory cache refines a TTL map and keeps its size limit
      (CacheMemory); both backends keep the promises of the interface.
    - Concurrency: no request lost, duplicated or reordered by the worker
      pool, and shutdown terminates (ServerRun); size limits, caps and
      well-formed responses under every interleaving of the whole process
      (Concurrency, Process).
    - The whole program: which error [run] reports or what it builds, what it
      releases on every path, that the beacon advertises the address the
      server binds, and that after a signal the program ends with every
      goroutine returned, without a panic (StartupFacts, Process).
    - Wire formats and configuration: responses, NACKs, ADVERTs, group
      addresses, group ids, [Load] (ServerFacts, Beacon, ConfigFacts,
      MainFacts); every flag has the value of its last setting, else of its
      documented environment variable, else its documented default, every
      configuration can be written as a command line and is read back, every
      variable has a value of its type (CommandLine).
    - Metrics: what [New] builds or reports, every counter adds to a registered
      instrument, different counters to different series (Metrics).

    ** Bounds and fuel

    Recursion is structural except where noted: [dec_go] has 20 digits of
    fuel, enough for 64 bits ([dec_go_val] needs n < 10^20); [zero_run] and
    [longest_zero] visit the 8 groups of an IPv6 address; [trim_left] and
    [trim_right] are given the length of the string, and every round removes
    at least one byte.  [NetIP.groups_loop] reads at most the 8 groups of an
    IPv6 address; the parser of durations is given the length of the text and
    consumes a unit per round; [Flag.parse_loop] is given the number of
    arguments and consumes one per round ([parse_loop_fuel]: more fuel changes
    nothing).  In [Lifecycle] the ticks and datagrams still to come are a
    number and a list, arbitrary but finite; the server may go on for ever until
    the context is cancelled.

    ** Not modelled

    Logging and the usage text of the flags; the exporters and the page of
    /metrics, which are OpenTelemetry's and Prometheus's; the HTTP protocol
    around the handlers; the system calls that open sockets and join groups
    (their results are arguments), and the race between the goroutine that
    closes the ingress socket and a reuse of its descriptor; the 10 and
    5-second limits on the shutdown of exporters and listener; running out of
    memory.

    ** Planned extensions

    One retransmission per window summed over several processes on one Redis
    server; that an admitted request is answered while others are processed;
    the in-memory deployment with a capacity limit. *)

From stdpp Require Export base gmap strings list fin_maps relations.
From Stdlib Require Export ZArith Lia Sorted.

#[global] Open Scope Z_scope.

(** ** Results of fallible Go calls *)

(** [result T E] is a Go pair [(T, error)] whose value is only meaningful
    when the error is nil. *)
Inductive result (T E : Type) : Type :=
| Ok (t : T)
| Err (e : E).
Arguments Ok {T E} t.
Arguments Err {T E} e.

Definition result_bind {T U E : Type} (r : result T E) (f : T → result U E) : result U E :=
  match r with Ok t => f t | Err e => Err e end.

Declare Scope go_scope.
Delimit Scope go_scope with go.
#[global] Open Scope go_scope.

(** Early return of a Go function on error. *)
Notation "'let?' x ':=' r 'in' k" := (result_bind r (fun x => k))
  (at level 10, x pattern, r at level 100, k at level 200, only parsing) : go_scope.

(** Every operation of the program acts on a store shared by goroutines; an
    atomic step is a state transformer. *)
Definition atomic (W X : Type) : Type := W → X * W.

(** ** Goroutine bodies

    A goroutine body is a finite tree of atomic steps.  One [Atomic] node is
    one critical section, one clock reading, one socket write, one atomic
    counter update; between two nodes other goroutines may run.  [Panic] is a
    run-time panic, which ends the process. *)
Inductive Prog (W A : Type) : Type :=
| Ret (a : A)
| Panic
| Atomic (X : Type) (f : atomic W X) (k : X → Prog W A).
Arguments Ret {W A} a.
Arguments Panic {W A}.
Arguments Atomic {W A} X f k.

Fixpoint prog_bind {W A B : Type} (k : A → Prog W B) (m : Prog W A) : Prog W B :=
  match m with
  | Ret a => k a
  | Panic => Panic
  | Atomic X f j => Atomic X f (fun x => prog_bind k (j x))
  end.

#[global] Instance prog_mret {W : Type} : MRet (Prog W) := fun A a => Ret a.
#[global] Instance prog_mbind {W : Type} : MBind (Prog W) := fun A B k m => prog_bind k m.

(** Perform one atomic step and return its result. *)
Definition perform {W X : Type} (f : atomic W X) : Prog W X := Atomic X f Ret.

(** Update the store atomically. *)
Definition modify {W : Type} (f : W → W) : Prog W unit := perform (fun w => (tt, f w)).

(** Run a body alone, without interference: [None] is a panic. *)
Fixpoint run {W A : Type} (m : Prog W A) (w : W) : option A * W :=
  match m with
  | Ret a => (Some a, w)
  | Panic => (None, w)
  | Atomic X f k => run (k (f w).1) (f w).2
  end.

(** ** Interleaving

    A configuration is the list of running bodies and the shared store; a
    step runs the next atomic action of one of them. *)
Inductive pool_step {W : Type} : list (Prog W unit) * W → list (Prog W unit) * W → Prop :=
| pool_atomic (ts : list (Prog W unit)) (w : W) (i : nat) (X : Type) (f : atomic W X)
    (k : X → Prog W unit) :
    ts !! i = Some (Atomic X f k) →
    pool_step (ts, w) (<[i := k (f w).1]> ts, (f w).2).

(** Run the bodies under a given schedule: the number of a body per step. *)
Fixpoint schedule {W : Type} (sched : list nat) (c : list (Prog W unit) * W)
    : list (Prog W unit) * W :=
  match sched with
  | [] => c
  | i :: sched' =>
      match c.1 !! i with
      | Some (Atomic X f k) => schedule sched' (<[i := k (f c.2).1]> c.1, (f c.2).2)
      | _ => schedule sched' c
      end
  end.

(** [preserves np I m]: whatever the other goroutines do in between, as long
    as they keep [I], every atomic action of [m] keeps [I]; and, when [np] is
    set, [m] does not panic. *)
Fixpoint preserves {W A : Type} (np : bool) (I : W → Prop) (m : Prog W A) : Prop :=
  match m with
  | Ret _ => True
  | Panic => np = false
  | Atomic X f k => ∀ w, I w → I (f w).2 ∧ preserves np I (k (f w).1)
  end.

(** [steps R m]: every atomic action of [m] relates the store before it to the
    store after it by [R]. *)
Fixpoint steps {W A : Type} (R : W → W → Prop) (m : Prog W A) : Prop :=
  match m with
  | Ret _ | Panic => True
  | Atomic X f k => (∀ w, R w (f w).2) ∧ (∀ x, steps R (k x))
  end.

(** ** Bytes

    A byte is an integer of [0, 256); a byte string is a list of them. *)
Abbreviation bytes := (list Z).

Definition is_byte (b : Z) : Prop := 0 ≤ b < 256.

(** encoding/binary, big endian: [be_put n] is [PutUint16/32/64] for
    [n = 2, 4, 8], [be_get] the corresponding [Uint16/32/64]. *)
Fixpoint be_put (n : nat) (v : Z) : bytes :=
  match n with
  | O => []
  | S n' => Z.land (Z.shiftr v (8 * Z.of_nat n')) 255 :: be_put n' v
  end.

Definition be_step (acc b : Z) : Z := Z.lor (Z.shiftl acc 8) b.

Definition be_get (bs : bytes) : Z := fold_left be_step bs 0.

(** [b[lo:hi]]. *)
Definition subslice (b : bytes) (lo hi : nat) : bytes := take (hi - lo) (drop lo b).

(** [copy(b[off:], src)] and the [Put] functions on [b[off:off+len(src)]]. *)
Definition put_at (b : bytes) (off : nat) (src : bytes) : bytes :=
  take off b ++ src ++ drop (off + length src) b.

(** [b[i]], for an index the code has checked. *)
Definition byte_at (b : bytes) (i : nat) : Z := default 0 (b !! i).

(** Conversion to an unsigned integer type of [w] bits. *)
Definition to_uint (w z : Z) : Z := z `mod` 2 ^ w.

(** ** Iterating over a Go map

    Go leaves the iteration order of a map unspecified; the run-time picks
    it.  [pick_nth] is one such choice, [shuffle] a whole iteration order
    driven by a stream of choices. *)
Definition pick_nth {A : Type} (p : nat) (l : list A) : option A :=
  l !! (p `mod` length l)%nat.

Fixpoint shuffle {A : Type} (n : nat) (choice : nat → nat) (l : list A) : list A :=
  match n with
  | O => l
  | S n' =>
      let i := (choice n `mod` length l)%nat in
      match l !! i with
      | Some x => x :: shuffle n' choice (delete i l)
      | None => l
      end
  end.

(** ** Focusing on one component of the store *)
Record lens (W T : Type) : Type := Lens {
  view : W → T;
  put : T → W → W;
}.
Arguments Lens {W T} view put.
Arguments view {W T} l w.
Arguments put {W T} l t w.

(** An atomic action of a component as an action of the whole store. *)
Definition zoom {W T X : Type} (l : lens W T) (f : atomic T X) : atomic W X :=
  fun w => ((f (view l w)).1, put l (f (view l w)).2 w).

Definition lens_comp {W T U : Type} (l : lens W T) (m : lens T U) : lens W U :=
  Lens (fun w => view m (view l w)) (fun u w => put l (put m u (view l w)) w).

(** Return the value of an action that may panic. *)
Definition unwrap {W A : Type} (o : option A) : Prog W A :=
  match o with Some a => mret a | None => Panic end.

(** ** Go strings

    A Go string is an immutable byte string. *)
Definition str (s : string) : bytes :=
  (fun c => Z.of_N (Ascii.N_of_ascii c)) <$> String.list_ascii_of_string s.

(** ** Automation *)

Create HintDb retry discriminated.

(** Split the conditionals of a handler one by one. *)
Ltac split_if :=
  match goal with
  | |- context [if ?b then _ else _] => destruct b eqn:?
  | H : context [if ?b then _ else _] |- _ => destruct b eqn:?
  end.

(** Turn boolean comparisons into propositions. *)
Ltac breflect :=
  repeat match goal with
  | H : Z.ltb _ _ = true |- _ => apply Z.ltb_lt in H
  | H : Z.ltb _ _ = false |- _ => apply Z.ltb_ge in H
  | H : Z.leb _ _ = true |- _ => apply Z.leb_le in H
  | H : Z.leb _ _ = false |- _ => apply Z.leb_gt in H
  | H : Z.eqb _ _ = true |- _ => apply Z.eqb_eq in H
  | H : Z.eqb _ _ = false |- _ => apply Z.eqb_neq in H
  | H : negb _ = true |- _ => apply negb_true_iff in H
  | H : negb _ = false |- _ => apply negb_false_iff in H
  | H : andb _ _ = true |- _ => apply andb_true_iff in H; destruct H
  | H : orb _ _ = false |- _ => apply orb_false_iff in H; destruct H
  end.

(** ** Laws of goroutine bodies *)

Lemma prog_bind_assoc {W A B C : Type} (m : Prog W A) (f : A → Prog W B) (g : B → Prog W C) w :
  run (prog_bind g (prog_bind f m)) w = run (prog_bind (fun a => prog_bind g (f a)) m) w.
Proof. revert w. induction m as [a| |X h k IH]; intros w; simpl; auto. Qed.

Lemma run_bind {W A B : Type} (m : Prog W A) (k : A → Prog W B) w :
  run (m ≫= k) w =
  match run m w with
  | (Some a, w') => run (k a) w'
  | (None, w') => (None, w')
  end.
Proof. revert w. induction m as [a| |X h j IH]; intros w; simpl; auto. apply IH. Qed.

Lemma run_perform {W X : Type} (f : atomic W X) w : run (perform f) w = (Some (f w).1, (f w).2).
Proof. reflexivity. Qed.

Lemma run_modify {W : Type} (f : W → W) w : run (modify f) w = (Some tt, f w).
Proof. reflexivity. Qed.

Lemma run_ret {W A : Type} (a : A) (w : W) : run (mret a) w = (Some a, w).
Proof. reflexivity. Qed.

Create Rewrite HintDb run.
#[export] Hint Rewrite @run_bind @run_perform @run_modify @run_ret : run.

Section preserves.
Context {W : Type} (np : bool) (I : W → Prop).

Lemma preserves_bind {A B : Type} (m : Prog W A) (k : A → Prog W B) :
  preserves np I m → (∀ a, preserves np I (k a)) → preserves np I (m ≫= k).
Proof.
  intros Hm Hk. induction m as [a| |X f j IH]; cbn in *; [apply Hk|done|].
  intros w Hw. destruct (Hm w Hw) as [Hf Hj]. split; [done|]. by apply IH.
Qed.

Lemma preserves_perform {X : Type} (f : atomic W X) :
  (∀ w, I w → I (f w).2) → preserves np I (perform f).
Proof. cbn. auto. Qed.

Lemma preserves_modify (f : W → W) : (∀ w, I w → I (f w)) → preserves np I (modify f).
Proof. cbn. auto. Qed.

Lemma preserves_mret {A : Type} (a : A) : preserves np I (mret a).
Proof. exact Logic.I. Qed.
End preserves.

#[export] Hint Resolve preserves_bind preserves_perform preserves_modify preserves_mret : retry.

Lemma steps_bind {W A B : Type} (R : W → W → Prop) (m : Prog W A) (k : A → Prog W B) :
  steps R m → (∀ a, steps R (k a)) → steps R (m ≫= k).
Proof.
  intros Hm Hk. induction m as [a| |X f j IH]; cbn in *; [apply Hk|done|].
  destruct Hm as [Hf Hj]. split; [exact Hf|]. intros x. apply IH. auto.
Qed.

Lemma steps_perform {W X : Type} (R : W → W → Prop) (f : atomic W X) :
  (∀ w, R w (f w).2) → steps R (perform f).
Proof. intros Hf. by split. Qed.

Lemma steps_mret {W A : Type} (R : W → W → Prop) (a : A) : steps R (mret a).
Proof. exact Logic.I. Qed.

Lemma steps_modify {W : Type} (R : W → W → Prop) (f : W → W) :
  (∀ w, R w (f w)) → steps R (modify f).
Proof. intros Hf. by split. Qed.

Lemma steps_unwrap {W A : Type} (R : W → W → Prop) (o : option A) : steps R (unwrap o).
Proof. by destruct o. Qed.

Lemma steps_impl {W A : Type} (R R' : W → W → Prop) (m : Prog W A) :
  (∀ w w', R w w' → R' w w') → steps R m → steps R' m.
Proof.
  intros HR. induction m as [a| |X f k IH]; cbn; [done|done|].
  intros [Hf Hk]. split; auto.
Qed.

(** A body whose actions follow a preorder follows it as a whole. *)
Lemma run_steps {W A : Type} (R : W → W → Prop) `{!PreOrder R} (m : Prog W A) w :
  steps R m → R w (run m w).2.
Proof.
  revert w. induction m as [a| |X f k IH]; intros w Hm; cbn in *; [done|done|].
  destruct Hm as [Hf Hk]. etrans; [apply Hf|]. by apply IH.
Qed.

(** Decompose [steps R m] along the structure of [m]; the remaining goals are
    about single actions. *)
Ltac solve_steps :=
  repeat first
    [ apply steps_mret | apply steps_unwrap
    | apply steps_bind; [|intros ?] | apply steps_perform | apply steps_modify
    | match goal with
      | |- steps _ (if ?b then _ else _) => destruct b
      | |- steps _ (match ?x with _ => _ end) => destruct x
      | |- steps _ (let '(_, _) := ?x in _) => destruct x
      end ].

Lemma schedule_steps {W : Type} (sched : list nat) (c : list (Prog W unit) * W) :
  rtc pool_step c (schedule sched c).
Proof.
  revert c. induction sched as [|i sched IH]; intros [ts w]; [done|]. cbn [schedule fst snd].
  destruct (ts !! i) as [[a| |X f k]|] eqn:Hi; try apply IH.
  eapply rtc_l; [by apply (pool_atomic ts w i X f k)|apply IH].
Qed.

(** ** Byte strings *)

Lemma length_be_put n v : length (be_put n v) = n.
Proof. induction n; simpl; auto. Qed.

Lemma land_255 z : Z.land z 255 = z `mod` 256.
Proof. change 255 with (Z.ones 8). rewrite Z.land_ones by lia. done. Qed.

Lemma be_put_is_byte n v : Forall is_byte (be_put n v).
Proof.
  induction n as [|n IH]; simpl; constructor; auto.
  rewrite land_255. apply Z.mod_pos_bound. lia.
Qed.

Lemma be_step_add acc b : is_byte b → be_step acc b = acc * 256 + b.
Proof.
  intros [H0 H1]. unfold be_step. rewrite Z.shiftl_mul_pow2 by lia.
  change (2 ^ 8) with 256. rewrite <- Z.add_lor_land.
  enough (Z.land (acc * 256) b = 0) by lia.
  apply Z.bits_inj'. intros i Hi. rewrite Z.land_spec, Z.bits_0.
  destruct (decide (i < 8)) as [Hlt|Hge].
  - replace 256 with (2 ^ 8) by done. by rewrite Z.mul_pow2_bits_low.
  - rewrite (Z.bits_above_log2 b); [apply andb_false_r|lia|].
    destruct (decide (b = 0)) as [->|]; [simpl; lia|].
    apply Z.log2_lt_pow2; [lia|]. apply Z.lt_le_trans with (2 ^ 8); [done|].
    apply Z.pow_le_mono_r; lia.
Qed.

Lemma be_get_acc bs acc :
  Forall is_byte bs →
  fold_left be_step bs acc = acc * 256 ^ Z.of_nat (length bs) + be_get bs.
Proof.
  unfold be_get. intros Hbs. revert acc.
  induction Hbs as [|b bs Hb Hbs IH]; intros acc; simpl; [lia|].
  rewrite (IH (be_step acc b)), (IH (be_step 0 b)), !be_step_add by done.
  replace (Z.of_nat (S (length bs))) with (Z.succ (Z.of_nat (length bs))) by lia.
  rewrite Z.pow_succ_r by lia. lia.
Qed.

Lemma be_get_cons b bs :
  is_byte b → Forall is_byte bs →
  be_get (b :: bs) = b * 256 ^ Z.of_nat (length bs) + be_get bs.
Proof.
  intros Hb Hbs. unfold be_get at 1. simpl. rewrite be_get_acc by done.
  by rewrite be_step_add.
Qed.

Lemma be_get_bound bs : Forall is_byte bs → 0 ≤ be_get bs < 256 ^ Z.of_nat (length bs).
Proof.
  induction 1 as [|b bs Hb Hbs IH]; [done|].
  rewrite be_get_cons by done. destruct Hb. cbn [length].
  replace (Z.of_nat (S (length bs))) with (Z.succ (Z.of_nat (length bs))) by lia.
  rewrite Z.pow_succ_r by lia. nia.
Qed.

(** Decoding what was encoded gives the value back, modulo the width. *)
Lemma be_get_put n v : be_get (be_put n v) = v `mod` 256 ^ Z.of_nat n.
Proof.
  induction n as [|n IH]; [by rewrite Z.mod_1_r|].
  cbn [be_put].
  assert (is_byte (Z.land (Z.shiftr v (8 * Z.of_nat n)) 255)) as Hb
    by (rewrite land_255; apply Z.mod_pos_bound; lia).
  rewrite be_get_cons, IH, length_be_put by auto using be_put_is_byte.
  rewrite land_255, Z.shiftr_div_pow2, Z.pow_mul_r by lia. change (2 ^ 8) with 256.
  replace (Z.of_nat (S n)) with (Z.succ (Z.of_nat n)) by lia.
  rewrite Z.pow_succ_r, (Z.mul_comm 256) by lia.
  rewrite Z.rem_mul_r by lia. lia.
Qed.

Lemma be_get_put_id n v : 0 ≤ v < 256 ^ Z.of_nat n → be_get (be_put n v) = v.
Proof. intros H. by rewrite be_get_put, Z.mod_small. Qed.

(** The encodings of two values are equal only if the values are. *)
Lemma be_put_inj n v v' :
  0 ≤ v < 256 ^ Z.of_nat n → 0 ≤ v' < 256 ^ Z.of_nat n → be_put n v = be_put n v' → v = v'.
Proof.
  intros Hv Hv' H. rewrite <- (be_get_put_id n v), <- (be_get_put_id n v') by done. by rewrite H.
Qed.

(** Encoding what was decoded gives the bytes back. *)
Lemma be_put_get bs : Forall is_byte bs → be_put (length bs) (be_get bs) = bs.
Proof.
  induction 1 as [|b bs Hb Hbs IH]; [done|]. cbn [length be_put].
  rewrite be_get_cons by done. pose proof (be_get_bound bs Hbs) as Hbd.
  assert (∀ n a, be_put n (a * 256 ^ Z.of_nat n + be_get bs) = be_put n (be_get bs)) as Hlow.
  { clear. induction n as [|n IH]; intros a; [done|]. cbn [be_put]. f_equal.
    - rewrite !land_255, !Z.shiftr_div_pow2, !Z.pow_mul_r by lia. change (2 ^ 8) with 256.
      replace (Z.of_nat (S n)) with (Z.succ (Z.of_nat n)) by lia.
      rewrite Z.pow_succ_r, Z.mul_assoc by lia. rewrite Z.div_add_l by lia.
      by rewrite Z.add_comm, Z.mod_add by lia.
    - replace (Z.of_nat (S n)) with (Z.succ (Z.of_nat n)) by lia.
      rewrite Z.pow_succ_r, Z.mul_assoc by lia. by rewrite IH. }
  f_equal; [|by rewrite Hlow].
  rewrite land_255, Z.shiftr_div_pow2, Z.pow_mul_r by lia. change (2 ^ 8) with 256.
  rewrite Z.div_add_l, Z.div_small, Z.add_0_r by lia. by apply Z.mod_small.
Qed.

Lemma length_put_at b off src :
  (off + length src ≤ length b)%nat → length (put_at b off src) = length b.
Proof. intros H. unfold put_at. rewrite !length_app, length_take, length_drop. lia. Qed.

Lemma length_subslice b lo hi :
  (lo ≤ hi ≤ length b)%nat → length (subslice b lo hi) = (hi - lo)%nat.
Proof. intros H. unfold subslice. rewrite length_take, length_drop. lia. Qed.

(** A string of 16 bytes, byte by byte. *)
Lemma length_16 (l : bytes) : length l = 16%nat → l = byte_at l <$> seq 0 16.
Proof. intros Hl. do 16 (destruct l as [|? l]; [done|]). by destruct l. Qed.

Lemma Forall_subslice (P : Z → Prop) b lo hi : Forall P b → Forall P (subslice b lo hi).
Proof. intros H. unfold subslice. by apply Forall_take, Forall_drop. Qed.

#[export] Hint Resolve be_put_is_byte Forall_subslice : retry.

(** ** Map iteration *)

Lemma shuffle_perm {A : Type} (n : nat) (choice : nat → nat) (l : list A) :
  shuffle n choice l ≡ₚ l.
Proof.
  revert l. induction n as [|n IH]; intros l; [done|]. cbn [shuffle].
  destruct (l !! _) as [x|] eqn:Hx; [|done].
  rewrite IH. symmetry. by apply delete_Permutation.
Qed.

Lemma pick_nth_elem {A : Type} (p : nat) (l : list A) (x : A) : pick_nth p l = Some x → x ∈ l.
Proof. apply list_elem_of_lookup_2. Qed.

Lemma pick_nth_some {A : Type} (p : nat) (l : list A) : l ≠ [] → is_Some (pick_nth p l).
Proof.
  intros Hl. apply lookup_lt_is_Some_2. apply Nat.mod_upper_bound.
  by destruct l.
Qed.

(** ** Counting list elements *)

Lemma filter_all {A : Type} (P : A → Prop) `{!∀ x, Decision (P x)} (l : list A) :
  Forall P l → filter P l = l.
Proof. induction 1; [done|]. by rewrite filter_cons_True, IHForall. Qed.

Lemma filter_none {A : Type} (P : A → Prop) `{!∀ x, Decision (P x)} (l : list A) :
  Forall (fun x => ¬ P x) l → filter P l = [].
Proof. induction 1; [done|]. by rewrite filter_cons_False. Qed.

Lemma filter_mono {A : Type} (P Q : A → Prop) `{!∀ x, Decision (P x)} `{!∀ x, Decision (Q x)}
    (l : list A) :
  Forall (fun x => P x → Q x) l → (length (filter P l) ≤ length (filter Q l))%nat.
Proof.
  induction 1 as [|x l Hx Hl IH]; [done|]. rewrite !filter_cons.
  repeat case_decide; simpl; try lia. tauto.
Qed.

Lemma filter_filter_sub {A : Type} (P Q : A → Prop) `{!∀ x, Decision (P x)}
    `{!∀ x, Decision (Q x)} (l : list A) :
  (∀ x, Q x → P x) → filter Q (filter P l) = filter Q l.
Proof.
  intros HQP. induction l as [|x l IH]; [done|].
  destruct (decide (P x)) as [HP|HP].
  - rewrite (filter_cons_True P) by done. rewrite !(filter_cons Q).
    case_decide; by rewrite IH.
  - rewrite (filter_cons_False P), (filter_cons_False Q) by auto. done.
Qed.

Lemma Forall_filter_keep {A : Type} (P Q : A → Prop) `{!∀ x, Decision (P x)} (l : list A) :
  Forall Q l → Forall Q (filter P l).
Proof.
  rewrite !Forall_forall. intros HQ x Hx. apply list_elem_of_filter in Hx as [_ Hx]. auto.
Qed.
