(* ===== verification/GoLib.v ===== *)
(** * The parts of Go's standard library the program uses

    Formatting verbs of [fmt] used to build map keys, [net.IP], and the
    [float64] operations of the rate-limit configuration.  Integers keep the
    width of the Go type they model. *)

From Corelib Require Import SpecFloat.
From S2P Require Import Prelude.

(** ** Formatting *)

Definition hex_digit (d : Z) : Z := if d <? 10 then 48 + d else 87 + d.

(** [%02x] of one byte. *)
Definition hex_byte (b : Z) : bytes := [hex_digit (b / 16); hex_digit (b `mod` 16)].

(** [%016x] of a uint64: always sixteen lower-case digits. *)
Definition hex16 (v : Z) : bytes := be_put 8 v ≫= hex_byte.

(** [%d] of an unsigned integer.  Twenty digits are enough for 64 bits. *)
Fixpoint dec_go (fuel : nat) (n : Z) (acc : bytes) : bytes :=
  match fuel with
  | O => acc
  | S f =>
      let acc' := 48 + n `mod` 10 :: acc in
      if n <? 10 then acc' else dec_go f (n / 10) acc'
  end.

Definition decimal (n : Z) : bytes := dec_go 20 n [].

(** The number a run of decimal digits denotes. *)
Definition dec_val (s : bytes) : Z := fold_left (fun acc d => acc * 10 + (d - 48)) s 0.

Definition colon : Z := 58.

(** ** net.IP *)

(** [ip.To4()]; [None] is nil. *)
Definition To4 (ip : bytes) : option bytes :=
  if bool_decide (length ip = 4%nat) then Some ip
  else if bool_decide (length ip = 16%nat) && bool_decide (take 10 ip = replicate 10 0)
          && (byte_at ip 10 =? 255) && (byte_at ip 11 =? 255)
  then Some (drop 12 ip)
  else None.

(** [ip.To16()]. *)
Definition To16 (ip : bytes) : option bytes :=
  if bool_decide (length ip = 4%nat) then Some (replicate 10 0 ++ [255; 255] ++ ip)
  else if bool_decide (length ip = 16%nat) then Some ip
  else None.

Definition IPv6unspecified : bytes := replicate 16 0.

(** [strconv.AppendUint(b, v, 16)] for a 16-bit group: no leading zeros. *)
Definition append_hex (v : Z) : bytes :=
  (if 4096 <=? v then [hex_digit (v / 4096)] else [])
  ++ (if 256 <=? v then [hex_digit ((v / 256) `mod` 16)] else [])
  ++ (if 16 <=? v then [hex_digit ((v / 16) `mod` 16)] else [])
  ++ [hex_digit (v `mod` 16)].

(** The [i]-th 16-bit group of an IPv6 address. *)
Definition v6u16 (ip : bytes) (i : nat) : Z := be_get (subslice ip (2 * i) (2 * i + 2)).

(** The end of the run of zero groups that starts at [i]. *)
Fixpoint zero_run (fuel : nat) (ip : bytes) (j : nat) : nat :=
  match fuel with
  | O => j
  | S f => if bool_decide (j < 8)%nat && (v6u16 ip j =? 0) then zero_run f ip (S j) else j
  end.

(** The longest run of at least two zero groups, the first one if several. *)
Fixpoint longest_zero (n i : nat) (ip : bytes) (best : nat * nat) : nat * nat :=
  match n with
  | O => best
  | S n' =>
      let j := zero_run 8 ip i in
      let l := (j - i)%nat in
      let best' := if bool_decide (2 ≤ l)%nat && bool_decide (best.2 - best.1 < l)%nat
                   then (i, j) else best in
      longest_zero n' (S i) ip best'
  end.

(** [netip.Addr.appendTo6]: the groups from [i] on. *)
Fixpoint append_groups (n i : nat) (ip : bytes) (zs ze : nat) : bytes :=
  match n with
  | O => []
  | S n' =>
      if bool_decide (8 ≤ i)%nat then []
      else if bool_decide (i = zs) then
        [colon; colon]
        ++ (if bool_decide (8 ≤ ze)%nat then []
            else append_hex (v6u16 ip ze) ++ append_groups n' (S ze) ip zs ze)
      else (if bool_decide (0 < i)%nat then [colon] else [])
           ++ append_hex (v6u16 ip i) ++ append_groups n' (S i) ip zs ze
  end.

Definition string6 (ip : bytes) : bytes :=
  let '(zs, ze) := longest_zero 8 0 ip (255, 255)%nat in append_groups 8 0 ip zs ze.

Definition string4 (p4 : bytes) : bytes :=
  decimal (byte_at p4 0) ++ [46] ++ decimal (byte_at p4 1) ++ [46]
  ++ decimal (byte_at p4 2) ++ [46] ++ decimal (byte_at p4 3).

(** [ip.String()]. *)
Definition IP_String (ip : bytes) : bytes :=
  if bool_decide (length ip = 0%nat) then str "<nil>"
  else if negb (bool_decide (length ip = 4%nat)) && negb (bool_decide (length ip = 16%nat))
  then [63] ++ (ip ≫= hex_byte)
  else match To4 ip with
       | Some p4 => string4 p4
       | None => string6 ip
       end.

(** ** float64 *)

Abbreviation float64 := spec_float.

(** The float64 nearest to an integer constant. *)
Definition float_of_Z (z : Z) : float64 := binary_normalize 53 1024 z 0 false.

Definition float_zero : float64 := S754_zero false.

(** [x == y], [x <= y]: false as soon as one of them is NaN. *)
Definition float_eqb (x y : float64) : bool := SFeqb x y.

Definition float_leb (x y : float64) : bool := SFleb x y.

(** The integer part of a finite float64. *)
Definition float_trunc (x : float64) : option Z :=
  match x with
  | S754_zero _ => Some 0
  | S754_finite s m e =>
      let v := if 0 <=? e then Zpos m * 2 ^ e else Zpos m / 2 ^ (- e) in
      Some (if s then - v else v)
  | _ => None
  end.

(** [int(x)] for a 64-bit int.  The language leaves the result to the
    implementation when the truncated value does not fit, or for NaN and
    infinities: [oob] is that choice. *)
Definition float_to_int (oob : float64 → Z) (x : float64) : Z :=
  match float_trunc x with
  | Some v => if (- 2 ^ 63 <=? v) && (v <? 2 ^ 63) then v else oob x
  | None => oob x
  end.

(** ** Durations *)

Definition Second : Z := 1000000000.

Definition Minute : Z := 60 * Second.

(** [d.Seconds()]: the whole seconds, plus the rest divided by 1e9. *)
Definition Seconds (d : Z) : float64 :=
  SFadd 53 1024 (float_of_Z (Z.quot d Second))
    (SFdiv 53 1024 (float_of_Z (Z.rem d Second)) (float_of_Z Second)).

(** [%.1f]: one decimal, correctly rounded, ties to even. *)
Definition format_f1 (x : float64) : bytes :=
  let digits (neg : bool) (tenths : Z) :=
    (if neg then [45] else []) ++ decimal (tenths / 10) ++ [46] ++ decimal (tenths `mod` 10) in
  match x with
  | S754_nan => str "NaN"
  | S754_infinity s => str (if s then "-Inf" else "+Inf")
  | S754_zero s => digits s 0
  | S754_finite s m e =>
      let v := Zpos m * 10 in
      digits s
        (if 0 <=? e then v * 2 ^ e
         else
           let q := v / 2 ^ (- e) in
           let r := v `mod` 2 ^ (- e) in
           let half := 2 ^ (- e - 1) in
           if half <? r then q + 1
           else if r =? half then (if Z.even q then q else q + 1)
           else q)
  end.

Example format_f1_check :
  (fun d => format_f1 (Seconds d)) <$> [0; 12345678901; 250000000; 350000000; 3600000000000]
  = [str "0.0"; str "12.3"; str "0.2"; str "0.3"; str "3600.0"].
Proof. vm_compute. reflexivity. Qed.

(** ** Lemmas on float64 *)

Lemma digits_shift p k :
  Zpos (digits2_pos (Pos.iter xO p k)) = Zpos (digits2_pos p) + Zpos k.
Proof.
  induction k as [|k IH] using Pos.peano_ind; [simpl; lia|].
  rewrite Pos.iter_succ. cbn [digits2_pos]. lia.
Qed.

Lemma pos_shift p k : Zpos (Pos.iter xO p k) = Zpos p * 2 ^ Zpos k.
Proof.
  induction k as [|k IH] using Pos.peano_ind; [simpl; lia|].
  rewrite Pos.iter_succ, Pos2Z.inj_xO, IH, Pos2Z.inj_succ, Z.pow_succ_r by lia. lia.
Qed.

Lemma digits_bound p n : Zpos p < 2 ^ n → Zpos (digits2_pos p) ≤ n.
Proof.
  assert (2 ^ (Zpos (digits2_pos p) - 1) ≤ Zpos p) as Hd.
  { assert (∀ q, 2 ^ (Zpos (Pos.succ (digits2_pos q)) - 1) = 2 * 2 ^ (Zpos (digits2_pos q) - 1)) as Hs.
    { intros q. rewrite Pos2Z.inj_succ.
      replace (Z.succ (Zpos (digits2_pos q)) - 1) with (Z.succ (Zpos (digits2_pos q) - 1)) by lia.
      apply Z.pow_succ_r. lia. }
    induction p as [p IH|p IH|]; cbn [digits2_pos]; [rewrite Hs; lia|rewrite Hs; lia|done]. }
  intros Hn. destruct (decide (0 ≤ n)) as [H0|H0].
  - enough (Zpos (digits2_pos p) - 1 < n) by lia. apply (Z.pow_lt_mono_r_iff 2); lia.
  - rewrite Z.pow_neg_r in Hn by lia. lia.
Qed.

(** A positive integer below 2^52 is a float64: it is normalised by shifting
    its leading bit to bit 52. *)
Lemma float_of_pos p :
  Zpos p < 2 ^ 52 →
  ∃ k, float_of_Z (Zpos p) = S754_finite false (Pos.iter xO p k) (Zneg k).
Proof.
  intros Hp. pose proof (digits_bound p 52 Hp) as Hd.
  assert (∃ k, Zneg k = Zpos (digits2_pos p) - 53) as [k Hk].
  { exists (Z.to_pos (53 - Zpos (digits2_pos p))). lia. }
  exists k. unfold float_of_Z, binary_normalize, binary_round.
  assert (∀ d, d = Zpos (digits2_pos p) → fexp 53 1024 d = Zneg k) as Hfexp.
  { intros d ->. unfold fexp, emin. lia. }
  rewrite Hfexp by lia. unfold shl_align. rewrite Z.sub_0_r.
  unfold binary_round_aux, shr_fexp.
  assert (Zdigits2 (Zpos (Pos.iter xO p k)) + Zneg k = Zpos (digits2_pos p)) as Hdig.
  { cbn [Zdigits2]. rewrite digits_shift. lia. }
  rewrite Hdig, Hfexp, Z.sub_diag by done. cbn [shr shr_record_of_loc shr_m loc_of_shr_record round_nearest_even].
  rewrite Hdig, Hfexp, Z.sub_diag by done. cbn [shr shr_record_of_loc shr_m].
  by rewrite (proj2 (Z.leb_le (Zneg k) (1024 - 53))) by lia.
Qed.

Lemma float_of_Z_exact z : 0 ≤ z < 2 ^ 52 → float_trunc (float_of_Z z) = Some z.
Proof.
  intros [H0 Hz]. destruct z as [|p|p]; [done| |lia].
  destruct (float_of_pos p Hz) as [k ->]. cbn [float_trunc]. rewrite pos_shift.
  change (- Zneg k) with (Zpos k). by rewrite Z.div_mul by lia.
Qed.

(** Every uint16 is a float64. *)
Lemma uint16_exact v : 0 ≤ v < 2 ^ 16 → float_trunc (float_of_Z v) = Some v.
Proof. intros Hv. apply float_of_Z_exact. lia. Qed.

Lemma Seconds_whole n : 0 ≤ n < 2 ^ 16 → Seconds (n * Second) = float_of_Z n.
Proof.
  intros Hn. unfold Seconds. rewrite Z.quot_mul, Z.rem_mul by done.
  change (SFdiv 53 1024 (float_of_Z 0) (float_of_Z Second)) with (S754_zero false).
  pose proof (uint16_exact n Hn) as Ht.
  destruct (float_of_Z n) as [[]|[]| |] eqn:Hf; try done.
  cbn in Ht. injection Ht as <-. by vm_compute in Hf.
Qed.

(** A whole number of seconds is printed with the decimal 0. *)
Lemma format_whole n : 0 ≤ n < 2 ^ 16 → format_f1 (Seconds (n * Second)) = decimal n ++ str ".0".
Proof.
  intros Hn. rewrite Seconds_whole by done. destruct (decide (n = 0)) as [->|Hnz]; [done|].
  destruct n as [|p|p]; try lia. destruct (float_of_pos p) as [k ->]; [lia|].
  unfold format_f1. change (0 <=? Zneg k) with false. cbn iota.
  rewrite pos_shift. change (- Zneg k) with (Zpos k).
  replace (Zpos p * 2 ^ Zpos k * 10) with (Zpos p * 10 * 2 ^ Zpos k) by lia.
  pose proof (Z.pow_pos_nonneg 2 (Zpos k) ltac:(lia) ltac:(lia)).
  pose proof (Z.pow_pos_nonneg 2 (Zpos k - 1) ltac:(lia) ltac:(lia)).
  rewrite Z.div_mul, Z.mod_mul by lia. rewrite (proj2 (Z.ltb_ge _ 0)), (proj2 (Z.eqb_neq 0 _)) by lia.
  rewrite Z.div_mul, Z.mod_mul by lia. done.
Qed.

(** ** Lemmas on formatting *)

Lemma hex_digit_inj d d' : 0 ≤ d < 16 → 0 ≤ d' < 16 → hex_digit d = hex_digit d' → d = d'.
Proof. unfold hex_digit. intros. repeat split_if; breflect; lia. Qed.

Lemma hex_byte_inj b b' : is_byte b → is_byte b' → hex_byte b = hex_byte b' → b = b'.
Proof.
  intros [??] [??] Heq. injection Heq as Hhi Hlo.
  apply hex_digit_inj in Hhi; [|split; [apply Z.div_pos; lia|apply Z.div_lt_upper_bound; lia]..].
  apply hex_digit_inj in Hlo; [|apply Z.mod_pos_bound; lia..].
  rewrite (Z.div_mod b 16), (Z.div_mod b' 16) by lia. congruence.
Qed.

Lemma hex_bytes_inj l l' :
  Forall is_byte l → Forall is_byte l' → l ≫= hex_byte = l' ≫= hex_byte → l = l'.
Proof.
  intros Hl. revert l'. induction Hl as [|b l Hb Hl IH]; intros [|b' l'] Hl' H; try done.
  apply Forall_cons in Hl' as [Hb' Hl']. cbn in H. injection H as Hhi Hlo Hrest.
  f_equal; [|by apply IH]. apply hex_byte_inj; auto. unfold hex_byte. congruence.
Qed.

Lemma length_hex16 v : length (hex16 v) = 16%nat.
Proof. reflexivity. Qed.

Lemma hex16_inj v v' : 0 ≤ v < 2 ^ 64 → 0 ≤ v' < 2 ^ 64 → hex16 v = hex16 v' → v = v'.
Proof.
  intros Hv Hv' H. apply hex_bytes_inj in H; [|apply be_put_is_byte..].
  by apply (be_put_inj 8).
Qed.

Lemma dec_go_app fuel n acc : dec_go fuel n acc = dec_go fuel n [] ++ acc.
Proof.
  revert n acc. induction fuel as [|f IH]; intros n acc; [done|]. cbn [dec_go].
  destruct (n <? 10); [done|]. rewrite (IH _ (_ :: acc)), (IH _ [_]).
  by rewrite <- (assoc (++)).
Qed.

Lemma dec_val_snoc s d : dec_val (s ++ [d]) = dec_val s * 10 + (d - 48).
Proof. unfold dec_val. by rewrite fold_left_app. Qed.

Lemma dec_go_val fuel n :
  0 ≤ n < 10 ^ Z.of_nat fuel → dec_val (dec_go fuel n []) = n.
Proof.
  revert n. induction fuel as [|f IH]; intros n Hn; [simpl in *; cbv; lia|].
  cbn [dec_go]. destruct (n <? 10) eqn:E; breflect.
  - cbn. rewrite Z.mod_small by lia. lia.
  - rewrite dec_go_app, dec_val_snoc, IH.
    + pose proof (Z.div_mod n 10). lia.
    + replace (Z.of_nat (S f)) with (Z.succ (Z.of_nat f)) in Hn by lia.
      rewrite Z.pow_succ_r in Hn by lia.
      split; [apply Z.div_pos; lia|apply Z.div_lt_upper_bound; lia].
Qed.

Lemma decimal_inj n n' :
  0 ≤ n < 10 ^ 20 → 0 ≤ n' < 10 ^ 20 → decimal n = decimal n' → n = n'.
Proof.
  intros Hn Hn' H. rewrite <- (dec_go_val 20 n Hn), <- (dec_go_val 20 n' Hn').
  unfold decimal in H. by rewrite H.
Qed.

Lemma decimal_digits fuel n acc :
  Forall (fun d => 48 ≤ d < 58) acc → Forall (fun d => 48 ≤ d < 58) (dec_go fuel n acc).
Proof.
  revert n acc. induction fuel as [|f IH]; intros n acc Hacc; [done|]. cbn [dec_go].
  assert (Forall (fun d => 48 ≤ d < 58) (48 + n `mod` 10 :: acc)).
  { constructor; [|done]. pose proof (Z.mod_pos_bound n 10). lia. }
  destruct (n <? 10); auto.
Qed.

Lemma decimal_no_colon n : colon ∉ decimal n.
Proof.
  intros Hin. pose proof (decimal_digits 20 n [] (Forall_nil_2 _)) as Hd.
  rewrite Forall_forall in Hd. apply Hd in Hin. unfold colon in *. lia.
Qed.

(** A separator that occurs in neither suffix splits uniquely. *)
Lemma app_sep_inj (sep : Z) (a a' b b' : bytes) :
  sep ∉ b → sep ∉ b' → a ++ [sep] ++ b = a' ++ [sep] ++ b' → a = a' ∧ b = b'.
Proof.
  intros Hb Hb' H.
  assert (∀ x x' y y' : bytes, sep ∉ x → sep ∉ x' → x ++ sep :: y = x' ++ sep :: y' → x = x' ∧ y = y')
    as Hsplit.
  { clear. induction x as [|c x IH]; intros [|c' x'] y y' Hx Hx' E; simpl in *; simplify_eq; auto.
    - by rewrite not_elem_of_cons in Hx'; destruct Hx'.
    - by rewrite not_elem_of_cons in Hx; destruct Hx.
    - rewrite not_elem_of_cons in Hx, Hx'. destruct Hx, Hx'.
      destruct (IH x' y y') as [-> ->]; auto. }
  apply (f_equal reverse) in H. rewrite !reverse_app, <- !(assoc (++)) in H. cbn in H.
  apply Hsplit in H as [H1 H2]; [|by rewrite elem_of_reverse..].
  split; by apply (inj reverse).
Qed.

Example IP_String_loopback : IP_String (replicate 15 0 ++ [1]) = str "::1".
Proof. reflexivity. Qed.

Example IP_String_fd20 : IP_String ([253; 32] ++ replicate 13 0 ++ [36]) = str "fd20::24".
Proof. reflexivity. Qed.

Example IP_String_mapped : IP_String (replicate 10 0 ++ [255; 255; 10; 0; 0; 7]) = str "10.0.0.7".
Proof. reflexivity. Qed.

Example IP_String_slaac :
  IP_String [253; 32; 0; 0; 0; 0; 0; 0; 2; 22; 62; 255; 254; 76; 138; 1]
  = str "fd20::216:3eff:fe4c:8a01".
Proof. reflexivity. Qed.
