(* ===== verification/Strconv.v ===== *)
(** * The parts of Go's strings and strconv packages the configuration uses *)

From S2P Require Import Prelude GoLib.

(** ** strings *)

(** [strings.Split(s, ",")]: never empty. *)
Fixpoint Split (sep : Z) (s : bytes) : list bytes :=
  match s with
  | [] => [[]]
  | c :: s' =>
      if c =? sep then [] :: Split sep s'
      else match Split sep s' with
           | [] => [[c]]
           | w :: ws => (c :: w) :: ws
           end
  end.

(** The characters [unicode.IsSpace] accepts, as UTF-8 byte strings. *)
Definition spaces : list bytes :=
  [[9]; [10]; [11]; [12]; [13]; [32]; [0xC2; 0x85]; [0xC2; 0xA0]; [0xE1; 0x9A; 0x80];
   [0xE2; 0x80; 0x80]; [0xE2; 0x80; 0x81]; [0xE2; 0x80; 0x82]; [0xE2; 0x80; 0x83];
   [0xE2; 0x80; 0x84]; [0xE2; 0x80; 0x85]; [0xE2; 0x80; 0x86]; [0xE2; 0x80; 0x87];
   [0xE2; 0x80; 0x88]; [0xE2; 0x80; 0x89]; [0xE2; 0x80; 0x8A]; [0xE2; 0x80; 0xA8];
   [0xE2; 0x80; 0xA9]; [0xE2; 0x80; 0xAF]; [0xE2; 0x81; 0x9F]; [0xE3; 0x80; 0x80]].

(** The length of the space a string begins with, if it begins with one. *)
Definition leading_space (s : bytes) : option nat :=
  length <$> head (filter (fun sp => take (length sp) s = sp) spaces).

Fixpoint trim_left (fuel : nat) (s : bytes) : bytes :=
  match fuel with
  | O => s
  | S f => match leading_space s with Some n => trim_left f (drop n s) | None => s end
  end.

(** The length of the space a string ends with. *)
Definition trailing_space (s : bytes) : option nat :=
  length <$> head (filter (fun sp => (length sp ≤ length s)%nat ∧ drop (length s - length sp) s = sp) spaces).

Fixpoint trim_right (fuel : nat) (s : bytes) : bytes :=
  match fuel with
  | O => s
  | S f => match trailing_space s with
           | Some n => trim_right f (take (length s - n) s)
           | None => s
           end
  end.

(** [strings.TrimSpace]; a string has at most as many spaces as bytes. *)
Definition TrimSpace (s : bytes) : bytes :=
  let s' := trim_left (length s) s in trim_right (length s') s'.

(** ** strconv *)

Inductive num_error := ErrSyntax | ErrRange.

(** The value of a digit: [0-9], [a-z], [A-Z]. *)
Definition digit_val (c : Z) : option Z :=
  if (48 <=? c) && (c <=? 57) then Some (c - 48)
  else if (97 <=? c) && (c <=? 122) then Some (c - 97 + 10)
  else if (65 <=? c) && (c <=? 90) then Some (c - 65 + 10)
  else None.

(** The loop of [ParseUint] in a fixed base. *)
Fixpoint parse_digits (base maxVal n : Z) (s : bytes) : result Z num_error :=
  match s with
  | [] => Ok n
  | c :: s' =>
      match digit_val c with
      | None => Err ErrSyntax
      | Some d =>
          if base <=? d then Err ErrSyntax
          else if maxVal <? n * base + d then Err ErrRange
          else parse_digits base maxVal (n * base + d) s'
      end
  end.

(** [ParseUint(s, base, bitSize)] with a base of 10 or 16. *)
Definition ParseUint (s : bytes) (base bitSize : Z) : result Z num_error :=
  match s with
  | [] => Err ErrSyntax
  | _ => parse_digits base (2 ^ bitSize - 1) 0 s
  end.

(** [Atoi]: a 64-bit signed decimal number. *)
Definition Atoi (s : bytes) : result Z num_error :=
  let '(neg, digits) :=
    match s with
    | 45 :: s' => (true, s')
    | 43 :: s' => (false, s')
    | _ => (false, s)
    end in
  match ParseUint digits 10 64 with
  | Err e => Err e
  | Ok un =>
      if negb neg && (2 ^ 63 <=? un) then Err ErrRange
      else if neg && (2 ^ 63 <? un) then Err ErrRange
      else Ok (if neg then - un else un)
  end.

(** [ParseBool]; [None] is a syntax error. *)
Definition ParseBool (s : bytes) : option bool :=
  if bool_decide (s ∈ [str "1"; str "t"; str "T"; str "true"; str "TRUE"; str "True"]) then Some true
  else if bool_decide (s ∈ [str "0"; str "f"; str "F"; str "false"; str "FALSE"; str "False"])
  then Some false
  else None.

(** ** Lemmas *)

(** The number a digit string denotes. *)
Definition digits_val (base : Z) (s : bytes) (acc : Z) : Z :=
  fold_left (fun n c => n * base + default 0 (digit_val c)) s acc.

Lemma digits_val_le base s acc :
  1 ≤ base → 0 ≤ acc → Forall (fun c => 0 ≤ default 0 (digit_val c)) s → acc ≤ digits_val base s acc.
Proof.
  intros Hb Hacc Hs. revert acc Hacc. induction Hs as [|c s Hc Hs IH]; intros acc Hacc; [done|].
  cbn. etrans; [|apply IH]; nia.
Qed.

Lemma digit_val_range c d : digit_val c = Some d → 0 ≤ d < 36.
Proof. unfold digit_val. repeat split_if; intros; simplify_eq; breflect; lia. Qed.

Lemma digit_val_default c : 0 ≤ default 0 (digit_val c).
Proof.
  destruct (digit_val c) as [d|] eqn:E; cbn; [|lia]. by apply digit_val_range in E as [? _].
Qed.

(** [ParseUint] accepts exactly the digit strings of the base whose value
    fits, and returns that value. *)
Lemma parse_digits_spec base maxVal n s v :
  1 ≤ base → 0 ≤ n ≤ maxVal →
  (parse_digits base maxVal n s = Ok v ↔
   Forall (fun c => ∃ d, digit_val c = Some d ∧ d < base) s ∧
   digits_val base s n = v ∧ v ≤ maxVal).
Proof.
  intros Hb. revert n. induction s as [|c s IH]; intros n Hn; cbn [parse_digits].
  - cbn. split; [intros [= <-]; split_and!; [constructor|done|lia]|by intros (_ & -> & _)].
  - destruct (digit_val c) as [d|] eqn:Hd.
    2:{ split; [done|]. intros (Hf & _). apply Forall_cons in Hf as [(d & Hd' & _) _]. congruence. }
    pose proof (digit_val_range c d Hd) as Hr.
    assert (digits_val base (c :: s) n = digits_val base s (n * base + d)) as Hv
      by (cbn; by rewrite Hd). rewrite Hv.
    destruct (base <=? d) eqn:Eb; breflect.
    { split; [done|]. intros (Hf & _). apply Forall_cons in Hf as [(d' & Hd' & Hlt) _].
      simplify_eq. lia. }
    destruct (maxVal <? n * base + d) eqn:Em; breflect.
    { split; [done|]. intros (_ & Hval & Hle).
      pose proof (digits_val_le base s (n * base + d) Hb) as Hmono.
      specialize (Hmono ltac:(nia) ltac:(apply Forall_forall; intros; apply digit_val_default)). lia. }
    rewrite IH by nia. rewrite Forall_cons. naive_solver.
Qed.

Lemma ParseUint_spec s base bits v :
  1 ≤ base → 0 ≤ bits →
  (ParseUint s base bits = Ok v ↔
   s ≠ [] ∧ Forall (fun c => ∃ d, digit_val c = Some d ∧ d < base) s ∧
   digits_val base s 0 = v ∧ v < 2 ^ bits).
Proof.
  intros Hb Hbits. pose proof (Z.pow_pos_nonneg 2 bits ltac:(lia) Hbits).
  destruct s as [|c s]; [split; [done|]; by intros (? & _)|].
  unfold ParseUint. rewrite parse_digits_spec by lia.
  split; intros H'; destruct_and! H'; split_and!; try done; lia.
Qed.

(** ** Strings without spaces *)

(** A printable ASCII character other than the space. *)
Definition visible (c : Z) : Prop := 33 ≤ c ≤ 126.

Lemma no_space_starts_visible c : visible c → Forall (fun sp => head sp ≠ Some c) spaces.
Proof. unfold visible. intros Hc. repeat constructor; cbn; intros [= <-]; lia. Qed.

Lemma no_space_ends_visible c : visible c → Forall (fun sp => last sp ≠ Some c) spaces.
Proof. unfold visible. intros Hc. repeat constructor; cbn; intros [= <-]; lia. Qed.

Lemma spaces_nonempty : Forall (fun sp : bytes => sp ≠ []) spaces.
Proof. by repeat constructor. Qed.

Lemma leading_space_visible c s : visible c → leading_space (c :: s) = None.
Proof.
  intros Hc. unfold leading_space. rewrite filter_none; [done|].
  eapply (Forall_impl (fun sp => head sp ≠ Some c ∧ sp ≠ [])).
  - apply Forall_and. split; [by apply no_space_starts_visible|apply spaces_nonempty].
  - intros [|x sp] [Hx Hne] Ht; cbn in *; [done|]. simplify_eq.
Qed.

Lemma trailing_space_visible c s : visible c → trailing_space (s ++ [c]) = None.
Proof.
  intros Hc. unfold trailing_space. rewrite filter_none; [done|].
  eapply (Forall_impl (fun sp => last sp ≠ Some c ∧ sp ≠ [])).
  - apply Forall_and. split; [by apply no_space_ends_visible|apply spaces_nonempty].
  - intros sp [Hx Hne] [Hle Ht]. apply Hx. rewrite <- Ht.
    assert (0 < length sp)%nat by (destruct sp; [done|simpl; lia]).
    rewrite drop_app_le by (rewrite length_app in *; simpl in *; lia). apply last_snoc.
Qed.

(** A nonempty string of visible characters is already trimmed. *)
Lemma TrimSpace_visible s : Forall visible s → TrimSpace s = s.
Proof.
  intros Hs. unfold TrimSpace.
  assert (∀ n, trim_left n s = s) as Hl.
  { intros [|n]; [done|]. cbn [trim_left]. destruct s as [|c s]; [done|].
    apply Forall_cons in Hs as [Hc _]. by rewrite leading_space_visible. }
  rewrite Hl. destruct (length s) eqn:E; [done|]. cbn [trim_right].
  destruct s as [|c s _] using rev_ind; [done|].
  apply Forall_app in Hs as [_ Hc]. apply Forall_cons in Hc as [Hc _].
  by rewrite trailing_space_visible.
Qed.

(** ** Decimal and hexadecimal digits *)

Definition dec_digit (c : Z) : Prop := 48 ≤ c < 58.

Lemma dec_digit_val c : dec_digit c → digit_val c = Some (c - 48).
Proof.
  intros Hc. unfold digit_val, dec_digit in *. rewrite (proj2 (Z.leb_le 48 c)), (proj2 (Z.leb_le c 57)) by lia.
  done.
Qed.

Lemma hex_digit_val d : 0 ≤ d < 16 → digit_val (hex_digit d) = Some d ∧ visible (hex_digit d).
Proof.
  intros Hd. unfold digit_val, hex_digit, visible.
  repeat split_if; breflect; split; try lia; f_equal; lia.
Qed.

Lemma decimal_dec_digits n : Forall dec_digit (decimal n).
Proof. apply decimal_digits. constructor. Qed.

Lemma decimal_nonempty n : decimal n ≠ [].
Proof.
  assert (∀ f acc, dec_go (S f) n acc ≠ []) as H; [|exact (H 19%nat [])].
  intros f acc. cbn [dec_go]. destruct (n <? 10); [done|].
  rewrite dec_go_app. intros H. by apply app_eq_nil in H as [_ ?].
Qed.

Lemma digits_val_decimal s acc :
  Forall dec_digit s → digits_val 10 s acc = fold_left (fun a d => a * 10 + (d - 48)) s acc.
Proof.
  intros Hs. revert acc. induction Hs as [|c s Hc Hs IH]; intros acc; [done|]. cbn.
  rewrite (dec_digit_val c Hc). apply IH.
Qed.

Lemma decimal_val n : 0 ≤ n < 10 ^ 20 → digits_val 10 (decimal n) 0 = n.
Proof.
  intros Hn. rewrite digits_val_decimal by apply decimal_dec_digits. by apply (dec_go_val 20).
Qed.

(** A digit string read in base 16 is at least what it is in base 10. *)
Lemma digits_val_base_le s a b :
  0 ≤ a ≤ b → digits_val 10 s a ≤ digits_val 16 s b.
Proof.
  revert a b. induction s as [|c s IH]; intros a b Hab; cbn; [lia|].
  apply IH. pose proof (digit_val_default c). lia.
Qed.

Lemma hex_bytes_val l acc :
  Forall is_byte l → digits_val 16 (l ≫= hex_byte) acc = acc * 256 ^ Z.of_nat (length l) + be_get l.
Proof.
  intros Hl. revert acc. induction Hl as [|b l Hb Hl IH]; intros acc.
  { cbn. lia. }
  rewrite be_get_cons by done. cbn [mbind list_bind]. unfold digits_val. rewrite fold_left_app.
  change (fold_left _ (hex_byte b) acc) with (digits_val 16 (hex_byte b) acc).
  fold (digits_val 16 (l ≫= hex_byte) (digits_val 16 (hex_byte b) acc)). rewrite IH.
  destruct Hb. unfold digits_val. cbn [fold_left hex_byte].
  rewrite (proj1 (hex_digit_val (b / 16) ltac:(split; [apply Z.div_pos; lia|apply Z.div_lt_upper_bound; lia]))).
  rewrite (proj1 (hex_digit_val (b `mod` 16) ltac:(apply Z.mod_pos_bound; lia))). cbn [default from_option id].
  cbn [length]. rewrite Nat2Z.inj_succ, Z.pow_succ_r by lia.
  pose proof (Z.div_mod b 16 ltac:(lia)) as Hdm.
  replace ((acc * 16 + b / 16) * 16 + b `mod` 16) with (acc * 256 + b) by lia. lia.
Qed.

Lemma hex_bytes_digits l :
  Forall is_byte l →
  Forall (fun c => visible c ∧ ∃ d, digit_val c = Some d ∧ d < 16) (l ≫= hex_byte).
Proof.
  induction 1 as [|b l [H0 H1] Hl IH]; [constructor|]. cbn [mbind list_bind]. apply Forall_app. split; [|done].
  assert (0 ≤ b / 16 < 16) as Hq by (split; [apply Z.div_pos; lia|apply Z.div_lt_upper_bound; lia]).
  assert (0 ≤ b `mod` 16 < 16) as Hr by (apply Z.mod_pos_bound; lia).
  destruct (hex_digit_val _ Hq), (hex_digit_val _ Hr).
  unfold hex_byte. rewrite !Forall_cons. split_and!; [done|eauto with lia|done|eauto with lia|constructor].
Qed.

(** ** Ranges *)

Definition is_int64 (z : Z) : Prop := - 2 ^ 63 ≤ z < 2 ^ 63.
Definition is_uint64 (z : Z) : Prop := 0 ≤ z < 2 ^ 64.

Lemma parse_digits_range base maxVal n s v :
  1 ≤ base → 0 ≤ n ≤ maxVal → parse_digits base maxVal n s = Ok v → 0 ≤ v ≤ maxVal.
Proof.
  intros Hb. revert n. induction s as [|c s IH]; intros n Hn; cbn [parse_digits]; [by intros [= <-]|].
  destruct (digit_val c) as [d|] eqn:Hd; [|done]. apply digit_val_range in Hd.
  split_if; [done|]. split_if; [done|]. breflect. apply IH. nia.
Qed.

(** The sign of a parsed number. *)
Lemma signed_int64 (neg : bool) un z :
  0 ≤ un → (if negb neg && (2 ^ 63 <=? un) then Err ErrRange
            else if neg && (2 ^ 63 <? un) then Err ErrRange
            else Ok (if neg then - un else un)) = Ok z → is_int64 z.
Proof.
  unfold is_int64. intros Hu. destruct neg; cbn [negb andb]; split_if; try done; breflect; intros [= <-]; lia.
Qed.

Lemma Atoi_int64 s z : Atoi s = Ok z → is_int64 z.
Proof.
  unfold Atoi. destruct (match s with 45 :: _ => _ | _ => _ end) as [neg digits].
  destruct (ParseUint digits 10 64) as [un|] eqn:Hu; [|done]. apply signed_int64.
  destruct digits as [|c digits]; [done|]. unfold ParseUint in Hu. apply parse_digits_range in Hu; lia.
Qed.
