(* ===== verification/NetIP.v ===== *)
(** * net.ParseIP

    The address parser of net and net/netip, as the configuration and the
    choice of the NACK address use it, and its round trip with [IP_String]:
    the text of an address determines the address. *)

From S2P Require Import Prelude GoLib Strconv.

Definition dot : Z := 46.
Definition percent : Z := 37.

(** ** Dotted decimal *)

(** [netip.parseIPv4Fields]: [val] and [digLen] are the octet being read,
    [fields] the octets read, [prev] the byte before. *)
Fixpoint parseIPv4Fields (s : bytes) (prev : option Z) (val : Z) (digLen : nat) (fields : bytes)
    : option bytes :=
  match s with
  | [] => if bool_decide (length fields < 3)%nat then None else Some (fields ++ [val])
  | c :: s' =>
      if (48 <=? c) && (c <=? 57) then
        if bool_decide (digLen = 1%nat) && (val =? 0) then None
        else
          let val := val * 10 + c - 48 in
          if 255 <? val then None else parseIPv4Fields s' (Some c) val (S digLen) fields
      else if c =? dot then
        if bool_decide (prev = None) || bool_decide (s' = []) || bool_decide (prev = Some dot) then None
        else if bool_decide (length fields = 3%nat) then None
        else parseIPv4Fields s' (Some c) 0 0 (fields ++ [val])
      else None
  end.

Definition parse4 (s : bytes) : option bytes := parseIPv4Fields s None 0 0 [].

(** ** IPv6 *)

Definition hex_val (c : Z) : option Z :=
  if (48 <=? c) && (c <=? 57) then Some (c - 48)
  else if (97 <=? c) && (c <=? 102) then Some (c - 97 + 10)
  else if (65 <=? c) && (c <=? 70) then Some (c - 65 + 10)
  else None.

(** The hexadecimal number a group starts with: its number of digits, its
    value and what follows. *)
Fixpoint hex_group (s : bytes) (off : nat) (acc : Z) : option (nat * Z * bytes) :=
  match s with
  | [] => Some (off, acc, [])
  | c :: s' =>
      match hex_val c with
      | None => Some (off, acc, s)
      | Some d =>
          let acc := acc * 16 + d in
          if bool_decide (3 < off)%nat then None
          else if 65535 <? acc then None
          else hex_group s' (S off) acc
      end
  end.

(** The loop of [netip.parseIPv6]: [ip] holds the bytes read, [ellipsis] the
    position of "::".  Each round reads two bytes or ends the loop, so that
    [fuel] is the number of groups still wanted. *)
Fixpoint groups_loop (fuel : nat) (s ip : bytes) (ellipsis : option nat)
    : option (bytes * bytes * option nat) :=
  match fuel with
  | O => Some (s, ip, ellipsis)
  | S f =>
      match hex_group s 0 0 with
      | None => None
      | Some (off, acc, rest) =>
          if bool_decide (off = 0%nat) then None
          else if bool_decide (head rest = Some dot) then
            if bool_decide (ellipsis = None) && negb (bool_decide (length ip = 12%nat)) then None
            else if bool_decide (16 < length ip + 4)%nat then None
            else match parse4 s with
                 | None => None
                 | Some p4 => Some ([], ip ++ p4, ellipsis)
                 end
          else
            let ip := ip ++ [acc / 256; acc `mod` 256] in
            match rest with
            | [] => Some ([], ip, ellipsis)
            | [c] => None
            | c :: (c2 :: s2) as s1 =>
                if negb (c =? colon) then None
                else if c2 =? colon then
                  if bool_decide (is_Some ellipsis) then None
                  else match s2 with
                       | [] => Some ([], ip, Some (length ip))
                       | _ => groups_loop f s2 ip (Some (length ip))
                       end
                else groups_loop f (c2 :: s2) ip ellipsis
            end
      end
  end.

(** The end of [netip.parseIPv6]: expand the ellipsis. *)
Definition expand (s ip : bytes) (ellipsis : option nat) : option bytes :=
  if bool_decide (s ≠ []) then None
  else if bool_decide (length ip < 16)%nat then
    match ellipsis with
    | None => None
    | Some e => Some (take e ip ++ replicate (16 - length ip) 0 ++ drop e ip)
    end
  else match ellipsis with None => Some ip | Some _ => None end.

(** [netip.parseIPv6] of a string without zone. *)
Definition parse6 (s : bytes) : option bytes :=
  let leading := bool_decide (take 2 s = [colon; colon]) in
  let s := if leading then drop 2 s else s in
  if leading && bool_decide (s = []) then Some IPv6unspecified
  else
    match groups_loop 8 s [] (if leading then Some 0%nat else None) with
    | None => None
    | Some (rest, ip, ellipsis) => expand rest ip ellipsis
    end.

(** The byte that decides which kind of address a string holds. *)
Definition first_special (s : bytes) : option Z :=
  head (filter (fun c => c = dot ∨ c = colon ∨ c = percent) s).

(** [net.ParseIP]: 16 bytes, or [None] for nil.  A zone makes the address
    invalid, whether it is empty or not. *)
Definition ParseIP (s : bytes) : option bytes :=
  match first_special s with
  | None => None
  | Some c =>
      if c =? dot then parse4 s ≫= To16
      else if c =? colon then if bool_decide (percent ∈ s) then None else parse6 s
      else None
  end.

Example ParseIP_v6 : ParseIP (str "fd20::24") = Some ([253; 32] ++ replicate 13 0 ++ [36]).
Proof. reflexivity. Qed.

Example ParseIP_mapped : ParseIP (str "::ffff:10.0.0.7") = ParseIP (str "10.0.0.7").
Proof. reflexivity. Qed.

Example ParseIP_refused :
  ParseIP <$> [str "1.2.3"; str "01.2.3.4"; str "1.2.3.256"; str "fe80::1%eth0"; str "1:2:3:4:5:6:7";
    str "1::2::3"; str "1:2:3:4:5:6:7::8"; str "12345::"; str "1:"; str ":1"; str "::1:"; []]
  = replicate 12 None.
Proof. reflexivity. Qed.

Example ParseIP_end : ParseIP (str "1:2:3:4:5:6:7::") = Some [0;1;0;2;0;3;0;4;0;5;0;6;0;7;0;0].
Proof. reflexivity. Qed.

(** ** Reading back dotted decimal *)

Lemma decimal_small b :
  is_byte b →
  decimal b = (if 100 <=? b then [48 + b / 100] else [])
              ++ (if 10 <=? b then [48 + (b / 10) `mod` 10] else []) ++ [48 + b `mod` 10].
Proof.
  intros [H0 H1]. unfold decimal.
  assert (b / 100 = b / 10 / 10) as Hd by (by rewrite Z.div_div).
  pose proof (Z.div_mod b 10 ltac:(lia)). pose proof (Z.div_mod (b / 10) 10 ltac:(lia)).
  pose proof (Z.mod_pos_bound b 10 ltac:(lia)). pose proof (Z.mod_pos_bound (b / 10) 10 ltac:(lia)).
  cbn [dec_go]. rewrite Hd.
  destruct (b <? 10) eqn:E1, (10 <=? b) eqn:E2, (100 <=? b) eqn:E3; breflect; try lia; [done|..];
    destruct (b / 10 <? 10) eqn:E4; breflect; try lia; cbn [app].
  2:{ by rewrite (Z.mod_small (b / 10)) by lia. }
  destruct (b / 10 / 10 <? 10) eqn:E5; breflect; [|lia]. by rewrite (Z.mod_small (b / 10 / 10)) by lia.
Qed.

Lemma fields_digit d s prev val digLen fields :
  0 ≤ d < 10 → ¬ (digLen = 1%nat ∧ val = 0) → val * 10 + d ≤ 255 →
  parseIPv4Fields (48 + d :: s) prev val digLen fields =
  parseIPv4Fields s (Some (48 + d)) (val * 10 + d) (S digLen) fields.
Proof.
  intros Hd Hz Hv. cbn [parseIPv4Fields].
  rewrite (proj2 (Z.leb_le 48 _)), (proj2 (Z.leb_le _ 57)) by lia. cbn [andb].
  replace (bool_decide (digLen = 1%nat) && (val =? 0)) with false.
  2:{ symmetry. apply andb_false_iff. rewrite bool_decide_eq_false, Z.eqb_neq. lia. }
  rewrite (proj2 (Z.ltb_ge 255 _)) by lia. f_equal; lia.
Qed.

(** An octet is read back, and the byte before what follows is a digit. *)
Lemma fields_octet b s prev fields :
  is_byte b → ∃ n d, 0 ≤ d < 10 ∧
  parseIPv4Fields (decimal b ++ s) prev 0 0 fields = parseIPv4Fields s (Some (48 + d)) b n fields.
Proof.
  intros Hb. rewrite decimal_small by done. destruct Hb as [H0 H1].
  pose proof (Z.div_mod b 10 ltac:(lia)). pose proof (Z.div_mod (b / 10) 10 ltac:(lia)).
  pose proof (Z.mod_pos_bound b 10 ltac:(lia)). pose proof (Z.mod_pos_bound (b / 10) 10 ltac:(lia)).
  assert (b / 100 = b / 10 / 10) as Hd by (by rewrite Z.div_div).
  destruct (100 <=? b) eqn:E3, (10 <=? b) eqn:E2; breflect; try lia; cbn [app];
    repeat (rewrite fields_digit by lia);
    (eexists _, (b `mod` 10); split; [lia|f_equal; lia]).
Qed.

Lemma fields_dot d s val n fields :
  0 ≤ d < 10 → s ≠ [] → (length fields < 3)%nat →
  parseIPv4Fields (dot :: s) (Some (48 + d)) val n fields =
  parseIPv4Fields s (Some dot) 0 0 (fields ++ [val]).
Proof.
  intros Hd Hs Hf. cbn [parseIPv4Fields]. change ((48 <=? dot) && (dot <=? 57)) with false. cbn iota.
  rewrite Z.eqb_refl, !bool_decide_eq_false_2; [done|lia|unfold dot; intros [= ?]; lia|done..].
Qed.

Lemma parse4_string4 p4 :
  Forall is_byte p4 → length p4 = 4%nat → parse4 (string4 p4) = Some p4.
Proof.
  intros Hb Hl. destruct p4 as [|a [|b [|c [|d [|]]]]]; try done.
  rewrite !Forall_cons in Hb. destruct Hb as (Ha & Hb & Hc & Hd & _).
  unfold parse4, string4. cbn [byte_at lookup list_lookup default from_option id].
  assert (∀ x s, decimal x ++ s ≠ []) as Hne.
  { intros x s Hx. apply app_eq_nil in Hx as [Hx _]. by apply (decimal_nonempty x). }
  change [46] with [dot]. cbn [app].
  destruct (fields_octet a (dot :: decimal b ++ dot :: decimal c ++ dot :: decimal d) None [] Ha) as (n & x & Hx & ->).
  rewrite fields_dot by (try done; auto; simpl; lia). cbn [app].
  destruct (fields_octet b (dot :: decimal c ++ dot :: decimal d) (Some dot) [a] Hb) as (n' & x' & Hx' & ->).
  rewrite fields_dot by (try done; auto; simpl; lia). cbn [app].
  destruct (fields_octet c (dot :: decimal d) (Some dot) [a; b] Hc) as (n3 & x3 & Hx3 & ->).
  rewrite fields_dot by (try done; auto using decimal_nonempty; simpl; lia). cbn [app].
  destruct (fields_octet d [] (Some dot) [a; b; c] Hd) as (n4 & x4 & Hx4 & Heq).
  rewrite app_nil_r in Heq. cbn [app]. by rewrite Heq.
Qed.

(** ** Reading back IPv6 groups *)

Definition is_group (g : Z) : Prop := 0 ≤ g < 65536.

Fixpoint join_groups (gs : list Z) : bytes :=
  match gs with
  | [] => []
  | [g] => append_hex g
  | g :: gs' => append_hex g ++ colon :: join_groups gs'
  end.

Definition group_bytes (gs : list Z) : bytes := gs ≫= (fun g => [g / 256; g `mod` 256]).

Lemma hex_val_digit d : 0 ≤ d < 16 → hex_val (hex_digit d) = Some d.
Proof. intros Hd. unfold hex_val, hex_digit. repeat split_if; breflect; f_equal; lia. Qed.

Lemma hex_group_digit d s off acc :
  0 ≤ d < 16 → (off ≤ 3)%nat → acc * 16 + d ≤ 65535 →
  hex_group (hex_digit d :: s) off acc = hex_group s (S off) (acc * 16 + d).
Proof.
  intros Hd Ho Ha. cbn [hex_group]. rewrite hex_val_digit by done.
  rewrite bool_decide_eq_false_2 by lia. by rewrite (proj2 (Z.ltb_ge 65535 _)) by lia.
Qed.

(** What ends a group: the end of the string, or a byte that is no digit. *)
Definition stops (s : bytes) : Prop := from_option hex_val None (head s) = None.

Lemma hex_group_stop s off acc : stops s → hex_group s off acc = Some (off, acc, s).
Proof. destruct s as [|c s]; [done|]. unfold stops. cbn. by intros ->. Qed.

Lemma hex_group_text g s :
  is_group g → stops s → ∃ n, hex_group (append_hex g ++ s) 0 0 = Some (S n, g, s).
Proof.
  intros [H0 H1] Hs. unfold append_hex.
  pose proof (Z.div_mod g 16 ltac:(lia)). pose proof (Z.mod_pos_bound g 16 ltac:(lia)).
  pose proof (Z.div_mod (g / 16) 16 ltac:(lia)). pose proof (Z.mod_pos_bound (g / 16) 16 ltac:(lia)).
  pose proof (Z.div_mod (g / 256) 16 ltac:(lia)). pose proof (Z.mod_pos_bound (g / 256) 16 ltac:(lia)).
  assert (g / 256 = g / 16 / 16) by (by rewrite Z.div_div).
  assert (g / 4096 = g / 256 / 16) by (by rewrite Z.div_div).
  destruct (4096 <=? g) eqn:E1, (256 <=? g) eqn:E2, (16 <=? g) eqn:E3; breflect; try lia; cbn [app];
    repeat (rewrite hex_group_digit by lia); rewrite hex_group_stop by done;
    eexists; do 3 f_equal; lia.
Qed.

(** One round of the loop that ends the string, one that goes on. *)
Lemma groups_loop_last f g ip ell :
  is_group g →
  groups_loop (S f) (append_hex g) ip ell = Some ([], ip ++ [g / 256; g `mod` 256], ell).
Proof.
  intros Hg. cbn [groups_loop].
  destruct (hex_group_text g [] Hg eq_refl) as [n Hn]. rewrite app_nil_r in Hn. by rewrite Hn.
Qed.

Lemma groups_loop_next f g c s ip ell :
  is_group g → c ≠ colon →
  groups_loop (S f) (append_hex g ++ colon :: c :: s) ip ell
  = groups_loop f (c :: s) (ip ++ [g / 256; g `mod` 256]) ell.
Proof.
  intros Hg Hc. cbn [groups_loop].
  destruct (hex_group_text g (colon :: c :: s) Hg eq_refl) as [n ->]. cbn.
  by rewrite (proj2 (Z.eqb_neq _ _) Hc).
Qed.

Lemma groups_loop_ellipsis f g s ip :
  is_group g →
  groups_loop (S f) (append_hex g ++ colon :: colon :: s) ip None =
  let ip' := ip ++ [g / 256; g `mod` 256] in
  match s with
  | [] => Some ([], ip', Some (length ip'))
  | _ => groups_loop f s ip' (Some (length ip'))
  end.
Proof.
  intros Hg. cbn [groups_loop].
  by destruct (hex_group_text g (colon :: colon :: s) Hg eq_refl) as [n ->].
Qed.

Lemma hex_digit_not_special d :
  0 ≤ d < 16 → hex_digit d ≠ colon ∧ hex_digit d ≠ dot ∧ hex_digit d ≠ percent.
Proof. intros Hd. unfold hex_digit, colon, dot, percent. split_if; breflect; lia. Qed.

Lemma append_hex_cons g : is_group g → ∃ d s, 0 ≤ d < 16 ∧ append_hex g = hex_digit d :: s.
Proof.
  intros [H0 H1]. unfold append_hex.
  destruct (4096 <=? g) eqn:E1; [|destruct (256 <=? g) eqn:E2; [|destruct (16 <=? g) eqn:E3]];
    cbn [app]; eexists _, _; (split; [|reflexivity]);
    try (apply Z.mod_pos_bound; lia).
  split; [apply Z.div_pos; lia|apply Z.div_lt_upper_bound; lia].
Qed.

Lemma join_groups_cons g gs :
  Forall is_group (g :: gs) → ∃ c s, c ≠ colon ∧ join_groups (g :: gs) = c :: s.
Proof.
  intros Hg. apply Forall_cons in Hg as [Hg _].
  destruct (append_hex_cons g Hg) as (d & s & Hd & Heq).
  destruct (hex_digit_not_special d Hd) as [? _].
  destruct gs as [|g' gs]; cbn [join_groups]; rewrite Heq; eauto.
Qed.

(** Groups without ellipsis. *)
Lemma groups_loop_join f gs ip ell :
  Forall is_group gs → gs ≠ [] → (length gs ≤ f)%nat →
  groups_loop f (join_groups gs) ip ell = Some ([], ip ++ group_bytes gs, ell).
Proof.
  revert f ip. induction gs as [|g gs IH]; intros f ip Hgs Hne Hf; [done|].
  destruct f as [|f]; [simpl in Hf; lia|]. pose proof Hgs as Hgs'. apply Forall_cons in Hgs as [Hg Hgs].
  destruct gs as [|g' gs].
  - cbn [join_groups]. by rewrite groups_loop_last.
  - destruct (join_groups_cons g' gs Hgs) as (c & s & Hc & Heq).
    change (join_groups (g :: g' :: gs)) with (append_hex g ++ colon :: join_groups (g' :: gs)).
    rewrite Heq, groups_loop_next, <- Heq, IH by (done || simpl in *; lia).
    change (group_bytes (g :: g' :: gs)) with ([g / 256; g `mod` 256] ++ group_bytes (g' :: gs)).
    by rewrite (assoc (++)).
Qed.

(** Groups around an ellipsis. *)
Lemma groups_loop_split f gs gs' ip :
  Forall is_group gs → Forall is_group gs' → gs ≠ [] → (length gs + length gs' ≤ f)%nat →
  groups_loop f (join_groups gs ++ colon :: colon :: join_groups gs') ip None =
  Some ([], ip ++ group_bytes gs ++ group_bytes gs', Some (length (ip ++ group_bytes gs))).
Proof.
  intros Hgs Hgs'. revert f ip. induction gs as [|g gs IH]; intros f ip Hne Hf; [done|].
  destruct f as [|f]; [simpl in Hf; lia|]. apply Forall_cons in Hgs as [Hg Hgs].
  destruct gs as [|g' gs].
  - cbn [join_groups]. rewrite groups_loop_ellipsis by done. cbv zeta.
    destruct gs' as [|g1 gs']; [cbn; by rewrite ?app_nil_r|].
    destruct (join_groups_cons g1 gs' Hgs') as (c & s & Hc & Heq). rewrite Heq, <- Heq.
    rewrite groups_loop_join by (done || simpl in *; lia). by rewrite <- (assoc (++)).
  - change (join_groups (g :: g' :: gs)) with (append_hex g ++ colon :: join_groups (g' :: gs)).
    destruct (join_groups_cons g' gs Hgs) as (c & s & Hc & Heq).
    rewrite <- (assoc (++)). cbn [app]. rewrite Heq. cbn [app].
    rewrite groups_loop_next by done.
    change (c :: s ++ colon :: colon :: join_groups gs') with ((c :: s) ++ colon :: colon :: join_groups gs').
    rewrite <- Heq, IH by (done || simpl in *; lia).
    change (group_bytes (g :: g' :: gs)) with ([g / 256; g `mod` 256] ++ group_bytes (g' :: gs)).
    by rewrite !(assoc (++)).
Qed.

(** The groups of an address. *)
Definition groups_of (ip : bytes) : list Z := v6u16 ip <$> seq 0 8.

Lemma groups_of_spec ip :
  Forall is_byte ip → length ip = 16%nat →
  Forall is_group (groups_of ip) ∧ group_bytes (groups_of ip) = ip.
Proof.
  intros Hb Hl.
  assert (∀ a b, is_byte a → is_byte b →
    is_group (be_get [a; b]) ∧ be_get [a; b] / 256 = a ∧ be_get [a; b] `mod` 256 = b) as Hg.
  { intros a b Ha Hb'. rewrite be_get_cons by (auto; by constructor).
    change (be_get [b]) with (be_step 0 b). rewrite be_step_add by done. cbn [length].
    change (256 ^ Z.of_nat 1) with 256. destruct Ha, Hb'. unfold is_group.
    rewrite Z.add_0_l, Z.div_add_l, Z.div_small, Z.add_comm, Z.mod_add, Z.mod_small by lia. lia. }
  do 16 (destruct ip as [|? ip]; [done|]). destruct ip; [|done]. rewrite !Forall_cons in Hb.
  destruct_and! Hb. unfold groups_of, v6u16, group_bytes.
  cbn [seq fmap list_fmap subslice take drop Nat.mul Nat.add Nat.sub mbind list_bind app].
  split.
  - repeat constructor; apply Hg; done.
  - repeat match goal with
    | |- context [be_get [?a; ?b]] =>
        let H1 := fresh in let H2 := fresh in
        destruct (Hg a b) as (_ & H1 & H2); [done|done|]; rewrite H1, H2; clear H1 H2
    end. done.
Qed.

(** What [longest_zero] returns, if it finds a run. *)
Definition zero_range (ip : bytes) (zs ze : nat) : Prop :=
  (zs + 2 ≤ ze ≤ 8)%nat ∧ ∀ i, (zs ≤ i < ze)%nat → v6u16 ip i = 0.

Lemma zero_run_spec fuel ip j :
  (j ≤ 8)%nat →
  (j ≤ zero_run fuel ip j ≤ 8)%nat ∧ ∀ i, (j ≤ i < zero_run fuel ip j)%nat → v6u16 ip i = 0.
Proof.
  revert j. induction fuel as [|f IH]; intros j Hj; cbn [zero_run]; [split; intros; lia|].
  destruct (bool_decide _ && _) eqn:Hc; [|split; intros; lia].
  apply andb_true_iff in Hc as [Hlt%bool_decide_eq_true Hz%Z.eqb_eq].
  destruct (IH (S j)) as [Hr Hall]; [lia|]. split; [lia|]. intros i Hi.
  destruct (decide (i = j)) as [->|]; [done|]. apply Hall. lia.
Qed.

Lemma longest_zero_spec n i ip best :
  (i + n ≤ 8)%nat → (best = (255, 255)%nat ∨ zero_range ip best.1 best.2) →
  let r := longest_zero n i ip best in r = (255, 255)%nat ∨ zero_range ip r.1 r.2.
Proof.
  revert i best. induction n as [|n IH]; intros i best Hi Hb; cbn [longest_zero]; [done|].
  apply IH; [lia|]. destruct (bool_decide _ && _) eqn:Hc; [|done].
  apply andb_true_iff in Hc as [Hl%bool_decide_eq_true _].
  destruct (zero_run_spec 8 ip i) as [Hr Hall]; [lia|]. right. split; cbn [fst snd]; [lia|done].
Qed.

(** The text of an IPv6 address: its groups, around an ellipsis that stands
    for a run of zeros. *)
Lemma append_groups_split ip zs ze :
  (zs + 2 ≤ ze ≤ 8)%nat →
  append_groups 8 0 ip zs ze =
  join_groups (take zs (groups_of ip)) ++ [colon; colon] ++ join_groups (drop ze (groups_of ip)).
Proof.
  intros Hz. assert (zs < 7)%nat as Hzs by lia. assert (ze < 9)%nat as Hze by lia.
  do 7 (destruct zs as [|zs];
    [do 9 (destruct ze as [|ze]; [try lia; cbv -[append_hex v6u16 app];
       repeat (rewrite <- app_assoc; cbn [app]); by rewrite ?app_nil_r|]); lia|]).
  lia.
Qed.

Lemma append_groups_plain ip : append_groups 8 0 ip 255 255 = join_groups (groups_of ip).
Proof. cbv -[append_hex v6u16 app]. repeat (rewrite <- app_assoc; cbn [app]). by rewrite ?app_nil_r. Qed.

Lemma group_bytes_app gs gs' : group_bytes (gs ++ gs') = group_bytes gs ++ group_bytes gs'.
Proof. apply bind_app. Qed.

Lemma length_group_bytes gs : length (group_bytes gs) = (2 * length gs)%nat.
Proof. induction gs as [|g gs IH]; [done|]. cbn in *. unfold group_bytes in IH. lia. Qed.

(** The address between whose groups an ellipsis stands. *)
Lemma groups_zero_range ip zs ze :
  Forall is_byte ip → length ip = 16%nat → zero_range ip zs ze →
  ip = group_bytes (take zs (groups_of ip))
       ++ replicate (16 - (2 * zs + 2 * (8 - ze))) 0 ++ group_bytes (drop ze (groups_of ip)).
Proof.
  intros Hb Hl [Hz Hall]. destruct (groups_of_spec ip Hb Hl) as [_ Heq].
  rewrite <- Heq at 1. rewrite <- (take_drop zs (groups_of ip)) at 1. rewrite group_bytes_app. f_equal.
  rewrite <- (take_drop (ze - zs) (drop zs _)), drop_drop, group_bytes_app.
  replace (zs + (ze - zs))%nat with ze by lia. f_equal.
  replace (take (ze - zs) (drop zs (groups_of ip))) with (replicate (ze - zs) 0).
  - replace (16 - (2 * zs + 2 * (8 - ze)))%nat with (2 * (ze - zs))%nat by lia.
    induction (ze - zs)%nat as [|n IH]; [done|]. replace (2 * S n)%nat with (S (S (2 * n))) by lia.
    cbn. f_equal. f_equal. exact IH.
  - apply replicate_as_Forall. unfold groups_of. split.
    + rewrite length_take, length_drop, length_fmap, length_seq. lia.
    + apply Forall_lookup. intros i x Hx. apply lookup_take_Some in Hx as [Hx Hi].
      rewrite lookup_drop, list_lookup_fmap in Hx.
      destruct (seq 0 8 !! (zs + i)%nat) as [k|] eqn:Hk; [|done]. cbn in Hx. injection Hx as <-.
      apply lookup_seq in Hk as [-> Hk]. symmetry. apply Hall. lia.
Qed.

(** ** The round trip *)

Lemma join_groups_starts gs :
  Forall is_group gs → gs ≠ [] → ∀ s, take 2 (join_groups gs ++ s) ≠ [colon; colon].
Proof.
  intros Hgs Hne s. destruct gs as [|g gs]; [done|].
  destruct (join_groups_cons g gs Hgs) as (c & s' & Hc & ->). cbn. intros [= ? _]. done.
Qed.

Lemma parse6_string6 ip : Forall is_byte ip → length ip = 16%nat → parse6 (string6 ip) = Some ip.
Proof.
  intros Hb Hl. destruct (groups_of_spec ip Hb Hl) as [Hg Heq].
  assert (length (groups_of ip) = 8%nat) as Hlen by (unfold groups_of; by rewrite length_fmap, length_seq).
  pose proof (longest_zero_spec 8 0 ip (255, 255)%nat ltac:(lia) (or_introl eq_refl)) as Hz.
  cbv zeta in Hz. unfold string6. destruct (longest_zero 8 0 ip _) as [zs ze]. cbn [fst snd] in Hz.
  destruct Hz as [[= -> ->]|Hz].
  - rewrite append_groups_plain. unfold parse6. rewrite <- (app_nil_r (join_groups _)).
    rewrite bool_decide_eq_false_2 by (apply join_groups_starts; [done|by destruct (groups_of ip)]).
    cbn [andb]. rewrite app_nil_r, groups_loop_join by (try done; try lia; by destruct (groups_of ip)).
    cbn [app]. rewrite Heq. unfold expand. rewrite bool_decide_eq_false_2 by naive_solver.
    by rewrite bool_decide_eq_false_2 by lia.
  - pose proof (groups_zero_range ip zs ze Hb Hl Hz) as Hip. destruct Hz as [Hz _].
    rewrite append_groups_split by done. revert Hip.
    assert (length (take zs (groups_of ip)) = zs) as Hl1 by (rewrite length_take; lia).
    assert (length (drop ze (groups_of ip)) = (8 - ze)%nat) as Hl2 by (rewrite length_drop; lia).
    pose proof (Forall_take _ zs _ Hg) as Hg1. pose proof (Forall_drop _ ze _ Hg) as Hg2.
    revert Hl1 Hl2 Hg1 Hg2. generalize (take zs (groups_of ip)) (drop ze (groups_of ip)).
    intros gs gs' Hl1 Hl2 Hg1 Hg2 Hip. unfold parse6.
    assert (length (group_bytes gs) = 2 * zs ∧ length (group_bytes gs') = 2 * (8 - ze))%nat as [Hb1 Hb2]
      by (rewrite !length_group_bytes; lia).
    assert (∀ e, e = length (group_bytes gs) →
      expand [] (group_bytes gs ++ group_bytes gs') (Some e) = Some ip) as Hex.
    { intros e ->. unfold expand. rewrite bool_decide_eq_false_2 by naive_solver.
      rewrite length_app, Hb1, Hb2, bool_decide_eq_true_2 by lia.
      rewrite <- Hb1 at 1 3. rewrite take_app_length, drop_app_length. by rewrite <- Hip. }
    destruct gs as [|g gs].
    + cbn [join_groups app]. rewrite bool_decide_eq_true_2 by done. cbn [drop andb].
      destruct gs' as [|g' gs'].
      * cbn. f_equal. rewrite Hip. cbn in Hl1, Hl2. subst zs. by replace ze with 8%nat by lia.
      * rewrite bool_decide_eq_false_2.
        2:{ destruct (join_groups_cons g' gs' Hg2) as (c & s' & Hc & ->). done. }
        rewrite drop_0, groups_loop_join by (done || simpl in *; lia). apply Hex. done.
    + rewrite bool_decide_eq_false_2 by (by apply join_groups_starts). cbn [andb].
      cbn [app]. rewrite groups_loop_split by (done || simpl in *; lia). by apply Hex.
Qed.

(** Which byte decides. *)
Definition special (c : Z) : Prop := c = dot ∨ c = colon ∨ c = percent.

Lemma first_special_app s c s' :
  Forall (fun x => ¬ special x) s → special c → first_special (s ++ c :: s') = Some c.
Proof.
  intros Hs Hc. unfold first_special. rewrite filter_app.
  change (fun c => c = dot ∨ c = colon ∨ c = percent) with special.
  rewrite (filter_none special) by done. cbn [app]. by rewrite filter_cons_True.
Qed.

Lemma first_special_none s : Forall (fun x => ¬ special x) s → first_special s = None.
Proof. intros Hs. unfold first_special. by rewrite (filter_none special). Qed.

Lemma hex_digit_plain d : 0 ≤ d < 16 → ¬ special (hex_digit d).
Proof. intros Hd. destruct (hex_digit_not_special d Hd) as (? & ? & ?). by intros [|[|]]. Qed.

Lemma append_hex_plain g : is_group g → Forall (fun x => ¬ special x) (append_hex g).
Proof.
  intros [H0 H1]. unfold append_hex.
  assert (∀ x, Forall (fun x => ¬ special x) [hex_digit (x `mod` 16)]) as Hm.
  { intros x. repeat constructor. apply hex_digit_plain, Z.mod_pos_bound. lia. }
  repeat (apply Forall_app; split); try (split_if; [|constructor]); try apply Hm.
  repeat constructor. apply hex_digit_plain. split; [apply Z.div_pos; lia|apply Z.div_lt_upper_bound; lia].
Qed.

Lemma decimal_plain n : Forall (fun x => ¬ special x) (decimal n).
Proof.
  eapply Forall_impl; [apply decimal_dec_digits|]. unfold dec_digit, special, dot, colon, percent.
  cbn. intros c Hc. lia.
Qed.

Lemma join_groups_percent gs : Forall is_group gs → percent ∉ join_groups gs.
Proof.
  intros Hgs Hin. enough (Forall (fun c => c ≠ percent) (join_groups gs)) as Hf
    by (rewrite Forall_forall in Hf; by apply (Hf percent)). clear Hin.
  induction Hgs as [|g gs Hg Hgs IH]; [constructor|].
  assert (Forall (fun c => c ≠ percent) (append_hex g)) as Ha.
  { eapply Forall_impl; [by apply append_hex_plain|]. unfold special. cbn. tauto. }
  destruct gs as [|g' gs]; [done|].
  change (join_groups (g :: g' :: gs)) with (append_hex g ++ colon :: join_groups (g' :: gs)).
  apply Forall_app. split; [done|]. by constructor.
Qed.

(** The text of an IPv6 address is handed to [parse6]. *)
Lemma string6_shape ip :
  Forall is_byte ip → length ip = 16%nat →
  first_special (string6 ip) = Some colon ∧ percent ∉ string6 ip.
Proof.
  intros Hb Hl. destruct (groups_of_spec ip Hb Hl) as [Hg _].
  assert (length (groups_of ip) = 8%nat) as Hlen by (unfold groups_of; by rewrite length_fmap, length_seq).
  pose proof (longest_zero_spec 8 0 ip (255, 255)%nat ltac:(lia) (or_introl eq_refl)) as Hz.
  cbv zeta in Hz. unfold string6. destruct (longest_zero 8 0 ip _) as [zs ze]. cbn [fst snd] in Hz.
  assert (∀ g g' gs s, Forall is_group (g :: g' :: gs) →
    first_special (join_groups (g :: g' :: gs) ++ s) = Some colon) as Hjoin.
  { intros g g' gs s Hf. apply Forall_cons in Hf as [Hf _].
    change (join_groups (g :: g' :: gs)) with (append_hex g ++ colon :: join_groups (g' :: gs)).
    rewrite <- (assoc (++)). apply first_special_app; [by apply append_hex_plain|by right; left]. }
  destruct Hz as [[= -> ->]|[Hz _]].
  - rewrite append_groups_plain. split; [|by apply join_groups_percent].
    rewrite <- (app_nil_r (join_groups _)).
    destruct (groups_of ip) as [|g [|g' gs]]; [done..|]. by apply Hjoin.
  - rewrite append_groups_split by done. split.
    + pose proof (Forall_take _ zs _ Hg) as Hg1. destruct (take zs (groups_of ip)) as [|g [|g' gs]]; [done| |by apply Hjoin].
      apply Forall_cons in Hg1 as [Hg1 _]. cbn [join_groups].
      apply first_special_app; [by apply append_hex_plain|by right; left].
    + rewrite !elem_of_app. intros [Hin|[Hin|Hin]].
      * revert Hin. by apply join_groups_percent, Forall_take.
      * repeat (apply elem_of_cons in Hin as [Hin|Hin]; [done|]). by apply elem_of_nil in Hin.
      * revert Hin. by apply join_groups_percent, Forall_drop.
Qed.

Lemma ParseIP_string4 p4 :
  Forall is_byte p4 → length p4 = 4%nat → ParseIP (string4 p4) = To16 p4.
Proof.
  intros Hb Hl. unfold ParseIP.
  assert (first_special (string4 p4) = Some dot) as ->.
  { unfold string4. change [46] with [dot]. cbn [app].
    apply first_special_app; [apply decimal_plain|by left]. }
  rewrite Z.eqb_refl. by rewrite parse4_string4.
Qed.

Lemma ParseIP_string6 ip : Forall is_byte ip → length ip = 16%nat → ParseIP (string6 ip) = Some ip.
Proof.
  intros Hb Hl. unfold ParseIP. destruct (string6_shape ip Hb Hl) as [-> Hp].
  change (colon =? dot) with false. rewrite Z.eqb_refl, bool_decide_eq_false_2 by done.
  by apply parse6_string6.
Qed.

Lemma To4_To16 ip p4 : To4 ip = Some p4 → length p4 = 4%nat ∧ To16 p4 = To16 ip.
Proof.
  unfold To4. case_bool_decide as H4; [by intros [= <-]|].
  destruct (bool_decide _ && _ && _ && _) eqn:Hc; [|done]. intros [= <-].
  apply andb_true_iff in Hc as [[[H16%bool_decide_eq_true H10%bool_decide_eq_true]%andb_true_iff
    Ha%Z.eqb_eq]%andb_true_iff Hb%Z.eqb_eq].
  split; [rewrite length_drop; lia|]. unfold To16.
  rewrite bool_decide_eq_true_2 by (rewrite length_drop; lia). rewrite bool_decide_eq_false_2, bool_decide_eq_true_2 by lia.
  f_equal. rewrite <- H10. do 16 (destruct ip as [|? ip]; [done|]). destruct ip; [|done].
  cbn in Ha, Hb. subst. done.
Qed.

Lemma To4_bytes ip p4 : Forall is_byte ip → To4 ip = Some p4 → Forall is_byte p4.
Proof.
  intros Hb. unfold To4. case_bool_decide; [by intros [= <-]|].
  destruct (bool_decide _ && _ && _ && _); [|done]. intros [= <-]. by apply Forall_drop.
Qed.

(** Parsing what [IP.String] prints gives the address back, in its 16-byte
    form; a byte string that is no address prints as something [ParseIP]
    refuses. *)
Lemma IP_String_parse ip : Forall is_byte ip → ParseIP (IP_String ip) = To16 ip.
Proof.
  intros Hb. unfold IP_String. case_bool_decide as H0; [by destruct ip|].
  destruct (negb _ && negb _) eqn:Hlen.
  { apply andb_true_iff in Hlen as [H4 H16]. breflect.
    apply bool_decide_eq_false in H4, H16. unfold To16. rewrite !bool_decide_eq_false_2 by done.
    unfold ParseIP. rewrite first_special_none; [done|]. cbn [app].
    constructor; [unfold special, dot, colon, percent; lia|].
    clear -Hb. induction Hb as [|b l [Hb0 Hb1] Hl IH]; cbn [mbind list_bind app]; [constructor|].
    apply Forall_app. split; [|done]. repeat constructor; apply hex_digit_plain.
    - split; [apply Z.div_pos; lia|apply Z.div_lt_upper_bound; lia].
    - apply Z.mod_pos_bound. lia. }
  destruct (To4 ip) as [p4|] eqn:H4.
  - destruct (To4_To16 ip p4 H4) as [Hl4 <-]. apply ParseIP_string4; [by eapply To4_bytes|done].
  - assert (length ip = 16%nat) as Hl.
    { apply andb_false_iff in Hlen as [Hx|Hx]; breflect; apply bool_decide_eq_true in Hx; [|done].
      unfold To4 in H4. by rewrite bool_decide_eq_true_2 in H4. }
    rewrite ParseIP_string6 by done. unfold To16. rewrite bool_decide_eq_false_2, bool_decide_eq_true_2 by lia. done.
Qed.

Lemma IP_String_To16 ip ip16 : To16 ip = Some ip16 → IP_String ip16 = IP_String ip.
Proof.
  unfold To16. case_bool_decide as H4.
  - intros [= <-]. do 4 (destruct ip as [|? ip]; [done|]). destruct ip; [|done]. reflexivity.
  - case_bool_decide; [|done]. by intros [= <-].
Qed.

(** Two addresses have the same text iff they are the same address. *)
Lemma IP_String_inj ip ip' :
  Forall is_byte ip → Forall is_byte ip' → is_Some (To16 ip) →
  (IP_String ip = IP_String ip' ↔ To16 ip = To16 ip').
Proof.
  intros Hb Hb' [ip16 H16]. split; intros Heq.
  - rewrite <- (IP_String_parse ip), <- (IP_String_parse ip') by done. by rewrite Heq.
  - rewrite <- (IP_String_To16 ip ip16) by done. apply IP_String_To16. by rewrite <- Heq.
Qed.

(** ** What the parser returns *)

Lemma parseIPv4Fields_typed s prev val n fields p4 :
  is_byte val → Forall is_byte fields → (length fields ≤ 3)%nat →
  parseIPv4Fields s prev val n fields = Some p4 → length p4 = 4%nat ∧ Forall is_byte p4.
Proof.
  revert prev val n fields. induction s as [|c s IH]; intros prev val n fields Hv Hf Hl; cbn [parseIPv4Fields].
  - case_bool_decide; [done|]. intros [= <-]. rewrite length_app, Forall_app. cbn. split; [lia|]. split; [done|by constructor].
  - destruct (_ && _) eqn:Hc.
    + destruct (_ && _) in |- *; [done|]. breflect. cbv zeta. split_if; [done|]. breflect.
      apply IH; [|done|done]. destruct Hv. split; lia.
    + split_if; [|done]. destruct (_ || _ || _); [done|]. case_bool_decide; [done|].
      apply IH; [done| |rewrite length_app; cbn; lia]. apply Forall_app. split; [done|by constructor].
Qed.

Lemma hex_group_typed s off acc n v rest :
  0 ≤ acc ≤ 65535 → hex_group s off acc = Some (n, v, rest) → is_group v.
Proof.
  revert off acc. induction s as [|c s IH]; intros off acc Ha; cbn [hex_group].
  - intros [= <- <- <-]. unfold is_group. lia.
  - destruct (hex_val c) as [d|] eqn:Hd; [|intros [= <- <- <-]; unfold is_group; lia].
    assert (0 ≤ d) by (unfold hex_val in Hd; repeat split_if; simplify_eq; breflect; lia).
    case_bool_decide; [done|]. split_if; [done|]. breflect. apply IH. lia.
Qed.

Lemma group_two_bytes g : is_group g → Forall is_byte [g / 256; g `mod` 256].
Proof.
  intros [H0 H1]. repeat constructor;
    try (apply Z.div_pos; lia); try (apply Z.div_lt_upper_bound; lia); apply Z.mod_pos_bound; lia.
Qed.

Lemma groups_loop_typed fuel s ip ell s' ip' ell' :
  Forall is_byte ip → (length ip + 2 * fuel = 16)%nat →
  groups_loop fuel s ip ell = Some (s', ip', ell') →
  Forall is_byte ip' ∧ (length ip' ≤ 16)%nat.
Proof.
  revert s ip ell. induction fuel as [|f IH]; intros s ip ell Hb Hl; cbn [groups_loop].
  { intros [= <- <- <-]. split; [done|lia]. }
  destruct (hex_group s 0 0) as [[[off acc] rest]|] eqn:Hh; [|done].
  apply hex_group_typed in Hh; [|lia]. pose proof (group_two_bytes acc Hh) as H2.
  assert (Forall is_byte (ip ++ [acc / 256; acc `mod` 256])) as Hb' by (by apply Forall_app).
  assert (length (ip ++ [acc / 256; acc `mod` 256]) = (length ip + 2)%nat) as Hl' by (rewrite length_app; done).
  case_bool_decide; [done|]. case_bool_decide.
  - destruct (_ && _); [done|]. case_bool_decide; [done|]. destruct (parse4 s) as [p4|] eqn:Hp; [|done].
    intros [= <- <- <-]. apply parseIPv4Fields_typed in Hp as [Hp4 Hbp]; [|done|done|simpl; lia].
    split; [by apply Forall_app|rewrite length_app; lia].
  - cbv zeta. destruct rest as [|c [|c2 s2]]; [intros [= <- <- <-]; split; [done|lia]|done|].
    destruct (negb _); [done|]. destruct (c2 =? colon); [|intros Hr; by apply IH in Hr; [|done|lia]].
    case_bool_decide; [done|]. destruct s2; [intros [= <- <- <-]; split; [done|lia]|].
    intros Hr. by apply IH in Hr; [|done|lia].
Qed.

Lemma expand_typed s ip ell ip' :
  Forall is_byte ip → (length ip ≤ 16)%nat → expand s ip ell = Some ip' →
  length ip' = 16%nat ∧ Forall is_byte ip'.
Proof.
  intros Hb Hl. unfold expand. case_bool_decide; [done|]. case_bool_decide.
  - destruct ell as [e|]; [|done]. intros [= <-].
    rewrite !length_app, length_replicate, length_take, length_drop. split; [lia|].
    rewrite !Forall_app. split_and!; [by apply Forall_take|by apply Forall_replicate|by apply Forall_drop].
  - destruct ell; [done|]. intros [= <-]. split; [lia|done].
Qed.

Lemma parse6_typed s ip : parse6 s = Some ip → length ip = 16%nat ∧ Forall is_byte ip.
Proof.
  unfold parse6. destruct (_ && _); [intros [= <-]; split; [done|by apply Forall_replicate]|].
  destruct (groups_loop _ _ _ _) as [[[s' ip'] ell']|] eqn:Hg; [|done].
  apply groups_loop_typed in Hg as [Hb Hl]; [|done|done]. by apply expand_typed.
Qed.

Lemma ParseIP_bytes s ip : ParseIP s = Some ip → length ip = 16%nat ∧ Forall is_byte ip.
Proof.
  unfold ParseIP. destruct (first_special s) as [c|]; [|done]. destruct (c =? dot).
  - destruct (parse4 s) as [p4|] eqn:Hp; [|done]. cbn [mbind option_bind].
    apply parseIPv4Fields_typed in Hp as [Hl Hb]; [|done|done|simpl; lia].
    unfold To16. rewrite bool_decide_eq_true_2 by done. intros [= <-]. split; [cbn; lia|].
    repeat (constructor; [done|]). done.
  - destruct (c =? colon); [|done]. case_bool_decide; [done|]. apply parse6_typed.
Qed.

(** Addresses as text.  What [net.ParseIP] accepts is an address of
    16 bytes; parsing what [IP.String] prints gives the address back, in its
    16-byte form; so two addresses have the same text iff they are the same
    address, and the text can stand for the address in a map key. *)
Lemma ParseIP_String :
  (∀ s ip, ParseIP s = Some ip → length ip = 16%nat ∧ Forall is_byte ip) ∧
  (∀ ip, Forall is_byte ip → ParseIP (IP_String ip) = To16 ip) ∧
  (∀ ip ip', Forall is_byte ip → Forall is_byte ip' → is_Some (To16 ip) →
     (IP_String ip = IP_String ip' ↔ To16 ip = To16 ip')).
Proof. split_and!; [apply ParseIP_bytes|apply IP_String_parse|apply IP_String_inj]. Qed.
