(* ===== verification/GoParse.v ===== *)
(** * The parsers behind the flags: durations, floats, prefixed integers

    [time.ParseDuration], [strconv.ParseFloat] and the base-0 forms of
    [strconv.ParseInt] and [ParseUint], which the flag package and the
    environment defaults of the configuration call. *)

From Corelib Require Import SpecFloat.
From S2P Require Import Prelude GoLib Strconv.

(** ** Durations *)

Definition dec_digitb (c : Z) : bool := (48 <=? c) && (c <=? 57).

(** [leadingInt]: a number of at most 2^63 and what follows. *)
Fixpoint leadingInt (s : bytes) (x : Z) : option (Z * bytes) :=
  match s with
  | [] => Some (x, [])
  | c :: s' =>
      if dec_digitb c then
        if 2 ^ 63 / 10 <? x then None
        else
          let x := x * 10 + c - 48 in
          if 2 ^ 63 <? x then None else leadingInt s' x
      else Some (x, s)
  end.

(** [leadingFraction]: digits after an overflow are read and ignored. *)
Fixpoint leadingFraction (s : bytes) (x : Z) (scale : float64) (overflow : bool)
    : Z * float64 * bytes :=
  match s with
  | [] => (x, scale, [])
  | c :: s' =>
      if dec_digitb c then
        if overflow then leadingFraction s' x scale true
        else if (2 ^ 63 - 1) / 10 <? x then leadingFraction s' x scale true
        else
          let y := x * 10 + c - 48 in
          if 2 ^ 63 <? y then leadingFraction s' x scale true
          else leadingFraction s' y (SFmul 53 1024 scale (float_of_Z 10)) false
      else (x, scale, s)
  end.

(** The unit: everything up to a digit or a point. *)
Fixpoint span_unit (s : bytes) : bytes * bytes :=
  match s with
  | [] => ([], [])
  | c :: s' =>
      if (c =? 46) || dec_digitb c then ([], s)
      else let '(u, rest) := span_unit s' in (c :: u, rest)
  end.

(** [unitMap]: the micro sign and the Greek mu are both accepted. *)
Definition unitMap (u : bytes) : option Z :=
  if bool_decide (u = str "ns") then Some 1
  else if bool_decide (u = str "us") then Some 1000
  else if bool_decide (u = [0xC2; 0xB5; 115]) then Some 1000
  else if bool_decide (u = [0xCE; 0xBC; 115]) then Some 1000
  else if bool_decide (u = str "ms") then Some 1000000
  else if bool_decide (u = str "s") then Some 1000000000
  else if bool_decide (u = str "m") then Some 60000000000
  else if bool_decide (u = str "h") then Some 3600000000000
  else None.

(** The nanoseconds of a fraction: [uint64(float64(f) * (float64(unit) / scale))]. *)
Definition fraction_ns (f unit : Z) (scale : float64) : Z :=
  default 0 (float_trunc (SFmul 53 1024 (float_of_Z f) (SFdiv 53 1024 (float_of_Z unit) scale))).

(** One round of the loop: a number with its unit, in nanoseconds. *)
Definition duration_part (s : bytes) : option (Z * bytes) :=
  match s with
  | [] => None
  | c :: _ =>
      if negb ((c =? 46) || dec_digitb c) then None
      else
        match leadingInt s 0 with
        | None => None
        | Some (v, s1) =>
            let pre := negb (bool_decide (length s1 = length s)) in
            let '(f, scale, s2, post) :=
              match s1 with
              | 46 :: s1' =>
                  let '(f, scale, s2) := leadingFraction s1' 0 (float_of_Z 1) false in
                  (f, scale, s2, negb (bool_decide (length s2 = length s1')))
              | _ => (0, float_of_Z 1, s1, false)
              end in
            if negb pre && negb post then None
            else
              let '(u, rest) := span_unit s2 in
              if bool_decide (u = []) then None
              else
                match unitMap u with
                | None => None
                | Some unit =>
                    if 2 ^ 63 / unit <? v then None
                    else
                      let v := v * unit in
                      let v := if 0 <? f then v + fraction_ns f unit scale else v in
                      if (0 <? f) && (2 ^ 63 <? v) then None else Some (v, rest)
                end
        end
  end.

(** The loop; every round consumes at least one byte.  The sum is a uint64. *)
Fixpoint duration_loop (fuel : nat) (s : bytes) (d : Z) : option Z :=
  match s with
  | [] => Some d
  | _ =>
      match fuel with
      | O => None
      | S fuel' =>
          match duration_part s with
          | None => None
          | Some (v, rest) =>
              let d := to_uint 64 (d + v) in
              if 2 ^ 63 <? d then None else duration_loop fuel' rest d
          end
      end
  end.

(** [ParseDuration], in nanoseconds. *)
Definition ParseDuration (s : bytes) : option Z :=
  let '(neg, s) :=
    match s with
    | 45 :: s' => (true, s')
    | 43 :: s' => (false, s')
    | _ => (false, s)
    end in
  if bool_decide (s = str "0") then Some 0
  else if bool_decide (s = []) then None
  else
    match duration_loop (length s) s 0 with
    | None => None
    | Some d => if neg then Some (- d) else if 2 ^ 63 - 1 <? d then None else Some d
    end.

Example ParseDuration_1h : ParseDuration (str "1h15m30.918s") = Some 4530918000000.
Proof. reflexivity. Qed.

Example ParseDuration_frac :
  ParseDuration <$> [str "-1.5h"; str ".5s"; str "1.s"; str "0.000000000000003h"; str "2us"; str "0"]
  = [Some (-5400000000000); Some 500000000; Some 1000000000; Some 0; Some 2000; Some 0].
Proof. reflexivity. Qed.

Example ParseDuration_refused :
  ParseDuration <$> [str "3"; []; str "-"; str "s"; str ".s"; str "1x"; str "9223372036854775808ns"; str "1 s"]
  = replicate 8 None.
Proof. reflexivity. Qed.

(** The sum of the parts is checked after it has been reduced modulo 2^64. *)
Example ParseDuration_wraps :
  ParseDuration (str "9223372036854775808ns9223372036854775808ns1ns") = Some 1.
Proof. reflexivity. Qed.

(** ** Integers with a prefix *)

(** [c | 0x20], the lower case of a letter. *)
Definition lower (c : Z) : Z := Z.lor c 32.

(** What [underscoreOK] remembers of the byte before. *)
Inductive before := Start | Digit | Underscore | Other.

Definition is_base_prefix (s : bytes) : bool :=
  match s with
  | 48 :: c :: _ => (lower c =? 98) || (lower c =? 111) || (lower c =? 120)
  | _ => false
  end.

Fixpoint underscore_loop (hex : bool) (s : bytes) (i : before) : bool :=
  match s with
  | [] => match i with Underscore => false | _ => true end
  | c :: s' =>
      if dec_digitb c || (hex && (97 <=? lower c) && (lower c <=? 102)) then underscore_loop hex s' Digit
      else if c =? 95 then match i with Digit => underscore_loop hex s' Underscore | _ => false end
      else match i with Underscore => false | _ => underscore_loop hex s' Other end
  end.

Definition underscoreOK (s : bytes) : bool :=
  let s := match s with 45 :: s' | 43 :: s' => s' | _ => s end in
  if is_base_prefix s
  then underscore_loop (lower (byte_at s 1) =? 120) (drop 2 s) Digit
  else underscore_loop false s Start.

(** The base a literal names, and its digits. *)
Definition base_prefix (s : bytes) : Z * bytes :=
  match s with
  | 48 :: s' =>
      if bool_decide (3 ≤ length s)%nat && is_base_prefix s
      then ((if lower (byte_at s 1) =? 98 then 2 else if lower (byte_at s 1) =? 111 then 8 else 16),
            drop 2 s)
      else (8, s')
  | _ => (10, s)
  end.

(** [ParseUint(s, 0, 64)]. *)
Definition ParseUint0 (s : bytes) : result Z num_error :=
  match s with
  | [] => Err ErrSyntax
  | _ =>
      let '(base, digits) := base_prefix s in
      match parse_digits base (2 ^ 64 - 1) 0 (filter (fun c => c ≠ 95) digits) with
      | Err e => Err e
      | Ok n => if bool_decide (95 ∈ digits) && negb (underscoreOK s) then Err ErrSyntax else Ok n
      end
  end.

(** [ParseInt(s, 0, 64)]. *)
Definition ParseInt0 (s : bytes) : result Z num_error :=
  let '(neg, digits) :=
    match s with 45 :: s' => (true, s') | 43 :: s' => (false, s') | _ => (false, s) end in
  match ParseUint0 digits with
  | Err e => Err e
  | Ok un =>
      if negb neg && (2 ^ 63 <=? un) then Err ErrRange
      else if neg && (2 ^ 63 <? un) then Err ErrRange
      else Ok (if neg then - un else un)
  end.

Example ParseInt0_forms :
  ParseInt0 <$> [str "9300"; str "0x2454"; str "-0b11"; str "0o17"; str "017"; str "1_000"; str "_1"; str "08"; str "0"; str "0x"]
  = [Ok 9300; Ok 9300; Ok (-3); Ok 15; Ok 15; Ok 1000; Err ErrSyntax; Err ErrSyntax; Ok 0; Err ErrSyntax].
Proof. reflexivity. Qed.

(** ** Floats *)

(** A correctly rounded float64 (nearest, ties to even), for a positive
    mantissa: [m * 10^e], and [m * 2^e]. *)
Definition float_of_decimal (neg : bool) (m : positive) (e : Z) : float64 :=
  if 0 <=? e then binary_round 53 1024 neg (m * Z.to_pos (10 ^ e)) 0
  else
    let '(q, e', l) := SFdiv_core_binary 53 1024 (Zpos m) 0 (10 ^ (- e)) 0 in
    binary_round_aux 53 1024 neg q e' l.

Definition float_of_binary (neg : bool) (m : positive) (e : Z) : float64 := binary_round 53 1024 neg m e.

(** The state of [readFloat] over the mantissa. *)
Record mantissa := MkMantissa {
  m_value : Z;      (* the digits as one integer *)
  m_digits : Z;     (* their number, without leading zeros *)
  m_point : Z;      (* digits after the point *)
  m_sawdot : bool;
  m_sawdigits : bool;
  m_underscores : bool;
}.

Definition read_digit (base d : Z) (st : mantissa) : mantissa :=
  MkMantissa (m_value st * base + d)
    (if (m_value st =? 0) && (d =? 0) then m_digits st else m_digits st + 1)
    (if m_sawdot st then m_point st + 1 else m_point st) (m_sawdot st) true (m_underscores st).

(** The loop over the mantissa: what it has read and what follows. *)
Fixpoint read_mantissa (base : Z) (s : bytes) (st : mantissa) : mantissa * bytes :=
  match s with
  | [] => (st, [])
  | c :: s' =>
      if c =? 95 then
        read_mantissa base s'
          (MkMantissa (m_value st) (m_digits st) (m_point st) (m_sawdot st) (m_sawdigits st) true)
      else if c =? 46 then
        if m_sawdot st then (st, s)
        else read_mantissa base s'
               (MkMantissa (m_value st) (m_digits st) 0 true (m_sawdigits st) (m_underscores st))
      else if dec_digitb c then read_mantissa base s' (read_digit base (c - 48) st)
      else if (base =? 16) && (97 <=? lower c) && (lower c <=? 102)
      then read_mantissa base s' (read_digit base (lower c - 97 + 10) st)
      else (st, s)
  end.

(** The digits of an exponent; it stops growing at 10000. *)
Fixpoint read_exponent (s : bytes) (e : Z) (underscores : bool) : Z * bool * bytes :=
  match s with
  | [] => (e, underscores, [])
  | c :: s' =>
      if c =? 95 then read_exponent s' e true
      else if dec_digitb c
      then read_exponent s' (if e <? 10000 then e * 10 + c - 48 else e) underscores
      else (e, underscores, s)
  end.

(** The exponent part, if there is one: [None] is a syntax error. *)
Definition read_exp_part (hex : bool) (s : bytes) : option (Z * bool * bytes) :=
  match s with
  | c :: s' =>
      if lower c =? (if hex then 112 else 101) then
        let '(esign, s2) := match s' with 43 :: r => (1, r) | 45 :: r => (-1, r) | _ => (1, s') end in
        match s2 with
        | d :: _ => if dec_digitb d
                    then let '(e, us, rest) := read_exponent s2 0 false in Some (esign * e, us, rest)
                    else None
        | [] => None
        end
      else if hex then None else Some (0, false, s)
  | [] => if hex then None else Some (0, false, s)
  end.

Definition lower_ascii (c : Z) : Z := if (65 <=? c) && (c <=? 90) then c + 32 else c.

(** [special]: infinities and NaN, in any case. *)
Definition special_float (s : bytes) : option float64 :=
  let is_inf s := bool_decide (s = str "inf") || bool_decide (s = str "infinity") in
  let t := lower_ascii <$> s in
  match t with
  | 43 :: t' => if is_inf t' then Some (S754_infinity false) else None
  | 45 :: t' => if is_inf t' then Some (S754_infinity true) else None
  | _ => if is_inf t then Some (S754_infinity false)
         else if bool_decide (t = str "nan") then Some S754_nan else None
  end.

(** The float a mantissa and an exponent denote.  A decimal point beyond the
    310th or before the -330th digit decides without a computation. *)
Definition float_value (hex neg : bool) (st : mantissa) (e : Z) : float64 :=
  match m_value st with
  | Zpos m =>
      if hex then float_of_binary neg m (e - 4 * m_point st)
      else
        let dp := m_digits st - m_point st + e in
        if 310 <? dp then S754_infinity neg
        else if dp <? -330 then S754_zero neg
        else float_of_decimal neg m (e - m_point st)
  | _ => S754_zero neg
  end.

Definition is_infinite (x : float64) : bool := match x with S754_infinity _ => true | _ => false end.

(** [ParseFloat(s, 64)]. *)
Definition ParseFloat (s : bytes) : result float64 num_error :=
  match special_float s with
  | Some x => Ok x
  | None =>
      let '(neg, s1) := match s with 45 :: s' => (true, s') | 43 :: s' => (false, s') | _ => (false, s) end in
      let hex := bool_decide (2 < length s1)%nat && (byte_at s1 0 =? 48) && (lower (byte_at s1 1) =? 120) in
      let s2 := if hex then drop 2 s1 else s1 in
      let '(st, s3) := read_mantissa (if hex then 16 else 10) s2 (MkMantissa 0 0 0 false false false) in
      if negb (m_sawdigits st) then Err ErrSyntax
      else
        match read_exp_part hex s3 with
        | None => Err ErrSyntax
        | Some (e, us, rest) =>
            if (m_underscores st || us) && negb (underscoreOK s) then Err ErrSyntax
            else if bool_decide (rest ≠ []) then Err ErrSyntax
            else
              let x := float_value hex neg st e in
              if is_infinite x then Err ErrRange else Ok x
        end
  end.

Example ParseFloat_forms :
  ParseFloat <$> [str "100"; str "0.5"; str "-1e-2"; str "0x1p-2"; str "1e400"; str "1.5e"; str "NaN"; str "+Inf"; str "."; str "1_0"]
  = [Ok (float_of_Z 100); Ok (SFdiv 53 1024 (float_of_Z 1) (float_of_Z 2));
     Ok (SFdiv 53 1024 (float_of_Z (-1)) (float_of_Z 100)); Ok (SFdiv 53 1024 (float_of_Z 1) (float_of_Z 4));
     Err ErrRange; Err ErrSyntax; Ok S754_nan; Ok (S754_infinity false); Err ErrSyntax; Ok (float_of_Z 10)].
Proof. vm_compute. reflexivity. Qed.

(** ** Durations: what the parser returns *)

Lemma duration_loop_range fuel s d r : 0 ≤ d ≤ 2 ^ 63 → duration_loop fuel s d = Some r → 0 ≤ r ≤ 2 ^ 63.
Proof.
  revert s d. induction fuel as [|f IH]; intros s d Hd; cbn [duration_loop].
  - destruct s; [|done]. by intros [= <-].
  - destruct s as [|c s]; [by intros [= <-]|]. destruct (duration_part _) as [[v rest]|]; [|done].
    cbv zeta. split_if; [done|]. breflect. apply IH. split; [|done].
    apply Z.mod_pos_bound. lia.
Qed.

Lemma ParseDuration_int64 s d : ParseDuration s = Some d → - 2 ^ 63 ≤ d < 2 ^ 63.
Proof.
  unfold ParseDuration. destruct (match s with 45 :: _ => _ | _ => _ end) as [neg s'].
  case_bool_decide; [intros [= <-]; lia|]. case_bool_decide; [done|].
  destruct (duration_loop _ _ _) as [r|] eqn:Hr; [|done]. apply duration_loop_range in Hr; [|lia].
  destruct neg; [intros [= <-]; lia|]. split_if; [done|]. breflect. intros [= <-]. lia.
Qed.

(** ** Durations: reading back a sum of parts *)

Lemma dec_digitb_true c : dec_digit c → dec_digitb c = true.
Proof. unfold dec_digit, dec_digitb. intros Hc. apply andb_true_iff. rewrite !Z.leb_le. lia. Qed.

(** What can follow a number or a unit. *)
Definition starts_with (P : Z → Prop) (s : bytes) : Prop := from_option P True (head s).

Lemma leadingInt_digits s rest x :
  Forall dec_digit s → 0 ≤ x → starts_with (fun c => dec_digitb c = false) rest →
  fold_left (fun a d => a * 10 + (d - 48)) s x ≤ 2 ^ 63 →
  leadingInt (s ++ rest) x = Some (fold_left (fun a d => a * 10 + (d - 48)) s x, rest).
Proof.
  intros Hs Hx Hr. revert x Hx. induction Hs as [|c s Hc Hs IH]; intros x Hx Hle; cbn [app fold_left].
  - destruct rest as [|c rest]; [done|]. unfold starts_with in Hr. cbn in *. by rewrite Hr.
  - cbn [leadingInt]. rewrite dec_digitb_true by done. cbn [fold_left] in Hle.
    assert (x * 10 + (c - 48) ≤ 2 ^ 63) as Hle'.
    { etrans; [|exact Hle]. rewrite <- !digits_val_decimal by done.
      apply digits_val_le; [lia|unfold dec_digit in Hc; lia|].
      apply Forall_forall. intros; apply digit_val_default. }
    unfold dec_digit in Hc.
    rewrite (proj2 (Z.ltb_ge _ _)) by (apply Z.div_le_lower_bound; lia). cbv zeta.
    rewrite (proj2 (Z.ltb_ge _ _)) by lia.
    replace (x * 10 + c - 48) with (x * 10 + (c - 48)) by lia. apply IH; [lia|done].
Qed.

Lemma span_unit_app u rest :
  Forall (fun c => (c =? 46) || dec_digitb c = false) u →
  starts_with (fun c => dec_digitb c = true) rest → span_unit (u ++ rest) = (u, rest).
Proof.
  intros Hu Hr. induction Hu as [|c u Hc Hu IH]; cbn [app span_unit].
  - destruct rest as [|c rest]; [done|]. unfold starts_with in Hr. cbn in *. by rewrite Hr, orb_true_r.
  - by rewrite Hc, IH.
Qed.

Lemma unitMap_unit u k :
  unitMap u = Some k →
  1 ≤ k ∧ u ≠ [] ∧ Forall (fun c => (c =? 46) || dec_digitb c = false) u.
Proof.
  unfold unitMap. repeat (case_bool_decide; [intros [= <-]; subst u; split_and!; [lia|done|by repeat constructor]|]).
  done.
Qed.

Lemma duration_part_spec n u k rest :
  0 ≤ n < 10 ^ 20 → unitMap u = Some k → n * k ≤ 2 ^ 63 → starts_with dec_digit rest →
  duration_part (decimal n ++ u ++ rest) = Some (n * k, rest).
Proof.
  intros Hn Hu Hle Hr. destruct (unitMap_unit u k Hu) as (Hk & Hne & Hchars).
  pose proof (decimal_dec_digits n) as Hd.
  assert (∃ c s, decimal n ++ u ++ rest = c :: s ∧ dec_digitb c = true) as (c & s & Hs & Hc).
  { destruct (decimal n) as [|c s] eqn:E; [by destruct (decimal_nonempty n)|].
    apply Forall_cons in Hd as [Hd _]. exists c, (s ++ u ++ rest). by rewrite dec_digitb_true. }
  unfold duration_part. rewrite Hs. rewrite Hc, orb_true_r. cbn [negb]. rewrite <- Hs.
  assert (starts_with (fun c => dec_digitb c = false) (u ++ rest)) as Hu'.
  { destruct u as [|cu u]; [done|]. apply Forall_cons in Hchars as [Hcu _].
    apply orb_false_iff in Hcu as [_ Hcu]. done. }
  assert (n ≤ 2 ^ 63) as Hn63 by nia.
  assert (fold_left (fun a d => a * 10 + (d - 48)) (decimal n) 0 = n) as Hval by exact (dec_go_val 20 n Hn).
  rewrite leadingInt_digits by (try done; lia). rewrite Hval.
  assert (length (u ++ rest) ≠ length (decimal n ++ u ++ rest)) as Hlen.
  { rewrite (length_app (decimal n)). pose proof (decimal_nonempty n). destruct (decimal n); [done|]. simpl. lia. }
  rewrite bool_decide_eq_false_2 by done. cbn [negb andb].
  assert ((match u ++ rest with
           | 46 :: s1' => let '(f, scale, s2) := leadingFraction s1' 0 (float_of_Z 1) false in
                          (f, scale, s2, negb (bool_decide (length s2 = length s1')))
           | _ => (0, float_of_Z 1, u ++ rest, false) end) = (0, float_of_Z 1, u ++ rest, false)) as ->.
  { destruct u as [|cu u]; [done|]. apply Forall_cons in Hchars as [Hcu _].
    apply orb_false_iff in Hcu as [Hcu _]. cbn [app]. apply Z.eqb_neq in Hcu.
    destruct cu as [|p|p]; try done. do 6 (destruct p as [p|p|]; try done). }
  rewrite span_unit_app; [|done|].
  2:{ destruct rest; [done|]. unfold starts_with in *. cbn in *. by apply dec_digitb_true. }
  rewrite bool_decide_eq_false_2 by done. rewrite Hu.
  rewrite (proj2 (Z.ltb_ge _ _)) by (apply Z.div_le_lower_bound; lia). done.
Qed.

(** A duration written as parts: numbers with their units. *)
Definition duration_text (parts : list (Z * bytes)) : bytes :=
  parts ≫= (fun p => decimal p.1 ++ p.2).

Definition duration_total (parts : list (Z * bytes)) : Z :=
  foldr (fun p acc => p.1 * default 0 (unitMap p.2) + acc) 0 parts.

Definition good_parts (parts : list (Z * bytes)) : Prop :=
  Forall (fun p => 0 ≤ p.1 < 10 ^ 20 ∧ is_Some (unitMap p.2)) parts.

Lemma duration_total_pos parts : good_parts parts → 0 ≤ duration_total parts.
Proof.
  induction 1 as [|p parts [Hp [k Hk]] Hparts IH]; [done|]. cbn. rewrite Hk. cbn.
  destruct (unitMap_unit _ _ Hk) as [? _]. fold (duration_total parts). nia.
Qed.

Lemma duration_text_starts parts : starts_with dec_digit (duration_text parts).
Proof.
  destruct parts as [|[n u] parts]; [done|]. unfold starts_with. pose proof (decimal_dec_digits n) as Hd.
  change (duration_text ((n, u) :: parts)) with ((decimal n ++ u) ++ duration_text parts).
  destruct (decimal n) as [|c s] eqn:E; [by destruct (decimal_nonempty n)|]. cbn. by apply Forall_cons in Hd as [? _].
Qed.

Lemma duration_loop_parts fuel parts d :
  good_parts parts → (length (duration_text parts) ≤ fuel)%nat → 0 ≤ d →
  d + duration_total parts ≤ 2 ^ 63 →
  duration_loop fuel (duration_text parts) d = Some (d + duration_total parts).
Proof.
  intros Hg. revert fuel d. induction Hg as [|[n u] parts [Hn [k Hk]] Hg IH]; intros fuel d Hf Hd Hle.
  { destruct fuel; cbn; f_equal; lia. }
  cbn [duration_total foldr fst snd] in *. rewrite Hk in *. cbn [default from_option id] in *.
  fold (duration_total parts) in *. pose proof (duration_total_pos parts Hg) as Hpos. cbn in Hn, Hk.
  destruct (unitMap_unit u k Hk) as (Hk1 & Hne & _).
  change (duration_text ((n, u) :: parts)) with ((decimal n ++ u) ++ duration_text parts) in *.
  rewrite <- (assoc (++)) in *.
  destruct fuel as [|fuel].
  { rewrite !length_app in Hf. destruct u; simpl in Hf; [done|lia]. }
  destruct (decimal n ++ u ++ duration_text parts) as [|c s] eqn:Hs.
  { apply app_eq_nil in Hs as [Hs _]. by destruct (decimal_nonempty n). }
  cbn [duration_loop]. rewrite <- Hs, (duration_part_spec n u k) by (first [done|apply duration_text_starts|nia]).
  cbv zeta. unfold to_uint. rewrite (Z.mod_small (d + n * k)) by nia.
  rewrite (proj2 (Z.ltb_ge _ _)) by lia. rewrite IH; [f_equal; lia| |nia|lia].
  apply (f_equal length) in Hs. rewrite !length_app in Hs. simpl in Hs, Hf.
  assert (0 < length u)%nat by (destruct u; [done|simpl; lia]). lia.
Qed.

Lemma ParseDuration_parts parts :
  good_parts parts → parts ≠ [] → duration_total parts ≤ 2 ^ 63 →
  (duration_total parts < 2 ^ 63 → ParseDuration (duration_text parts) = Some (duration_total parts)) ∧
  ParseDuration (45 :: duration_text parts) = Some (- duration_total parts).
Proof.
  intros Hg Hne Hlt. pose proof (duration_total_pos parts Hg) as Hpos.
  pose proof (duration_loop_parts (length (duration_text parts)) parts 0 Hg ltac:(lia) ltac:(lia) ltac:(lia)) as Hloop.
  rewrite Z.add_0_l in Hloop.
  assert (duration_text parts ≠ [] ∧ duration_text parts ≠ str "0") as [Hnil H0].
  { destruct parts as [|[n u] parts]; [done|]. apply Forall_cons in Hg as [[_ [k Hk]] _]. cbn in Hk.
    destruct (unitMap_unit u k Hk) as (_ & Hu & _). pose proof (decimal_nonempty n).
    change (duration_text ((n, u) :: parts)) with ((decimal n ++ u) ++ duration_text parts).
    destruct (decimal n) as [|c [|]], u; cbn; try done; naive_solver. }
  pose proof (duration_text_starts parts) as Hst. unfold ParseDuration. split.
  - intros Hsmall. assert ((match duration_text parts with
             | 45 :: s' => (true, s') | 43 :: s' => (false, s') | _ => (false, duration_text parts) end)
            = (false, duration_text parts)) as ->.
    { destruct (duration_text parts) as [|c s]; [done|]. unfold starts_with, dec_digit in Hst. cbn in Hst.
      destruct c as [|p|p]; try lia. do 6 (destruct p as [p|p|]; try done); lia. }
    rewrite !bool_decide_eq_false_2 by done. rewrite Hloop. by rewrite (proj2 (Z.ltb_ge _ _)) by lia.
  - rewrite !bool_decide_eq_false_2 by done. by rewrite Hloop.
Qed.

(** ** Integers: reading back decimal *)

(** A positive number has no leading zero. *)
Lemma dec_go_head fuel n : 0 < n < 10 ^ Z.of_nat fuel → ∃ d s, 49 ≤ d < 58 ∧ dec_go fuel n [] = d :: s.
Proof.
  revert n. induction fuel as [|f IH]; intros n Hn; [simpl in Hn; lia|]. cbn [dec_go].
  destruct (n <? 10) eqn:Hlt; breflect.
  - exists (48 + n), []. rewrite Z.mod_small by lia. split; [lia|done].
  - rewrite dec_go_app. destruct (IH (n / 10)) as (d & s & Hd & ->).
    + rewrite Nat2Z.inj_succ, Z.pow_succ_r in Hn by lia.
      split; [apply Z.div_str_pos; lia|apply Z.div_lt_upper_bound; lia].
    + exists d, (s ++ [48 + n `mod` 10]). done.
Qed.

Lemma decimal_head n : 0 < n < 10 ^ 20 → ∃ d s, 49 ≤ d < 58 ∧ decimal n = d :: s.
Proof. exact (dec_go_head 20 n). Qed.

Lemma no_underscore s : Forall dec_digit s → filter (fun c => c ≠ 95) s = s ∧ 95 ∉ s.
Proof.
  intros Hs. split.
  - apply filter_all. eapply Forall_impl; [exact Hs|]. unfold dec_digit. cbn. lia.
  - intros Hin. rewrite Forall_forall in Hs. apply Hs in Hin. unfold dec_digit in Hin. lia.
Qed.

Lemma ParseUint0_decimal n : 0 ≤ n < 2 ^ 64 → ParseUint0 (decimal n) = Ok n.
Proof.
  intros Hn. destruct (decide (n = 0)) as [->|Hnz]; [done|].
  destruct (decimal_head n) as (d & s & Hd & Heq); [lia|].
  pose proof (decimal_dec_digits n) as Hds. destruct (no_underscore _ Hds) as [Hf Hin].
  assert (base_prefix (decimal n) = (10, decimal n)) as Hb.
  { rewrite Heq. unfold base_prefix. destruct d as [|p|p]; try lia. do 6 (destruct p as [p|p|]; try done); lia. }
  unfold ParseUint0. rewrite Heq, <- Heq, Hb, Hf.
  assert (parse_digits 10 (2 ^ 64 - 1) 0 (decimal n) = Ok n) as ->.
  { apply parse_digits_spec; [lia|lia|]. split_and!; [|apply decimal_val; lia|lia].
    eapply Forall_impl; [exact Hds|]. cbn. intros c Hc. exists (c - 48).
    split; [by apply dec_digit_val|unfold dec_digit in Hc; lia]. }
  by rewrite bool_decide_eq_false_2.
Qed.

(** [%d] of a signed integer. *)
Definition int_text (z : Z) : bytes := if z <? 0 then 45 :: decimal (- z) else decimal z.

Lemma digits_no_sign {A} s (f g : bytes → A) (h : A) :
  Forall dec_digit s →
  match s with 45 :: s' => f s' | 43 :: s' => g s' | _ => h end = h.
Proof.
  intros Hs. destruct s as [|c s]; [done|]. apply Forall_cons in Hs as [Hc _]. unfold dec_digit in Hc.
  destruct c as [|p|p]; try lia. do 6 (destruct p as [p|p|]; try done); lia.
Qed.

Lemma ParseInt0_text z : - 2 ^ 63 ≤ z < 2 ^ 63 → ParseInt0 (int_text z) = Ok z.
Proof.
  intros Hz. unfold int_text. destruct (z <? 0) eqn:Hs; breflect; unfold ParseInt0.
  - rewrite ParseUint0_decimal by lia. cbn [negb andb].
    rewrite (proj2 (Z.ltb_ge _ _)) by lia. f_equal. lia.
  - rewrite (digits_no_sign (decimal z) (pair true) (pair false) (false, decimal z)) by apply decimal_dec_digits.
    rewrite ParseUint0_decimal by lia. cbn [negb andb].
    by rewrite (proj2 (Z.leb_gt _ _)) by lia.
Qed.

(** ** Floats: reading back a natural number *)

Lemma read_mantissa_digits s st :
  Forall dec_digit s → m_sawdot st = false → m_underscores st = false →
  0 ≤ m_value st →
  ∃ nd, m_digits st ≤ nd ≤ m_digits st + Z.of_nat (length s) ∧
  read_mantissa 10 s st =
  (MkMantissa (fold_left (fun a d => a * 10 + (d - 48)) s (m_value st)) nd (m_point st) false
     (if bool_decide (s = []) then m_sawdigits st else true) false, []).
Proof.
  intros Hs. revert st. induction Hs as [|c s Hc Hs IH]; intros st Hdot Hus Hv; cbn [read_mantissa fold_left].
  { exists (m_digits st). cbn. split; [lia|]. destruct st; cbn in *. by subst. }
  rewrite dec_digitb_true by done. unfold dec_digit in Hc.
  rewrite (proj2 (Z.eqb_neq c 95)), (proj2 (Z.eqb_neq c 46)) by lia.
  destruct (IH (read_digit 10 (c - 48) st)) as (nd & Hnd & ->);
    [done|done|unfold read_digit; cbn; lia|].
  exists nd. unfold read_digit in *. cbn [m_digits m_value m_point m_sawdot m_sawdigits] in *.
  rewrite Hdot in *. cbn [length]. split; [destruct (_ && _); lia|].
  rewrite (bool_decide_eq_false_2 (c :: s = [])) by done. by destruct (bool_decide (s = [])).
Qed.

Lemma dec_go_length fuel n acc : (length (dec_go fuel n acc) ≤ fuel + length acc)%nat.
Proof.
  revert n acc. induction fuel as [|f IH]; intros n acc; cbn [dec_go]; [lia|].
  destruct (n <? 10); [simpl; lia|]. etrans; [apply IH|]. simpl. lia.
Qed.

Lemma special_float_digits s : Forall dec_digit s → special_float s = None.
Proof.
  intros Hs. unfold special_float. assert (lower_ascii <$> s = s) as ->.
  { induction Hs as [|c s Hc Hs IH]; [done|]. cbn. f_equal; [|done].
    unfold lower_ascii, dec_digit in *. by rewrite (proj2 (Z.leb_gt 65 c)) by lia. }
  destruct s as [|c s]; [done|]. apply Forall_cons in Hs as [Hc _]. unfold dec_digit in Hc.
  rewrite !(bool_decide_eq_false_2 (c :: s = _)) by (intros [= -> _]; lia). cbn [orb].
  destruct c as [|p|p]; try lia. do 6 (destruct p as [p|p|]; try done); lia.
Qed.

Lemma ParseFloat_decimal z : 0 ≤ z < 2 ^ 52 → ParseFloat (decimal z) = Ok (float_of_Z z).
Proof.
  intros Hz. pose proof (decimal_dec_digits z) as Hd. unfold ParseFloat.
  rewrite special_float_digits by done.
  rewrite (digits_no_sign (decimal z) (pair true) (pair false) (false, decimal z)) by done.
  assert (bool_decide (2 < length (decimal z))%nat && (byte_at (decimal z) 0 =? 48)
          && (lower (byte_at (decimal z) 1) =? 120) = false) as ->.
  { destruct (decide (z = 0)) as [->|]; [done|]. destruct (decimal_head z) as (d & s & Hd' & ->); [lia|].
    change (byte_at (d :: s) 0) with d. rewrite (proj2 (Z.eqb_neq d 48)) by lia. by rewrite andb_false_r. }
  destruct (read_mantissa_digits (decimal z) (MkMantissa 0 0 0 false false false) Hd)
    as (nd & Hnd & ->); [done..|]. cbn [m_value m_point m_sawdigits m_underscores].
  rewrite bool_decide_eq_false_2 by apply decimal_nonempty. cbn [negb read_exp_part orb andb].
  change (fold_left _ (decimal z) 0) with (dec_val (decimal z)).
  assert (dec_val (decimal z) = z) as -> by (apply (dec_go_val 20); lia).
  assert (float_value false false (MkMantissa z nd 0 false true false) 0 = float_of_Z z) as Hv.
  { unfold float_value. cbn [m_value m_digits m_point]. destruct z as [|p|p]; [done| |lia].
    pose proof (dec_go_length 20 (Zpos p) []) as Hlen. cbn [m_digits length] in *. unfold decimal in Hnd.
    rewrite (proj2 (Z.ltb_ge _ _)), (proj2 (Z.ltb_ge _ _)) by lia.
    unfold float_of_decimal, float_of_Z, binary_normalize. cbn. by rewrite Pos.mul_1_r. }
  rewrite Hv. case_bool_decide; [done|].
  assert (is_infinite (float_of_Z z) = false) as ->; [|done].
  destruct z as [|p|p]; [done| |lia]. by destruct (float_of_pos p) as [k ->]; [lia|].
Qed.

(** ** Integers: the range *)

Lemma base_prefix_pos s : 1 ≤ (base_prefix s).1.
Proof.
  unfold base_prefix. destruct s as [|c s]; [cbn; lia|].
  destruct c as [|p|p]; try (cbn; lia). do 6 (destruct p as [p|p|]; try (cbn; lia)).
  destruct (_ && _); cbn [fst]; [|lia]. repeat split_if; lia.
Qed.

Lemma ParseUint0_uint64 s z : ParseUint0 s = Ok z → is_uint64 z.
Proof.
  unfold ParseUint0. destruct s as [|c s]; [done|].
  pose proof (base_prefix_pos (c :: s)) as Hb. destruct (base_prefix (c :: s)) as [base digits]. cbn in Hb.
  destruct (parse_digits _ _ _ _) as [n|] eqn:Hp; [|done]. apply parse_digits_range in Hp; [|done|lia].
  split_if; [done|]. intros [= <-]. unfold is_uint64. lia.
Qed.

Lemma ParseInt0_int64 s z : ParseInt0 s = Ok z → is_int64 z.
Proof.
  unfold ParseInt0. destruct (match s with 45 :: _ => _ | _ => _ end) as [neg digits].
  destruct (ParseUint0 digits) as [un|] eqn:Hu; [|done]. apply ParseUint0_uint64 in Hu.
  apply signed_int64. by destruct Hu.
Qed.
