(* ===== verification/FloatText.v ===== *)
(** * Writing a float64 down

    A text from which [strconv.ParseFloat] reads back a given float64, for
    every float64: the hexadecimal form of its mantissa and exponent, and the
    names of the values that are not finite. *)

From Corelib Require Import SpecFloat.
From S2P Require Import Prelude GoLib Strconv GoParse.

(** The bit patterns of a float64: at most 53 bits of mantissa, an exponent in
    range. *)
Definition is_float64 (x : float64) : Prop := valid_binary 53 1024 x = true.

Definition minus (s : bool) : bytes := if s then [45] else [].

Definition float_text (x : float64) : bytes :=
  match x with
  | S754_nan => str "NaN"
  | S754_infinity s => if s then str "-Inf" else str "+Inf"
  | S754_zero s => minus s ++ str "0"
  | S754_finite s m e => minus s ++ str "0x" ++ hex16 (Zpos m) ++ str "p" ++ int_text e
  end.

(** ** Rounding leaves a float64 alone *)

Lemma digits_upper p : Zpos p < 2 ^ Zpos (digits2_pos p).
Proof.
  assert (∀ q, 2 ^ Zpos (Pos.succ (digits2_pos q)) = 2 * 2 ^ Zpos (digits2_pos q)) as Hs.
  { intros q. by rewrite Pos2Z.inj_succ, Z.pow_succ_r by lia. }
  induction p as [p IH|p IH|]; cbn [digits2_pos]; [rewrite Hs; lia|rewrite Hs; lia|done].
Qed.

Lemma bounded_range m e :
  bounded 53 1024 m e = true → Zpos m < 2 ^ 53 ∧ -1074 ≤ e ≤ 971.
Proof.
  unfold bounded, canonical_mantissa, fexp, emin. intros Hb. breflect. pose proof (digits_upper m) as Hd.
  split; [|lia]. eapply Z.lt_le_trans; [exact Hd|]. apply Z.pow_le_mono_r; lia.
Qed.

Lemma float_of_binary_bounded s m e :
  bounded 53 1024 m e = true → float_of_binary s m e = S754_finite s m e.
Proof.
  intros Hb. assert (fexp 53 1024 (Zpos (digits2_pos m) + e) = e ∧ e ≤ 1024 - 53) as [Hf He].
  { unfold bounded, canonical_mantissa in Hb. by breflect. }
  unfold float_of_binary, binary_round, shl_align. rewrite Hf, Z.sub_diag.
  unfold binary_round_aux, shr_fexp. cbn [Zdigits2]. rewrite Hf, Z.sub_diag.
  cbn [shr shr_record_of_loc shr_m loc_of_shr_record round_nearest_even].
  unfold Zdigits2. rewrite Hf, Z.sub_diag. cbn [shr shr_record_of_loc shr_m].
  by rewrite (proj2 (Z.leb_le _ _)).
Qed.

(** ** Reading the parts of a hexadecimal float *)

(** A lower-case hexadecimal digit. *)
Definition hex_char (c : Z) : Prop := ∃ d, 0 ≤ d < 16 ∧ c = hex_digit d.

Lemma hex16_chars v : Forall hex_char (hex16 v).
Proof.
  assert (∀ l, Forall is_byte l → Forall hex_char (l ≫= hex_byte)) as Hl; [|apply Hl, be_put_is_byte].
  induction 1 as [|b l [H0 H1] Hl IH]; [constructor|]. cbn [mbind list_bind]. apply Forall_app. split; [|done].
  unfold hex_byte, hex_char. rewrite !Forall_cons. split_and!; [|by eexists; split; [apply Z.mod_pos_bound|]|constructor].
  eexists. split; [|done]. split; [apply Z.div_pos; lia|apply Z.div_lt_upper_bound; lia].
Qed.

(** One digit of the mantissa. *)
Lemma read_mantissa_hex_digit c s st :
  hex_char c → read_mantissa 16 (c :: s) st = read_mantissa 16 s (read_digit 16 (default 0 (digit_val c)) st).
Proof.
  intros (d & Hd & ->). rewrite (proj1 (hex_digit_val d Hd)). cbn [default from_option id read_mantissa].
  unfold hex_digit, dec_digitb. destruct (d <? 10) eqn:Hlt; breflect.
  - rewrite !(proj2 (Z.eqb_neq _ _)) by lia.
    rewrite (proj2 (Z.leb_le 48 _)), (proj2 (Z.leb_le _ 57)) by lia. cbn [andb]. do 2 f_equal. lia.
  - assert (lower (87 + d) = 87 + d) as Hlow.
    { assert (∀ d, 10 ≤ d < 16 → d = 10 ∨ d = 11 ∨ d = 12 ∨ d = 13 ∨ d = 14 ∨ d = 15) as Hc by lia.
      destruct (Hc d ltac:(lia)) as [->|[->|[->|[->|[->| ->]]]]]; reflexivity. }
    rewrite !(proj2 (Z.eqb_neq _ _)) by lia. rewrite (proj2 (Z.leb_gt _ 57)) by lia. rewrite andb_false_r.
    rewrite Hlow, (proj2 (Z.leb_le 97 _)), (proj2 (Z.leb_le _ 102)) by lia. cbn [Z.eqb Pos.eqb andb].
    do 2 f_equal. lia.
Qed.

Lemma read_mantissa_hex s rest st :
  Forall hex_char s → m_sawdot st = false → m_underscores st = false → m_point st = 0 →
  ∃ nd, read_mantissa 16 (s ++ 112 :: rest) st =
    (MkMantissa (digits_val 16 s (m_value st)) nd 0 false
       (if bool_decide (s = []) then m_sawdigits st else true) false, 112 :: rest).
Proof.
  intros Hs. revert st. induction Hs as [|c s Hc Hs IH]; intros st Hdot Hus Hp.
  { exists (m_digits st). cbn. destruct st; cbn in *. by subst. }
  cbn [app]. rewrite read_mantissa_hex_digit by done.
  destruct (IH (read_digit 16 (default 0 (digit_val c)) st)) as [nd ->];
    [done|done|unfold read_digit; cbn; by rewrite Hdot|].
  exists nd. unfold read_digit. cbn [m_value m_sawdigits]. unfold digits_val. cbn [fold_left].
  rewrite (bool_decide_eq_false_2 (c :: s = [])) by done. by destruct (bool_decide (s = [])).
Qed.

Lemma read_exponent_digits s acc :
  Forall dec_digit s → 0 ≤ acc → fold_left (fun a d => a * 10 + (d - 48)) s acc < 10000 →
  read_exponent s acc false = (fold_left (fun a d => a * 10 + (d - 48)) s acc, false, []).
Proof.
  assert (∀ s a, Forall dec_digit s → 0 ≤ a → a ≤ fold_left (fun a d => a * 10 + (d - 48)) s a) as Hmono.
  { clear. intros s a Hs. revert a. induction Hs as [|c s Hc Hs IH]; intros a Ha; cbn [fold_left]; [lia|].
    unfold dec_digit in Hc. etrans; [|apply IH]; lia. }
  intros Hs. revert acc. induction Hs as [|c s Hc Hs IH]; intros acc Ha Hlt; [done|].
  cbn [read_exponent fold_left] in *. rewrite dec_digitb_true by done. unfold dec_digit in Hc.
  pose proof (Hmono s (acc * 10 + (c - 48)) Hs ltac:(lia)).
  rewrite (proj2 (Z.eqb_neq c 95)), (proj2 (Z.ltb_lt acc 10000)) by lia.
  replace (acc * 10 + c - 48) with (acc * 10 + (c - 48)) by lia. apply IH; lia.
Qed.

Lemma read_exponent_decimal n : 0 ≤ n < 10000 → read_exponent (decimal n) 0 false = (n, false, []).
Proof.
  intros Hn. assert (fold_left (fun a d => a * 10 + (d - 48)) (decimal n) 0 = n) as Hv
    by (apply (dec_go_val 20); lia).
  rewrite read_exponent_digits by (rewrite ?Hv; try lia; apply decimal_dec_digits). by rewrite Hv.
Qed.

Lemma read_exp_part_text e :
  -10000 < e < 10000 → read_exp_part true (112 :: int_text e) = Some (e, false, []).
Proof.
  intros He. unfold read_exp_part. change (lower 112 =? 112) with true. cbn iota.
  assert (∀ n, 0 ≤ n < 10000 → ∃ d s, decimal n = d :: s ∧ dec_digit d) as Hdec.
  { intros n Hn. destruct (decimal n) as [|d s] eqn:Hd; [by apply decimal_nonempty in Hd|].
    exists d, s. split; [done|]. pose proof (decimal_dec_digits n) as Hf. rewrite Hd in Hf. by apply Forall_cons in Hf as [? _]. }
  unfold int_text. destruct (e <? 0) eqn:Hs; breflect.
  - pose proof (read_exponent_decimal (- e) ltac:(lia)) as Hr.
    destruct (Hdec (- e) ltac:(lia)) as (d & s & Hd & Hdig). rewrite Hd in *.
    rewrite dec_digitb_true by done. rewrite Hr. do 3 f_equal. lia.
  - pose proof (read_exponent_decimal e ltac:(lia)) as Hr.
    rewrite (digits_no_sign (decimal e) (fun r => (-1, r)) (fun r => (1, r)) (1, decimal e)) by apply decimal_dec_digits.
    destruct (Hdec e ltac:(lia)) as (d & s & Hd & Hdig). rewrite Hd in *.
    rewrite dec_digitb_true by done. rewrite Hr. do 3 f_equal. lia.
Qed.

(** ** Reading a float64 back *)

Lemma special_float_hex s r : special_float (minus s ++ 48 :: 120 :: r) = None.
Proof.
  destruct s; unfold special_float; cbn [minus app fmap list_fmap].
  - change (lower_ascii 45) with 45. change (lower_ascii 48) with 48. change (lower_ascii 120) with 120.
    by rewrite !bool_decide_eq_false_2 by done.
  - change (lower_ascii 48) with 48. change (lower_ascii 120) with 120.
    by rewrite !bool_decide_eq_false_2 by done.
Qed.

Lemma ParseFloat_hex s m e :
  Zpos m < 2 ^ 64 → -10000 < e < 10000 → is_infinite (float_of_binary s m e) = false →
  ParseFloat (minus s ++ str "0x" ++ hex16 (Zpos m) ++ str "p" ++ int_text e) = Ok (float_of_binary s m e).
Proof.
  intros Hm He Hinf. change (str "0x" ++ ?r) with (48 :: 120 :: r). change (str "p" ++ ?r) with (112 :: r).
  unfold ParseFloat. rewrite special_float_hex.
  set (r := hex16 (Zpos m) ++ 112 :: int_text e).
  assert (match minus s ++ 48%Z :: 120%Z :: r with
    | 45 :: s' => (true, s') | 43 :: s' => (false, s') | _ => (false, minus s ++ 48 :: 120 :: r) end
    = (s, 48%Z :: 120%Z :: r)) as -> by (by destruct s).
  assert (bool_decide (2 < length (48%Z :: 120%Z :: r))%nat
    && (byte_at (48 :: 120 :: r) 0 =? 48) && (lower (byte_at (48 :: 120 :: r) 1) =? 120) = true) as ->.
  { rewrite bool_decide_eq_true_2; [done|]. unfold r. cbn [length]. rewrite length_app, length_hex16. simpl. lia. }
  unfold r.
  cbv beta iota zeta. change (drop 2 (48 :: 120 :: ?x)) with x.
  destruct (read_mantissa_hex (hex16 (Zpos m)) (int_text e) (MkMantissa 0 0 0 false false false)
    (hex16_chars _)) as [nd ->]; [done..|].
  cbn [m_value m_sawdigits m_underscores]. rewrite bool_decide_eq_false_2.
  2:{ intros Hn. pose proof (length_hex16 (Zpos m)) as Hl. by rewrite Hn in Hl. }
  cbn [negb]. rewrite read_exp_part_text by done. cbn [orb andb]. rewrite bool_decide_eq_false_2 by auto.
  unfold hex16. rewrite hex_bytes_val by apply be_put_is_byte. rewrite (be_get_put_id 8) by (simpl; lia).
  rewrite Z.mul_0_l, Z.add_0_l. unfold float_value. cbn [m_value m_point].
  replace (e - 4 * 0) with e by lia. by rewrite Hinf.
Qed.

(** Every float64 has a text that is read back. *)
Lemma ParseFloat_text x : is_float64 x → ParseFloat (float_text x) = Ok x.
Proof.
  unfold is_float64. destruct x as [[]|[]| |s m e]; cbn [valid_binary]; intros Hv; try reflexivity.
  destruct (bounded_range m e Hv) as [Hm He]. unfold float_text.
  rewrite ParseFloat_hex; rewrite ?float_of_binary_bounded by done; [done|lia|lia|done].
Qed.
