(* ===== verification/Flag.v ===== *)
(** * The flag package

    [flag.CommandLine], as [config.Load] uses it: flags registered by name and
    kind, an argument list parsed from left to right, a later setting of a
    flag replacing an earlier one.  The flag set exits the process on an
    error (status 2) and on a request for help (status 0). *)

From S2P Require Import Prelude GoLib Strconv GoParse.

Inductive kind := KString | KInt | KUint | KFloat64 | KDuration | KBool.

Inductive flag_val :=
| VString (s : bytes)
| VInt (z : Z)        (* int, uint and time.Duration *)
| VFloat (x : float64)
| VBool (b : bool).

(** [Value.Set] of the flag kinds; [None] is an error. *)
Definition Set_value (k : kind) (s : bytes) : option flag_val :=
  match k with
  | KString => Some (VString s)
  | KInt => match ParseInt0 s with Ok z => Some (VInt z) | Err _ => None end
  | KUint => match ParseUint0 s with Ok z => Some (VInt z) | Err _ => None end
  | KFloat64 => match ParseFloat s with Ok x => Some (VFloat x) | Err _ => None end
  | KDuration => VInt <$> ParseDuration s
  | KBool => VBool <$> ParseBool s
  end.

Definition dash : Z := 45.
Definition equals : Z := 61.

(** Cut a string at its first '='. *)
Fixpoint cut_eq (s : bytes) : bytes * option bytes :=
  match s with
  | [] => ([], None)
  | c :: s' => if c =? equals then ([], Some s')
               else let '(n, v) := cut_eq s' in (c :: n, v)
  end.

Section FlagSet.
(** The registered flags. *)
Variable formal : list (bytes * kind).

Definition formal_kind (name : bytes) : option kind :=
  snd <$> head (filter (fun f => f.1 = name) formal).

(** The flags set so far. *)
Abbreviation actual := (gmap bytes flag_val).

Inductive parse_one :=
| Seen (a : actual) (args : list bytes)
| NoMore (args : list bytes)
| ErrHelp
| Failed.

(** [f.parseOne] after the name has been found. *)
Definition set_flag (name : bytes) (value : option bytes) (args : list bytes) (a : actual) : parse_one :=
  match formal_kind name with
  | None => if bool_decide (name = str "help") || bool_decide (name = str "h") then ErrHelp else Failed
  | Some KBool =>
      match Set_value KBool (default (str "true") value) with
      | Some v => Seen (<[name := v]> a) args
      | None => Failed
      end
  | Some k =>
      match value, args with
      | Some s, _ => match Set_value k s with Some v => Seen (<[name := v]> a) args | None => Failed end
      | None, s :: args' =>
          match Set_value k s with Some v => Seen (<[name := v]> a) args' | None => Failed end
      | None, [] => Failed
      end
  end.

(** [f.parseOne]. *)
Definition parseOne (args : list bytes) (a : actual) : parse_one :=
  match args with
  | [] => NoMore []
  | s :: args' =>
      if bool_decide (length s < 2)%nat || negb (byte_at s 0 =? dash) then NoMore args
      else if (byte_at s 1 =? dash) && bool_decide (length s = 2%nat) then NoMore args'
      else
        let name := if byte_at s 1 =? dash then drop 2 s else drop 1 s in
        match name with
        | [] => Failed
        | c :: rest =>
            if (c =? dash) || (c =? equals) then Failed
            else let '(n, value) := cut_eq rest in set_flag (c :: n) value args' a
        end
  end.

Inductive parse_outcome :=
| Parsed (a : actual) (args : list bytes)
| Exits (status : Z).

(** [f.Parse]; every round but the last consumes an argument. *)
Fixpoint parse_loop (fuel : nat) (args : list bytes) (a : actual) : parse_outcome :=
  match parseOne args a with
  | NoMore args' => Parsed a args'
  | ErrHelp => Exits 0
  | Failed => Exits 2
  | Seen a' args' => match fuel with O => Parsed a' args' | S f => parse_loop f args' a' end
  end.

Definition Parse (args : list bytes) : parse_outcome := parse_loop (length args) args ∅.

(** ** Settings of registered flags *)

(** How a setting is written: one or two dashes, and the value after '=',
    as the next argument, or left out. *)
Inductive form := Inline (two : bool) (text : bytes) | Next (two : bool) (text : bytes) | Bare (two : bool).

Record setting := MkSetting { s_name : bytes; s_form : form }.

Definition dashes (two : bool) : bytes := if two then [dash; dash] else [dash].

Definition setting_args (s : setting) : list bytes :=
  match s_form s with
  | Inline two text => [dashes two ++ s_name s ++ [equals] ++ text]
  | Next two text => [dashes two ++ s_name s; text]
  | Bare two => [dashes two ++ s_name s]
  end.

(** The value a setting gives; [None] when the form does not suit the kind
    of the flag or the text is refused. *)
Definition setting_value (s : setting) : option flag_val :=
  match formal_kind (s_name s), s_form s with
  | Some k, Inline _ text => Set_value k text
  | Some KBool, Next _ _ => None
  | Some k, Next _ text => Set_value k text
  | Some KBool, Bare _ => Some (VBool true)
  | _, _ => None
  end.

Definition good_name (n : bytes) : Prop :=
  starts_with (fun c => c ≠ dash) n ∧ n ≠ [] ∧ equals ∉ n.

Definition good_setting (s : setting) : Prop := good_name (s_name s) ∧ is_Some (setting_value s).

Lemma cut_eq_plain n : equals ∉ n → cut_eq n = (n, None).
Proof.
  induction n as [|c n IH]; [done|]. rewrite not_elem_of_cons. intros [Hc Hn]. cbn [cut_eq].
  rewrite (proj2 (Z.eqb_neq _ _)) by done. by rewrite IH.
Qed.

Lemma cut_eq_inline n text : equals ∉ n → cut_eq (n ++ [equals] ++ text) = (n, Some text).
Proof.
  induction n as [|c n IH]; [done|]. rewrite not_elem_of_cons. intros [Hc Hn]. cbn [cut_eq app].
  rewrite (proj2 (Z.eqb_neq _ _)) by done. cbn [app] in IH. by rewrite IH.
Qed.

(** An argument that starts with a flag's name. *)
Lemma parseOne_named two c n s' args a :
  c ≠ dash → c ≠ equals →
  parseOne ((dashes two ++ (c :: n) ++ s') :: args) a =
  let '(m, value) := cut_eq (n ++ s') in set_flag (c :: m) value args a.
Proof.
  intros Hc He. unfold parseOne. rewrite bool_decide_eq_false_2 by (destruct two; simpl; lia).
  assert (∀ l, (byte_at (dash :: c :: l) 1 =? dash) = false) as H1.
  { intros l. by apply Z.eqb_neq. }
  destruct two; cbn [dashes app].
  - change (byte_at (dash :: dash :: c :: n ++ s') 0 =? dash) with true.
    change (byte_at (dash :: dash :: c :: n ++ s') 1 =? dash) with true. cbn [negb orb andb drop].
    rewrite bool_decide_eq_false_2 by done.
    by rewrite (proj2 (Z.eqb_neq c dash)), (proj2 (Z.eqb_neq c equals)) by done.
  - change (byte_at (dash :: c :: n ++ s') 0 =? dash) with true. rewrite H1. cbn [negb orb andb drop].
    by rewrite (proj2 (Z.eqb_neq c dash)), (proj2 (Z.eqb_neq c equals)) by done.
Qed.

Lemma parseOne_bare two c n args a :
  c ≠ dash → c ≠ equals → equals ∉ n →
  parseOne ((dashes two ++ c :: n) :: args) a = set_flag (c :: n) None args a.
Proof.
  intros Hc He Hn. pose proof (parseOne_named two c n [] args a Hc He) as Hp.
  by rewrite !app_nil_r, cut_eq_plain in Hp.
Qed.

Lemma parseOne_setting s v rest a :
  good_name (s_name s) → setting_value s = Some v →
  parseOne (setting_args s ++ rest) a = Seen (<[s_name s := v]> a) rest.
Proof.
  intros (Hst & Hne & Hin) Hv. destruct s as [name f]. cbn [s_name s_form] in *.
  unfold setting_value in Hv. unfold setting_args. cbn [s_name s_form] in *.
  destruct name as [|c n]; [done|]. unfold starts_with in Hst. cbn in Hst.
  apply not_elem_of_cons in Hin as [Hc Hin]. apply not_eq_sym in Hc.
  destruct (formal_kind (c :: n)) as [k|] eqn:Hk; [|by destruct f].
  destruct f as [two text|two text|two].
  - change ([?x] ++ rest) with (x :: rest). rewrite parseOne_named, cut_eq_inline by done. unfold set_flag. rewrite Hk. cbn [default from_option id].
    destruct k; by rewrite Hv.
  - change ([?x; text] ++ rest) with (x :: text :: rest).
    rewrite parseOne_bare by done. unfold set_flag. rewrite Hk.
    destruct k; try done; by rewrite Hv.
  - change ([?x] ++ rest) with (x :: rest).
    rewrite parseOne_bare by done. unfold set_flag. rewrite Hk.
    destruct k; try done. by injection Hv as <-.
Qed.

(** The flags a list of settings sets: the last one wins. *)
Definition apply_settings (ss : list setting) (a : actual) : actual :=
  fold_left (fun a s => match setting_value s with Some v => <[s_name s := v]> a | None => a end) ss a.

(** What ends the flags: nothing more, an operand, or "--". *)
Definition ends_flags (rest : list bytes) : option (list bytes) :=
  match rest with
  | [] => Some []
  | s :: rest' => if bool_decide (length s < 2)%nat || negb (byte_at s 0 =? dash) then Some rest
                  else if bool_decide (s = [dash; dash]) then Some rest' else None
  end.

Lemma parseOne_ends rest rest' a : ends_flags rest = Some rest' → parseOne rest a = NoMore rest'.
Proof.
  unfold ends_flags, parseOne. destruct rest as [|s rest]; [by intros [= <-]|].
  destruct (bool_decide _ || _) eqn:Hs; [by intros [= <-]|].
  destruct (bool_decide (s = [dash; dash])) eqn:Hd; [|done]. intros [= <-].
  apply bool_decide_eq_true in Hd. by subst s.
Qed.

Lemma parse_loop_settings ss rest rest' fuel a :
  Forall good_setting ss → ends_flags rest = Some rest' →
  (length ss ≤ fuel)%nat →
  parse_loop fuel ((ss ≫= setting_args) ++ rest) a = Parsed (apply_settings ss a) rest'.
Proof.
  intros Hss Hr. revert fuel a. induction Hss as [|s ss [Hn [v Hv]] Hss IH]; intros fuel a Hf.
  - cbn. destruct fuel; cbn [parse_loop]; by rewrite (parseOne_ends rest rest').
  - destruct fuel as [|fuel]; [simpl in Hf; lia|]. rewrite bind_cons. cbn [parse_loop]. rewrite <- (assoc (++)).
    rewrite (parseOne_setting s v) by done.
    rewrite IH by (simpl in Hf; lia). unfold apply_settings. cbn [fold_left]. by rewrite Hv.
Qed.

Lemma length_setting_args s : (1 ≤ length (setting_args s))%nat.
Proof. unfold setting_args. destruct (s_form s); simpl; lia. Qed.

Lemma length_settings ss : (length ss ≤ length (ss ≫= setting_args))%nat.
Proof.
  induction ss as [|s ss IH]; [done|]. rewrite bind_cons, length_app. cbn [length].
  pose proof (length_setting_args s). lia.
Qed.

(** A command line of settings sets exactly them, in order, whatever the way
    each is written; what follows the flags is left alone. *)
Lemma Parse_settings ss rest rest' :
  Forall good_setting ss → ends_flags rest = Some rest' →
  Parse ((ss ≫= setting_args) ++ rest) = Parsed (apply_settings ss ∅) rest'.
Proof.
  intros Hss Hr. apply parse_loop_settings; [done|done|]. rewrite length_app.
  pose proof (length_settings ss). lia.
Qed.

(** An unregistered flag after settings. *)
Lemma Parse_unknown ss name two more :
  Forall good_setting ss → good_name name → formal_kind name = None →
  Parse ((ss ≫= setting_args) ++ (dashes two ++ name) :: more) =
  Exits (if bool_decide (name = str "help" ∨ name = str "h") then 0 else 2).
Proof.
  intros Hss (Hst & Hne & Hin) Hk. unfold Parse.
  assert (∀ fuel a, (length ss ≤ fuel)%nat →
    parse_loop fuel ((ss ≫= setting_args) ++ (dashes two ++ name) :: more) a =
    Exits (if bool_decide (name = str "help" ∨ name = str "h") then 0 else 2)) as Hloop.
  { induction Hss as [|s ss [Hn [v Hv]] Hss IH]; intros fuel a Hf.
    - assert (parseOne ((dashes two ++ name) :: more) a =
        if bool_decide (name = str "help") || bool_decide (name = str "h") then ErrHelp else Failed) as Hp.
      { destruct name as [|c n]; [done|]. unfold starts_with in Hst. cbn in Hst.
        apply not_elem_of_cons in Hin as [Hc Hin]. rewrite parseOne_bare by done.
        unfold set_flag. by rewrite Hk. }
      change (([] ≫= setting_args) ++ (dashes two ++ name) :: more) with ((dashes two ++ name) :: more).
      rewrite bool_decide_or in *. destruct fuel; cbn [parse_loop]; rewrite Hp; by destruct (_ || _).
    - destruct fuel as [|fuel]; [simpl in Hf; lia|]. rewrite bind_cons. cbn [parse_loop].
      rewrite <- (assoc (++)), (parseOne_setting s v) by done. apply IH. simpl in Hf. lia. }
  apply Hloop. rewrite length_app. pose proof (length_settings ss). lia.
Qed.

(** The value of a flag after a list of settings. *)
Lemma apply_settings_lookup ss a name :
  Forall good_setting ss →
  apply_settings ss a !! name =
  match last (filter (fun s => s_name s = name) ss) with
  | Some s => setting_value s
  | None => a !! name
  end.
Proof.
  intros Hss. revert a. induction Hss as [|s ss [_ [v Hv]] Hss IH]; intros a; [done|].
  unfold apply_settings. cbn [fold_left]. rewrite Hv.
  change (apply_settings ss (<[s_name s:=v]> a) !! name = match last (filter (fun s => s_name s = name) (s :: ss)) with
    | Some s => setting_value s | None => a !! name end).
  rewrite IH, filter_cons. case_decide as Hn.
  - rewrite last_cons. destruct (last (filter _ ss)); [done|]. by rewrite <- Hn, lookup_insert_eq.
  - destruct (last (filter _ ss)); [done|]. by rewrite lookup_insert_ne.
Qed.

(** ** Every outcome *)

(** The loop has fuel enough: it never stops before [parseOne] says so. *)
Lemma parse_loop_fuel fuel fuel' args a :
  (length args ≤ fuel)%nat → (length args ≤ fuel')%nat → parse_loop fuel args a = parse_loop fuel' args a.
Proof.
  assert (∀ (a a' : actual) args args', parseOne args a = Seen a' args' → (length args' < length args)%nat) as Hdec.
  { clear. intros a a' args args'. unfold parseOne. destruct args as [|s args]; [done|].
    destruct (bool_decide _ || _); [done|]. destruct (_ && _); [done|].
    destruct (if byte_at s 1 =? dash then drop 2 s else _) as [|c r]; [done|]. destruct (_ || _); [done|].
    destruct (cut_eq r) as [n v]. unfold set_flag. destruct (formal_kind _) as [k|]; [|by destruct (_ || _)].
    destruct k, v as [v|], args as [|x args]; cbn [default from_option id]; try done;
      repeat case_match; intros; simplify_eq; simpl; lia. }
  revert fuel' args a. induction fuel as [|f IH]; intros fuel' args a Hf Hf'.
  - destruct args; [|simpl in Hf; lia]. by destruct fuel'.
  - destruct fuel' as [|f']; [by destruct args; [|simpl in Hf'; lia]|]. cbn [parse_loop].
    destruct (parseOne args a) as [a' args'| | |] eqn:Hp; try done. apply Hdec in Hp. apply IH; lia.
Qed.

(** A value only enters the map through [Set_value]. *)
Definition typed_actual (a : actual) : Prop :=
  ∀ name v, a !! name = Some v → ∃ k s, formal_kind name = Some k ∧ Set_value k s = Some v.

Lemma parseOne_typed args a a' args' :
  typed_actual a → parseOne args a = Seen a' args' → typed_actual a'.
Proof.
  intros Ha. unfold parseOne. destruct args as [|s args]; [done|].
  destruct (bool_decide _ || _); [done|]. destruct (_ && _); [done|].
  destruct (if byte_at s 1 =? dash then drop 2 s else _) as [|c r]; [done|]. destruct (_ || _); [done|].
  destruct (cut_eq r) as [n v]. unfold set_flag.
  destruct (formal_kind (c :: n)) as [k|] eqn:Hk; [|by destruct (_ || _)].
  assert (∀ text w, Set_value k text = Some w → typed_actual (<[c :: n := w]> a)) as Hins.
  { intros text w Hw name v'. destruct (decide (name = c :: n)) as [->|Hne].
    - rewrite lookup_insert_eq. intros [= <-]. eauto.
    - rewrite lookup_insert_ne by done. apply Ha. }
  destruct k, v as [v|], args as [|x args]; try done;
    repeat case_match; intros; simplify_eq; eauto.
Qed.

Lemma parse_loop_typed fuel args a a' rest :
  typed_actual a → parse_loop fuel args a = Parsed a' rest → typed_actual a'.
Proof.
  revert args a. induction fuel as [|f IH]; intros args a Ha; cbn [parse_loop];
    destruct (parseOne args a) as [a1 args1|r| |] eqn:Hp; try done.
  - intros [= <- <-]. by eapply parseOne_typed.
  - by intros [= <- <-].
  - apply IH. by eapply parseOne_typed.
  - by intros [= <- <-].
Qed.

Lemma Parse_typed args a rest : Parse args = Parsed a rest → typed_actual a.
Proof. apply parse_loop_typed. intros name v. by rewrite lookup_empty. Qed.
End FlagSet.
