(* ===== verification/RateLimit.v ===== *)
(** * ratelimit: the four-tier NACK rate limiter (ratelimit/ratelimit.go)

    The two sliding-window limiters ([slidingWindowLimiter], keyed by strings,
    and [sequenceLimiter], keyed by sequence numbers) have the same body and
    are instances of one section.  The token buckets are
    golang.org/x/time/rate limiters kept in a map; that package is the
    parameter [RateLib].

    Times are nanoseconds on the process's monotonic clock. *)

From S2P Require Import Prelude GoLib.

(** golang.org/x/time/rate: [NewLimiter(r, b)] and [AllowN(now, 1)], which is
    what [Allow()] calls with the current time. *)
Class RateLib := {
  rate_Limiter : Type;
  NewLimiter : float64 → Z → rate_Limiter;
  AllowAt : rate_Limiter → Z → bool * rate_Limiter;
}.

(** ** Levels *)

Abbreviation Level := bytes (only parsing).

Definition LevelIP : Level := str "ip".

Definition LevelChain : Level := str "chain".

Definition LevelSequence : Level := str "sequence".

Definition LevelGroup : Level := str "group".

(** ** Sliding windows *)

Section window.
Context {K : Type} `{Countable K}.

(** [windowEntry] is the list of its timestamps, oldest first. *)
Record window_limiter := WindowLimiter {
  wl_keys : gmap K (list Z);
  wl_max : Z;
  wl_window : Z;
}.

(** The in-place compaction loop: [n] elements are left to visit, the next is
    at index [i], the survivors so far occupy the first [validIdx] cells of
    the array that is being read. *)
Fixpoint compact_loop (cutoff : Z) (n i validIdx : nat) (arr : list Z) : nat * list Z :=
  match n with
  | O => (validIdx, arr)
  | S n' =>
      match arr !! i with
      | Some ts =>
          if cutoff <? ts
          then compact_loop cutoff n' (S i) (S validIdx) (<[validIdx := ts]> arr)
          else compact_loop cutoff n' (S i) validIdx arr
      | None => (validIdx, arr)
      end
  end.

(** The loop followed by [entry.timestamps[:validIdx]]. *)
Definition prune (cutoff : Z) (arr : list Z) : list Z :=
  let '(validIdx, arr') := compact_loop cutoff (length arr) 0 0 arr in take validIdx arr'.

(** [make([]time.Time, 0, max)] panics when [max] is negative or when
    [max] 24-byte values exceed the 2^48 bytes the run-time can address. *)
Definition make_times_ok (max : Z) : bool := (0 <=? max) && (max * 24 <=? 2 ^ 48).

(** The part of [Allow] under the lock, at the time [now] read before the
    lock was taken.  [None] is the panic of [make]. *)
Definition window_Allow (key : K) (now : Z) : atomic window_limiter (option bool) :=
  fun r =>
    let entry :=
      match wl_keys r !! key with
      | Some ts => Some ts
      | None => if make_times_ok (wl_max r) then Some [] else None
      end in
    match entry with
    | None => (None, r)
    | Some ts =>
        let cutoff := now - wl_window r in
        let ts' := prune cutoff ts in
        if wl_max r <=? Z.of_nat (length ts')
        then (Some false, WindowLimiter (<[key := ts']> (wl_keys r)) (wl_max r) (wl_window r))
        else (Some true,
              WindowLimiter (<[key := ts' ++ [now]]> (wl_keys r)) (wl_max r) (wl_window r))
    end.

Definition newWindowLimiter (max window : Z) : window_limiter := WindowLimiter ∅ max window.
End window.
Arguments window_limiter K {_ _}.

(** *** The limiter keyed by strings *)

Abbreviation slidingWindowLimiter := (window_limiter bytes).

Definition newSlidingWindowLimiter (max window : Z) : slidingWindowLimiter :=
  newWindowLimiter max window.

Definition slidingWindowLimiter_Allow {W : Type} (now : atomic W Z) (l : lens W slidingWindowLimiter)
    (key : bytes) : Prog W bool :=
  t ← perform now;
  r ← perform (zoom l (window_Allow key t));
  unwrap r.

(** *** The limiter keyed by sequence numbers *)

Abbreviation sequenceLimiter := (window_limiter Z).

Definition newSequenceLimiter (max window : Z) : sequenceLimiter := newWindowLimiter max window.

Definition sequenceLimiter_Allow {W : Type} (now : atomic W Z) (l : lens W sequenceLimiter)
    (seqNum : Z) : Prog W bool :=
  t ← perform now;
  r ← perform (zoom l (window_Allow seqNum t));
  unwrap r.

(** ** Token buckets *)

Section limiter.
Context {RL : RateLib}.

Record tokenBucketLimiter := TokenBucketLimiter {
  tb_limit : gmap bytes rate_Limiter;
  tb_r : float64;
  tb_burst : Z;
}.

Definition newTokenBucketLimiter (tokensPerSec : float64) (burst : Z) : tokenBucketLimiter :=
  TokenBucketLimiter ∅ tokensPerSec burst.

(** The part of [Allow] under the lock: find or create the key's limiter. *)
Definition tb_ensure (key : bytes) : atomic tokenBucketLimiter unit :=
  fun t =>
    match tb_limit t !! key with
    | Some _ => (tt, t)
    | None =>
        (tt, TokenBucketLimiter (<[key := NewLimiter (tb_r t) (tb_burst t)]> (tb_limit t))
               (tb_r t) (tb_burst t))
    end.

(** [l.Allow()] on the limiter found: it is shared through the map. *)
Definition tb_take (key : bytes) (now : Z) : atomic tokenBucketLimiter bool :=
  fun t =>
    match tb_limit t !! key with
    | Some lim =>
        ((AllowAt lim now).1,
         TokenBucketLimiter (<[key := (AllowAt lim now).2]> (tb_limit t)) (tb_r t) (tb_burst t))
    | None => (false, t)
    end.

Definition tokenBucketLimiter_Allow {W : Type} (now : atomic W Z) (l : lens W tokenBucketLimiter)
    (key : bytes) : Prog W bool :=
  _ ← perform (zoom l (tb_ensure key));
  t ← perform now;
  perform (zoom l (tb_take key t)).

(** ** The four-tier limiter *)

Record Limiter := MkLimiter {
  ipLimiter : tokenBucketLimiter;
  chainLimiter : slidingWindowLimiter;
  seqLimiter : sequenceLimiter;
  groupLimiter : tokenBucketLimiter;
}.

Record Config := MkConfig {
  IPRate : float64;
  IPBurst : Z;
  SenderRate : float64;
  SenderWindow : Z;
  ChainRate : float64;
  ChainWindow : Z;
  SequenceMax : Z;
  SequenceWindow : Z;
  GroupRate : float64;
  GroupBurst : Z;
}.

(** [New]; [oob] is the implementation's out-of-range float conversion. *)
Definition New (oob : float64 → Z) (cfg : Config) : Limiter :=
  let seqWindow := if SequenceWindow cfg <=? 0 then Minute else SequenceWindow cfg in
  let chainRate :=
    if float_eqb (ChainRate cfg) float_zero && negb (float_eqb (SenderRate cfg) float_zero)
    then SenderRate cfg else ChainRate cfg in
  let chainWindow1 :=
    if (ChainWindow cfg <=? 0) && (0 <? SenderWindow cfg)
    then SenderWindow cfg else ChainWindow cfg in
  let chainWindow := if chainWindow1 <=? 0 then Minute else chainWindow1 in
  let chainMax0 := float_to_int oob chainRate in
  let chainMax := if chainMax0 <=? 0 then 500 else chainMax0 in
  let groupRate :=
    if float_leb (GroupRate cfg) float_zero then float_of_Z 200 else GroupRate cfg in
  let groupBurst := if GroupBurst cfg <=? 0 then 50 else GroupBurst cfg in
  MkLimiter
    (newTokenBucketLimiter (IPRate cfg) (IPBurst cfg))
    (newSlidingWindowLimiter chainMax chainWindow)
    (newSequenceLimiter (SequenceMax cfg) seqWindow)
    (newTokenBucketLimiter groupRate groupBurst).

Definition ip_lens : lens Limiter tokenBucketLimiter :=
  Lens ipLimiter (fun x r => MkLimiter x (chainLimiter r) (seqLimiter r) (groupLimiter r)).

Definition chain_lens : lens Limiter slidingWindowLimiter :=
  Lens chainLimiter (fun x r => MkLimiter (ipLimiter r) x (seqLimiter r) (groupLimiter r)).

Definition seq_lens : lens Limiter sequenceLimiter :=
  Lens seqLimiter (fun x r => MkLimiter (ipLimiter r) (chainLimiter r) x (groupLimiter r)).

Definition group_lens : lens Limiter tokenBucketLimiter :=
  Lens groupLimiter (fun x r => MkLimiter (ipLimiter r) (chainLimiter r) (seqLimiter r) x).

(** [Allow]: tiers 1 and 3, before the cache lookup. *)
Definition Allow {W : Type} (now : atomic W Z) (l : lens W Limiter) (srcIP : bytes) (startSeq : Z)
    : Prog W (bool * Level) :=
  ok ← tokenBucketLimiter_Allow now (lens_comp l ip_lens) (IP_String srcIP);
  if negb ok then mret (false, LevelIP) else
  ok ← sequenceLimiter_Allow now (lens_comp l seq_lens) startSeq;
  if negb ok then mret (false, LevelSequence) else
  mret (true, str "").

(** The key of the chain tier: [fmt.Sprintf("%s:%016x", srcIP, hashKey)]. *)
Definition chainKey (srcIP : bytes) (hashKey : Z) : bytes :=
  IP_String srcIP ++ [colon] ++ hex16 hashKey.

(** [AllowChain]: tier 2, skipped for an unstamped frame. *)
Definition AllowChain {W : Type} (now : atomic W Z) (l : lens W Limiter) (srcIP : bytes)
    (hashKey : Z) : Prog W bool :=
  if hashKey =? 0 then mret true
  else slidingWindowLimiter_Allow now (lens_comp l chain_lens) (chainKey srcIP hashKey).

(** The key of the group tier: [fmt.Sprintf("%s:%d", srcIP, groupIdx)]. *)
Definition groupKey (srcIP : bytes) (groupIdx : Z) : bytes :=
  IP_String srcIP ++ [colon] ++ decimal groupIdx.

(** [AllowGroup]: tier 4, after a cache hit. *)
Definition AllowGroup {W : Type} (now : atomic W Z) (l : lens W Limiter) (srcIP : bytes)
    (groupIdx : Z) : Prog W bool :=
  tokenBucketLimiter_Allow now (lens_comp l group_lens) (groupKey srcIP groupIdx).
End limiter.

(** ** Reference specification of a sliding window

    The specification keeps the whole history of admitted calls: a call is
    admitted when fewer than [max] calls for its key were admitted during the
    last [window]. *)
Section window_spec.
Context {K : Type} `{Countable K}.

(** The calls of a run, with the answers and the final limiter. *)
Fixpoint window_run (r : window_limiter K) (calls : list (K * Z))
    : list (option bool) * window_limiter K :=
  match calls with
  | [] => ([], r)
  | (key, now) :: calls' =>
      let '(b, r') := window_Allow key now r in
      let '(bs, r'') := window_run r' calls' in
      (b :: bs, r'')
  end.

Definition admissions (key : K) (hist : list (K * Z)) : list Z :=
  snd <$> filter (fun p => p.1 = key) hist.

Definition spec_admits (max window : Z) (hist : list (K * Z)) (key : K) (now : Z) : bool :=
  Z.of_nat (length (filter (fun t => now - window < t) (admissions key hist))) <? max.

Fixpoint spec_run (max window : Z) (hist : list (K * Z)) (calls : list (K * Z))
    : list bool * list (K * Z) :=
  match calls with
  | [] => ([], hist)
  | (key, now) :: calls' =>
      let b := spec_admits max window hist key now in
      let hist' := if b then hist ++ [(key, now)] else hist in
      let '(bs, hist'') := spec_run max window hist' calls' in
      (b :: bs, hist'')
  end.

(** The admitted calls of [calls], given their answers. *)
Definition admitted (calls : list (K * Z)) (answers : list (option bool)) : list (K * Z) :=
  fst <$> filter (fun p => p.2 = Some true) (zip calls answers).

Definition stamps (r : window_limiter K) (key : K) : list Z := default [] (wl_keys r !! key).

(** Calls arrive in clock order: the critical sections run in the order of
    the times read before them. *)
Definition in_clock_order (calls : list (K * Z)) : Prop := StronglySorted Z.le (snd <$> calls).

(** *** The compaction loop is a filter *)

Lemma compact_loop_spec cutoff n i v arr :
  (v ≤ i)%nat → (i + n = length arr)%nat →
  let '(v', arr') := compact_loop cutoff n i v arr in
  take v' arr' = take v arr ++ filter (fun t => cutoff < t) (drop i arr).
Proof.
  revert i v arr. induction n as [|n IH]; intros i v arr Hv Hn; cbn [compact_loop].
  - rewrite drop_ge by lia. by rewrite app_nil_r.
  - destruct (lookup_lt_is_Some_2 arr i) as [ts Hts]; [lia|]. rewrite Hts.
    rewrite (drop_S _ _ _ Hts). destruct (cutoff <? ts) eqn:E; breflect.
    + specialize (IH (S i) (S v) (<[v := ts]> arr)).
      rewrite length_insert in IH. specialize (IH ltac:(lia) ltac:(lia)).
      destruct (compact_loop _ _ _ _ _) as [v' arr']. rewrite IH.
      rewrite (take_S_r _ _ ts) by (apply list_lookup_insert_eq; lia).
      rewrite take_insert_ge, drop_insert_lt by lia.
      by rewrite filter_cons_True, <- (assoc (++)).
    + specialize (IH (S i) v arr ltac:(lia) ltac:(lia)).
      destruct (compact_loop _ _ _ _ _) as [v' arr']. rewrite IH.
      by rewrite filter_cons_False by lia.
Qed.

Lemma prune_filter cutoff arr : prune cutoff arr = filter (fun t => cutoff < t) arr.
Proof.
  unfold prune. pose proof (compact_loop_spec cutoff (length arr) 0 0 arr) as Hs.
  destruct (compact_loop _ _ _ _ _) as [v' arr']. rewrite Hs by lia. by rewrite drop_0.
Qed.

(** *** One call, in terms of the timestamps *)

Lemma window_Allow_stamps (key : K) now r :
  make_times_ok (wl_max r) = true →
  let live := filter (fun t => now - wl_window r < t) (stamps r key) in
  let b := Z.of_nat (length live) <? wl_max r in
  window_Allow key now r =
    (Some b, WindowLimiter (<[key := if b then live ++ [now] else live]> (wl_keys r))
               (wl_max r) (wl_window r)).
Proof.
  intros Hok live b. unfold window_Allow. rewrite Hok.
  replace (match wl_keys r !! key with Some ts => Some ts | None => Some [] end)
    with (Some (stamps r key)) by (unfold stamps; by destruct (wl_keys r !! key)).
  rewrite prune_filter. fold live.
  replace (wl_max r <=? Z.of_nat (length live)) with (negb b)
    by (unfold b; rewrite <- Z.leb_antisym; done).
  by destruct b.
Qed.

Lemma window_Allow_config (key : K) now r :
  wl_max (window_Allow key now r).2 = wl_max r ∧ wl_window (window_Allow key now r).2 = wl_window r.
Proof.
  unfold window_Allow. destruct (wl_keys r !! key); [|destruct (make_times_ok _)]; try done;
    by destruct (wl_max r <=? _).
Qed.

(** *** Refinement *)

(** [r] represents [hist] at time [t0]: they agree on every cutoff a later
    call can use. *)
Definition represents (r : window_limiter K) (hist : list (K * Z)) (t0 : Z) : Prop :=
  ∀ key cutoff, t0 - wl_window r ≤ cutoff →
    filter (fun t => cutoff < t) (stamps r key) =
    filter (fun t => cutoff < t) (admissions key hist).

Lemma admissions_snoc (key : K) hist k t :
  admissions key (hist ++ [(k, t)]) =
  admissions key hist ++ (if decide (k = key) then [t] else []).
Proof.
  unfold admissions. rewrite filter_app, fmap_app. f_equal.
  rewrite filter_cons. simpl. by destruct (decide (k = key)).
Qed.

Lemma represents_step r hist t0 (key : K) now :
  make_times_ok (wl_max r) = true → t0 ≤ now → represents r hist t0 →
  (window_Allow key now r).1 = Some (spec_admits (wl_max r) (wl_window r) hist key now) ∧
  represents (window_Allow key now r).2
    (if spec_admits (wl_max r) (wl_window r) hist key now then hist ++ [(key, now)] else hist) now.
Proof.
  intros Hok Ht Hrep. rewrite window_Allow_stamps by done. cbn [fst snd].
  pose proof (Hrep key (now - wl_window r) ltac:(lia)) as Hlive.
  assert (spec_admits (wl_max r) (wl_window r) hist key now =
    (Z.of_nat (length (filter (fun t => now - wl_window r < t) (stamps r key))) <? wl_max r)) as ->.
  { unfold spec_admits. by rewrite Hlive. }
  split; [done|]. intros k cutoff Hc. cbn [wl_window] in *. unfold stamps at 1. cbn [wl_keys].
  destruct (decide (key = k)) as [<-|Hne].
  - rewrite lookup_insert_eq. cbn [default from_option id].
    assert (∀ l : list Z, filter (fun t => cutoff < t) (filter (fun t => now - wl_window r < t) l)
      = filter (fun t => cutoff < t) l) as Hsub by (intros l; apply filter_filter_sub; lia).
    destruct (_ <? wl_max r).
    + rewrite admissions_snoc, decide_True by done. rewrite !filter_app, Hsub.
      by rewrite (Hrep key cutoff) by lia.
    + rewrite Hsub. apply Hrep. lia.
  - rewrite lookup_insert_ne by done.
    replace (admissions k (if _ <? wl_max r then hist ++ [(key, now)] else hist))
      with (admissions k hist).
    + apply Hrep. lia.
    + destruct (_ <? wl_max r); [|done]. by rewrite admissions_snoc, decide_False, app_nil_r.
Qed.

Lemma window_run_refines r hist t0 (calls : list (K * Z)) :
  make_times_ok (wl_max r) = true → represents r hist t0 →
  in_clock_order calls → Forall (fun c => t0 ≤ c.2) calls →
  (window_run r calls).1 = Some <$> (spec_run (wl_max r) (wl_window r) hist calls).1.
Proof.
  revert r hist t0. induction calls as [|[key now] calls IH]; intros r hist t0 Hok Hrep Hs Ht; [done|].
  cbn [window_run spec_run].
  apply Forall_cons in Ht as [Ht _]. cbn in Ht.
  apply StronglySorted_inv in Hs as [Hs Hnow].
  destruct (represents_step r hist t0 key now Hok Ht Hrep) as [Hb Hrep'].
  destruct (window_Allow_config key now r) as [Hmax Hwin].
  destruct (window_Allow key now r) as [b r']. cbn [fst snd] in *. subst b.
  specialize (IH r' _ now ltac:(by rewrite Hmax) Hrep' Hs).
  rewrite Hmax, Hwin in IH.
  destruct (window_run r' calls) as [bs r'']. destruct (spec_run _ _ _ calls) as [bs' h'].
  cbn. f_equal. apply IH.
  assert (Forall (Z.le now) (snd <$> calls)) as Hn by exact Hnow. by rewrite Forall_fmap in Hn.
Qed.

Lemma represents_new max window t0 : represents (newWindowLimiter max window) [] t0.
Proof. done. Qed.
End window_spec.

Section window_bound.
Context {K : Type} `{Countable K}.

(** How many calls for [key] were admitted during [(T - window, T]]. *)
Definition admitted_in_window (window T : Z) (key : K) (hist : list (K * Z)) : Z :=
  Z.of_nat (length (filter (fun t => T - window < t ∧ t ≤ T) (admissions key hist))).

(** A history whose calls are all at most [t0] and that respects the cap. *)
Definition capped (max window : Z) (hist : list (K * Z)) (t0 : Z) : Prop :=
  Forall (fun c => c.2 ≤ t0) hist ∧ ∀ key T, admitted_in_window window T key hist ≤ max.

Lemma admissions_le (key : K) hist t0 :
  Forall (fun c => c.2 ≤ t0) hist → Forall (fun t => t ≤ t0) (admissions key hist).
Proof. intros Hh. unfold admissions. apply Forall_fmap, Forall_filter_keep. done. Qed.

Lemma capped_step max window hist t0 (key : K) now :
  t0 ≤ now → capped max window hist t0 →
  capped max window
    (if spec_admits max window hist key now then hist ++ [(key, now)] else hist) now.
Proof.
  intros Ht [Hle Hcap].
  assert (Forall (fun c : K * Z => c.2 ≤ now) hist) as Hle'
    by (eapply Forall_impl; [exact Hle|]; simpl; intros; lia).
  destruct (spec_admits _ _ _ _ _) eqn:Hadm; [|by split].
  split. { apply Forall_app. repeat constructor; auto. simpl. lia. }
  intros k T. unfold admitted_in_window. rewrite admissions_snoc, filter_app, length_app.
  destruct (decide (key = k)) as [<-|Hne].
  2:{ rewrite filter_nil. simpl. rewrite Nat.add_0_r. apply Hcap. }
  destruct (decide (now ≤ T)) as [HT|HT].
  - unfold spec_admits in Hadm. breflect.
    pose proof (filter_mono (fun t => T - window < t ∧ t ≤ T) (fun t => now - window < t)
      (admissions key hist)) as Hm.
    pose proof (length_filter (fun t => T - window < t ∧ t ≤ T) [now]). simpl in *.
    specialize (Hm ltac:(apply Forall_forall; intros; lia)). lia.
  - rewrite (filter_none _ [now]) by (repeat constructor; lia). simpl.
    rewrite Nat.add_0_r. apply Hcap.
Qed.

Lemma spec_run_capped max window (hist : list (K * Z)) t0 calls :
  capped max window hist t0 → in_clock_order calls → Forall (fun c => t0 ≤ c.2) calls →
  ∃ t1, capped max window (spec_run max window hist calls).2 t1.
Proof.
  revert hist t0. induction calls as [|[key now] calls IH]; intros hist t0 Hc Hs Ht; [by exists t0|].
  cbn [spec_run]. apply Forall_cons in Ht as [Ht _]. apply StronglySorted_inv in Hs as [Hs Hnow].
  assert (Forall (Z.le now) (snd <$> calls)) as Hn by exact Hnow. rewrite Forall_fmap in Hn.
  destruct (IH _ now (capped_step max window hist t0 key now Ht Hc) Hs Hn) as [t1 H1].
  exists t1. by destruct (spec_run _ _ _ calls).
Qed.

Lemma admitted_cons (c : K * Z) b calls bs :
  admitted (c :: calls) (Some b :: bs) = (if b : bool then [c] else []) ++ admitted calls bs.
Proof.
  unfold admitted. cbn [zip_with]. rewrite filter_cons. cbn [snd].
  by destruct b; [rewrite decide_True|rewrite decide_False].
Qed.

Lemma spec_run_hist max window (hist : list (K * Z)) calls :
  (spec_run max window hist calls).2 =
  hist ++ admitted calls (Some <$> (spec_run max window hist calls).1).
Proof.
  revert hist. induction calls as [|[key now] calls IH]; intros hist; cbn [spec_run].
  - unfold admitted. by rewrite app_nil_r.
  - set (b := spec_admits max window hist key now).
    specialize (IH (if b then hist ++ [(key, now)] else hist)).
    destruct (spec_run _ _ _ calls) as [bs h]. cbn [fst snd] in *. rewrite IH.
    rewrite fmap_cons, admitted_cons. destruct b; [by rewrite <- (assoc (++))|done].
Qed.

Lemma in_clock_order_head key now (calls : list (K * Z)) :
  in_clock_order ((key, now) :: calls) → Forall (fun c => now ≤ c.2) ((key, now) :: calls).
Proof.
  intros Hs. apply StronglySorted_inv in Hs as [_ Hnow].
  assert (Forall (Z.le now) (snd <$> calls)) as Hn by exact Hnow. rewrite Forall_fmap in Hn.
  by constructor.
Qed.

Lemma in_clock_order_lower (calls : list (K * Z)) :
  in_clock_order calls → ∃ t0, Forall (fun c => t0 ≤ c.2) calls.
Proof.
  destruct calls as [|[key now] calls]; intros Hs; [by exists 0|].
  exists now. by apply (in_clock_order_head key).
Qed.

(** C8: a sliding-window limiter refines its specification.  On every
    sequence of calls whose critical sections run in clock order, the
    limiter that compacts, in place, the timestamps of each key answers
    exactly like the reference that remembers every admission: a call is
    admitted iff fewer than [max] calls for the same key were admitted
    during the last [window]. *)
Theorem window_refines_spec (max window : Z) (calls : list (K * Z)) :
  make_times_ok max = true → in_clock_order calls →
  (window_run (newWindowLimiter max window) calls).1 = Some <$> (spec_run max window [] calls).1.
Proof.
  intros Hok Hs. destruct (in_clock_order_lower calls Hs) as [t0 Ht].
  exact (window_run_refines (newWindowLimiter max window) [] t0 calls Hok (represents_new _ _ _) Hs Ht).
Qed.

(** C9: the cap of a sliding-window tier.  When the critical sections run in
    clock order, no window [(T - window, T]] ever contains more than [max]
    admitted calls for one key, whatever the other keys do. *)
Theorem window_cap (max window : Z) (calls : list (K * Z)) (key : K) (T : Z) :
  make_times_ok max = true → in_clock_order calls →
  admitted_in_window window T key
    (admitted calls (window_run (newWindowLimiter max window) calls).1) ≤ max.
Proof.
  intros Hok Hs. destruct (in_clock_order_lower calls Hs) as [t0 Ht].
  rewrite (window_run_refines (newWindowLimiter max window) [] t0 calls Hok (represents_new _ _ _) Hs Ht).
  cbn [wl_max wl_window newWindowLimiter].
  pose proof (spec_run_hist max window [] calls) as Hh. cbn in Hh. rewrite <- Hh.
  apply andb_true_iff in Hok as [Hmax _]. breflect.
  destruct (spec_run_capped max window [] t0 calls) as [t1 [_ Hcap]]; auto.
  split; [constructor|]. intros k T'. change (0 ≤ max). done.
Qed.
End window_bound.

(** ** Recovery, memory and interference *)

Section window_more.
Context {K : Type} `{Countable K}.

(** No key holds more timestamps than the cap: an invariant of the critical
    section alone, whatever times the goroutines pass. *)
Definition window_ok (r : window_limiter K) : Prop :=
  ∀ key ts, wl_keys r !! key = Some ts → Z.of_nat (length ts) ≤ Z.max 0 (wl_max r).

Lemma window_Allow_ok (key : K) now r : window_ok r → window_ok (window_Allow key now r).2.
Proof.
  intros Hok. unfold window_Allow.
  set (entry := match wl_keys r !! key with Some ts => Some ts | None => _ end).
  assert (∀ ts, entry = Some ts → Z.of_nat (length ts) ≤ Z.max 0 (wl_max r)) as Hentry.
  { intros ts Hts. unfold entry in Hts. destruct (wl_keys r !! key) eqn:E.
    - simplify_eq. by apply (Hok key).
    - destruct (make_times_ok _); simplify_eq. simpl. lia. }
  destruct entry as [ts|]; [|done]. specialize (Hentry ts eq_refl).
  rewrite prune_filter. set (live := filter _ ts).
  assert (Z.of_nat (length live) ≤ Z.max 0 (wl_max r)).
  { pose proof (length_filter (fun t => now - wl_window r < t) ts). unfold live. lia. }
  destruct (wl_max r <=? _) eqn:E; breflect; intros k l Hl; cbn in *;
    (destruct (decide (key = k)) as [->|];
     [rewrite lookup_insert_eq in Hl|rewrite lookup_insert_ne in Hl by done; by apply (Hok k)]);
    simplify_eq; rewrite ?length_app; simpl; lia.
Qed.

Lemma window_run_admits (key : K) times r t0 :
  make_times_ok (wl_max r) = true →
  StronglySorted Z.le times → Forall (Z.le t0) times →
  Z.of_nat (length (filter (fun t => t0 - wl_window r < t) (stamps r key)) + length times) ≤ wl_max r →
  (window_run r (pair key <$> times)).1 = replicate (length times) (Some true).
Proof.
  revert r t0. induction times as [|now times IH]; intros r t0 Hok Hs Ht Hroom; [done|].
  cbn [fmap list_fmap window_run]. rewrite window_Allow_stamps by done.
  apply StronglySorted_inv in Hs as [Hs Hnow]. apply Forall_cons in Ht as [Ht _].
  pose proof (filter_mono (fun t => now - wl_window r < t) (fun t => t0 - wl_window r < t)
    (stamps r key) ltac:(apply Forall_forall; intros; lia)) as Hm. simpl in Hroom.
  set (live := filter (fun t => now - wl_window r < t) (stamps r key)) in *.
  assert ((Z.of_nat (length live) <? wl_max r) = true) as -> by (apply Z.ltb_lt; lia).
  cbv zeta. set (r' := WindowLimiter _ _ _).
  specialize (IH r' now Hok Hs Hnow).
  change (pair key <$> times) with (list_fmap _ _ (pair key) times) in IH.
  destruct (window_run r' _) as [bs r'']. cbn [fst] in *. cbn [length replicate]. f_equal.
  apply IH. unfold r', stamps. cbn [wl_keys wl_max wl_window]. rewrite lookup_insert_eq.
  cbn [default from_option id]. pose proof (length_filter (fun t => now - wl_window r < t) (live ++ [now])).
  rewrite length_app in *. simpl in *. lia.
Qed.

(** C25: a quiet key is re-admitted at full capacity.  If every timestamp kept
    for [key] is at least [window] old at time [t0], then the next calls for
    that key, up to [max] of them, in clock order from [t0] on, are all
    admitted. *)
Theorem window_recovers (r : window_limiter K) (key : K) (t0 : Z) (times : list Z) :
  make_times_ok (wl_max r) = true →
  Forall (fun t => t ≤ t0 - wl_window r) (stamps r key) →
  StronglySorted Z.le times → Forall (Z.le t0) times →
  Z.of_nat (length times) ≤ wl_max r →
  (window_run r (pair key <$> times)).1 = replicate (length times) (Some true).
Proof.
  intros Hok Hold Hs Ht Hlen. apply (window_run_admits key times r t0); auto.
  rewrite filter_none; [simpl; lia|]. eapply Forall_impl; [exact Hold|]. simpl. intros. lia.
Qed.

Lemma window_Allow_dom (key : K) now r :
  make_times_ok (wl_max r) = true →
  dom (wl_keys (window_Allow key now r).2) = {[key]} ∪ dom (wl_keys r).
Proof. intros Hok. rewrite window_Allow_stamps by done. apply dom_insert_L. Qed.

Lemma window_run_dom r (calls : list (K * Z)) :
  make_times_ok (wl_max r) = true →
  dom (wl_keys (window_run r calls).2) = list_to_set calls.*1 ∪ dom (wl_keys r).
Proof.
  revert r. induction calls as [|[key now] calls IH]; intros r Hok; [set_solver|].
  cbn [window_run]. destruct (window_Allow_config key now r) as [Hmax _].
  pose proof (window_Allow_dom key now r Hok) as Hd.
  destruct (window_Allow key now r) as [b r']. cbn [snd] in *.
  specialize (IH r' ltac:(by rewrite Hmax)). destruct (window_run r' calls) as [bs r''].
  cbn [snd] in *. rewrite IH, Hd. set_solver.
Qed.

(** Keys are never freed.  After any sequence of calls, expired or not,
    refused or not, the limiter holds one map entry for every key it has ever
    seen: only the timestamps inside an entry are bounded. *)
Lemma window_keys_never_freed (max window : Z) (calls : list (K * Z)) :
  make_times_ok max = true → NoDup calls.*1 →
  size (wl_keys (window_run (newWindowLimiter max window) calls).2) = length calls.
Proof.
  intros Hok Hnd. rewrite <- size_dom, window_run_dom by done. cbn. rewrite dom_empty_L, right_id_L by apply _.
  rewrite size_list_to_set by done. by rewrite length_fmap.
Qed.
End window_more.

(** *** A witness of the clock-order hypothesis *)

(** Two windows of 60 ns with room for two calls per key. *)
Definition demo_calls : list (Z * Z) := [(7, 10); (7, 11); (9, 12); (7, 13); (7, 71)].

Example demo_answers :
  (window_run (newWindowLimiter 2 60) demo_calls).1
  = [Some true; Some true; Some true; Some false; Some true].
Proof. vm_compute. reflexivity. Qed.

Lemma demo_in_clock_order : in_clock_order demo_calls.
Proof. unfold in_clock_order, demo_calls. simpl. repeat constructor; lia. Qed.

Lemma window_refines_spec_witness :
  (window_run (newWindowLimiter 2 60) demo_calls).1 = Some <$> (spec_run 2 60 [] demo_calls).1.
Proof. apply (window_refines_spec 2 60 demo_calls); [reflexivity|apply demo_in_clock_order]. Defined.

Lemma window_cap_witness :
  admitted_in_window 60 13 7 (admitted demo_calls (window_run (newWindowLimiter 2 60) demo_calls).1)
  ≤ 2.
Proof. apply (window_cap 2 60 demo_calls 7 13); [reflexivity|apply demo_in_clock_order]. Defined.

Lemma window_recovers_witness :
  (window_run (WindowLimiter {[7 := [10; 11]]} 2 60) (pair 7 <$> [71; 72])).1
  = replicate 2 (Some true).
Proof.
  apply (window_recovers (WindowLimiter {[7 := [10; 11]]} 2 60) 7 71 [71; 72]);
    [reflexivity| | | |simpl; lia]; repeat constructor; simpl; lia.
Defined.

Lemma window_keys_never_freed_witness :
  size (wl_keys (window_run (newWindowLimiter 2 60) [(1, 0); (2, 1000); (3, 2000)]).2) = 3%nat.
Proof.
  apply (window_keys_never_freed 2 60 [(1, 0); (2, 1000); (3, 2000)]); [reflexivity|].
  simpl. repeat constructor; set_solver.
Defined.

(** *** Interference between goroutines

    The clock is read before the lock is taken.  The store below is a list of
    clock readings still to come, one limiter and the answers given. *)
Record race_store := RaceStore {
  race_clock : list Z;
  race_limiter : sequenceLimiter;
  race_answers : list bool;
}.

Definition race_now : atomic race_store Z := fun w =>
  (default 0 (head (race_clock w)),
   RaceStore (tail (race_clock w)) (race_limiter w) (race_answers w)).

Definition race_lens : lens race_store sequenceLimiter :=
  Lens race_limiter (fun l w => RaceStore (race_clock w) l (race_answers w)).

(** A worker asks for sequence number 7 and records the answer. *)
Definition race_worker : Prog race_store unit :=
  b ← sequenceLimiter_Allow race_now race_lens 7;
  modify (fun w => RaceStore (race_clock w) (race_limiter w) (race_answers w ++ [b])).

(** Without clock order the cap can be exceeded.  Four workers share a
    limiter of two calls per 60 ns; the clock is monotone (10, 11, 50, 100),
    but the third worker is delayed between reading the clock and taking the
    lock.  All four calls are admitted, three of them, at 10, 11 and 50,
    within one window of 60 ns. *)
Lemma window_race :
  ∃ c, rtc pool_step (replicate 4 race_worker, RaceStore [10; 11; 50; 100] (newSequenceLimiter 2 60) []) c
       ∧ c.1 = replicate 4 (Ret tt) ∧ race_answers c.2 = [true; true; true; true].
Proof.
  eexists. split; [apply (schedule_steps [0; 0; 0; 1; 1; 1; 2; 3; 3; 3; 2; 2]%nat)|].
  split; vm_compute; reflexivity.
Qed.
