(* ===== verification/Overtaking.v ===== *)
(** * Sliding windows called by several goroutines

    [Allow] of a sliding-window limiter reads the clock and then takes the
    lock, so a goroutine may be overtaken by others between the two actions.
    Here any number of goroutines (the workers of [Server.Run]) call one
    limiter, each again and again; the cap of a window can then be exceeded, by
    at most one call for every goroutine but one. *)

From S2P Require Import Prelude GoLib RateLimit.

Section overtaking.
Context {K : Type} `{Countable K}.

(** A call of [Allow], of either limiter, is two actions and then the answer. *)
Lemma Allow_actions {W : Type} (now : atomic W Z) (l : lens W slidingWindowLimiter) (key : bytes)
    (l' : lens W sequenceLimiter) (seqNum : Z) :
  slidingWindowLimiter_Allow now l key =
    Atomic Z now (fun t => Atomic _ (zoom l (window_Allow key t)) (fun r => unwrap r)) ∧
  sequenceLimiter_Allow now l' seqNum =
    Atomic Z now (fun t => Atomic _ (zoom l' (window_Allow seqNum t)) (fun r => unwrap r)).
Proof. done. Qed.

(** The goroutines: each is between two calls, or has read the time of a call
    and not taken the lock yet.  [cl_log] records the calls in the order of
    their critical sections, with the answers. *)
Record callers := MkCallers {
  cl_limiter : window_limiter K;
  cl_pending : list (option (K * Z));
  cl_clock : Z;
  cl_log : list ((K * Z) * option bool);
}.

(** [now := time.Now()], and the critical section.  The clock does not go
    back. *)
Inductive call_step : callers → callers → Prop :=
| call_read p i key t :
    cl_pending p !! i = Some None → cl_clock p ≤ t →
    call_step p (MkCallers (cl_limiter p) (<[i := Some (key, t)]> (cl_pending p)) t (cl_log p))
| call_lock p i key t :
    cl_pending p !! i = Some (Some (key, t)) →
    call_step p (MkCallers (window_Allow key t (cl_limiter p)).2 (<[i := None]> (cl_pending p)) (cl_clock p)
      (cl_log p ++ [((key, t), (window_Allow key t (cl_limiter p)).1)])).

(** [n] goroutines and a new limiter. *)
Definition callers_start (n : nat) (max window t0 : Z) : callers :=
  MkCallers (newWindowLimiter max window) (replicate n None) t0 [].

(** The calls admitted. *)
Definition log_admitted (log : list ((K * Z) * option bool)) : list (K * Z) :=
  fst <$> filter (fun e => e.2 = Some true) log.

(** ** Calls that are overtaken by few *)

(** After any call, at most [k] more have an earlier time. *)
Definition overtaken_by (k : nat) (calls : list (K * Z)) : Prop :=
  ∀ l1 c l2, calls = l1 ++ c :: l2 → (length (filter (fun c' : K * Z => (c'.2 < c.2)%Z) l2) ≤ k)%nat.

Lemma overtaken_tail k c calls : overtaken_by k (c :: calls) → overtaken_by k calls.
Proof. intros Ho l1 c' l2 ->. apply (Ho (c :: l1) c' l2). done. Qed.

Section cap.
Context (window T : Z) (key : K).

(** The timestamps kept for the key that a call before [T] cannot drop. *)
Definition kept (r : window_limiter K) : nat := length (filter (fun t => T - window < t) (stamps r key)).

Lemma stamps_Allow (key' : K) now r :
  make_times_ok (wl_max r) = true →
  let live := filter (fun t => now - wl_window r < t) (stamps r key') in
  let b := Z.of_nat (length live) <? wl_max r in
  (window_Allow key' now r).1 = Some b ∧
  stamps (window_Allow key' now r).2 key =
  if decide (key' = key) then (if b then live ++ [now] else live) else stamps r key.
Proof.
  intros Hok live b. rewrite window_Allow_stamps by done. split; [done|]. unfold stamps at 1. cbn [snd wl_keys].
  fold live b. rewrite lookup_insert. by case_decide.
Qed.

(** A call that is not later than [T]: what it keeps and whether it counts. *)
Lemma kept_step (key' : K) now r :
  make_times_ok (wl_max r) = true → wl_window r = window → (key' = key → now ≤ T) →
  Z.of_nat (kept r) ≤ wl_max r →
  ∃ b, (window_Allow key' now r).1 = Some b ∧ Z.of_nat (kept (window_Allow key' now r).2) ≤ wl_max r ∧
  Z.of_nat (kept (window_Allow key' now r).2) =
  Z.of_nat (kept r) + admitted_in_window window T key (if b : bool then [(key', now)] else []).
Proof.
  intros Hok Hw Hnow Hk. destruct (stamps_Allow key' now r Hok) as [Hb Hs]. rewrite Hw in Hb, Hs.
  destruct (Z.of_nat (length (filter (fun t => now - window < t) (stamps r key'))) <? wl_max r) eqn:Hlt;
    (eexists; split; [exact Hb|]); unfold kept in *; rewrite Hs; unfold admitted_in_window, admissions;
    (case_decide as Hkey; [subst key'; specialize (Hnow eq_refl)|]); breflect.
  2:{ rewrite (filter_cons_False (fun p => p.1 = key)) by done. cbn. lia. }
  3:{ cbn. lia. }
  all: assert (∀ l : list Z, filter (fun t => T - window < t) (filter (fun t => now - window < t) l)
    = filter (fun t => T - window < t) l) as Hsub by (intros l; apply filter_filter_sub; lia).
  - pose proof (length_filter (fun t => T - window < t) (filter (fun t => now - window < t) (stamps r key))) as Hlen.
    rewrite Hsub in Hlen. rewrite filter_app, Hsub, length_app, (filter_cons_True (fun p => p.1 = key)) by done.
    cbn [fmap list_fmap snd].
    rewrite !filter_cons, !filter_nil. destruct (decide (T - window < now)).
    + rewrite decide_True by lia. cbn. lia.
    + rewrite decide_False by lia. cbn. lia.
  - rewrite Hsub. cbn. lia.
Qed.

Lemma admitted_in_window_app h1 h2 :
  admitted_in_window window T key (h1 ++ h2) =
  admitted_in_window window T key h1 + admitted_in_window window T key h2.
Proof.
  unfold admitted_in_window, admissions. rewrite filter_app, fmap_app, filter_app, length_app. lia.
Qed.

(** At most the calls of the window are admitted in it. *)
Lemma admitted_in_window_le (calls : list (K * Z)) answers :
  admitted_in_window window T key (admitted calls answers) ≤ Z.of_nat (length (filter (fun c => c.2 ≤ T) calls)).
Proof.
  revert answers. induction calls as [|c calls IH]; intros answers; [done|].
  destruct answers as [|b bs]; [apply Nat2Z.is_nonneg|]. specialize (IH bs).
  assert (admitted (c :: calls) (b :: bs) = (if decide (b = Some true) then [c] else []) ++ admitted calls bs) as ->.
  { unfold admitted. cbn [zip_with]. rewrite filter_cons. cbn [snd]. by case_decide. }
  rewrite admitted_in_window_app, (filter_cons (fun c => c.2 ≤ T)).
  assert (admitted_in_window window T key (if decide (b = Some true) then [c] else [])
    ≤ if decide (c.2 ≤ T) then 1 else 0) as Hc.
  { unfold admitted_in_window, admissions. case_decide; [|cbn; by case_decide].
    rewrite filter_cons. destruct (decide (c.1 = key)); [|cbn; by case_decide].
    cbn [fmap list_fmap]. rewrite filter_cons, !filter_nil. repeat case_decide; cbn; lia. }
  destruct (decide (c.2 ≤ T)); cbn [length]; lia.
Qed.

(** The cap, for calls that are overtaken by at most [k]. *)
Lemma window_run_overtaken k calls r :
  make_times_ok (wl_max r) = true → wl_window r = window → Z.of_nat (kept r) ≤ wl_max r → overtaken_by k calls →
  Z.of_nat (kept r) + admitted_in_window window T key (admitted calls (window_run r calls).1)
  ≤ wl_max r + Z.of_nat k.
Proof.
  revert r. induction calls as [|[key' now] calls IH]; intros r Hok Hw Hk Ho.
  { change (Z.of_nat (kept r) + 0 ≤ wl_max r + Z.of_nat k). lia. }
  destruct (decide (key' = key ∧ T < now)) as [[-> Hlate]|Hearly].
  - pose proof (Ho [] (key, now) calls eq_refl) as Hov. cbn [snd] in Hov.
    cbn [window_run]. destruct (stamps_Allow key now r Hok) as [Hb _].
    destruct (window_Allow key now r) as [b r']. cbn [fst] in Hb. subst b.
    destruct (window_run r' calls) as [bs r'']. cbn [fst]. rewrite admitted_cons, admitted_in_window_app.
    pose proof (admitted_in_window_le calls bs) as Hle.
    pose proof (filter_mono (fun c : K * Z => c.2 ≤ T) (fun c => c.2 < now) calls
      ltac:(apply Forall_forall; intros; lia)) as Hm.
    assert (∀ b : bool, admitted_in_window window T key (if b then [(key, now)] else []) = 0) as ->; [|lia].
    intros []; [|done]. unfold admitted_in_window, admissions. rewrite filter_cons_True by done.
    cbn [fmap list_fmap snd]. rewrite filter_cons_False by lia. done.
  - destruct (kept_step key' now r Hok Hw) as (b & Hb & Hk' & Heq); [|done|].
    { intros Heq. destruct (decide (now ≤ T)); [done|]. exfalso. apply Hearly. split; [done|lia]. }
    destruct (window_Allow_config key' now r) as [Hmax Hwin].
    cbn [window_run]. destruct (window_Allow key' now r) as [b' r']. cbn [fst snd] in *. subst b'.
    specialize (IH r' ltac:(by rewrite Hmax) ltac:(by rewrite Hwin) ltac:(by rewrite Hmax) (overtaken_tail _ _ _ Ho)).
    destruct (window_run r' calls) as [bs r'']. cbn [fst] in *.
    rewrite admitted_cons, admitted_in_window_app. lia.
Qed.
End cap.

Lemma window_run_app r (l1 l2 : list (K * Z)) :
  window_run r (l1 ++ l2) =
  ((window_run r l1).1 ++ (window_run (window_run r l1).2 l2).1, (window_run (window_run r l1).2 l2).2).
Proof.
  revert r. induction l1 as [|[key now] l1 IH]; intros r; cbn [app window_run fst snd].
  - by destruct (window_run r l2).
  - destruct (window_Allow key now r) as [b r']. rewrite IH. by destruct (window_run r' l1).
Qed.

Lemma window_run_config r (calls : list (K * Z)) :
  wl_max (window_run r calls).2 = wl_max r ∧ wl_window (window_run r calls).2 = wl_window r.
Proof.
  revert r. induction calls as [|[key now] calls IH]; intros r; [done|]. cbn [window_run].
  destruct (window_Allow_config key now r) as [<- <-]. destruct (window_Allow key now r) as [b r'].
  specialize (IH r'). by destruct (window_run r' calls).
Qed.

Lemma admitted_log log : admitted log.*1 log.*2 = log_admitted log.
Proof. unfold admitted, log_admitted. by rewrite zip_fst_snd. Qed.

(** ** What the goroutines can do *)

(** The calls whose time is read and that wait for the lock. *)
Definition waiting (pending : list (option (K * Z))) : list (K * Z) := omap id pending.

Lemma waiting_insert pending i o :
  (i < length pending)%nat → waiting (<[i := o]> pending) ≡ₚ (if o is Some c then [c] else []) ++ waiting (<[i := None]> pending).
Proof.
  intros Hi. unfold waiting. rewrite !insert_take_drop, !omap_app by done. cbn [omap list_omap id].
  destruct o as [c|]; [|done]. cbn. by rewrite Permutation_middle.
Qed.

Lemma waiting_le pending : (length (waiting pending) ≤ length pending)%nat.
Proof.
  induction pending as [|[c|] pending IH]; [done| |].
  - change (waiting (Some c :: pending)) with (c :: waiting pending). cbn [length]. lia.
  - change (waiting (None :: pending)) with (waiting pending). cbn [length]. lia.
Qed.

Lemma waiting_length pending i :
  (i < length pending)%nat → (S (length (waiting (<[i := None]> pending))) ≤ length pending)%nat.
Proof.
  intros Hi. unfold waiting. rewrite insert_take_drop, omap_app, length_app by done. cbn [omap list_omap id].
  pose proof (waiting_le (take i pending)). pose proof (waiting_le (drop (S i) pending)). unfold waiting in *.
  rewrite length_take, length_drop in *. lia.
Qed.

(** A call that took the lock is or will be overtaken by at most [k], and the
    log is a run of the limiter. *)
Record callers_inv (k : nat) (max window : Z) (p : callers) : Prop := MkCallersInv {
  ci_run : window_run (newWindowLimiter max window) (cl_log p).*1 = ((cl_log p).*2, cl_limiter p);
  ci_overtaken : ∀ l1 c l2, (cl_log p).*1 = l1 ++ c :: l2 →
    (length (filter (fun c' : K * Z => (c'.2 < c.2)%Z) (l2 ++ waiting (cl_pending p))) ≤ k)%nat;
  ci_log : Forall (fun c => c.2 ≤ cl_clock p) (cl_log p).*1;
  ci_waiting : Forall (fun c => c.2 ≤ cl_clock p) (waiting (cl_pending p));
  ci_goroutines : length (cl_pending p) = S k;
}.

Lemma callers_inv_start k max window t0 : callers_inv k max window (callers_start (S k) max window t0).
Proof.
  split; cbn [callers_start cl_limiter cl_pending cl_clock cl_log]; [done|by intros [|??]|done| |apply length_replicate].
  by induction (S k).
Qed.

Lemma snoc_split (log : list (K * Z)) c (P : (K * Z) → list (K * Z) → Prop) :
  (∀ l1 c' l2, log = l1 ++ c' :: l2 → P c' (l2 ++ [c])) → P c [] →
  ∀ l1 c' l2, log ++ [c] = l1 ++ c' :: l2 → P c' l2.
Proof.
  intros Hlog Hc l1 c' l2 Heq. destruct l2 as [|c2 l2 _] using rev_ind.
  - by apply app_inj_tail in Heq as [_ <-].
  - rewrite app_comm_cons, (assoc (++)) in Heq. apply app_inj_tail in Heq as [Heq <-]. by apply (Hlog l1).
Qed.

Lemma callers_inv_read k max window p i key t :
  callers_inv k max window p → cl_pending p !! i = Some None → cl_clock p ≤ t →
  callers_inv k max window
    (MkCallers (cl_limiter p) (<[i := Some (key, t)]> (cl_pending p)) t (cl_log p)).
Proof.
  intros [Hrun Hov Hlog Hwait Hlen] Hi Ht. pose proof (lookup_lt_Some _ _ _ Hi) as Hlt.
  rewrite <- (list_insert_id _ _ _ Hi) in Hov, Hwait. split; cbn [cl_limiter cl_pending cl_clock cl_log]; [done| | | |].
  - intros l1 c l2 Heq. specialize (Hov l1 c l2 Heq). rewrite Heq, Forall_app, Forall_cons in Hlog.
    rewrite (waiting_insert _ i (Some _)) by done. cbn [app].
    rewrite filter_app, (filter_cons_False (fun c' : K * Z => (c'.2 < c.2)%Z)) by (cbn; lia). by rewrite <- filter_app.
  - eapply Forall_impl; [exact Hlog|]. cbn. lia.
  - rewrite (waiting_insert _ i (Some _)) by done. constructor; [done|].
    eapply Forall_impl; [exact Hwait|]. cbn. lia.
  - by rewrite length_insert.
Qed.

Lemma callers_inv_lock k max window p i key t :
  callers_inv k max window p → cl_pending p !! i = Some (Some (key, t)) →
  callers_inv k max window
    (MkCallers (window_Allow key t (cl_limiter p)).2 (<[i := None]> (cl_pending p)) (cl_clock p)
      (cl_log p ++ [((key, t), (window_Allow key t (cl_limiter p)).1)])).
Proof.
  intros [Hrun Hov Hlog Hwait Hlen] Hi. pose proof (lookup_lt_Some _ _ _ Hi) as Hlt.
  rewrite <- (list_insert_id _ _ _ Hi) in Hwait. rewrite (waiting_insert _ i (Some _)) in Hwait by done.
  apply Forall_cons in Hwait as [Ht Hwait].
  split; cbn [cl_limiter cl_pending cl_clock cl_log]; rewrite ?fmap_app; [| | |done|by rewrite length_insert].
  - rewrite window_run_app, Hrun. cbn. by destruct (window_Allow key t (cl_limiter p)).
  - apply snoc_split with (P := fun c l => (length (filter (fun c' : K * Z => (c'.2 < c.2)%Z)
      (l ++ waiting (<[i:=None]> (cl_pending p)))) ≤ k)%nat).
    + intros l1 c l2 Heq. specialize (Hov l1 c l2 Heq). rewrite <- (list_insert_id _ _ _ Hi) in Hov.
      rewrite (waiting_insert _ i (Some _)) in Hov by done. by rewrite <- (assoc (++)).
    + etrans; [apply length_filter|]. pose proof (waiting_length _ _ Hlt). cbn. lia.
  - apply Forall_app. split; [done|]. by constructor.
Qed.

Lemma callers_reachable k max window t0 p :
  rtc call_step (callers_start (S k) max window t0) p → callers_inv k max window p.
Proof.
  apply (rtc_ind_r (callers_inv k max window)); [apply callers_inv_start|].
  intros q q' _ Hstep Hq. destruct Hstep; [by apply callers_inv_read|by apply callers_inv_lock].
Qed.

Lemma callers_inv_cap k max window p T key :
  make_times_ok max = true → callers_inv k max window p →
  admitted_in_window window T key (log_admitted (cl_log p)) ≤ max + Z.of_nat k.
Proof.
  intros Hok [Hrun Hov _ _ _]. rewrite <- admitted_log.
  pose proof (window_run_overtaken window T key k (cl_log p).*1 (newWindowLimiter max window) Hok eq_refl) as Hcap.
  rewrite Hrun in Hcap. cbn [fst wl_max newWindowLimiter] in Hcap.
  change (kept window T key (newWindowLimiter max window)) with 0%nat in Hcap.
  unfold make_times_ok in Hok. apply Hcap; [breflect; lia|].
  intros l1 c l2 Heq. specialize (Hov l1 c l2 Heq). rewrite filter_app, length_app in Hov. lia.
Qed.

(** ** The cap can be exceeded by that much

    One goroutine fills the window at [t0], the [k] others read the clock at
    [t0] too and stop before the lock; each time the first calls again, a
    window later, the limiter forgets the past, and one more of the others
    takes the lock. *)
Section attained.
Context (key : K) (t0 window : Z).

Fixpoint rounds (t : Z) (k : nat) : list (K * Z) :=
  match k with
  | O => []
  | S k' => (key, t + window) :: (key, t0) :: rounds (t + window) k'
  end.

Definition overtaking_calls (max : nat) (k : nat) : list (K * Z) := replicate max (key, t0) ++ rounds t0 k.

(** The answers. *)
Lemma stamps_run_le t calls r :
  make_times_ok (wl_max r) = true → Forall (fun c => c.2 ≤ t) calls → Forall (fun s => s ≤ t) (stamps r key) →
  Forall (fun s => s ≤ t) (stamps (window_run r calls).2 key).
Proof.
  revert r. induction calls as [|[key' now] calls IH]; intros r Hok Hc Hs; [done|].
  apply Forall_cons in Hc as [Hnow Hc]. cbn in Hnow. destruct (stamps_Allow key key' now r Hok) as [_ Hs'].
  destruct (window_Allow_config key' now r) as [Hmax _]. cbn [window_run].
  destruct (window_Allow key' now r) as [b r']. cbn [snd] in *.
  specialize (IH r' ltac:(by rewrite Hmax) Hc). destruct (window_run r' calls) as [bs r'']. apply IH. rewrite Hs'.
  case_decide as Heq; [subst key'|done]. case_match; [apply Forall_app; split; [|by constructor]|]; by apply Forall_filter_keep.
Qed.

Lemma rounds_admitted t k r :
  make_times_ok (wl_max r) = true → wl_window r = window → 1 < wl_max r → 0 < window → t0 ≤ t →
  Forall (fun s => s ≤ t) (stamps r key) →
  (window_run r (rounds t k)).1 = replicate (length (rounds t k)) (Some true).
Proof.
  revert t r. induction k as [|k IH]; intros t r Hok Hw Hmax Hpos Ht Hs; [done|]. cbn [rounds window_run length replicate].
  rewrite window_Allow_stamps, Hw by done. rewrite (filter_none _ (stamps r key))
    by (eapply Forall_impl; [exact Hs|]; cbn; lia).
  rewrite (proj2 (Z.ltb_lt (Z.of_nat (length [])) (wl_max r))) by (cbn; lia). cbv zeta.
  set (r1 := WindowLimiter _ _ _). assert (stamps r1 key = [t + window]) as Hr1
    by (unfold stamps, r1; cbn [wl_keys]; by rewrite lookup_insert_eq).
  rewrite (window_Allow_stamps key t0 r1), Hr1 by done. cbn [wl_window wl_max r1].
  rewrite filter_cons_True by lia. rewrite filter_nil. rewrite (proj2 (Z.ltb_lt _ _)) by (cbn; lia). cbv zeta.
  set (r2 := WindowLimiter _ _ _). specialize (IH (t + window) r2 Hok eq_refl Hmax Hpos ltac:(lia)).
  destruct (window_run r2 _) as [bs r3]. cbn [fst] in *. rewrite IH; [done|].
  unfold stamps, r2. cbn [wl_keys]. rewrite lookup_insert_eq. cbn. repeat constructor; lia.
Qed.

Lemma overtaking_answers (max : nat) k :
  make_times_ok (Z.of_nat max) = true → (1 < max)%nat → 0 < window →
  (window_run (newWindowLimiter (Z.of_nat max) window) (overtaking_calls max k)).1 =
  replicate (length (overtaking_calls max k)) (Some true).
Proof.
  intros Hok Hmax Hpos. unfold overtaking_calls. rewrite window_run_app. cbn [fst].
  assert (replicate max (key, t0) = pair key <$> replicate max t0) as -> by by rewrite fmap_replicate.
  set (r0 := newWindowLimiter (Z.of_nat max) window).
  rewrite (window_run_admits key (replicate max t0) r0 t0); [|done| |by apply Forall_replicate|].
  2:{ clear. induction max; cbn; constructor; [done|]. by apply Forall_replicate. }
  2:{ rewrite length_replicate. change (stamps r0 key) with (@nil Z). cbn. lia. }
  rewrite length_app, length_fmap, length_replicate, replicate_add. f_equal.
  assert (wl_max (window_run r0 (pair key <$> replicate max t0)).2 = Z.of_nat max ∧
    wl_window (window_run r0 (pair key <$> replicate max t0)).2 = window) as [Hm Hw] by apply window_run_config.
  apply rounds_admitted; [by rewrite Hm|done|rewrite Hm; lia|done|lia|].
  apply stamps_run_le; [done| |done]. rewrite Forall_fmap. apply Forall_replicate. cbn. lia.
Qed.

(** The steps. *)
Lemma insert_middle {A} (l1 l2 : list A) x y : <[length l1 := y]> (l1 ++ x :: l2) = (l1 ++ [y]) ++ l2.
Proof. rewrite insert_app_r_alt, Nat.sub_diag by done. by rewrite <- (assoc (++)). Qed.

Lemma call_once l pending c log i t :
  pending !! i = Some None → c ≤ t → ∃ l' log', log'.*1 = log.*1 ++ [(key, t)] ∧
  rtc call_step (MkCallers l pending c log) (MkCallers l' pending t log').
Proof.
  intros Hi Ht. eexists _, _. split; [|eapply rtc_l; [by apply (call_read _ i key t)|]]; cycle 1.
  - cbn [cl_limiter cl_pending cl_clock cl_log]. eapply rtc_l; [apply (call_lock _ i key t)|].
    { cbn [cl_pending]. apply list_lookup_insert_eq. by eapply lookup_lt_Some. }
    cbn [cl_limiter cl_pending cl_clock cl_log]. rewrite list_insert_insert_eq, (list_insert_id _ _ _ Hi). apply rtc_refl.
  - by rewrite fmap_app.
Qed.

Lemma fill_steps l pending log i n :
  pending !! i = Some None → ∃ l' log', log'.*1 = log.*1 ++ replicate n (key, t0) ∧
  rtc call_step (MkCallers l pending t0 log) (MkCallers l' pending t0 log').
Proof.
  intros Hi. revert l log. induction n as [|n IH]; intros l log.
  - exists l, log. by rewrite app_nil_r.
  - destruct (call_once l pending t0 log i t0 Hi ltac:(lia)) as (l1 & log1 & Hlog1 & Hs1).
    destruct (IH l1 log1) as (l2 & log2 & Hlog2 & Hs2). exists l2, log2.
    split; [rewrite Hlog2, Hlog1; by rewrite <- (assoc (++))|by etrans].
Qed.

Lemma read_steps l pending log k :
  rtc call_step (MkCallers l (pending ++ replicate k None) t0 log)
    (MkCallers l (pending ++ replicate k (Some (key, t0))) t0 log).
Proof.
  revert pending. induction k as [|k IH]; intros pending; [done|]. cbn [replicate].
  eapply rtc_l; [apply (call_read _ (length pending) key t0); cbn [cl_pending cl_clock]; [by rewrite list_lookup_middle|lia]|].
  cbn [cl_limiter cl_pending cl_clock cl_log]. rewrite insert_middle, <- (assoc (++)).
  specialize (IH (pending ++ [Some (key, t0)])). rewrite <- !(assoc (++)) in IH. exact IH.
Qed.

Lemma rounds_steps l pending log t k :
  0 < window → pending !! 0%nat = Some None → ∃ p, (cl_log p).*1 = log.*1 ++ rounds t k ∧
  rtc call_step (MkCallers l (pending ++ replicate k (Some (key, t0))) t log) p.
Proof.
  intros Hpos. revert l pending log t. induction k as [|k IH]; intros l pending log t Hp.
  - eexists. split; [|apply rtc_refl]. cbn. by rewrite app_nil_r.
  - set (q := pending ++ _).
    destruct (call_once l q t log 0 (t + window)) as (l1 & log1 & Hlog1 & Hs1);
      [by apply lookup_app_l_Some|lia|].
    assert (q !! length pending = Some (Some (key, t0))) as Hq by (unfold q; cbn; by rewrite list_lookup_middle).
    pose proof (call_lock (MkCallers l1 q (t + window) log1) _ key t0 Hq) as Hs2.
    cbn [cl_limiter cl_pending cl_clock cl_log] in Hs2. unfold q in Hs2 at 2. cbn [replicate] in Hs2.
    rewrite insert_middle in Hs2.
    edestruct (IH (window_Allow key t0 l1).2 (pending ++ [None])) as (p & Hlog & Hs3); [by apply lookup_app_l_Some|].
    exists p. split; [|etrans; [exact Hs1|]; eapply rtc_l; [exact Hs2|exact Hs3]].
    rewrite Hlog, fmap_app, Hlog1. cbn. by rewrite <- !(assoc (++)).
Qed.

Lemma overtaking_steps (max k : nat) m :
  0 < window → ∃ p, (cl_log p).*1 = overtaking_calls max k ∧ rtc call_step (callers_start (S k) m window t0) p.
Proof.
  intros Hpos. unfold callers_start. cbn [replicate].
  destruct (fill_steps (newWindowLimiter m window) (None :: replicate k None) [] 0 max eq_refl) as (l1 & log1 & Hlog1 & Hs1).
  destruct (rounds_steps l1 [None] log1 t0 k Hpos eq_refl) as (p & Hlog2 & Hs2).
  exists p. split; [by rewrite Hlog2, Hlog1|]. etrans; [exact Hs1|]. etrans; [|exact Hs2].
  apply (read_steps l1 [None] log1 k).
Qed.

(** The admitted calls of the window that ends at [t0]. *)
Lemma admitted_all (calls : list (K * Z)) : admitted calls (replicate (length calls) (Some true)) = calls.
Proof. induction calls as [|c calls IH]; [done|]. cbn [length replicate]. by rewrite admitted_cons, IH. Qed.

Lemma admitted_in_window_cons t calls :
  admitted_in_window window t0 key ((key, t) :: calls) =
  (if decide (t0 - window < t ∧ t ≤ t0) then 1 else 0) + admitted_in_window window t0 key calls.
Proof.
  unfold admitted_in_window, admissions. rewrite filter_cons_True by done. cbn [fmap list_fmap snd].
  rewrite filter_cons. case_decide; cbn [length]; lia.
Qed.

Lemma overtaking_count (max k : nat) :
  0 < window → admitted_in_window window t0 key (overtaking_calls max k) = Z.of_nat max + Z.of_nat k.
Proof.
  intros Hpos. unfold overtaking_calls. rewrite admitted_in_window_app. f_equal.
  - induction max as [|max IH]; [done|]. cbn [replicate]. rewrite admitted_in_window_cons, IH, decide_True by lia. lia.
  - assert (∀ t, t0 ≤ t → admitted_in_window window t0 key (rounds t k) = Z.of_nat k) as Hr; [|apply Hr; lia].
    induction k as [|k IH]; intros t Ht; [done|]. cbn [rounds].
    rewrite !admitted_in_window_cons, IH, decide_False, decide_True by lia. lia.
Qed.
End attained.

(** C24: the cap under concurrency.  Let [k + 1] goroutines call a new limiter
    of [max] calls per [window], any number of times, for any keys, a call
    being two steps, the clock and the critical section, that other
    goroutines' steps may come between.  No window [(T - window, T]] ever
    contains more than [max + k] admitted calls for one key.  The bound is
    exact: for a cap of at least 2 and a positive window there is, for every
    [k], a run in which [max + k] calls are admitted in one window. *)
Theorem window_cap_overtaken (k : nat) (max window t0 : Z) :
  make_times_ok max = true →
  (∀ p T key, rtc call_step (callers_start (S k) max window t0) p →
     admitted_in_window window T key (log_admitted (cl_log p)) ≤ max + Z.of_nat k) ∧
  (1 < max → 0 < window → ∀ key, ∃ p, rtc call_step (callers_start (S k) max window t0) p ∧
     admitted_in_window window t0 key (log_admitted (cl_log p)) = max + Z.of_nat k).
Proof.
  intros Hok. split.
  - intros p T key Hp. by apply callers_inv_cap, (callers_reachable k max window t0).
  - intros Hmax Hpos key. destruct (overtaking_steps key t0 window (Z.to_nat max) k max Hpos) as (p & Hlog & Hp).
    exists p. split; [done|]. destruct (callers_reachable k max window t0 p Hp) as [Hrun _ _ _ _].
    assert (max = Z.of_nat (Z.to_nat max)) as Hm by lia.
    rewrite Hlog in Hrun.
    pose proof (overtaking_answers key t0 window (Z.to_nat max) k ltac:(by rewrite <- Hm) ltac:(lia) Hpos) as Hans.
    rewrite <- Hm, Hrun in Hans. cbn [fst] in Hans.
    rewrite <- admitted_log, Hlog, Hans, admitted_all, overtaking_count by done. lia.
Qed.
End overtaking.
Arguments callers K {_ _}.

(** Two workers, a cap of 500 calls per minute. *)
Lemma window_cap_overtaken_witness :
  (∀ p T (key : Z), rtc call_step (callers_start 2 500 Minute 0) p →
     admitted_in_window Minute T key (log_admitted (cl_log p)) ≤ 501) ∧
  ∃ p, rtc call_step (callers_start 2 500 Minute 0) p ∧
     admitted_in_window Minute 0 7 (log_admitted (cl_log p)) = 501.
Proof.
  destruct (window_cap_overtaken (K := Z) 1 500 Minute 0 eq_refl) as [Hcap Hex].
  split; [exact Hcap|]. exact (Hex eq_refl eq_refl 7).
Defined.
