(* ===== verification/RateLimitFacts.v ===== *)
(** * Facts about the token-bucket tiers and the four-tier limiter

    Per-key isolation of [tokenBucketLimiter], the keys of tiers 2 and 4, the
    configuration [New] builds, and when a tier can panic. *)

From Corelib Require Import SpecFloat.
From S2P Require Import Prelude GoLib Strconv NetIP RateLimit.

Section buckets.
Context {RL : RateLib}.

(** One call of [tokenBucketLimiter.Allow], run alone at time [now]. *)
Definition tb_call (key : bytes) (now : Z) (t : tokenBucketLimiter) : bool * tokenBucketLimiter :=
  tb_take key now (tb_ensure key t).2.

Fixpoint tb_run (t : tokenBucketLimiter) (calls : list (bytes * Z))
    : list bool * tokenBucketLimiter :=
  match calls with
  | [] => ([], t)
  | (key, now) :: calls' =>
      let '(b, t') := tb_call key now t in
      let '(bs, t'') := tb_run t' calls' in
      (b :: bs, t'')
  end.

(** A single x/time/rate limiter driven by a list of times. *)
Fixpoint rate_run (lim : rate_Limiter) (times : list Z) : list bool :=
  match times with
  | [] => []
  | now :: times' => (AllowAt lim now).1 :: rate_run (AllowAt lim now).2 times'
  end.

(** The answers given to the calls for [key], and the times of these calls. *)
Definition answers_for (key : bytes) (calls : list (bytes * Z)) (answers : list bool) : list bool :=
  snd <$> filter (fun p => p.1.1 = key) (zip calls answers).

Definition times_for (key : bytes) (calls : list (bytes * Z)) : list Z :=
  snd <$> filter (fun c => c.1 = key) calls.

(** The limiter a key has, or would be given. *)
Definition tb_limiter (t : tokenBucketLimiter) (key : bytes) : rate_Limiter :=
  default (NewLimiter (tb_r t) (tb_burst t)) (tb_limit t !! key).

Lemma tb_call_spec key now t :
  tb_call key now t =
  ((AllowAt (tb_limiter t key) now).1,
   TokenBucketLimiter (<[key := (AllowAt (tb_limiter t key) now).2]> (tb_limit t))
     (tb_r t) (tb_burst t)).
Proof.
  unfold tb_call, tb_ensure, tb_take, tb_limiter.
  destruct (tb_limit t !! key) as [lim|] eqn:E; cbn.
  - by rewrite E.
  - by rewrite lookup_insert_eq, insert_insert_eq.
Qed.

(** The goroutine body, run alone, performs exactly one [tb_call] at the time
    it reads. *)
Lemma run_tokenBucketLimiter_Allow {W : Type} (now : atomic W Z) (l : lens W tokenBucketLimiter)
    (key : bytes) (w : W) :
  let w1 := put l (tb_ensure key (view l w)).2 w in
  let w2 := (now w1).2 in
  run (tokenBucketLimiter_Allow now l key) w =
  (Some (tb_take key (now w1).1 (view l w2)).1,
   put l (tb_take key (now w1).1 (view l w2)).2 w2).
Proof. reflexivity. Qed.

Lemma tb_run_isolated key calls t :
  answers_for key calls (tb_run t calls).1 = rate_run (tb_limiter t key) (times_for key calls).
Proof.
  revert t. induction calls as [|[k now] calls IH]; intros t; [done|].
  cbn [tb_run]. rewrite tb_call_spec. set (t' := TokenBucketLimiter _ _ _).
  specialize (IH t'). destruct (tb_run t' calls) as [bs t'']. cbn [fst] in *.
  unfold answers_for, times_for. cbn [zip_with]. rewrite !filter_cons. cbn [fst snd].
  assert (tb_limiter t' key =
    if decide (k = key) then (AllowAt (tb_limiter t k) now).2 else tb_limiter t key) as Hlim.
  { unfold tb_limiter at 1, t'. cbn. rewrite lookup_insert. by destruct (decide (k = key)). }
  destruct (decide (k = key)) as [->|Hne]; rewrite ?fmap_cons; cbn [rate_run fst snd].
  - f_equal. rewrite <- Hlim. exact IH.
  - rewrite <- Hlim. exact IH.
Qed.

(** C33: tokens of different keys do not interact.  Whatever the sequence of
    calls, and in whatever order the keys are interleaved, the answers given
    to the calls for [key] are those of one private x/time/rate limiter,
    created with the tier's rate and burst and driven by the times of these
    calls only. *)
Theorem token_bucket_isolated (r : float64) (burst : Z) (key : bytes) (calls : list (bytes * Z)) :
  answers_for key calls (tb_run (newTokenBucketLimiter r burst) calls).1 =
  rate_run (NewLimiter r burst) (times_for key calls).
Proof. apply tb_run_isolated. Qed.
End buckets.

(** ** An instance of the rate library *)

(** An exact token bucket, counting in billionths of a token, with the rate
    rounded down to an integer. *)
Module Bucket.
Record bucket := MkBucket {
  bk_rate : option Z;  (* None: no limit *)
  bk_burst : Z;
  bk_tokens : Z;
  bk_last : option Z;
}.

Definition new (r : float64) (b : Z) : bucket :=
  MkBucket (match r with S754_infinity false => None | _ => Some (default 0 (float_trunc r)) end)
    b (b * Second) None.

Definition allow (l : bucket) (now : Z) : bool * bucket :=
  match bk_rate l with
  | None => (true, l)
  | Some rate =>
      let elapsed := match bk_last l with Some t => Z.max 0 (now - t) | None => 0 end in
      let tokens := Z.min (bk_burst l * Second) (bk_tokens l + elapsed * rate) in
      if Second <=? tokens
      then (true, MkBucket (bk_rate l) (bk_burst l) (tokens - Second) (Some now))
      else (false, MkBucket (bk_rate l) (bk_burst l) tokens (Some now))
  end.

#[export] Instance lib : RateLib := { NewLimiter := new; AllowAt := allow }.
End Bucket.

Section tiers.
Context {RL : RateLib}.

(** ** Keys *)

Lemma chainKey_inj ip ip' h h' :
  0 ≤ h < 2 ^ 64 → 0 ≤ h' < 2 ^ 64 →
  chainKey ip h = chainKey ip' h' → IP_String ip = IP_String ip' ∧ h = h'.
Proof.
  intros Hh Hh' H. unfold chainKey in H. rewrite !(assoc (++)) in H.
  apply app_inj_2 in H as [H1 H2]; [|by rewrite !length_hex16].
  apply app_inj_tail in H1 as [H1 _]. split; [done|]. by apply hex16_inj.
Qed.

Lemma groupKey_inj ip ip' g g' :
  0 ≤ g < 2 ^ 32 → 0 ≤ g' < 2 ^ 32 →
  groupKey ip g = groupKey ip' g' → IP_String ip = IP_String ip' ∧ g = g'.
Proof.
  intros Hg Hg' H. apply app_sep_inj in H as [H1 H2]; [|apply decimal_no_colon..].
  split; [done|]. apply decimal_inj in H2; lia.
Qed.

(** C34: the composite keys identify their parts.  Two requests share a bucket
    of tier 2 only if they come from the same address and have the same
    HashKey, and a bucket of tier 4 only if they come from the same address
    and want the same group: neither the ':' of IPv6 addresses nor the
    abbreviation of zero groups can make two pairs collide, and the 4-byte and
    16-byte forms of an IPv4 address are one source. *)
Theorem tier_keys_injective (ip ip' : bytes) (h h' g g' : Z) :
  Forall is_byte ip → Forall is_byte ip' → is_Some (To16 ip) →
  0 ≤ h < 2 ^ 64 → 0 ≤ h' < 2 ^ 64 → 0 ≤ g < 2 ^ 32 → 0 ≤ g' < 2 ^ 32 →
  (chainKey ip h = chainKey ip' h' ↔ To16 ip = To16 ip' ∧ h = h') ∧
  (groupKey ip g = groupKey ip' g' ↔ To16 ip = To16 ip' ∧ g = g').
Proof.
  intros Hb Hb' H16 ????. rewrite <- (IP_String_inj ip ip') by done.
  split; (split; [by (apply chainKey_inj || apply groupKey_inj)|]); intros [Hip ->];
    unfold chainKey, groupKey; by rewrite Hip.
Qed.

(** ** Configuration *)

Lemma New_chain_positive oob cfg : 0 < wl_max (chainLimiter (New oob cfg)).
Proof. cbn. repeat split_if; breflect; lia. Qed.

(** [New] always builds usable chain and group tiers.  Whatever the
    configuration (NaN rates and negative windows included) the chain cap and
    window, the sequence window and the group burst are positive, every map
    is empty, and the sequence cap and the IP tier are taken over unchanged. *)
Lemma New_normalises (oob : float64 → Z) (cfg : Config) :
  let l := New oob cfg in
  0 < wl_max (chainLimiter l) ∧ 0 < wl_window (chainLimiter l) ∧
  0 < wl_window (seqLimiter l) ∧ 0 < tb_burst (groupLimiter l) ∧
  wl_max (seqLimiter l) = SequenceMax cfg ∧
  tb_r (ipLimiter l) = IPRate cfg ∧ tb_burst (ipLimiter l) = IPBurst cfg ∧
  wl_keys (chainLimiter l) = ∅ ∧ wl_keys (seqLimiter l) = ∅ ∧
  tb_limit (ipLimiter l) = ∅ ∧ tb_limit (groupLimiter l) = ∅.
Proof.
  cbn. split_and!; try done; repeat split_if; breflect; unfold Minute, Second in *; lia.
Qed.

(** The chain cap and window [New] uses when the chain rate is configured. *)
Lemma New_chain_configured oob cfg :
  float_eqb (ChainRate cfg) float_zero = false → 0 < ChainWindow cfg →
  chainLimiter (New oob cfg) =
  newSlidingWindowLimiter
    (if float_to_int oob (ChainRate cfg) <=? 0 then 500 else float_to_int oob (ChainRate cfg))
    (ChainWindow cfg).
Proof.
  intros Hr Hw. unfold New. cbn [chainLimiter]. rewrite Hr. cbn [andb].
  replace (ChainWindow cfg <=? 0) with false by (symmetry; apply Z.leb_gt; lia). cbn [andb].
  by replace (ChainWindow cfg <=? 0) with false by (symmetry; apply Z.leb_gt; lia).
Qed.

(** ** Panics *)

Lemma window_Allow_total {K : Type} `{Countable K} (key : K) now r :
  make_times_ok (wl_max r) = true → is_Some (window_Allow key now r).1.
Proof. intros Hok. rewrite window_Allow_stamps by done. by eexists. Qed.

(** C35: a window tier panics exactly on the first call for a key when its
    cap cannot be allocated: a negative cap, or more than 2^48 bytes of
    timestamps.  The sequence cap comes straight from the configuration. *)
Theorem window_panics_iff {K : Type} `{Countable K} (key : K) (now : Z) (r : window_limiter K) :
  (window_Allow key now r).1 = None ↔
  wl_keys r !! key = None ∧ (wl_max r < 0 ∨ 2 ^ 48 < wl_max r * 24).
Proof.
  unfold window_Allow, make_times_ok. destruct (wl_keys r !! key) as [ts|].
  - destruct (wl_max r <=? _); cbn; naive_solver.
  - destruct (0 <=? wl_max r) eqn:E1, (wl_max r * 24 <=? 2 ^ 48) eqn:E2; breflect;
      cbn [andb fst]; try (destruct (wl_max r <=? _)); naive_solver lia.
Qed.
End tiers.

(** ** Witnesses *)

Definition ip_a : bytes := [253; 32] ++ replicate 13 0 ++ [36].

Definition ip_b : bytes := [253; 32] ++ replicate 13 0 ++ [37].

Lemma tier_keys_injective_witness :
  (chainKey ip_a 1 = chainKey ip_b 2 ↔ To16 ip_a = To16 ip_b ∧ 1 = 2) ∧
  (groupKey ip_a 3 = groupKey ip_b 4 ↔ To16 ip_a = To16 ip_b ∧ 3 = 4).
Proof.
  apply (tier_keys_injective ip_a ip_b 1 2 3 4); try lia; [by repeat constructor..|by eexists].
Defined.
