(* ===== verification/ServiceConfig.v ===== *)
(** * config: flags, environment and validation (config/config.go)

    [flags] holds what the flag variables contain after [flag.Parse]: the
    defaults computed from the environment, overridden by the command line.
    [Load] is the part of the source's [Load] that follows, [Load_main] the
    whole of it, from the argument list.  The environment and the host (its
    interfaces and its number of CPUs) are arguments. *)

From S2P Require Import Prelude GoLib Strconv NetIP GoParse Flag RateLimit.

(** [Scopes]. *)
Definition Scopes (name : bytes) : option Z :=
  if bool_decide (name = str "link") then Some 0xFF02
  else if bool_decide (name = str "site") then Some 0xFF05
  else if bool_decide (name = str "org") then Some 0xFF08
  else if bool_decide (name = str "global") then Some 0xFF0E
  else None.

(** The flag variables. *)
Record flags := MkFlags {
  f_MCIface : bytes;
  f_ListenPort : Z;
  f_CacheBackend : bytes;
  f_RedisAddr : bytes;
  f_CacheTTL : Z;
  f_CacheMaxKeys : Z;
  f_NACKPort : Z;
  f_NACKWorkers : Z;
  f_egress : bytes;
  f_EgressPort : Z;
  f_DedupWindow : Z;
  f_RLIPRate : float64;
  f_RLIPBurst : Z;
  f_RLSenderRate : float64;
  f_RLSenderWindow : Z;
  f_RLChainRate : float64;
  f_RLChainWindow : Z;
  f_RLSequenceMax : Z;
  f_RLSequenceWindow : Z;
  f_RLGroupRate : float64;
  f_RLGroupBurst : Z;
  f_MCScope : bytes;
  f_groupID : bytes;
  f_SubtreeDataEnabled : bool;
  f_Debug : bool;
  f_DrainTimeout : Z;
  f_MetricsAddr : bytes;
  f_InstanceID : bytes;
  f_OTLPEndpoint : bytes;
  f_otlpInterval : Z;
  f_bits : Z;
  f_BeaconEnabled : bool;
  f_beaconTier : Z;
  f_beaconPref : Z;
  f_BeaconInterval : Z;
  f_BeaconScope : bytes;
  f_BeaconFlagsUnicast : bool;
  f_BeaconFlagsMulticast : bool;
  f_BeaconFlagsDraining : bool;
  f_BeaconNACKAddr : bytes;
  f_SuppressACK : bool;
  f_SuppressMISS : bool;
}.

(** [Config]: the flag variables and the derived fields. *)
Record ServiceConfig := MkServiceConfig {
  c_flags : flags;
  c_ShardBits : Z;
  c_NumGroups : Z;
  c_MCPrefix : Z;
  c_MCGroupID : Z;
  c_NumWorkers : Z;
  c_NACKWorkers : Z;
  c_EgressIfaces : list bytes;
  c_BeaconTier : Z;
  c_BeaconPreference : Z;
  c_BeaconScopeByte : Z;
  c_OTLPInterval : Z;
}.

Inductive config_error :=
| BadShardBits (n : Z)
| UnknownScope (s : bytes)
| BadGroupID (s : bytes)
| BadBackend (s : bytes)
| NoSuchInterface (s : bytes)
| NoEgressInterface
| BadBeaconScope (s : bytes)
| BadBeaconTier (n : Z)
| BadBeaconPreference (n : Z)
| BadBeaconInterval (d : Z)
| BadNACKAddr (s : bytes).

(** ** Group id *)

Inductive group_id_error := EmptyValue | NotANumber (e : num_error).

(** [strings.HasPrefix(strings.ToLower(s), "0x")]: only these two spellings
    have that lower case. *)
Definition has_0x (s : bytes) : bool :=
  bool_decide (take 2 s = str "0x") || bool_decide (take 2 s = str "0X").

(** [parseGroupID]. *)
Definition parseGroupID (s : bytes) : result Z group_id_error :=
  let s := TrimSpace s in
  if bool_decide (s = []) then Err EmptyValue
  else
    let '(digits, base) :=
      if has_0x s then (drop 2 s, 16)
      else match ParseUint s 10 16 with
           | Err _ => (s, 16)
           | Ok _ => (s, 10)
           end in
    match ParseUint digits base 16 with
    | Err e => Err (NotANumber e)
    | Ok n => Ok (to_uint 16 n)
    end.

(** ** Environment *)

Section env.
(** [os.Getenv]: the empty string when unset. *)
Variable Getenv : bytes → bytes.
Variable NumCPU : Z.

Definition envStr (key def : bytes) : bytes :=
  if bool_decide (Getenv key ≠ []) then Getenv key else def.

Definition envInt (key : bytes) (def : Z) : Z :=
  if bool_decide (Getenv key ≠ []) then
    match Atoi (Getenv key) with Ok n => n | Err _ => def end
  else def.

Definition envBool (key : bytes) (def : bool) : bool :=
  if bool_decide (Getenv key ≠ []) then
    match ParseBool (Getenv key) with Some b => b | None => def end
  else def.

Definition envFloat (key : bytes) (def : float64) : float64 :=
  if bool_decide (Getenv key ≠ []) then
    match ParseFloat (Getenv key) with Ok x => x | Err _ => def end
  else def.

Definition envDuration (key : bytes) (def : Z) : Z :=
  if bool_decide (Getenv key ≠ []) then
    match ParseDuration (Getenv key) with Some d => d | None => def end
  else def.

(** What a flag variable contains: the value the command line sets, if any,
    and otherwise the default it was registered with. *)
Definition StringVar (a : gmap bytes flag_val) (name def : bytes) : bytes :=
  match a !! name with Some (VString s) => s | _ => def end.

Definition IntVar (a : gmap bytes flag_val) (name : bytes) (def : Z) : Z :=
  match a !! name with Some (VInt z) => z | _ => def end.

Definition UintVar (a : gmap bytes flag_val) (name : bytes) (def : Z) : Z :=
  match a !! name with Some (VInt z) => z | _ => def end.

Definition DurationVar (a : gmap bytes flag_val) (name : bytes) (def : Z) : Z :=
  match a !! name with Some (VInt z) => z | _ => def end.

Definition Float64Var (a : gmap bytes flag_val) (name : bytes) (def : float64) : float64 :=
  match a !! name with Some (VFloat x) => x | _ => def end.

Definition BoolVar (a : gmap bytes flag_val) (name : bytes) (def : bool) : bool :=
  match a !! name with Some (VBool b) => b | _ => def end.

(** The flags, in the order in which [Load] registers them. *)
Definition formal_flags : list (bytes * kind) := [
  (str "mc-iface", KString);
  (str "listen-port", KInt);
  (str "cache-backend", KString);
  (str "redis-addr", KString);
  (str "cache-ttl", KDuration);
  (str "cache-max-keys", KInt);
  (str "nack-port", KInt);
  (str "nack-workers", KInt);
  (str "egress-iface", KString);
  (str "egress-port", KInt);
  (str "dedup-window", KDuration);
  (str "rl-ip-rate", KFloat64);
  (str "rl-ip-burst", KInt);
  (str "rl-sender-rate", KFloat64);
  (str "rl-sender-window", KDuration);
  (str "rl-chain-rate", KFloat64);
  (str "rl-chain-window", KDuration);
  (str "rl-sequence-max", KInt);
  (str "rl-sequence-window", KDuration);
  (str "rl-group-rate", KFloat64);
  (str "rl-group-burst", KInt);
  (str "scope", KString);
  (str "mc-group-id", KString);
  (str "subtree-data-enabled", KBool);
  (str "debug", KBool);
  (str "drain-timeout", KDuration);
  (str "metrics-addr", KString);
  (str "instance", KString);
  (str "otlp-endpoint", KString);
  (str "otlp-interval", KDuration);
  (str "shard-bits", KUint);
  (str "beacon-enabled", KBool);
  (str "beacon-tier", KUint);
  (str "beacon-preference", KUint);
  (str "beacon-interval", KDuration);
  (str "beacon-scope", KString);
  (str "beacon-flags-unicast", KBool);
  (str "beacon-flags-multicast", KBool);
  (str "beacon-flags-draining", KBool);
  (str "nack-addr", KString);
  (str "suppress-ack", KBool);
  (str "suppress-miss", KBool)
].

(** The flag variables after [flag.Parse] has set the flags of [a]. *)
Definition flag_vars (a : gmap bytes flag_val) : flags := {|
  f_MCIface := StringVar a (str "mc-iface") (envStr (str "MC_IFACE") (str "eth0"));
  f_ListenPort := IntVar a (str "listen-port") (envInt (str "LISTEN_PORT") 9001);
  f_CacheBackend := StringVar a (str "cache-backend") (envStr (str "CACHE_BACKEND") (str "memory"));
  f_RedisAddr := StringVar a (str "redis-addr") (envStr (str "REDIS_ADDR") []);
  f_CacheTTL := DurationVar a (str "cache-ttl") (envDuration (str "CACHE_TTL") (60 * Second));
  f_CacheMaxKeys := IntVar a (str "cache-max-keys") (envInt (str "CACHE_MAX_KEYS") 0);
  f_NACKPort := IntVar a (str "nack-port") (envInt (str "NACK_PORT") 9300);
  f_NACKWorkers := IntVar a (str "nack-workers") (envInt (str "NACK_WORKERS") NumCPU);
  f_egress := StringVar a (str "egress-iface") (envStr (str "EGRESS_IFACE") (str "eth0"));
  f_EgressPort := IntVar a (str "egress-port") (envInt (str "EGRESS_PORT") 9001);
  f_DedupWindow := DurationVar a (str "dedup-window") (envDuration (str "DEDUP_WINDOW") (60 * Second));
  f_RLIPRate := Float64Var a (str "rl-ip-rate") (envFloat (str "RL_IP_RATE") (float_of_Z 100));
  f_RLIPBurst := IntVar a (str "rl-ip-burst") (envInt (str "RL_IP_BURST") 10);
  f_RLSenderRate := Float64Var a (str "rl-sender-rate") (envFloat (str "RL_SENDER_RATE") float_zero);
  f_RLSenderWindow := DurationVar a (str "rl-sender-window") (envDuration (str "RL_SENDER_WINDOW") 0);
  f_RLChainRate := Float64Var a (str "rl-chain-rate") (envFloat (str "RL_CHAIN_RATE") (float_of_Z 500));
  f_RLChainWindow := DurationVar a (str "rl-chain-window") (envDuration (str "RL_CHAIN_WINDOW") Minute);
  f_RLSequenceMax := IntVar a (str "rl-sequence-max") (envInt (str "RL_SEQUENCE_MAX") 100);
  f_RLSequenceWindow := DurationVar a (str "rl-sequence-window") (envDuration (str "RL_SEQUENCE_WINDOW") Minute);
  f_RLGroupRate := Float64Var a (str "rl-group-rate") (envFloat (str "RL_GROUP_RATE") (float_of_Z 200));
  f_RLGroupBurst := IntVar a (str "rl-group-burst") (envInt (str "RL_GROUP_BURST") 50);
  f_MCScope := StringVar a (str "scope") (envStr (str "MC_SCOPE") (str "site"));
  f_groupID := StringVar a (str "mc-group-id") (envStr (str "MC_GROUP_ID") (str "0x000B"));
  f_SubtreeDataEnabled := BoolVar a (str "subtree-data-enabled") (envBool (str "SUBTREE_DATA_ENABLED") false);
  f_Debug := BoolVar a (str "debug") (envBool (str "DEBUG") false);
  f_DrainTimeout := DurationVar a (str "drain-timeout") (envDuration (str "DRAIN_TIMEOUT") 0);
  f_MetricsAddr := StringVar a (str "metrics-addr") (envStr (str "METRICS_ADDR") (str ":9400"));
  f_InstanceID := StringVar a (str "instance") (envStr (str "INSTANCE_ID") []);
  f_OTLPEndpoint := StringVar a (str "otlp-endpoint") (envStr (str "OTLP_ENDPOINT") []);
  f_otlpInterval := DurationVar a (str "otlp-interval") (envDuration (str "OTLP_INTERVAL") (30 * Second));
  f_bits := UintVar a (str "shard-bits") (to_uint 64 (envInt (str "SHARD_BITS") 8));
  f_BeaconEnabled := BoolVar a (str "beacon-enabled") (envBool (str "BEACON_ENABLED") true);
  f_beaconTier := UintVar a (str "beacon-tier") (to_uint 64 (envInt (str "BEACON_TIER") 0));
  f_beaconPref := UintVar a (str "beacon-preference") (to_uint 64 (envInt (str "BEACON_PREFERENCE") 128));
  f_BeaconInterval := DurationVar a (str "beacon-interval") (envDuration (str "BEACON_INTERVAL") (60 * Second));
  f_BeaconScope := StringVar a (str "beacon-scope") (envStr (str "BEACON_SCOPE") (str "site"));
  f_BeaconFlagsUnicast := BoolVar a (str "beacon-flags-unicast") (envBool (str "BEACON_FLAGS_UNICAST") false);
  f_BeaconFlagsMulticast := BoolVar a (str "beacon-flags-multicast") (envBool (str "BEACON_FLAGS_MULTICAST") true);
  f_BeaconFlagsDraining := BoolVar a (str "beacon-flags-draining") (envBool (str "BEACON_FLAGS_DRAINING") false);
  f_BeaconNACKAddr := StringVar a (str "nack-addr") (envStr (str "NACK_ADDR") []);
  f_SuppressACK := BoolVar a (str "suppress-ack") (envBool (str "SUPPRESS_ACK") false);
  f_SuppressMISS := BoolVar a (str "suppress-miss") (envBool (str "SUPPRESS_MISS") false);
|}.

(** The defaults the flags are registered with. *)
Definition flag_defaults : flags := flag_vars ∅.
End env.

(** ** Validation *)

Section load.
(** Whether the host has an interface of this name. *)
Variable InterfaceByName : bytes → bool.
Variable NumCPU : Z.

Definition comma : Z := 44.

(** The loop over the egress interfaces. *)
Fixpoint egress_names (names : list bytes) : result (list bytes) config_error :=
  match names with
  | [] => Ok []
  | name :: names' =>
      let name := TrimSpace name in
      if bool_decide (name = []) then egress_names names'
      else if negb (InterfaceByName name) then Err (NoSuchInterface name)
      else let? rest := egress_names names' in Ok (name :: rest)
  end.

Definition beacon_scope_byte (s : bytes) : option Z :=
  if bool_decide (s = str "site") then Some 0x05
  else if bool_decide (s = str "org") then Some 0x08
  else if bool_decide (s = str "global") then Some 0x0E
  else if bool_decide (s = str "both") || bool_decide (s = str "all") then Some 0xFF
  else None.

(** The check of an explicit NACK address. *)
Definition nack_addr_ok (s : bytes) : bool :=
  bool_decide (s = [])
  || match ParseIP s with
     | None => false
     | Some ip => bool_decide (is_Some (To16 ip)) && negb (bool_decide (is_Some (To4 ip)))
     end.

(** [Load] after [flag.Parse]. *)
Definition Load (f : flags) : result ServiceConfig config_error :=
  if (f_bits f <? 1) || (15 <? f_bits f) then Err (BadShardBits (f_bits f))
  else
    match Scopes (f_MCScope f) with
    | None => Err (UnknownScope (f_MCScope f))
    | Some prefix =>
        match parseGroupID (f_groupID f) with
        | Err _ => Err (BadGroupID (f_groupID f))
        | Ok gid =>
            if negb (bool_decide (f_CacheBackend f = str "redis"))
               && negb (bool_decide (f_CacheBackend f = str "memory"))
            then Err (BadBackend (f_CacheBackend f))
            else
              let? ifaces := egress_names (Split comma (f_egress f)) in
              if bool_decide (length ifaces = 0%nat) then Err NoEgressInterface
              else
                match beacon_scope_byte (f_BeaconScope f) with
                | None => Err (BadBeaconScope (f_BeaconScope f))
                | Some scope =>
                    if 255 <? f_beaconTier f then Err (BadBeaconTier (f_beaconTier f))
                    else if 255 <? f_beaconPref f then Err (BadBeaconPreference (f_beaconPref f))
                    else if f_BeaconInterval f <? Second then Err (BadBeaconInterval (f_BeaconInterval f))
                    else if negb (nack_addr_ok (f_BeaconNACKAddr f))
                    then Err (BadNACKAddr (f_BeaconNACKAddr f))
                    else Ok {|
                      c_flags := f;
                      c_ShardBits := f_bits f;
                      c_NumGroups := to_uint 32 (Z.shiftl 1 (f_bits f));
                      c_MCPrefix := prefix;
                      c_MCGroupID := gid;
                      c_NumWorkers := 1;
                      c_NACKWorkers := if f_NACKWorkers f <=? 0 then NumCPU else f_NACKWorkers f;
                      c_EgressIfaces := ifaces;
                      c_BeaconTier := f_beaconTier f;
                      c_BeaconPreference := f_beaconPref f;
                      c_BeaconScopeByte := scope;
                      c_OTLPInterval := f_otlpInterval f;
                    |}
                end
        end
    end.

(** All of [Load]: register the flags, parse the command line, validate.
    [flag.Parse] ends the process on an error or a request for help. *)
Inductive load_outcome :=
| LoadReturns (r : result ServiceConfig config_error)
| LoadExits (status : Z).

Definition Load_main (Getenv : bytes → bytes) (args : list bytes) : load_outcome :=
  match Parse formal_flags args with
  | Exits status => LoadExits status
  | Parsed a _ => LoadReturns (Load (flag_vars Getenv NumCPU a))
  end.
End load.
