(* ===== verification/ConfigFacts.v ===== *)
(** * Facts about the configuration

    What [parseGroupID] accepts, what [Load] guarantees of the configuration
    it returns and when it returns one, and how a flag's default, its
    environment variable and its alias interact. *)

From S2P Require Import Prelude GoLib Strconv NetIP GoParse Flag RateLimit RateLimitFacts.
From S2P Require Import ServiceConfig.

(** ** Group ids *)

Lemma visible_dec_digit c : dec_digit c → visible c.
Proof. unfold dec_digit, visible. lia. Qed.

Lemma has_0x_decimal s : Forall dec_digit s → has_0x s = false.
Proof.
  intros Hs. unfold has_0x, dec_digit in *. apply orb_false_iff.
  split; apply bool_decide_eq_false_2; destruct s as [|a [|b s]]; try done; intros [= -> ->];
    repeat (apply Forall_cons in Hs as [? Hs]); lia.
Qed.

Lemma parseGroupID_digits s :
  Forall dec_digit s → s ≠ [] →
  parseGroupID s =
  match ParseUint s 10 16 with
  | Ok n => Ok (to_uint 16 n)
  | Err _ => match ParseUint s 16 16 with Ok n => Ok (to_uint 16 n) | Err e => Err (NotANumber e) end
  end.
Proof.
  intros Hs Hne. unfold parseGroupID.
  rewrite TrimSpace_visible by (eapply Forall_impl; [exact Hs|apply visible_dec_digit]).
  rewrite bool_decide_eq_false_2, has_0x_decimal by done.
  destruct (ParseUint s 10 16) eqn:E; [by rewrite E|done].
Qed.

Lemma ParseUint_decimal v bits :
  0 ≤ bits → 0 ≤ v < 10 ^ 20 → v < 2 ^ bits → ParseUint (decimal v) 10 bits = Ok v.
Proof.
  intros Hb Hv Hlt. apply ParseUint_spec; [lia|done|]. split_and!; [apply decimal_nonempty| |by apply decimal_val|done].
  eapply Forall_impl; [apply decimal_dec_digits|]. intros c Hc. cbn.
  exists (c - 48). split; [by apply dec_digit_val|unfold dec_digit in Hc; lia].
Qed.

(** [%04x] of a uint16. *)
Definition hex4 (v : Z) : bytes := be_put 2 v ≫= hex_byte.

Lemma ParseUint_hex4 v : 0 ≤ v < 2 ^ 16 → ParseUint (hex4 v) 16 16 = Ok v.
Proof.
  intros Hv. apply ParseUint_spec; [lia|lia|]. split_and!; [done| | |lia].
  - eapply Forall_impl; [apply hex_bytes_digits, be_put_is_byte|]. by intros c [_ ?].
  - unfold hex4. rewrite hex_bytes_val by apply be_put_is_byte. rewrite be_get_put_id by done. lia.
Qed.

Lemma group_id_range s v : parseGroupID s = Ok v → 0 ≤ v < 2 ^ 16.
Proof.
  unfold parseGroupID. cbv zeta. case_bool_decide; [done|].
  destruct (if has_0x _ then _ else _) as [digits base].
  destruct (ParseUint digits base 16); [|done]. intros [= <-]. apply Z.mod_pos_bound. lia.
Qed.

(** C32: group ids.  Every group id can be written in decimal or as a
    hexadecimal literal with 0x, and is read back; a value is accepted only
    if it fits in 16 bits; in particular a decimal number that does not fit
    is refused: it is never read again as a hexadecimal number that does. *)
Theorem parseGroupID_spec (v : Z) :
  (0 ≤ v < 2 ^ 16 → parseGroupID (decimal v) = Ok v ∧ parseGroupID (str "0x" ++ hex4 v) = Ok v) ∧
  (∀ s, parseGroupID s = Ok v → 0 ≤ v < 2 ^ 16) ∧
  (2 ^ 16 ≤ v < 10 ^ 20 → ∃ e, parseGroupID (decimal v) = Err (NotANumber e)).
Proof.
  split_and!.
  - intros Hv. split.
    + rewrite parseGroupID_digits by (apply decimal_dec_digits || apply decimal_nonempty).
      rewrite ParseUint_decimal by lia. unfold to_uint. by rewrite Z.mod_small by lia.
    + unfold parseGroupID. rewrite TrimSpace_visible.
      2:{ apply Forall_app. split; [apply (Forall_cons_2 _ 48); [|apply (Forall_cons_2 _ 120)]; unfold visible; auto with lia|].
          eapply Forall_impl; [apply hex_bytes_digits, be_put_is_byte|]. by intros c [? _]. }
      rewrite bool_decide_eq_false_2 by done. cbn [has_0x take app str]. 
      change (drop 2 (str "0x" ++ hex4 v)) with (hex4 v).
      change (has_0x (str "0x" ++ hex4 v)) with true. cbn iota.
      rewrite ParseUint_hex4 by done. unfold to_uint. by rewrite Z.mod_small by lia.
  - intros s. apply group_id_range.
  - intros Hv. rewrite parseGroupID_digits by (apply decimal_dec_digits || apply decimal_nonempty).
    assert (∀ base n, 10 ≤ base → digits_val 10 (decimal v) 0 ≤ digits_val base (decimal v) 0 →
      ParseUint (decimal v) base 16 ≠ Ok n) as Hno.
    { intros base n Hb Hle Hok. apply ParseUint_spec in Hok as (_ & _ & Hval & Hlt); [|lia|lia].
      rewrite decimal_val in Hle by lia. lia. }
    destruct (ParseUint (decimal v) 10 16) as [n|e1] eqn:H10; [by apply Hno in H10; lia|].
    destruct (ParseUint (decimal v) 16 16) as [n|e2] eqn:H16; [|by exists e2].
    apply Hno in H16; [done|lia|]. by apply digits_val_base_le.
Qed.

(** ** Validation *)

Section load.
Variable InterfaceByName : bytes → bool.
Variable NumCPU : Z.

(** The nonempty names of a comma-separated list. *)
Definition listed_names (s : bytes) : list bytes :=
  filter (fun n => n ≠ []) (TrimSpace <$> Split comma s).

Lemma egress_names_spec names :
  egress_names InterfaceByName names =
  match head (filter (fun n => n ≠ [] ∧ InterfaceByName n = false) (TrimSpace <$> names)) with
  | Some n => Err (NoSuchInterface n)
  | None => Ok (filter (fun n => n ≠ []) (TrimSpace <$> names))
  end.
Proof.
  induction names as [|n names IH]; [done|]. cbn [egress_names fmap list_fmap].
  rewrite !filter_cons. case_bool_decide as Hn.
  - rewrite !decide_False by tauto. exact IH.
  - rewrite (decide_True (P := TrimSpace n ≠ [])) by done.
    destruct (InterfaceByName (TrimSpace n)) eqn:Hi; cbn [negb].
    + rewrite decide_False by (intros [_ ?]; congruence). rewrite IH. by destruct (head _).
    + by rewrite decide_True.
Qed.

(** The configurations [Load] accepts. *)
Definition acceptable (f : flags) : Prop :=
  1 ≤ f_bits f ≤ 15 ∧ is_Some (Scopes (f_MCScope f)) ∧
  (∃ gid, parseGroupID (f_groupID f) = Ok gid) ∧
  (f_CacheBackend f = str "redis" ∨ f_CacheBackend f = str "memory") ∧
  Forall (fun n => InterfaceByName n = true) (listed_names (f_egress f)) ∧
  listed_names (f_egress f) ≠ [] ∧
  is_Some (beacon_scope_byte (f_BeaconScope f)) ∧ f_beaconTier f ≤ 255 ∧ f_beaconPref f ≤ 255 ∧
  Second ≤ f_BeaconInterval f ∧ nack_addr_ok (f_BeaconNACKAddr f) = true.

Lemma group_count b : 1 ≤ b ≤ 15 → to_uint 32 (Z.shiftl 1 b) = 2 ^ b.
Proof.
  intros Hb. rewrite Z.shiftl_mul_pow2, Z.mul_1_l by lia. apply Z.mod_small.
  split; [apply Z.pow_nonneg; lia|]. apply Z.pow_lt_mono_r; lia.
Qed.

Lemma Load_cases f :
  (∃ c, Load InterfaceByName NumCPU f = Ok c ∧ acceptable f ∧
    c_flags c = f ∧ c_ShardBits c = f_bits f ∧ 1 ≤ c_ShardBits c ≤ 15 ∧
    c_NumGroups c = 2 ^ c_ShardBits c ∧
    Scopes (f_MCScope f) = Some (c_MCPrefix c) ∧ 0 ≤ c_MCGroupID c < 2 ^ 16 ∧
    c_NumWorkers c = 1 ∧ (0 < NumCPU → 0 < c_NACKWorkers c) ∧
    c_EgressIfaces c = listed_names (f_egress f) ∧ c_EgressIfaces c ≠ [] ∧
    Forall (fun n => InterfaceByName n = true) (c_EgressIfaces c) ∧
    beacon_scope_byte (f_BeaconScope f) = Some (c_BeaconScopeByte c) ∧
    c_BeaconTier c = f_beaconTier f ∧ c_BeaconTier c ≤ 255 ∧
    c_BeaconPreference c = f_beaconPref f ∧ c_BeaconPreference c ≤ 255) ∨
  (∃ e, Load InterfaceByName NumCPU f = Err e ∧ ¬ acceptable f).
Proof.
  unfold Load, acceptable.
  destruct ((f_bits f <? 1) || (15 <? f_bits f)) eqn:Hbits.
  { right. eexists. split; [done|]. intros (Hb & _). apply orb_true_iff in Hbits as [|]; breflect; lia. }
  breflect. destruct (Scopes (f_MCScope f)) as [prefix|].
  2:{ right. eexists. split; [done|]. by intros (_ & [] & _). }
  destruct (parseGroupID (f_groupID f)) as [gid|] eqn:Hgid.
  2:{ right. eexists. split; [done|]. by intros (_ & _ & [] & _). }
  apply group_id_range in Hgid.
  destruct (negb _ && negb _) eqn:Hback.
  { right. eexists. split; [done|]. intros (_ & _ & _ & Hb & _). breflect.
    repeat match goal with H : bool_decide _ = false |- _ => apply bool_decide_eq_false_1 in H end. tauto. }
  assert (f_CacheBackend f = str "redis" ∨ f_CacheBackend f = str "memory") as Hb.
  { apply andb_false_iff in Hback as [Hx|Hx]; breflect; apply bool_decide_eq_true_1 in Hx; auto. } clear Hback.
  rewrite egress_names_spec. fold (listed_names (f_egress f)).
  destruct (head _) as [n|] eqn:Hhead; cbn [result_bind].
  { right. eexists. split; [done|]. intros (_ & _ & _ & _ & Hall & _).
    apply head_Some_elem_of, list_elem_of_filter in Hhead as [[Hne Hno] Hin].
    rewrite Forall_forall in Hall. rewrite Hall in Hno; [done|]. by apply list_elem_of_filter. }
  assert (Forall (fun n => InterfaceByName n = true) (listed_names (f_egress f))) as Hall.
  { apply Forall_forall. intros n Hin. apply list_elem_of_filter in Hin as [Hne Hin].
    destruct (InterfaceByName n) eqn:Hi; [done|]. apply head_None in Hhead.
    exfalso. apply (not_elem_of_nil n). rewrite <- Hhead. by apply list_elem_of_filter. }
  case_bool_decide as Hnil.
  { apply nil_length_inv in Hnil. right. eexists. split; [done|]. intros (_ & _ & _ & _ & _ & Hne & _).
    done. }
  assert (listed_names (f_egress f) ≠ []) as Hne by (intros Hx; apply Hnil; by rewrite Hx).
  destruct (beacon_scope_byte _) as [scope|].
  2:{ right. eexists. split; [done|]. by intros (_ & _ & _ & _ & _ & _ & [] & _). }
  destruct (255 <? f_beaconTier f) eqn:Ht; [right; eexists; split; [done|]; breflect; naive_solver lia|].
  destruct (255 <? f_beaconPref f) eqn:Hp; [right; eexists; split; [done|]; breflect; naive_solver lia|].
  destruct (f_BeaconInterval f <? Second) eqn:Hi; [right; eexists; split; [done|]; breflect; naive_solver lia|].
  destruct (nack_addr_ok _) eqn:Hn; cbn [negb]; [|right; eexists; split; [done|]; naive_solver].
  breflect. left. eexists. split; [done|]. cbn. split; [split_and!; eauto|].
  split_and!; try done; [by apply group_count|..]; try lia. destruct (f_NACKWorkers f <=? 0) eqn:Hw; breflect; lia.
Qed.

(** C20: what [Load] accepts, and what it guarantees.  [Load] returns a
    configuration iff the flags are acceptable; then the group count is 2 to
    the number of shard bits (between 2 and 32768), the prefix is that of the
    scope, the group id has 16 bits, at least one NACK worker is configured,
    the egress interfaces are the nonempty names listed, in order, and every
    one exists, and the advertised tier and preference fit in a byte.  Sixteen
    shard bits are refused, and an explicit NACK address may be any IPv6
    address, multicast included. *)
Theorem Load_spec (f : flags) :
  ((∃ c, Load InterfaceByName NumCPU f = Ok c) ↔ acceptable f) ∧
  ∀ c, Load InterfaceByName NumCPU f = Ok c →
    c_flags c = f ∧ c_ShardBits c = f_bits f ∧ 1 ≤ c_ShardBits c ≤ 15 ∧
    c_NumGroups c = 2 ^ c_ShardBits c ∧
    Scopes (f_MCScope f) = Some (c_MCPrefix c) ∧ 0 ≤ c_MCGroupID c < 2 ^ 16 ∧
    c_NumWorkers c = 1 ∧ (0 < NumCPU → 0 < c_NACKWorkers c) ∧
    c_EgressIfaces c = listed_names (f_egress f) ∧ c_EgressIfaces c ≠ [] ∧
    Forall (fun n => InterfaceByName n = true) (c_EgressIfaces c) ∧
    beacon_scope_byte (f_BeaconScope f) = Some (c_BeaconScopeByte c) ∧
    c_BeaconTier c = f_beaconTier f ∧ c_BeaconTier c ≤ 255 ∧
    c_BeaconPreference c = f_beaconPref f ∧ c_BeaconPreference c ≤ 255.
Proof.
  destruct (Load_cases f) as [(c & Hc & Ha & Hok)|(e & He & Hna)].
  - split; [split; [done|]; by exists c|]. intros c' Hc'. rewrite Hc in Hc'. injection Hc' as <-. exact Hok.
  - split; [|intros c Hc; congruence]. split; [intros [c Hc]; congruence|done].
Qed.

Lemma Scopes_range s p : Scopes s = Some p → 0 ≤ p < 2 ^ 16.
Proof. unfold Scopes. repeat case_bool_decide; intros [= <-]; lia. Qed.

Lemma Load_workers f c :
  Load InterfaceByName NumCPU f = Ok c →
  c_NACKWorkers c = if f_NACKWorkers f <=? 0 then NumCPU else f_NACKWorkers f.
Proof.
  unfold Load, result_bind. intros Hc.
  repeat match type of Hc with (match ?x with _ => _ end) = _ => destruct x; try done end.
  by injection Hc as <-.
Qed.

(** The ranges of an accepted configuration, from those of the flags. *)
Lemma Load_ranges f c :
  0 < NumCPU < 2 ^ 63 → Forall is_int64 [f_NACKWorkers f] → Forall is_uint64 [f_beaconTier f; f_beaconPref f] →
  Load InterfaceByName NumCPU f = Ok c →
  c_flags c = f ∧ 1 ≤ c_ShardBits c ≤ 15 ∧ 0 ≤ c_BeaconTier c < 2 ^ 8 ∧ 0 ≤ c_BeaconPreference c < 2 ^ 8 ∧
  0 ≤ c_MCGroupID c < 2 ^ 16 ∧ 0 ≤ c_MCPrefix c < 2 ^ 16 ∧ 0 < c_NACKWorkers c < 2 ^ 63.
Proof.
  intros Hcpu Hw Hu Hc. apply Forall_cons in Hw as [Hw _]. rewrite !Forall_cons in Hu. destruct Hu as (Ht & Hp & _).
  destruct (Load_cases f) as [(c' & Hc' & _ & Hok)|(e & He & _)]; [|congruence].
  rewrite Hc in Hc'. injection Hc' as <-.
  destruct Hok as (Hf & _ & Hb & _ & Hpre & Hgid & _ & Hpos & _ & _ & _ & _ & Htc & Ht' & Hpc & Hp').
  unfold is_uint64 in *. split_and!; try done; try lia; try (by eapply Scopes_range).
  all: rewrite (Load_workers f c Hc); unfold is_int64 in Hw; split_if; breflect; lia.
Qed.
End load.
