(* ===== verification/CommandLine.v ===== *)
(** * From the command line to the configuration

    What [Load_main] makes of an argument list and an environment: which
    source a flag's value comes from, how values are written, the ranges of
    the variables, and when the process ends instead. *)

From S2P Require Import Prelude GoLib Strconv NetIP GoParse FloatText Flag RateLimit RateLimitFacts.
From S2P Require Import ServiceConfig ConfigFacts.

(** ** How values are written *)

Definition duration_ns (d : Z) : bytes := int_text d ++ str "ns".

Lemma ParseDuration_ns d : is_int64 d → ParseDuration (duration_ns d) = Some d.
Proof.
  intros [Hlo Hhi]. unfold duration_ns, int_text.
  assert (∀ n, 0 ≤ n ≤ 2 ^ 63 → good_parts [(n, str "ns")] ∧ duration_total [(n, str "ns")] = n ∧
    duration_text [(n, str "ns")] = decimal n ++ str "ns") as Hpart.
  { intros n Hn. split_and!.
    - constructor; [|constructor]. split; [cbn; lia|by exists 1].
    - unfold duration_total. cbn [foldr fst snd]. change (unitMap (str "ns")) with (Some 1). cbn. lia.
    - unfold duration_text. cbn [mbind list_bind fst snd]. by rewrite app_nil_r. }
  destruct (d <? 0) eqn:Hs; breflect.
  - destruct (Hpart (- d)) as (Hg & Ht & Htext); [lia|].
    destruct (ParseDuration_parts [(- d, str "ns")] Hg) as [_ Hp]; [done|lia|].
    rewrite Htext, Ht in Hp. cbn [app]. rewrite Hp. f_equal. lia.
  - destruct (Hpart d) as (Hg & Ht & Htext); [lia|].
    destruct (ParseDuration_parts [(d, str "ns")] Hg) as [Hp _]; [done|lia|].
    rewrite Htext, Ht in Hp. apply Hp. lia.
Qed.

Lemma Set_value_ranges s z :
  (Set_value KInt s = Some (VInt z) → is_int64 z) ∧
  (Set_value KUint s = Some (VInt z) → is_uint64 z) ∧
  (Set_value KDuration s = Some (VInt z) → is_int64 z).
Proof.
  cbn [Set_value]. split_and!.
  - destruct (ParseInt0 s) eqn:Hp; [|done]. intros [= <-]. by eapply ParseInt0_int64.
  - destruct (ParseUint0 s) eqn:Hp; [|done]. intros [= <-]. by eapply ParseUint0_uint64.
  - destruct (ParseDuration s) eqn:Hp; [|done]. intros [= <-]. by eapply ParseDuration_int64.
Qed.

(** Every value of a flag can be written on the command line, and is read
    back: strings as they are, 64-bit integers in decimal, durations as a
    number of nanoseconds or as a sum of numbers with units ("1h30m"), rates
    that are natural numbers in decimal and all others in hexadecimal, booleans
    by name.  Conversely a text
    is only ever read as a value of the flag's type. *)
Lemma flag_texts :
  (∀ s, Set_value KString s = Some (VString s)) ∧
  (∀ z, is_int64 z → Set_value KInt (int_text z) = Some (VInt z)) ∧
  (∀ z, is_uint64 z → Set_value KUint (decimal z) = Some (VInt z)) ∧
  (∀ d, is_int64 d → Set_value KDuration (duration_ns d) = Some (VInt d)) ∧
  (∀ parts, good_parts parts → parts ≠ [] → duration_total parts < 2 ^ 63 →
     Set_value KDuration (duration_text parts) = Some (VInt (duration_total parts))) ∧
  (∀ z, 0 ≤ z < 2 ^ 52 → Set_value KFloat64 (decimal z) = Some (VFloat (float_of_Z z))) ∧
  (∀ x, is_float64 x → Set_value KFloat64 (float_text x) = Some (VFloat x)) ∧
  (∀ b : bool, Set_value KBool (str (if b then "true" else "false")) = Some (VBool b)) ∧
  (∀ s z, (Set_value KInt s = Some (VInt z) → is_int64 z) ∧
     (Set_value KUint s = Some (VInt z) → is_uint64 z) ∧
     (Set_value KDuration s = Some (VInt z) → is_int64 z)).
Proof.
  split_and!.
  - done.
  - intros z Hz. cbn [Set_value]. by rewrite ParseInt0_text.
  - intros z Hz. cbn [Set_value]. by rewrite ParseUint0_decimal.
  - intros d Hd. cbn [Set_value]. by rewrite ParseDuration_ns.
  - intros parts Hg Hne Hlt. cbn [Set_value].
    destruct (ParseDuration_parts parts Hg Hne) as [-> _]; [lia|done|done].
  - intros z Hz. cbn [Set_value]. by rewrite ParseFloat_decimal.
  - intros x Hx. cbn [Set_value]. by rewrite ParseFloat_text.
  - intros b. by destruct b.
  - apply Set_value_ranges.
Qed.

(** ** Ranges of the flag variables *)

(** The variables of type int and time.Duration, and those of type uint. *)
Definition int_fields (f : flags) : list Z :=
  [f_ListenPort f; f_CacheTTL f; f_CacheMaxKeys f; f_NACKPort f; f_NACKWorkers f; f_EgressPort f;
   f_DedupWindow f; f_RLIPBurst f; f_RLSenderWindow f; f_RLChainWindow f; f_RLSequenceMax f;
   f_RLSequenceWindow f; f_RLGroupBurst f; f_DrainTimeout f; f_otlpInterval f; f_BeaconInterval f].

Definition uint_fields (f : flags) : list Z := [f_bits f; f_beaconTier f; f_beaconPref f].

Definition typed_flags (f : flags) : Prop :=
  Forall is_int64 (int_fields f) ∧ Forall is_uint64 (uint_fields f).

Section typed.
Variable Getenv : bytes → bytes.
Variable NumCPU : Z.
Hypothesis NumCPU_int : is_int64 NumCPU.

Lemma envInt_int64 key def : is_int64 def → is_int64 (envInt Getenv key def).
Proof.
  intros Hd. unfold envInt. case_bool_decide; [|done].
  destruct (Atoi (Getenv key)) as [z|] eqn:Ha; [|done]. by eapply Atoi_int64.
Qed.

Lemma envDuration_int64 key def : is_int64 def → is_int64 (envDuration Getenv key def).
Proof.
  intros Hd. unfold envDuration. case_bool_decide; [|done].
  destruct (ParseDuration (Getenv key)) as [z|] eqn:Hp; [|done]. by eapply ParseDuration_int64.
Qed.

Context (a : gmap bytes flag_val) (Ha : typed_actual formal_flags a).

(** A numeric variable takes its type from the kind of its flag. *)
Lemma number_typed (P : Z → Prop) k name def :
  formal_kind formal_flags name = Some k → (∀ s z, Set_value k s = Some (VInt z) → P z) → P def →
  P (match a !! name with Some (VInt z) => z | _ => def end).
Proof.
  intros Hk HP Hd. destruct (a !! name) as [v|] eqn:Hv; [|done].
  destruct (Ha name v Hv) as (k' & s & Hk' & Hs). rewrite Hk in Hk'. injection Hk' as <-.
  destruct v; try done. by eapply HP.
Qed.

Lemma IntVar_int64 name def :
  formal_kind formal_flags name = Some KInt → is_int64 def → is_int64 (IntVar a name def).
Proof. intros Hk. apply (number_typed is_int64 KInt); [done|]. intros s z. apply Set_value_ranges. Qed.

Lemma DurationVar_int64 name def :
  formal_kind formal_flags name = Some KDuration → is_int64 def → is_int64 (DurationVar a name def).
Proof. intros Hk. apply (number_typed is_int64 KDuration); [done|]. intros s z. apply Set_value_ranges. Qed.

Lemma UintVar_uint64 name def :
  formal_kind formal_flags name = Some KUint → is_uint64 def → is_uint64 (UintVar a name def).
Proof. intros Hk. apply (number_typed is_uint64 KUint); [done|]. intros s z. apply Set_value_ranges. Qed.

Lemma flag_vars_typed : typed_flags (flag_vars Getenv NumCPU a).
Proof.
  assert (∀ z, is_uint64 (to_uint 64 z)) as Hu by (intros z; apply Z.mod_pos_bound; lia).
  assert (∀ z, 0 ≤ z < 2 ^ 40 → is_int64 z) as Hc by (unfold is_int64; lia).
  unfold typed_flags, int_fields, uint_fields, flag_vars. cbn [f_ListenPort f_CacheTTL f_CacheMaxKeys
    f_NACKPort f_NACKWorkers f_EgressPort f_DedupWindow f_RLIPBurst f_RLSenderWindow f_RLChainWindow
    f_RLSequenceMax f_RLSequenceWindow f_RLGroupBurst f_DrainTimeout f_otlpInterval f_BeaconInterval
    f_bits f_beaconTier f_beaconPref].
  split; repeat (apply Forall_cons; split); try apply Forall_nil_2;
    lazymatch goal with
    | |- is_int64 (IntVar _ _ _) => apply IntVar_int64; [reflexivity|apply envInt_int64]
    | |- is_int64 (DurationVar _ _ _) => apply DurationVar_int64; [reflexivity|apply envDuration_int64]
    | |- is_uint64 (UintVar _ _ _) => apply UintVar_uint64; [reflexivity|apply Hu]
    end; first [done | apply Hc; unfold Minute, Second; lia].
Qed.
End typed.

Lemma typed_flags_narrowed f :
  typed_flags f → Forall is_int64 [f_NACKWorkers f] ∧ Forall is_uint64 [f_beaconTier f; f_beaconPref f].
Proof.
  unfold typed_flags, int_fields, uint_fields. intros [Hi Hu].
  repeat (let Hx := fresh in apply Forall_cons in Hi as [Hx Hi]).
  apply Forall_cons in Hu as [_ Hu]. split; [|done]. by constructor.
Qed.

(** C23: the types of the configuration.  Whatever the environment and the
    command line, when [Load] returns, every flag variable of type int or
    time.Duration holds a 64-bit signed number and every one of type uint a
    64-bit unsigned one; and if [Load] accepts, shard bits are in [1, 15], tier
    and preference fit in a byte, group id and scope prefix in 16 bits, and
    there is at least one NACK worker.  Nothing of the kind holds of the NACK
    port and of the beacon interval in seconds, which main.go and beacon.go
    narrow to 16 bits. *)
Theorem Load_typed (InterfaceByName : bytes → bool) (NumCPU : Z) (Getenv : bytes → bytes)
    (args : list bytes) :
  0 < NumCPU < 2 ^ 63 →
  ∀ r, Load_main InterfaceByName NumCPU Getenv args = LoadReturns r →
  ∃ f, typed_flags f ∧ r = Load InterfaceByName NumCPU f ∧
  ∀ c, r = Ok c →
    c_flags c = f ∧ 1 ≤ c_ShardBits c ≤ 15 ∧ 0 ≤ c_BeaconTier c < 2 ^ 8 ∧ 0 ≤ c_BeaconPreference c < 2 ^ 8 ∧
    0 ≤ c_MCGroupID c < 2 ^ 16 ∧ 0 ≤ c_MCPrefix c < 2 ^ 16 ∧ 0 < c_NACKWorkers c < 2 ^ 63.
Proof.
  intros Hcpu r. unfold Load_main. destruct (Parse formal_flags args) as [a rest|] eqn:Hp; [|done].
  intros [= <-]. apply Parse_typed in Hp. exists (flag_vars Getenv NumCPU a).
  assert (is_int64 NumCPU) as Hcpu' by (unfold is_int64; lia).
  pose proof (flag_vars_typed Getenv NumCPU Hcpu' a Hp) as Ht. split; [done|]. split; [done|].
  intros c Hc. destruct (typed_flags_narrowed _ Ht) as [Hw Hn].
  by apply (Load_ranges InterfaceByName NumCPU).
Qed.

(** ** Where a value comes from *)

(** The flag variables by the names of their flags. *)
Definition fields (f : flags) : list (bytes * flag_val) :=
  [
   (str "mc-iface", VString (f_MCIface f));
   (str "listen-port", VInt (f_ListenPort f));
   (str "cache-backend", VString (f_CacheBackend f));
   (str "redis-addr", VString (f_RedisAddr f));
   (str "cache-ttl", VInt (f_CacheTTL f));
   (str "cache-max-keys", VInt (f_CacheMaxKeys f));
   (str "nack-port", VInt (f_NACKPort f));
   (str "nack-workers", VInt (f_NACKWorkers f));
   (str "egress-iface", VString (f_egress f));
   (str "egress-port", VInt (f_EgressPort f));
   (str "dedup-window", VInt (f_DedupWindow f));
   (str "rl-ip-rate", VFloat (f_RLIPRate f));
   (str "rl-ip-burst", VInt (f_RLIPBurst f));
   (str "rl-sender-rate", VFloat (f_RLSenderRate f));
   (str "rl-sender-window", VInt (f_RLSenderWindow f));
   (str "rl-chain-rate", VFloat (f_RLChainRate f));
   (str "rl-chain-window", VInt (f_RLChainWindow f));
   (str "rl-sequence-max", VInt (f_RLSequenceMax f));
   (str "rl-sequence-window", VInt (f_RLSequenceWindow f));
   (str "rl-group-rate", VFloat (f_RLGroupRate f));
   (str "rl-group-burst", VInt (f_RLGroupBurst f));
   (str "scope", VString (f_MCScope f));
   (str "mc-group-id", VString (f_groupID f));
   (str "subtree-data-enabled", VBool (f_SubtreeDataEnabled f));
   (str "debug", VBool (f_Debug f));
   (str "drain-timeout", VInt (f_DrainTimeout f));
   (str "metrics-addr", VString (f_MetricsAddr f));
   (str "instance", VString (f_InstanceID f));
   (str "otlp-endpoint", VString (f_OTLPEndpoint f));
   (str "otlp-interval", VInt (f_otlpInterval f));
   (str "shard-bits", VInt (f_bits f));
   (str "beacon-enabled", VBool (f_BeaconEnabled f));
   (str "beacon-tier", VInt (f_beaconTier f));
   (str "beacon-preference", VInt (f_beaconPref f));
   (str "beacon-interval", VInt (f_BeaconInterval f));
   (str "beacon-scope", VString (f_BeaconScope f));
   (str "beacon-flags-unicast", VBool (f_BeaconFlagsUnicast f));
   (str "beacon-flags-multicast", VBool (f_BeaconFlagsMulticast f));
   (str "beacon-flags-draining", VBool (f_BeaconFlagsDraining f));
   (str "nack-addr", VString (f_BeaconNACKAddr f));
   (str "suppress-ack", VBool (f_SuppressACK f));
   (str "suppress-miss", VBool (f_SuppressMISS f))
  ].

(** The documentation of the flags (docs/configuration.md): the name, the
    environment variable, and the default.  The default of nack-workers is
    [runtime.NumCPU()]; "auto-detected", "hostname", and no default at all are
    the empty string; the aliases rl-sender-rate and rl-sender-window have no
    documented default and are 0. *)
Inductive doc_default := DocText (t : bytes) | DocNumCPU.

Record doc_flag := MkDoc { d_flag : bytes; d_env : bytes; d_default : doc_default }.

Definition doc (name env def : string) : doc_flag := MkDoc (str name) (str env) (DocText (str def)).

Definition documented_flags : list doc_flag := [
  doc "mc-iface" "MC_IFACE" "eth0";
  doc "listen-port" "LISTEN_PORT" "9001";
  doc "cache-backend" "CACHE_BACKEND" "memory";
  doc "redis-addr" "REDIS_ADDR" "";
  doc "cache-ttl" "CACHE_TTL" "60s";
  doc "cache-max-keys" "CACHE_MAX_KEYS" "0";
  doc "nack-port" "NACK_PORT" "9300";
  MkDoc (str "nack-workers") (str "NACK_WORKERS") DocNumCPU;
  doc "egress-iface" "EGRESS_IFACE" "eth0";
  doc "egress-port" "EGRESS_PORT" "9001";
  doc "dedup-window" "DEDUP_WINDOW" "60s";
  doc "rl-ip-rate" "RL_IP_RATE" "100";
  doc "rl-ip-burst" "RL_IP_BURST" "10";
  doc "rl-sender-rate" "RL_SENDER_RATE" "0";
  doc "rl-sender-window" "RL_SENDER_WINDOW" "0";
  doc "rl-chain-rate" "RL_CHAIN_RATE" "500";
  doc "rl-chain-window" "RL_CHAIN_WINDOW" "1m";
  doc "rl-sequence-max" "RL_SEQUENCE_MAX" "100";
  doc "rl-sequence-window" "RL_SEQUENCE_WINDOW" "1m";
  doc "rl-group-rate" "RL_GROUP_RATE" "200";
  doc "rl-group-burst" "RL_GROUP_BURST" "50";
  doc "scope" "MC_SCOPE" "site";
  doc "mc-group-id" "MC_GROUP_ID" "0x000B";
  doc "subtree-data-enabled" "SUBTREE_DATA_ENABLED" "false";
  doc "debug" "DEBUG" "false";
  doc "drain-timeout" "DRAIN_TIMEOUT" "0s";
  doc "metrics-addr" "METRICS_ADDR" ":9400";
  doc "instance" "INSTANCE_ID" "";
  doc "otlp-endpoint" "OTLP_ENDPOINT" "";
  doc "otlp-interval" "OTLP_INTERVAL" "30s";
  doc "shard-bits" "SHARD_BITS" "8";
  doc "beacon-enabled" "BEACON_ENABLED" "true";
  doc "beacon-tier" "BEACON_TIER" "0";
  doc "beacon-preference" "BEACON_PREFERENCE" "128";
  doc "beacon-interval" "BEACON_INTERVAL" "60s";
  doc "beacon-scope" "BEACON_SCOPE" "site";
  doc "beacon-flags-unicast" "BEACON_FLAGS_UNICAST" "false";
  doc "beacon-flags-multicast" "BEACON_FLAGS_MULTICAST" "true";
  doc "beacon-flags-draining" "BEACON_FLAGS_DRAINING" "false";
  doc "nack-addr" "NACK_ADDR" "";
  doc "suppress-ack" "SUPPRESS_ACK" "false";
  doc "suppress-miss" "SUPPRESS_MISS" "false"
].

(** How the value of an environment variable is read: like a flag's, except
    that integers are decimal and that a negative number becomes unsigned by
    wrapping around. *)
Definition env_text (k : kind) (s : bytes) : option flag_val :=
  match k with
  | KInt => match Atoi s with Ok n => Some (VInt n) | Err _ => None end
  | KUint => match Atoi s with Ok n => Some (VInt (to_uint 64 n)) | Err _ => None end
  | _ => Set_value k s
  end.

Section sources.
Context (Getenv : bytes → bytes) (NumCPU : Z).

(** The documented default, read like an environment variable. *)
Definition default_value (k : kind) (d : doc_flag) : option flag_val :=
  match d_default d with DocText t => env_text k t | DocNumCPU => Some (VInt NumCPU) end.

(** The value of a flag of kind [k] that the command line does not set. *)
Definition unset_value (k : kind) (d : doc_flag) : option flag_val :=
  match (if bool_decide (Getenv (d_env d) = []) then None else env_text k (Getenv (d_env d))) with
  | Some v => Some v
  | None => default_value k d
  end.

(** The value of a documented flag after the settings [ss]: the last setting,
    else the environment, else the default. *)
Definition flag_value (ss : list setting) (d : doc_flag) : option flag_val :=
  match last (filter (fun s => s_name s = d_flag d) ss) with
  | Some s => setting_value formal_flags s
  | None => formal_kind formal_flags (d_flag d) ≫= fun k => unset_value k d
  end.

Context (a : gmap bytes flag_val) (Ha : typed_actual formal_flags a).

(** A flag's value when [a] is what the command line sets. *)
Definition value_in (k : kind) (d : doc_flag) : option flag_val :=
  match a !! d_flag d with Some v => Some v | None => unset_value k d end.

(** What is set for a flag is a value of its kind. *)
Lemma set_value_kind name k v :
  formal_kind formal_flags name = Some k → a !! name = Some v → ∃ s, Set_value k s = Some v.
Proof.
  intros Hk Hv. destruct (Ha name v Hv) as (k' & s & Hk' & Hs). rewrite Hk in Hk'. injection Hk' as <-. by exists s.
Qed.

(** Prove the value of a variable: its kind, the value set, the environment. *)
Local Ltac var_value name Hk :=
  unfold value_in, unset_value, default_value; cbn [d_flag d_env d_default];
  let v := fresh "v" in let Hv := fresh "Hv" in let s := fresh "s" in let Hs := fresh "Hs" in
  destruct (a !! name) as [v|] eqn:Hv;
    [destruct (set_value_kind name _ v Hk Hv) as [s Hs]; cbn [Set_value] in Hs|].

Lemma string_var name env def :
  formal_kind formal_flags name = Some KString →
  value_in KString (MkDoc name env (DocText def)) = Some (VString (StringVar a name (envStr Getenv env def))).
Proof.
  intros Hk. unfold StringVar, envStr. var_value name Hk; [by injection Hs as <-|].
  destruct (Getenv env); done.
Qed.

Lemma int_var name env d def :
  formal_kind formal_flags name = Some KInt → default_value KInt (MkDoc name env d) = Some (VInt def) →
  value_in KInt (MkDoc name env d) = Some (VInt (IntVar a name (envInt Getenv env def))).
Proof.
  intros Hk Hd. unfold IntVar, envInt. var_value name Hk; [by destruct (ParseInt0 s); simplify_eq|].
  unfold default_value in Hd. cbn [d_default] in Hd. destruct (Getenv env) as [|c e] eqn:He; [done|].
  rewrite bool_decide_eq_false_2, bool_decide_eq_true_2 by done. cbn [env_text]. by destruct (Atoi (c :: e)).
Qed.

Lemma uint_var name env t def :
  formal_kind formal_flags name = Some KUint → Atoi t = Ok def →
  value_in KUint (MkDoc name env (DocText t)) = Some (VInt (UintVar a name (to_uint 64 (envInt Getenv env def)))).
Proof.
  intros Hk Hd. unfold UintVar, envInt. var_value name Hk; [by destruct (ParseUint0 s); simplify_eq|].
  destruct (Getenv env) as [|c e] eqn:He; [cbn; by rewrite Hd|].
  rewrite bool_decide_eq_false_2, bool_decide_eq_true_2 by done. cbn [env_text].
  destruct (Atoi (c :: e)); [done|]. by rewrite Hd.
Qed.

Lemma duration_var name env t def :
  formal_kind formal_flags name = Some KDuration → ParseDuration t = Some def →
  value_in KDuration (MkDoc name env (DocText t)) = Some (VInt (DurationVar a name (envDuration Getenv env def))).
Proof.
  intros Hk Hd. unfold DurationVar, envDuration. var_value name Hk; [by destruct (ParseDuration s); simplify_eq/=|].
  destruct (Getenv env) as [|c e] eqn:He; [cbn; by rewrite Hd|].
  rewrite bool_decide_eq_false_2, bool_decide_eq_true_2 by done. cbn [env_text Set_value].
  destruct (ParseDuration (c :: e)); [done|]. cbn. by rewrite Hd.
Qed.

Lemma float_var name env t def :
  formal_kind formal_flags name = Some KFloat64 → ParseFloat t = Ok def →
  value_in KFloat64 (MkDoc name env (DocText t)) = Some (VFloat (Float64Var a name (envFloat Getenv env def))).
Proof.
  intros Hk Hd. unfold Float64Var, envFloat. var_value name Hk; [by destruct (ParseFloat s); simplify_eq|].
  destruct (Getenv env) as [|c e] eqn:He; [cbn [bool_decide env_text Set_value]; by rewrite Hd|].
  rewrite bool_decide_eq_false_2, bool_decide_eq_true_2 by done. cbn [env_text Set_value].
  destruct (ParseFloat (c :: e)); [done|]. by rewrite Hd.
Qed.

Lemma bool_var name env t def :
  formal_kind formal_flags name = Some KBool → ParseBool t = Some def →
  value_in KBool (MkDoc name env (DocText t)) = Some (VBool (BoolVar a name (envBool Getenv env def))).
Proof.
  intros Hk Hd. unfold BoolVar, envBool. var_value name Hk; [by destruct (ParseBool s); simplify_eq/=|].
  destruct (Getenv env) as [|c e] eqn:He; [cbn; by rewrite Hd|].
  rewrite bool_decide_eq_false_2, bool_decide_eq_true_2 by done. cbn [env_text Set_value].
  destruct (ParseBool (c :: e)); [done|]. cbn. by rewrite Hd.
Qed.

(** Every variable has the value its documentation says. *)
Lemma fields_documented :
  Forall2 (fun nv d => nv.1 = d_flag d ∧ (formal_kind formal_flags nv.1 ≫= fun k => value_in k d) = Some nv.2)
    (fields (flag_vars Getenv NumCPU a)) documented_flags.
Proof.
  unfold fields, flag_vars, documented_flags, doc.
  cbn [f_MCIface f_ListenPort f_CacheBackend f_RedisAddr f_CacheTTL f_CacheMaxKeys f_NACKPort f_NACKWorkers
    f_egress f_EgressPort f_DedupWindow f_RLIPRate f_RLIPBurst f_RLSenderRate f_RLSenderWindow f_RLChainRate
    f_RLChainWindow f_RLSequenceMax f_RLSequenceWindow f_RLGroupRate f_RLGroupBurst f_MCScope f_groupID
    f_SubtreeDataEnabled f_Debug f_DrainTimeout f_MetricsAddr f_InstanceID f_OTLPEndpoint f_otlpInterval f_bits
    f_BeaconEnabled f_beaconTier f_beaconPref f_BeaconInterval f_BeaconScope f_BeaconFlagsUnicast
    f_BeaconFlagsMulticast f_BeaconFlagsDraining f_BeaconNACKAddr f_SuppressACK f_SuppressMISS].
  repeat apply Forall2_cons_2; [..|apply Forall2_nil_2];
    (split; [reflexivity|]; cbn [fst snd];
     match goal with |- context [formal_kind formal_flags ?n] =>
       let k := eval vm_compute in (formal_kind formal_flags n) in
       replace (formal_kind formal_flags n) with k by (symmetry; vm_compute; reflexivity) end;
     cbn [mbind option_bind];
     first [apply string_var | apply int_var | apply uint_var | apply duration_var | apply float_var | apply bool_var];
     vm_compute; reflexivity).
Qed.
End sources.

Lemma flag_value_in Getenv NumCPU ss d :
  Forall (good_setting formal_flags) ss →
  flag_value Getenv NumCPU ss d =
  (formal_kind formal_flags (d_flag d) ≫= fun k => value_in Getenv NumCPU (apply_settings formal_flags ss ∅) k d).
Proof.
  intros Hss. unfold flag_value, value_in. rewrite apply_settings_lookup by done.
  destruct (last _) as [s|] eqn:Hl; [|done].
  assert (s ∈ filter (fun s => s_name s = d_flag d) ss) as [Hn Hin]%list_elem_of_filter.
  { by apply last_Some_elem_of. }
  destruct (proj1 (Forall_forall _ _) Hss s Hin) as [_ [v Hv]]. rewrite Hv.
  unfold setting_value in Hv. rewrite Hn in Hv. by destruct (formal_kind _ _).
Qed.

(** The flags registered are the documented ones. *)
Lemma undocumented name : name ∉ d_flag <$> documented_flags → formal_kind formal_flags name = None.
Proof.
  change (d_flag <$> documented_flags) with (fst <$> formal_flags). intros Hn. unfold formal_kind.
  rewrite filter_none; [done|]. apply Forall_forall. intros f Hf <-. by apply Hn, list_elem_of_fmap_2.
Qed.

(** C21: the value of every flag.  An argument list of well-formed settings,
    in any of the forms -f=v, --f=v, -f v and (for booleans) -f, followed by
    nothing, an operand or "--", makes [Load] continue with flag variables that
    hold, for each of the 42 flags of docs/configuration.md, and no others:
    the value of its last setting; without one, the value of its documented
    environment variable if that is set and can be read; and otherwise its
    documented default.  A flag that is not documented ends the process with
    status 2, and -h or -help with status 0. *)
Theorem command_line (InterfaceByName : bytes → bool) (NumCPU : Z) (Getenv : bytes → bytes)
    (ss : list setting) :
  Forall (good_setting formal_flags) ss →
  (∀ rest rest', ends_flags rest = Some rest' →
     ∃ f, Load_main InterfaceByName NumCPU Getenv ((ss ≫= setting_args) ++ rest) =
          LoadReturns (Load InterfaceByName NumCPU f) ∧
     Forall2 (fun nv d => nv.1 = d_flag d ∧ flag_value Getenv NumCPU ss d = Some nv.2) (fields f) documented_flags) ∧
  (∀ name two more, good_name name → name ∉ d_flag <$> documented_flags →
     Load_main InterfaceByName NumCPU Getenv ((ss ≫= setting_args) ++ (dashes two ++ name) :: more) =
     LoadExits (if bool_decide (name = str "help" ∨ name = str "h") then 0 else 2)).
Proof.
  intros Hss. split.
  - intros rest rest' Hr. set (a := apply_settings formal_flags ss ∅).
    pose proof (Parse_settings formal_flags ss rest rest' Hss Hr) as Hp.
    exists (flag_vars Getenv NumCPU a). unfold Load_main. rewrite Hp. split; [done|].
    eapply Forall2_impl; [exact (fields_documented Getenv NumCPU a (Parse_typed _ _ _ _ Hp))|].
    intros nv d [Hn Hv]. split; [done|]. rewrite Hn in Hv. rewrite <- Hv. by apply flag_value_in.
  - intros name two more Hn Hd. unfold Load_main.
    rewrite (Parse_unknown formal_flags ss name two more) by (done || by apply undocumented). by case_bool_decide.
Qed.

(** ** Writing a configuration down *)

(** The text of a value. *)
Definition value_text (k : kind) (v : flag_val) : bytes :=
  match k, v with
  | KDuration, VInt z => duration_ns z
  | KUint, VInt z => decimal z
  | _, VInt z => int_text z
  | _, VString s => s
  | _, VFloat x => float_text x
  | _, VBool b => str (if b then "true" else "false")
  end.

(** The settings, and the command line, that say everything. *)
Definition field_setting (nv : bytes * flag_val) : setting :=
  MkSetting nv.1 (Inline false (value_text (default KString (formal_kind formal_flags nv.1)) nv.2)).

Definition flag_args (f : flags) : list bytes := (field_setting <$> fields f) ≫= setting_args.

(** The variables of type float64. *)
Definition typed_rates (f : flags) : Prop :=
  Forall is_float64 [f_RLIPRate f; f_RLSenderRate f; f_RLChainRate f; f_RLGroupRate f].

(** A value a flag of the kind can hold. *)
Definition fits (k : kind) (v : flag_val) : Prop :=
  match k, v with
  | KString, VString _ | KBool, VBool _ => True
  | KInt, VInt z | KDuration, VInt z => is_int64 z
  | KUint, VInt z => is_uint64 z
  | KFloat64, VFloat x => is_float64 x
  | _, _ => False
  end.

Lemma value_text_read k v : fits k v → Set_value k (value_text k v) = Some v.
Proof.
  destruct flag_texts as (H1 & H2 & H3 & H4 & _ & _ & H6 & H7 & _).
  destruct k, v as [s|z|x|b]; cbn [fits value_text]; try done; intros Hf; auto.
Qed.

Lemma good_name_check n :
  starts_with (fun c => c ≠ dash) n → n ≠ [] → forallb (fun c => negb (c =? equals)) n = true → good_name n.
Proof.
  intros Hs Hn Hf. split_and!; [done|done|]. intros Hin. rewrite forallb_forall in Hf.
  specialize (Hf equals). rewrite <- list_elem_of_In, Z.eqb_refl in Hf. by specialize (Hf Hin).
Qed.

Lemma fields_fit f :
  typed_flags f → typed_rates f →
  Forall (fun nv => good_name nv.1 ∧ ∃ k, formal_kind formal_flags nv.1 = Some k ∧ fits k nv.2) (fields f).
Proof.
  unfold typed_flags, int_fields, uint_fields, typed_rates. intros [Hi Hu] Hr.
  repeat (let Hx := fresh in apply Forall_cons in Hi as [Hx Hi]).
  repeat (let Hx := fresh in apply Forall_cons in Hu as [Hx Hu]).
  repeat (let Hx := fresh in apply Forall_cons in Hr as [Hx Hr]).
  unfold fields. repeat (apply Forall_cons; split); try apply Forall_nil_2;
    (split; [by apply good_name_check|]; eexists; split; [vm_compute; reflexivity|]; cbn; done).
Qed.

Lemma fields_names f : NoDup (fields f).*1.
Proof. cbn. by apply (bool_decide_unpack _). Qed.

Lemma last_named (l : list (bytes * flag_val)) n v :
  NoDup l.*1 → (n, v) ∈ l →
  last (filter (fun s => s_name s = n) (field_setting <$> l)) = Some (field_setting (n, v)).
Proof.
  induction l as [|[n' v'] l IH]; [by intros _ ?%elem_of_nil|]. cbn [fmap list_fmap]. intros [Hni Hnd]%NoDup_cons Hin.
  rewrite filter_cons. cbn [field_setting s_name fst]. apply elem_of_cons in Hin as [[= -> ->]|Hin].
  - rewrite decide_True by done. assert (filter (fun s => s_name s = n') (field_setting <$> l) = []) as ->; [|done].
    clear -Hni. induction l as [|[n v] l IH]; [done|]. cbn [fmap list_fmap] in *.
    apply not_elem_of_cons in Hni as [Hne Hni]. rewrite filter_cons, decide_False by (cbn in *; congruence). by apply IH.
  - rewrite decide_False; [by apply IH|]. intros ->. apply Hni. apply list_elem_of_fmap. by exists (n, v).
Qed.

Lemma flag_args_read f :
  typed_flags f → typed_rates f →
  ∃ a, Parse formal_flags (flag_args f) = Parsed a [] ∧ Forall (fun nv => a !! nv.1 = Some nv.2) (fields f).
Proof.
  intros Ht Hr. pose proof (fields_fit f Ht Hr) as Hfit.
  assert (∀ nv, nv ∈ fields f → setting_value formal_flags (field_setting nv) = Some nv.2) as Hval.
  { intros nv Hin. rewrite Forall_forall in Hfit. destruct (Hfit nv Hin) as (_ & k & Hk & Hf).
    unfold setting_value, field_setting. cbn [s_name s_form]. rewrite Hk. cbn [default from_option id].
    destruct k; by rewrite value_text_read. }
  assert (Forall (good_setting formal_flags) (field_setting <$> fields f)) as Hgood.
  { apply Forall_fmap, Forall_forall. intros nv Hin. cbn. split; [|by rewrite Hval].
    rewrite Forall_forall in Hfit. by destruct (Hfit nv Hin). }
  exists (apply_settings formal_flags (field_setting <$> fields f) ∅). split.
  - unfold flag_args. rewrite <- (app_nil_r (_ ≫= _)). by apply Parse_settings.
  - apply Forall_forall. intros [n v] Hin. rewrite apply_settings_lookup by done.
    cbn [fst snd]. rewrite (last_named _ n v (fields_names f) Hin). by apply Hval.
Qed.

Lemma flag_vars_fields Getenv NumCPU a f :
  Forall (fun nv => a !! nv.1 = Some nv.2) (fields f) → flag_vars Getenv NumCPU a = f.
Proof.
  intros Hf. destruct f. unfold fields in Hf.
  repeat (let Hx := fresh "Hx" in apply Forall_cons in Hf as [Hx Hf]; cbn [fst snd] in Hx).
  unfold flag_vars, StringVar, IntVar, UintVar, DurationVar, Float64Var, BoolVar.
  repeat match goal with Hx : a !! _ = Some _ |- _ => rewrite Hx; clear Hx end. done.
Qed.

(** C22: a configuration can be written down and is read back.  For every
    contents of the flag variables of their types (any string, any int, uint
    and time.Duration of 64 bits, any float64, infinities and NaN included, any
    bool) there is a command line, one argument per flag, from which [Load], in
    any environment and on any host, reads exactly these contents. *)
Theorem configuration_roundtrip (InterfaceByName : bytes → bool) (NumCPU : Z) (Getenv : bytes → bytes)
    (f : flags) :
  typed_flags f → typed_rates f →
  length (flag_args f) = length formal_flags ∧
  Load_main InterfaceByName NumCPU Getenv (flag_args f) = LoadReturns (Load InterfaceByName NumCPU f).
Proof.
  intros Ht Hr. split; [done|]. destruct (flag_args_read f Ht Hr) as (a & Hp & Ha).
  unfold Load_main. by rewrite Hp, (flag_vars_fields _ _ a f Ha).
Qed.
