(* ===== verification/Cache.v ===== *)
(** * cache: the storage interface (cache/cache.go)

    Frames are byte slices: references into backing arrays that other code
    may overwrite.  This file models the arrays ([heap]) and slices, the
    operations of the [cache.Cache] interface together with the Redis
    deduplication gate, and the laws their clients rely on. *)

From S2P Require Import Prelude.

(** ** Slices *)

(** The backing arrays of the process, by address. *)
Abbreviation heap := (gmap nat bytes).

Record slice := Slice {
  sl_buf : nat;
  sl_off : nat;
  sl_len : nat;
}.

(** The bytes a slice denotes now. *)
Definition contents (h : heap) (s : slice) : bytes :=
  take (sl_len s) (drop (sl_off s) (default [] (h !! sl_buf s))).

(** A slice over a new array. *)
Definition alloc (h : heap) (bs : bytes) : slice * heap :=
  let l := fresh (dom h : gset nat) in (Slice l 0 (length bs), <[l := bs]> h).

(** Overwrite the first bytes of an array, as a receive call does. *)
Definition fill (h : heap) (buf : nat) (bs : bytes) : heap :=
  <[buf := put_at (default [] (h !! buf)) 0 bs]> h.

#[global] Arguments contents : simpl never.
#[global] Arguments alloc : simpl never.
#[global] Arguments fill : simpl never.

(** ** The interface

    [cb_Store] and [cb_Retrieve] are the methods of [cache.Cache] the program
    calls; [cb_SetNX] is the method of the Redis cache the retransmitter
    uses, absent when [redisCache] is nil.  [now] is the clock reading the
    call makes and [pick] the map-iteration choice of an eviction. *)
Class Backend (C E : Type) := {
  cb_Store : heap → bytes → slice → Z → nat → Z → atomic C (result unit E);
  cb_Retrieve : bytes → Z → atomic (heap * C) (result (option slice) E);
  cb_Delete : bytes → atomic C (result unit E);
  cb_SetNX : option (bytes → bytes → Z → Z → atomic C (bool * option E));
}.

(** ** What a backend promises

    [cb_view h c t k] is the frame a lookup of [k] at time [t] would find.
    [cb_roomy c] says that the backend never evicts to make room. *)
Class BackendSpec (C E : Type) `{Backend C E} := {
  cb_view : heap → C → Z → bytes → option bytes;
  cb_roomy : C → Prop;
}.

(** Keys of the frame cache have 16 bytes. *)
Definition frame_key (k : bytes) : Prop := length k = 16%nat.

Class BackendLaws (C E : Type) `{BackendSpec C E} : Prop := {
  retrieve_reply (h : heap) (c : C) k t :
    match (cb_Retrieve k t (h, c)).1 with
    | Ok (Some s) => cb_view h c t k = Some (contents (cb_Retrieve k t (h, c)).2.1 s)
    | Ok None => cb_view h c t k = None
    | Err _ => True
    end;
  retrieve_view (h : heap) (c : C) k t t' k' :
    t ≤ t' →
    cb_view (cb_Retrieve k t (h, c)).2.1 (cb_Retrieve k t (h, c)).2.2 t' k' = cb_view h c t' k';
  retrieve_roomy (h : heap) (c : C) k t : cb_roomy c → cb_roomy (cb_Retrieve k t (h, c)).2.2;
  store_hit (h : heap) (c : C) k s ttl p now t :
    0 < ttl → (cb_Store h k s ttl p now c).1 = Ok tt → now ≤ t < now + ttl →
    cb_view h (cb_Store h k s ttl p now c).2 t k = Some (contents h s);
  store_other (h : heap) (c : C) k s ttl p now t k' :
    now ≤ t → k' ≠ k →
    cb_view h (cb_Store h k s ttl p now c).2 t k' = cb_view h c t k' ∨
    cb_view h (cb_Store h k s ttl p now c).2 t k' = None;
  store_roomy (h : heap) (c : C) k s ttl p now t k' :
    cb_roomy c → now ≤ t → k' ≠ k →
    cb_roomy (cb_Store h k s ttl p now c).2 ∧
    cb_view h (cb_Store h k s ttl p now c).2 t k' = cb_view h c t k';
  setnx_view (h : heap) (c : C) f k v ttl now t k' :
    cb_SetNX = Some f → frame_key k' → length k = 8%nat → now ≤ t →
    cb_view h (f k v ttl now c).2 t k' = cb_view h c t k';
  setnx_roomy (c : C) f k v ttl now :
    cb_SetNX = Some f → cb_roomy c → cb_roomy (f k v ttl now c).2;
}.

(** A backend that keeps its own copy of what it stores, and has nothing that
    has not been stored. *)
Class Copying (C E : Type) `{BackendSpec C E} : Prop := {
  view_heap (h h' : heap) (c : C) t k : cb_view h c t k = cb_view h' c t k;
  store_value (h : heap) (c : C) k s ttl p now t v :
    now ≤ t → cb_view h (cb_Store h k s ttl p now c).2 t k = Some v →
    v = contents h s ∨ cb_view h c t k = Some v;
}.

(** ** Lemmas on slices *)

Lemma contents_alloc h bs : contents (alloc h bs).2 (alloc h bs).1 = bs.
Proof.
  unfold alloc, contents. cbn. rewrite lookup_insert_eq. cbn.
  by rewrite drop_0, take_ge.
Qed.

Lemma contents_insert_ne h l bs s : sl_buf s ≠ l → contents (<[l := bs]> h) s = contents h s.
Proof. intros Hne. unfold contents. by rewrite lookup_insert_ne. Qed.

Lemma contents_fill_ne h l bs s : sl_buf s ≠ l → contents (fill h l bs) s = contents h s.
Proof. apply contents_insert_ne. Qed.

(** What has just been received is what the slice over it denotes. *)
Lemma contents_fill h buf bs :
  contents (fill h buf bs) (Slice buf 0 (length bs)) = bs.
Proof.
  unfold contents, fill. cbn [sl_buf sl_off sl_len].
  rewrite lookup_insert_eq. cbn [default from_option id]. rewrite drop_0.
  unfold put_at. rewrite take_0, app_nil_l. apply take_app_length.
Qed.
