(* ===== verification/CacheMemory.v ===== *)
(** * cache/memory: the in-process cache (cache/memory/memory.go)

    The state of [memory.Cache] and its operations, each the body of one
    critical section; [expires] and [now] are clock readings.  The cache
    keeps the slice it is given: it does not copy the bytes. *)

From S2P Require Import Prelude Cache.

(** [entry]. *)
Record entry := Entry {
  value : slice;
  expires : Z;
}.

(** [Cache]; [gcRunning] says whether the background goroutine is alive, which
    is what a send on the unbuffered [stopGC] channel waits for. *)
Record MemCache := MkMemCache {
  data : gmap bytes entry;
  maxKeys : Z;
  gcRunning : bool;
}.

Definition set_data (d : gmap bytes entry) (c : MemCache) : MemCache :=
  MkMemCache d (maxKeys c) (gcRunning c).

(** [New] starts the background goroutine. *)
Definition mem_New (max : Z) : MemCache := MkMemCache ∅ max true.

(** The eviction of [Store]: delete the first key of a map iteration. *)
Definition mem_evict (pick : nat) (c : MemCache) : MemCache :=
  if (0 <? maxKeys c) && (maxKeys c <=? Z.of_nat (size (data c))) then
    match pick_nth pick (map_to_list (data c)) with
    | Some (k, _) => set_data (delete k (data c)) c
    | None => c
    end
  else c.

(** [Store]. *)
Definition mem_Store (key : bytes) (v : slice) (ttl : Z) (pick : nat) (now : Z)
    : atomic MemCache unit :=
  fun c =>
    let c' := mem_evict pick c in
    (tt, set_data (<[key := Entry v (now + ttl)]> (data c')) c').

(** [Retrieve]: expired entries are left in place. *)
Definition mem_Retrieve (key : bytes) (now : Z) (c : MemCache) : option slice :=
  match data c !! key with
  | None => None
  | Some e => if expires e <? now then None else Some (value e)
  end.

(** [Delete]. *)
Definition mem_Delete (key : bytes) : atomic MemCache unit :=
  fun c => (tt, set_data (delete key (data c)) c).

(** [Len]. *)
Definition mem_Len (c : MemCache) : Z := Z.of_nat (size (data c)).

(** [sweepExpired], run by the background goroutine on every tick. *)
Definition mem_sweepExpired (now : Z) : atomic MemCache unit :=
  fun c => (tt, set_data (filter (fun '(_, e) => ¬ (expires e < now)) (data c)) c).

(** [Close]: [None] when the send on [stopGC] blocks for ever. *)
Definition mem_Close : atomic MemCache (option (result unit Empty_set)) :=
  fun c => if gcRunning c then (Some (Ok tt), MkMemCache (data c) (maxKeys c) false) else (None, c).

(** One iteration of the background goroutine, on a tick: nothing happens once
    it has been stopped. *)
Definition mem_tick (now : Z) (c : MemCache) : MemCache :=
  if gcRunning c then (mem_sweepExpired now c).2 else c.

(** ** The cache as a backend *)

(** What a lookup at [t] finds. *)
Definition mem_view (h : heap) (c : MemCache) (t : Z) (k : bytes) : option bytes :=
  contents h <$> mem_Retrieve k t c.

(** Methods of [cache.Cache] implemented by [*memory.Cache]; [redisCache] is
    nil, so there is no deduplication gate.  No method returns an error. *)
#[export] Instance mem_backend (E : Type) : Backend MemCache E := {
  cb_Store h k s ttl p now c := (Ok tt, (mem_Store k s ttl p now c).2);
  cb_Retrieve k now hc := (Ok (mem_Retrieve k now hc.2), hc);
  cb_Delete k c := (Ok tt, (mem_Delete k c).2);
  cb_SetNX := None;
}.

#[export] Instance mem_spec (E : Type) : BackendSpec MemCache E := {
  cb_view := mem_view;
  cb_roomy c := maxKeys c ≤ 0;
}.

(** ** Eviction *)

Lemma mem_evict_cases pick c :
  mem_evict pick c = c ∨
  (0 < maxKeys c ∧ maxKeys c ≤ Z.of_nat (size (data c)) ∧
   ∃ k, is_Some (data c !! k) ∧ mem_evict pick c = set_data (delete k (data c)) c).
Proof.
  unfold mem_evict. destruct (_ && _) eqn:E; [|by left]. breflect.
  destruct (pick_nth _ _) as [[k e]|] eqn:Hp; [|by left]. right. split_and!; try done.
  exists k. split; [|done]. apply pick_nth_elem in Hp. apply elem_of_map_to_list in Hp. by exists e.
Qed.

(** A full cache always loses one entry. *)
Lemma mem_evict_full pick c :
  0 < maxKeys c → maxKeys c ≤ Z.of_nat (size (data c)) →
  ∃ k, is_Some (data c !! k) ∧ mem_evict pick c = set_data (delete k (data c)) c.
Proof.
  intros H0 Hs. unfold mem_evict.
  rewrite (proj2 (Z.ltb_lt _ _) H0), (proj2 (Z.leb_le _ _) Hs). cbn [andb].
  destruct (pick_nth_some pick (map_to_list (data c))) as [[k e] Hk].
  { intros Hnil. apply map_to_list_empty_iff in Hnil. rewrite Hnil, map_size_empty in Hs. lia. }
  rewrite Hk. exists k. split; [|done].
  apply pick_nth_elem, elem_of_map_to_list in Hk. by exists e.
Qed.

Lemma mem_evict_config pick c :
  maxKeys (mem_evict pick c) = maxKeys c ∧ gcRunning (mem_evict pick c) = gcRunning c.
Proof. destruct (mem_evict_cases pick c) as [->|(_ & _ & k & _ & ->)]; done. Qed.

Lemma mem_evict_sub pick c k :
  data (mem_evict pick c) !! k = data c !! k ∨ data (mem_evict pick c) !! k = None.
Proof.
  destruct (mem_evict_cases pick c) as [->|(_ & _ & k' & _ & ->)]; [by left|]. cbn.
  destruct (decide (k' = k)) as [->|]; [right; apply lookup_delete_eq|left; by apply lookup_delete_ne].
Qed.

Lemma mem_evict_roomy pick c : maxKeys c ≤ 0 → mem_evict pick c = c.
Proof. intros H0. unfold mem_evict. by rewrite (proj2 (Z.ltb_ge _ _) H0). Qed.

Lemma mem_evict_room pick c :
  0 < maxKeys c → Z.of_nat (size (data c)) ≤ maxKeys c →
  Z.of_nat (size (data (mem_evict pick c))) ≤ maxKeys c - 1.
Proof.
  intros H0 Hs. destruct (decide (maxKeys c ≤ Z.of_nat (size (data c)))) as [Hfull|].
  - destruct (mem_evict_full pick c H0 Hfull) as (k & [e He] & ->). cbn.
    rewrite map_size_delete_Some by (by exists e).
    enough (size (data c) ≠ 0)%nat by lia. apply map_size_non_empty_iff. intros Hnil.
    by rewrite Hnil, lookup_empty in He.
  - destruct (mem_evict_cases pick c) as [->|(_ & ? & _)]; lia.
Qed.

(** ** The size bound *)

(** With a limit configured, the number of entries never exceeds it. *)
Definition mem_bounded (c : MemCache) : Prop := 0 < maxKeys c → mem_Len c ≤ maxKeys c.

Lemma mem_Store_bounded key v ttl pick now c :
  mem_bounded c → mem_bounded (mem_Store key v ttl pick now c).2.
Proof.
  unfold mem_bounded, mem_Len, mem_Store. cbn. destruct (mem_evict_config pick c) as [Hm _].
  rewrite Hm. intros Hb H0. specialize (Hb H0). pose proof (mem_evict_room pick c H0 Hb).
  rewrite map_size_insert. destruct (_ !! key); simpl; lia.
Qed.

Lemma mem_sweep_size now c : (size (data (mem_sweepExpired now c).2) ≤ size (data c))%nat.
Proof. cbn. apply map_subseteq_size, map_filter_subseteq. Qed.

(** The operations of a cache in use, as one step relation. *)
Inductive mem_step : MemCache → MemCache → Prop :=
| step_store key v ttl pick now c : mem_step c (mem_Store key v ttl pick now c).2
| step_delete key c : mem_step c (mem_Delete key c).2
| step_tick now c : mem_step c (mem_tick now c)
| step_close c : mem_step c (mem_Close c).2.

Lemma mem_step_bounded c c' : mem_step c c' → mem_bounded c → mem_bounded c'.
Proof.
  intros Hstep Hb. destruct Hstep; [by apply mem_Store_bounded|..]; unfold mem_bounded, mem_Len in *.
  - cbn. intros H0. specialize (Hb H0). pose proof (map_size_delete key (data c)).
    destruct (_ !! key); simpl in *; lia.
  - unfold mem_tick. destruct (gcRunning c); [|done]. intros H0.
    pose proof (mem_sweep_size now c). cbn in *. specialize (Hb H0). lia.
  - unfold mem_Close. by destruct (gcRunning c).
Qed.

(** C15: the key limit is an invariant.  Starting from [New], after any
    sequence of stores (whatever entry each eviction picks), deletes, sweeps
    and closes, a cache with a positive limit holds at most that many keys. *)
Theorem mem_limit_invariant (max : Z) (c : MemCache) :
  0 < max → rtc mem_step (mem_New max) c → mem_Len c ≤ max.
Proof.
  intros H0 Hc. assert (mem_bounded c ∧ maxKeys c = max) as [Hb <-]; [|by apply Hb].
  remember (mem_New max) as c0 eqn:E0.
  assert (mem_bounded c0 ∧ maxKeys c0 = max) as H.
  { subst. split; [|done]. unfold mem_bounded, mem_Len. cbn. rewrite map_size_empty. lia. }
  clear E0. induction Hc as [|c1 c2 c3 Hs _ IH]; [done|]. apply IH.
  destruct H as [Hb Hm]. split; [by eapply mem_step_bounded|]. rewrite <- Hm.
  destruct Hs; cbn; try done.
  - by destruct (mem_evict_config pick c).
  - unfold mem_tick. by destruct (gcRunning c).
  - unfold mem_Close. by destruct (gcRunning c).
Qed.

Lemma mem_limit_invariant_witness :
  mem_Len (mem_Store [2] (Slice 0 0 1) 10 0 6 (mem_Store [1] (Slice 0 0 1) 10 0 5 (mem_New 1)).2).2
  ≤ 1.
Proof.
  apply (mem_limit_invariant 1); [lia|].
  eapply rtc_l; [apply step_store|]. eapply rtc_l; [apply step_store|]. apply rtc_refl.
Defined.

(** ** Lookup after store *)

Lemma mem_Store_lookup_ne key v ttl pick now c k :
  k ≠ key → data (mem_Store key v ttl pick now c).2 !! k = data (mem_evict pick c) !! k.
Proof. intros Hne. cbn. by apply lookup_insert_ne. Qed.

Lemma mem_Retrieve_Store_eq key v ttl pick now c t :
  mem_Retrieve key t (mem_Store key v ttl pick now c).2 =
  if now + ttl <? t then None else Some v.
Proof. unfold mem_Retrieve. cbn. by rewrite lookup_insert_eq. Qed.

Lemma mem_Retrieve_Store_ne key v ttl pick now c t k :
  k ≠ key →
  mem_Retrieve k t (mem_Store key v ttl pick now c).2 = mem_Retrieve k t (mem_evict pick c).
Proof. intros Hne. unfold mem_Retrieve. by rewrite mem_Store_lookup_ne. Qed.

Lemma mem_Retrieve_evict pick c t k :
  mem_Retrieve k t (mem_evict pick c) = mem_Retrieve k t c ∨
  mem_Retrieve k t (mem_evict pick c) = None.
Proof. unfold mem_Retrieve. destruct (mem_evict_sub pick c k) as [->| ->]; auto. Qed.

(** Sweeping at [now] hides nothing from lookups at [now] or later. *)
Lemma mem_Retrieve_sweep now c k t :
  now ≤ t → mem_Retrieve k t (mem_sweepExpired now c).2 = mem_Retrieve k t c.
Proof.
  intros Ht. unfold mem_Retrieve, mem_sweepExpired. cbn.
  destruct (data c !! k) as [e|] eqn:E.
  - destruct (decide (expires e < now)) as [Hx|Hx].
    + rewrite (map_lookup_filter_None_2 _ (data c) k).
      * destruct (expires e <? t) eqn:Et; [done|]. breflect. lia.
      * right. intros e' He' Hn. simplify_eq. contradiction.
    + by rewrite (map_lookup_filter_Some_2 _ (data c) k e E Hx).
  - by rewrite (map_lookup_filter_None_2 _ (data c) k) by (by left).
Qed.

#[local] Arguments mem_Store : simpl never.

#[export] Instance mem_laws (E : Type) : BackendLaws MemCache E.
Proof.
  constructor; cbn.
  - intros h c k t. unfold mem_view. by destruct (mem_Retrieve k t c).
  - done.
  - done.
  - intros h c k s ttl p now t Httl _ Ht. unfold mem_view. rewrite mem_Retrieve_Store_eq.
    by rewrite (proj2 (Z.ltb_ge _ _)) by lia.
  - intros h c k s ttl p now t k' Ht Hne. unfold mem_view. rewrite mem_Retrieve_Store_ne by done.
    destruct (mem_Retrieve_evict p c t k') as [->| ->]; auto.
  - intros h c k s ttl p now t k' Hr Ht Hne. split; [by unfold mem_Store; cbn; rewrite mem_evict_roomy|].
    unfold mem_view. rewrite mem_Retrieve_Store_ne by done. by rewrite mem_evict_roomy.
  - done.
  - done.
Qed.

(** ** Refinement of a TTL map

    The specification is a map from keys to the value and deadline of the
    last store, with neither capacity nor sweeping. *)
Inductive mem_op :=
| OpStore (key : bytes) (v : slice) (ttl : Z) (pick : nat) (now : Z)
| OpDelete (key : bytes)
| OpTick (now : Z).

Definition mem_exec1 (c : MemCache) (o : mem_op) : MemCache :=
  match o with
  | OpStore k v ttl p now => (mem_Store k v ttl p now c).2
  | OpDelete k => (mem_Delete k c).2
  | OpTick now => mem_tick now c
  end.

Definition mem_exec (c : MemCache) (ops : list mem_op) : MemCache := fold_left mem_exec1 ops c.

Abbreviation ttl_map := (gmap bytes (slice * Z)).

Definition ttl_exec1 (m : ttl_map) (o : mem_op) : ttl_map :=
  match o with
  | OpStore k v ttl p now => <[k := (v, now + ttl)]> m
  | OpDelete k => delete k m
  | OpTick now => m
  end.

Definition ttl_lookup (m : ttl_map) (k : bytes) (t : Z) : option slice :=
  match m !! k with
  | Some (v, deadline) => if deadline <? t then None else Some v
  | None => None
  end.

(** The cache is below the map: every lookup agrees or finds nothing. *)
Definition below (c : MemCache) (m : ttl_map) : Prop :=
  ∀ k t, mem_Retrieve k t c = ttl_lookup m k t ∨ mem_Retrieve k t c = None.

(** Without a limit lookups from [t0] on agree. *)
Definition agrees (c : MemCache) (m : ttl_map) (t0 : Z) : Prop :=
  ∀ k t, t0 ≤ t → mem_Retrieve k t c = ttl_lookup m k t.

Definition op_time (o : mem_op) : option Z :=
  match o with OpTick now => Some now | _ => None end.

Lemma ttl_lookup_insert m k v d t k' :
  ttl_lookup (<[k := (v, d)]> m) k' t =
  if decide (k = k') then (if d <? t then None else Some v) else ttl_lookup m k' t.
Proof. unfold ttl_lookup. rewrite lookup_insert. by destruct (decide (k = k')). Qed.

Lemma ttl_lookup_delete m k t k' :
  ttl_lookup (delete k m) k' t = if decide (k = k') then None else ttl_lookup m k' t.
Proof. unfold ttl_lookup. rewrite lookup_delete. by destruct (decide (k = k')). Qed.

Lemma mem_Retrieve_delete c k t k' :
  mem_Retrieve k' t (mem_Delete k c).2 = if decide (k = k') then None else mem_Retrieve k' t c.
Proof. unfold mem_Retrieve. cbn. rewrite lookup_delete. by destruct (decide (k = k')). Qed.

Lemma mem_Retrieve_sweep_below now c k t :
  mem_Retrieve k t (mem_sweepExpired now c).2 = mem_Retrieve k t c ∨
  mem_Retrieve k t (mem_sweepExpired now c).2 = None.
Proof.
  unfold mem_Retrieve at 1 3, mem_sweepExpired. cbn.
  destruct (filter _ (data c) !! k) as [e|] eqn:E; [|by right].
  apply map_lookup_filter_Some_1_1 in E. left. unfold mem_Retrieve. by rewrite E.
Qed.

Lemma below_step c m o : below c m → below (mem_exec1 c o) (ttl_exec1 m o).
Proof.
  intros Hb k t. destruct o as [key v ttl p now|key|now]; cbn [mem_exec1 ttl_exec1].
  - rewrite ttl_lookup_insert. destruct (decide (key = k)) as [<-|Hne].
    + left. apply mem_Retrieve_Store_eq.
    + rewrite mem_Retrieve_Store_ne by done.
      destruct (mem_Retrieve_evict p c t k) as [->| ->]; auto.
  - rewrite ttl_lookup_delete, mem_Retrieve_delete. destruct (decide (key = k)); auto.
  - unfold mem_tick. destruct (gcRunning c); [|done].
    destruct (mem_Retrieve_sweep_below now c k t) as [->| ->]; auto.
Qed.

Lemma agrees_step c m o t0 :
  maxKeys c ≤ 0 → (∀ now, op_time o = Some now → now ≤ t0) →
  agrees c m t0 → agrees (mem_exec1 c o) (ttl_exec1 m o) t0.
Proof.
  intros Hmax Hnow Ha k t Ht. destruct o as [key v ttl p now|key|now]; cbn [mem_exec1 ttl_exec1].
  - rewrite ttl_lookup_insert. destruct (decide (key = k)) as [<-|Hne].
    + apply mem_Retrieve_Store_eq.
    + rewrite mem_Retrieve_Store_ne, mem_evict_roomy by done. auto.
  - rewrite ttl_lookup_delete, mem_Retrieve_delete. destruct (decide (key = k)); auto.
  - unfold mem_tick. specialize (Hnow now eq_refl). destruct (gcRunning c); [|auto].
    rewrite mem_Retrieve_sweep by lia. auto.
Qed.

Lemma mem_exec1_max c o : maxKeys (mem_exec1 c o) = maxKeys c.
Proof.
  destruct o as [key v ttl p now|key|now]; cbn; [unfold mem_Store; by destruct (mem_evict_config p c)|done|].
  unfold mem_tick. by destruct (gcRunning c).
Qed.

(** C14: the in-memory cache refines a TTL map.  After any sequence of
    stores, deletes and background sweeps, a lookup finds either nothing or
    exactly the value of the last store of that key, and only until its
    deadline.  When no key limit is set, nothing is lost: a lookup made after
    the last sweep answers exactly like the map. *)
Theorem mem_refines_ttl_map (max : Z) (ops : list mem_op) (k : bytes) (t : Z) :
  let c := mem_exec (mem_New max) ops in
  let m := fold_left ttl_exec1 ops ∅ in
  (mem_Retrieve k t c = ttl_lookup m k t ∨ mem_Retrieve k t c = None) ∧
  (max ≤ 0 → Forall (fun o => ∀ now, op_time o = Some now → now ≤ t) ops →
   mem_Retrieve k t c = ttl_lookup m k t).
Proof.
  assert (∀ c m, below c m → below (mem_exec c ops) (fold_left ttl_exec1 ops m)) as Hbelow.
  { unfold mem_exec. clear. induction ops as [|o ops IH]; intros c m Hb; [done|]. cbn.
    by apply IH, below_step. }
  assert (∀ c m, maxKeys c ≤ 0 → Forall (fun o => ∀ now, op_time o = Some now → now ≤ t) ops →
    agrees c m t → agrees (mem_exec c ops) (fold_left ttl_exec1 ops m) t) as Hagree.
  { unfold mem_exec. clear. induction ops as [|o ops IH]; intros c m Hmax Hops Ha; [done|]. cbn.
    apply Forall_cons in Hops as [Ho Hops]. apply IH; [by rewrite mem_exec1_max|done|].
    by apply agrees_step. }
  split; [apply Hbelow; by left|]. intros Hmax Hops. by apply Hagree.
Qed.

(** Overwriting a key of a full cache also evicts: the entry of another key
    may be lost although no room is needed. *)
Theorem mem_overwrite_evicts :
  ∃ c pick, mem_Len c = maxKeys c ∧ is_Some (data c !! [1]) ∧ is_Some (data c !! [2]) ∧
    data (mem_Store [1] (Slice 0 0 1) 10 pick 5 c).2 !! [2] = None.
Proof.
  exists (mem_exec (mem_New 2) [OpStore [1] (Slice 0 0 1) 10 0 3; OpStore [2] (Slice 0 0 1) 10 0 4]).
  destruct (decide (data (mem_Store [1] (Slice 0 0 1) 10 0 5
    (mem_exec (mem_New 2) [OpStore [1] (Slice 0 0 1) 10 0 3; OpStore [2] (Slice 0 0 1) 10 0 4])).2
    !! [2] = None)) as [H|H]; [exists 0%nat|exists 1%nat].
  - split_and!; [reflexivity|by eexists|by eexists|done].
  - vm_compute in H |- *. split_and!; try done; by eexists.
Qed.

(** A second [Close] never returns: the goroutine that would receive on
    [stopGC] has stopped. *)
Theorem mem_close_twice_blocks (c : MemCache) : (mem_Close (mem_Close c).2).1 = None.
Proof. unfold mem_Close. destruct (gcRunning c) eqn:E; cbn; [done|by rewrite E]. Qed.

Lemma mem_refines_ttl_map_witness :
  mem_Retrieve [1] 9 (mem_exec (mem_New 0) [OpStore [1] (Slice 0 0 4) 10 0 5; OpTick 8]) =
  ttl_lookup (fold_left ttl_exec1 [OpStore [1] (Slice 0 0 4) 10 0 5; OpTick 8] ∅) [1] 9.
Proof.
  apply (mem_refines_ttl_map 0 [OpStore [1] (Slice 0 0 4) 10 0 5; OpTick 8] [1] 9); [lia|].
  repeat constructor; intros now [= <-]; lia.
Defined.
