(* ===== verification/CacheRedis.v ===== *)
(** * cache/redis: the Redis cache (cache/redis/redis.go)

    go-redis and the server behind it are the parameter [RedisLib]; this file
    models the methods of [redis.Cache] on top of it, the documented
    behaviour of the commands they issue ([RedisLaws]), and the three
    deployments of main.go as backends. *)

From S2P Require Import Prelude Cache CacheMemory.

(** Errors of a command: [redis.Nil] is the reply "no such key". *)
Inductive redis_error := RedisNil | RedisFailure.

#[export] Instance redis_error_eq_dec : EqDecision redis_error.
Proof. solve_decision. Defined.

(** The commands the program issues, on the state of the server.  The last
    argument of each is the server's clock. *)
Class RedisLib := {
  redis_db : Type;
  redis_Ping : redis_db → option redis_error;
  redis_Set : bytes → bytes → Z → Z → atomic redis_db (option redis_error);
  redis_Get : bytes → Z → atomic redis_db (result bytes redis_error);
  redis_Del : bytes → atomic redis_db (option redis_error);
  redis_SetNX : bytes → bytes → Z → Z → atomic redis_db (bool * option redis_error);
  redis_ClientClose : atomic redis_db (option redis_error);
}.

Section redis.
Context {RD : RedisLib}.

(** [Cache]: the client is the server it is connected to. *)
Record RedisCache := MkRedisCache { prefix : bytes }.

(** [New]: no cache without an answer to PING. *)
Definition redis_New (db : redis_db) (pfx : bytes) : result RedisCache redis_error :=
  match redis_Ping db with
  | Some e => Err e
  | None => Ok (MkRedisCache pfx)
  end.

(** The [.Err()] of a command as a Go error. *)
Definition cmd_err (e : option redis_error) : result unit redis_error :=
  match e with None => Ok tt | Some e => Err e end.

(** [Store]: the bytes of [value] are sent to the server. *)
Definition redis_Store (c : RedisCache) (h : heap) (key : bytes) (value : slice) (ttl now : Z)
    : atomic redis_db (result unit redis_error) :=
  fun db =>
    let redisKey := prefix c ++ key in
    let '(e, db') := redis_Set redisKey (contents h value) ttl now db in
    (cmd_err e, db').

(** [Retrieve]: the reply is read into a new array. *)
Definition redis_Retrieve (c : RedisCache) (key : bytes) (now : Z)
    : atomic (heap * redis_db) (result (option slice) redis_error) :=
  fun '(h, db) =>
    let redisKey := prefix c ++ key in
    match redis_Get redisKey now db with
    | (Err RedisNil, db') => (Ok None, (h, db'))
    | (Err e, db') => (Err e, (h, db'))
    | (Ok val, db') => (Ok (Some (alloc h val).1), ((alloc h val).2, db'))
    end.

(** [Delete]. *)
Definition redis_Delete (c : RedisCache) (key : bytes) : atomic redis_db (result unit redis_error) :=
  fun db => let '(e, db') := redis_Del (prefix c ++ key) db in (cmd_err e, db').

(** [Close]: the client, through which the server is seen, is closed. *)
Definition redis_Close (c : RedisCache) : atomic redis_db (result unit redis_error) :=
  fun db => let '(e, db') := redis_ClientClose db in (cmd_err e, db').

(** [SetNX]. *)
Definition redis_cache_SetNX (c : RedisCache) (key value : bytes) (ttl now : Z)
    : atomic redis_db (bool * option redis_error) :=
  redis_SetNX (prefix c ++ key) value ttl now.

(** ** The deployments of main.go *)

Definition frame_prefix : bytes := str "bre:frame:".

Definition dedup_prefix : bytes := str "bre:dedup:".

(** cache-backend=redis: one client stores the frames and gates
    retransmission, both under [frame_prefix]. *)
Record RedisDeployment := MkRedisDeployment { rd_db : redis_db }.

#[export] Instance redis_backend : Backend RedisDeployment redis_error := {
  cb_Store h k s ttl p now c :=
    let '(r, db) := redis_Store (MkRedisCache frame_prefix) h k s ttl now (rd_db c) in
    (r, MkRedisDeployment db);
  cb_Retrieve k now hc :=
    let '(r, (h, db)) := redis_Retrieve (MkRedisCache frame_prefix) k now (hc.1, rd_db hc.2) in
    (r, (h, MkRedisDeployment db));
  cb_Delete k c :=
    let '(r, db) := redis_Delete (MkRedisCache frame_prefix) k (rd_db c) in
    (r, MkRedisDeployment db);
  cb_SetNX := Some (fun k v ttl now c =>
    let '(r, db) := redis_cache_SetNX (MkRedisCache frame_prefix) k v ttl now (rd_db c) in
    (r, MkRedisDeployment db));
}.

(** cache-backend=memory with a Redis address: frames stay in memory, a
    second client, under [dedup_prefix], gates retransmission. *)
Record HybridDeployment := MkHybridDeployment { hd_mem : MemCache; hd_db : redis_db }.

#[export] Instance hybrid_backend : Backend HybridDeployment redis_error := {
  cb_Store h k s ttl p now c :=
    (Ok tt, MkHybridDeployment (mem_Store k s ttl p now (hd_mem c)).2 (hd_db c));
  cb_Retrieve k now hc := (Ok (mem_Retrieve k now (hd_mem hc.2)), hc);
  cb_Delete k c := (Ok tt, MkHybridDeployment (mem_Delete k (hd_mem c)).2 (hd_db c));
  cb_SetNX := Some (fun k v ttl now c =>
    let '(r, db) := redis_cache_SetNX (MkRedisCache dedup_prefix) k v ttl now (hd_db c) in
    (r, MkHybridDeployment (hd_mem c) db));
}.

(** ** Documented behaviour of the commands

    [redis_view db t k] is the string stored at [k] at time [t].  GET returns
    it and changes nothing; a successful SET with a positive expiry stores
    the value at least until the expiry; after a SET, even one that has failed,
    the key holds the new value, the old one or none; SET and SETNX leave other keys
    alone; SETNX sets the key only if it does not exist, replies [true] then
    and [false] otherwise, in which case it does nothing; go-redis gives the zero value [false] together
    with an error. *)
Class RedisSpec := { redis_view : redis_db → Z → bytes → option bytes }.

Class RedisLaws `{!RedisSpec} : Prop := {
  get_reply db k t :
    match (redis_Get k t db).1 with
    | Ok v => redis_view db t k = Some v
    | Err RedisNil => redis_view db t k = None
    | Err RedisFailure => True
    end;
  get_view db k t t' k' : redis_view (redis_Get k t db).2 t' k' = redis_view db t' k';
  set_hit db k v ttl now t :
    0 < ttl → (redis_Set k v ttl now db).1 = None → now ≤ t < now + ttl →
    redis_view (redis_Set k v ttl now db).2 t k = Some v;
  set_value db k v ttl now t v' :
    now ≤ t → redis_view (redis_Set k v ttl now db).2 t k = Some v' →
    v' = v ∨ redis_view db t k = Some v';
  set_other db k v ttl now t k' :
    now ≤ t → k' ≠ k → redis_view (redis_Set k v ttl now db).2 t k' = redis_view db t k';
  setnx_true db k v ttl now :
    (redis_SetNX k v ttl now db).1 = (true, None) → redis_view db now k = None;
  setnx_set db k v ttl now t :
    0 < ttl → (redis_SetNX k v ttl now db).1 = (true, None) → now ≤ t < now + ttl →
    redis_view (redis_SetNX k v ttl now db).2 t k = Some v;
  setnx_false db k v ttl now :
    (redis_SetNX k v ttl now db).1 = (false, None) → is_Some (redis_view db now k);
  setnx_error db k v ttl now e :
    (redis_SetNX k v ttl now db).1.2 = Some e → (redis_SetNX k v ttl now db).1.1 = false;
  setnx_keeps db k v ttl now t :
    is_Some (redis_view db now k) → now ≤ t →
    redis_view (redis_SetNX k v ttl now db).2 t k = redis_view db t k;
  setnx_other db k v ttl now t k' :
    now ≤ t → k' ≠ k → redis_view (redis_SetNX k v ttl now db).2 t k' = redis_view db t k';
}.

#[export] Instance redis_backend_spec `{!RedisSpec} : BackendSpec RedisDeployment redis_error := {
  cb_view h c t k := redis_view (rd_db c) t (frame_prefix ++ k);
  cb_roomy c := True;
}.

#[export] Instance hybrid_backend_spec : BackendSpec HybridDeployment redis_error := {
  cb_view h c t k := mem_view h (hd_mem c) t k;
  cb_roomy c := maxKeys (hd_mem c) ≤ 0;
}.

(** ** The deployments keep the promises of the interface *)

Section laws.
Context `{!RedisSpec, !RedisLaws}.

Lemma redis_backend_other (h : heap) (c : RedisDeployment) k s ttl p now t k' :
  now ≤ t → k' ≠ k →
  cb_view h (cb_Store h k s ttl p now c).2 t k' = cb_view h c t k'.
Proof.
  intros Ht Hne.
  pose proof (set_other (rd_db c) (frame_prefix ++ k) (contents h s) ttl now t (frame_prefix ++ k') Ht)
    as Hs.
  cbn. unfold redis_Store. cbn. destruct (redis_Set _ _ _ _ _) as [e db']; cbn in *.
  apply Hs. by intros ?%(inj (app frame_prefix)).
Qed.

#[export] Instance redis_backend_laws : BackendLaws RedisDeployment redis_error.
Proof.
  constructor; cbn [cb_view cb_roomy cb_Store cb_Retrieve cb_SetNX redis_backend redis_backend_spec].
  - intros h c k t. pose proof (get_reply (rd_db c) (frame_prefix ++ k) t) as Hr.
    cbn. destruct (redis_Get _ _ _) as [[v|[]] db']; cbn in *; try done.
    by rewrite contents_alloc.
  - intros h c k t t' k' Ht. pose proof (get_view (rd_db c) (frame_prefix ++ k) t) as Hv.
    cbn. destruct (redis_Get _ _ _) as [[v|[]] db']; cbn in *; apply Hv.
  - done.
  - intros h c k s ttl p now t Httl Hok Ht.
    pose proof (set_hit (rd_db c) (frame_prefix ++ k) (contents h s) ttl now t Httl) as Hs.
    unfold redis_Store in *. cbn in *. destruct (redis_Set _ _ _ _ _) as [[e|] db']; cbn in *; [done|].
    by apply Hs.
  - intros h c k s ttl p now t k' Ht Hne. left. by apply (redis_backend_other h c k s ttl p).
  - intros h c k s ttl p now t k' _ Ht Hne. split; [done|]. by apply (redis_backend_other h c k s ttl p).
  - intros h c f k v ttl now t k' [= <-] Hk' Hk Ht.
    pose proof (setnx_other (rd_db c) (frame_prefix ++ k) v ttl now t (frame_prefix ++ k') Ht) as Hs.
    unfold redis_cache_SetNX in *. cbn in *. destruct (redis_SetNX _ _ _ _ _) as [e db']; cbn in *.
    apply Hs. intros ->%(inj (app frame_prefix)). unfold frame_key in Hk'. congruence.
  - done.
Qed.

#[export] Instance redis_copying : Copying RedisDeployment redis_error.
Proof.
  constructor; [done|]. intros h c k s ttl p now t v Ht. cbn. unfold redis_Store. cbn [prefix].
  pose proof (set_value (rd_db c) (frame_prefix ++ k) (contents h s) ttl now t v Ht) as Hs.
  by destruct (redis_Set _ _ _ _ _).
Qed.
End laws.

#[export] Instance hybrid_backend_laws : BackendLaws HybridDeployment redis_error.
Proof.
  pose proof (mem_laws redis_error) as [L1 L2 L3 L4 L5 L6 _ _].
  constructor; cbn [cb_view cb_roomy cb_Store cb_Retrieve cb_SetNX hybrid_backend hybrid_backend_spec
    fst snd hd_mem].
  - intros h c. exact (L1 h (hd_mem c)).
  - intros h c. exact (L2 h (hd_mem c)).
  - intros h c. exact (L3 h (hd_mem c)).
  - intros h c. exact (L4 h (hd_mem c)).
  - intros h c. exact (L5 h (hd_mem c)).
  - intros h c. exact (L6 h (hd_mem c)).
  - intros h c f k v ttl now t k' [= <-] _ _ _. by destruct (redis_cache_SetNX _ _ _ _ _ _).
  - intros c f k v ttl now [= <-]. by destruct (redis_cache_SetNX _ _ _ _ _ _).
Qed.
End redis.

(** ** A model of the server that satisfies the laws *)
Module RedisModel.
(** A key holds a string and, unless it is persistent, a deadline; [up] says
    whether the server answers. *)
Record db := MkDb { keys : gmap bytes (bytes * option Z); up : bool }.

Definition lookup (d : db) (t : Z) (k : bytes) : option bytes :=
  match keys d !! k with
  | Some (v, None) => Some v
  | Some (v, Some deadline) => if t <? deadline then Some v else None
  | None => None
  end.

Definition deadline (ttl now : Z) : option Z := if 0 <? ttl then Some (now + ttl) else None.

Definition set (k v : bytes) (ttl now : Z) : atomic db (option redis_error) := fun d =>
  if up d then (None, MkDb (<[k := (v, deadline ttl now)]> (keys d)) true)
  else (Some RedisFailure, d).

Definition get (k : bytes) (now : Z) : atomic db (result bytes redis_error) := fun d =>
  if up d then
    (match lookup d now k with Some v => Ok v | None => Err RedisNil end, d)
  else (Err RedisFailure, d).

Definition del (k : bytes) : atomic db (option redis_error) := fun d =>
  if up d then (None, MkDb (delete k (keys d)) true) else (Some RedisFailure, d).

Definition setnx (k v : bytes) (ttl now : Z) : atomic db (bool * option redis_error) := fun d =>
  if up d then
    match lookup d now k with
    | Some _ => ((false, None), d)
    | None => ((true, None), MkDb (<[k := (v, deadline ttl now)]> (keys d)) true)
    end
  else ((false, Some RedisFailure), d).

#[export] Instance lib : RedisLib := {
  redis_db := db;
  redis_Ping d := if up d then None else Some RedisFailure;
  redis_Set := set; redis_Get := get; redis_Del := del; redis_SetNX := setnx;
  redis_ClientClose d := (None, MkDb (keys d) false);
}.

#[export] Instance spec : @RedisSpec lib := { redis_view := lookup }.

Lemma lookup_set k v ttl now d t :
  0 < ttl → now ≤ t < now + ttl →
  lookup (MkDb (<[k := (v, deadline ttl now)]> (keys d)) true) t k = Some v.
Proof.
  intros Httl Ht. unfold lookup, deadline. cbn. rewrite lookup_insert_eq.
  rewrite (proj2 (Z.ltb_lt 0 ttl)) by done. by rewrite (proj2 (Z.ltb_lt t (now + ttl))) by lia.
Qed.

Lemma lookup_set_ne k x d t k' :
  k' ≠ k → lookup (MkDb (<[k := x]> (keys d)) true) t k' = lookup d t k'.
Proof. intros Hne. unfold lookup. cbn. by rewrite lookup_insert_ne. Qed.

#[export] Instance laws : @RedisLaws lib spec.
Proof.
  constructor; cbn [redis_view redis_Get redis_Set redis_SetNX lib spec].
  - intros d k t. unfold get. destruct (up d); [|done]. cbn. by destruct (lookup d t k).
  - intros d k t t' k'. unfold get. by destruct (up d).
  - intros d k v ttl now t Httl. unfold set. destruct (up d); [|done]. cbn. intros _ Ht.
    by apply lookup_set.
  - intros d k v ttl now t v' Ht. unfold set. destruct (up d); [|by right]. unfold lookup. cbn.
    rewrite lookup_insert_eq. destruct (deadline ttl now) as [u|]; [destruct (t <? u)|]; intros [= <-]; by left.
  - intros d k v ttl now t k' Ht Hne. unfold set. destruct (up d); [|done]. cbn.
    by apply lookup_set_ne.
  - intros d k v ttl now. unfold setnx. destruct (up d); [|done]. by destruct (lookup d now k) eqn:E.
  - intros d k v ttl now t Httl. unfold setnx. destruct (up d); [|done].
    destruct (lookup d now k) eqn:E; [done|]. cbn. intros _ Ht. by apply lookup_set.
  - intros d k v ttl now. unfold setnx. destruct (up d); [|done].
    destruct (lookup d now k) eqn:E; [by eexists|done].
  - intros d k v ttl now e. unfold setnx. destruct (up d); [|done].
    by destruct (lookup d now k).
  - intros d k v ttl now t [x Hx] Ht. unfold setnx. destruct (up d); [|done]. by rewrite Hx.
  - intros d k v ttl now t k' Ht Hne. unfold setnx. destruct (up d); [|done].
    destruct (lookup d now k); [done|]. cbn. by apply lookup_set_ne.
Qed.
End RedisModel.
