(* ===== verification/Metrics.v ===== *)
(** * metrics: the recorder and the health endpoints (metrics/metrics.go)

    The OpenTelemetry and Prometheus libraries are third-party: their
    constructors are the parameter [OTelLib], which says only whether they
    fail, and a counter is modelled by the sequence of [Add(ctx, 1)] calls made
    on it, with their attribute.  [New], with its exporters, instruments and
    shutdown function, the recorder's own state ([readyCount], an int32, and
    [draining]), the routes and handlers of the HTTP server and the life of
    [Serve] are modelled. *)

From S2P Require Import Prelude GoLib.

(** The instruments, with the value of the attribute for the labelled ones. *)
Inductive counter :=
| CacheHits | CacheMisses | CacheErrors
| NACKRequests | Retransmits | RetransmitDedups
| ResponsesSent (typ : bytes) | ResponseSendErrors (typ : bytes)
| RateLimitDrops (level : bytes)
| FramesReceived | FramesCached | FramesDropped (reason : bytes)
| BeaconAdvertsSent.

#[export] Instance counter_eq_dec : EqDecision counter.
Proof. solve_decision. Defined.

Record Recorder := MkRecorder {
  numWorkers : Z;
  startTime : Z;
  readyCount : Z;
  draining : bool;
  cacheSize : Z;
  adds : list counter;
}.

(** The value of a counter. *)
Definition counter_value (r : Recorder) (c : counter) : Z :=
  Z.of_nat (length (filter (fun c' => c' = c) (adds r))).

(** The recorder [New] returns once every instrument is registered. *)
Definition metrics_New (workers now : Z) : Recorder := MkRecorder workers now 0 false 0 [].

(** The instance id [New] reports: the host name when none is configured. *)
Definition instance_id (instanceID : bytes) (hostname : result bytes unit) : bytes :=
  match instanceID with
  | [] => match hostname with Ok h => h | Err _ => str "unknown" end
  | _ => instanceID
  end.

(** ** New *)

(** What the constructors of the metric libraries answer: an error or nil. *)
Class OTelLib (E : Type) := {
  resource_New : list (bytes * bytes) → option E;
  prometheus_New : option E;
  otlp_New : bytes → option E;
  new_instrument : bool → bytes → option E;   (* [true] for a counter, [false] for a gauge *)
}.

Inductive metrics_error (E : Type) :=
| BuildResource (e : E)
| PrometheusExporter (e : E)
| OTLPExporter (e : E)
| InstrumentError (e : E).
Arguments BuildResource {E} e.
Arguments PrometheusExporter {E} e.
Arguments OTLPExporter {E} e.
Arguments InstrumentError {E} e.

(** The readers of the meter provider, and what [shutdownFn] shuts down. *)
Inductive reader := PrometheusReader | PeriodicReader (endpoint : bytes) (interval : Z).

Inductive exporter := OTLPExp | MeterProviderExp.

Record Provider := MkProvider {
  pv_attributes : list (bytes * bytes);
  pv_readers : list reader;
  pv_shutdown : list exporter;
}.

Definition ServiceName : bytes := str "bitcoin-retry-endpoint".

Definition Version : bytes := str "dev".

(** The instruments, in the order of their registration; [true] is a counter. *)
Definition instruments : list (bool * bytes) := [
  (true, str "bre_cache_hits_total");
  (true, str "bre_cache_misses_total");
  (false, str "bre_cache_size");
  (true, str "bre_cache_errors_total");
  (true, str "bre_nack_requests_total");
  (true, str "bre_retransmits_total");
  (true, str "bre_retransmit_dedup_total");
  (true, str "bre_responses_sent_total");
  (true, str "bre_response_send_errors_total");
  (true, str "bre_rate_limit_drops_total");
  (true, str "bre_frames_received_total");
  (true, str "bre_frames_cached_total");
  (true, str "bre_frames_dropped_total");
  (true, str "bre_beacon_adverts_sent_total")
].

Section New.
Context {E : Type} `{!OTelLib E}.

(** Registration stops at the first error. *)
Fixpoint register (l : list (bool * bytes)) : result unit (metrics_error E) :=
  match l with
  | [] => Ok tt
  | (is_counter, name) :: l' =>
      match new_instrument is_counter name with
      | Some e => Err (InstrumentError e)
      | None => register l'
      end
  end.

(** [New]. *)
Definition New_recorder (instanceID : bytes) (hostname : result bytes unit) (workers : Z)
    (otlpEndpoint : bytes) (otlpInterval now : Z) : result (Recorder * Provider) (metrics_error E) :=
  let instanceID := instance_id instanceID hostname in
  let attrs := [(str "service.name", ServiceName); (str "service.instance.id", instanceID);
                (str "service.version", Version)] in
  match resource_New attrs with
  | Some e => Err (BuildResource e)
  | None =>
      match prometheus_New with
      | Some e => Err (PrometheusExporter e)
      | None =>
          let? otlp :=
            (if bool_decide (otlpEndpoint ≠ []) then
               match otlp_New otlpEndpoint with
               | Some e => Err (OTLPExporter e)
               | None => Ok true
               end
             else Ok false) in
          let readers := PrometheusReader :: (if otlp : bool then [PeriodicReader otlpEndpoint otlpInterval] else []) in
          let shutdownFuncs := (if otlp : bool then [OTLPExp] else []) ++ [MeterProviderExp] in
          let? _ := register instruments in
          Ok (metrics_New workers now, MkProvider attrs readers shutdownFuncs)
      end
  end.
End New.

(** ** The counters *)

Definition add (c : counter) (r : Recorder) : Recorder :=
  MkRecorder (numWorkers r) (startTime r) (readyCount r) (draining r) (cacheSize r) (adds r ++ [c]).

Definition rec_CacheHit : Recorder → Recorder := add CacheHits.

Definition rec_CacheMiss : Recorder → Recorder := add CacheMisses.

Definition rec_CacheSize (size : Z) (r : Recorder) : Recorder :=
  MkRecorder (numWorkers r) (startTime r) (readyCount r) (draining r) size (adds r).

Definition rec_CacheError : Recorder → Recorder := add CacheErrors.

Definition rec_NACKRequest : Recorder → Recorder := add NACKRequests.

Definition rec_Retransmit : Recorder → Recorder := add Retransmits.

Definition rec_RetransmitDedup : Recorder → Recorder := add RetransmitDedups.

Definition rec_ResponseSent (typ : bytes) : Recorder → Recorder := add (ResponsesSent typ).

Definition rec_ResponseSendError (typ : bytes) : Recorder → Recorder := add (ResponseSendErrors typ).

Definition rec_RateLimitDrop (level : bytes) : Recorder → Recorder := add (RateLimitDrops level).

Definition rec_FrameReceived : Recorder → Recorder := add FramesReceived.

Definition rec_FrameCached : Recorder → Recorder := add FramesCached.

Definition rec_FrameDropped (reason : bytes) : Recorder → Recorder := add (FramesDropped reason).

Definition rec_BeaconAdvertSent : Recorder → Recorder := add BeaconAdvertsSent.

(** int32 arithmetic. *)
Definition int32 (z : Z) : Z := (z + 2 ^ 31) `mod` 2 ^ 32 - 2 ^ 31.

Definition set_ready (n : Z) (r : Recorder) : Recorder :=
  MkRecorder (numWorkers r) (startTime r) n (draining r) (cacheSize r) (adds r).

Definition rec_WorkerReady (r : Recorder) : Recorder := set_ready (int32 (readyCount r + 1)) r.

Definition rec_WorkerDone (r : Recorder) : Recorder := set_ready (int32 (readyCount r - 1)) r.

Definition rec_SetDraining (r : Recorder) : Recorder :=
  MkRecorder (numWorkers r) (startTime r) (readyCount r) true (cacheSize r) (adds r).

(** The combined shutdown function: every exporter is shut down, the last
    error is reported. *)
Definition shutdownFn {E : Type} (results : list (option E)) : option E :=
  fold_left (fun last r => match r with Some e => Some e | None => last end) results None.

(** ** Health endpoints *)

Definition StatusOK : Z := 200.

Definition StatusServiceUnavailable : Z := 503.

(** [%d] of a signed integer. *)
Definition itoa (z : Z) : bytes := if z <? 0 then [45] ++ decimal (- z) else decimal z.

(** The JSON body of /readyz. *)
Definition ready_body (status : string) (ready total : Z) : bytes :=
  let q := [34] in
  str "{" ++ q ++ str "status" ++ q ++ str ":" ++ q ++ str status ++ q
  ++ str "," ++ q ++ str "workers_ready" ++ q ++ str ":" ++ itoa ready
  ++ str "," ++ q ++ str "workers_total" ++ q ++ str ":" ++ itoa total ++ str "}".

(** [handleReadyz]: status code and body. *)
Definition handleReadyz (r : Recorder) : Z * bytes :=
  let ready := readyCount r in
  let total := numWorkers r in
  if draining r then (StatusServiceUnavailable, ready_body "draining" ready total)
  else if (total <=? ready) && (0 <? total) then (StatusOK, ready_body "ready" ready total)
  else (StatusServiceUnavailable, ready_body "starting" ready total).

(** [handleHealthz]: status code and body, which carries the uptime. *)
Definition handleHealthz (r : Recorder) (now : Z) : Z * bytes :=
  let q := [34] in
  (StatusOK,
   str "{" ++ q ++ str "status" ++ q ++ str ":" ++ q ++ str "ok" ++ q
   ++ str "," ++ q ++ str "uptime_seconds" ++ q ++ str ":" ++ format_f1 (Seconds (now - startTime r)) ++ str "}").

Inductive route := RouteMetrics | RouteHealthz | RouteReadyz.

(** The patterns of the mux have no trailing slash: they match exactly. *)
Definition mux (path : bytes) : option route :=
  if bool_decide (path = str "/metrics") then Some RouteMetrics
  else if bool_decide (path = str "/healthz") then Some RouteHealthz
  else if bool_decide (path = str "/readyz") then Some RouteReadyz
  else None.

(** A request to the HTTP server: [None] is the 404 of the mux, [Some None] the
    page of the Prometheus handler. *)
Definition respond (r : Recorder) (now : Z) (path : bytes) : option (option (Z * bytes)) :=
  match mux path with
  | None => None
  | Some RouteMetrics => Some None
  | Some RouteHealthz => Some (Some (handleHealthz r now))
  | Some RouteReadyz => Some (Some (handleReadyz r))
  end.

(** [Serve]: wait for [done], shut the HTTP server down, return.  An error of
    the listener or of the shutdown is only logged. *)
Inductive serve_state := SListening | SShutdown | SReturned.

Inductive serve_step (done : bool) : serve_state → serve_state → Prop :=
| sv_done : done = true → serve_step done SListening SShutdown
| sv_shutdown : serve_step done SShutdown SReturned.

(** ** What is exported *)

(** The time series a counter adds to: its instrument and attribute. *)
Definition series (c : counter) : bytes * list (bytes * bytes) :=
  match c with
  | CacheHits => (str "bre_cache_hits_total", [])
  | CacheMisses => (str "bre_cache_misses_total", [])
  | CacheErrors => (str "bre_cache_errors_total", [])
  | NACKRequests => (str "bre_nack_requests_total", [])
  | Retransmits => (str "bre_retransmits_total", [])
  | RetransmitDedups => (str "bre_retransmit_dedup_total", [])
  | ResponsesSent typ => (str "bre_responses_sent_total", [(str "type", typ)])
  | ResponseSendErrors typ => (str "bre_response_send_errors_total", [(str "type", typ)])
  | RateLimitDrops level => (str "bre_rate_limit_drops_total", [(str "level", level)])
  | FramesReceived => (str "bre_frames_received_total", [])
  | FramesCached => (str "bre_frames_cached_total", [])
  | FramesDropped reason => (str "bre_frames_dropped_total", [(str "reason", reason)])
  | BeaconAdvertsSent => (str "bre_beacon_adverts_sent_total", [])
  end.

Lemma series_registered c : (true, (series c).1) ∈ instruments.
Proof. destruct c; by apply (bool_decide_unpack _). Qed.

Lemma series_inj c c' : series c = series c' → c = c'.
Proof. destruct c, c'; cbn; intros Heq; simplify_eq; try done; by injection Heq. Qed.

(** The errors of [New], in the order in which it meets them. *)
Definition new_errors {E : Type} `{!OTelLib E} (instanceID otlpEndpoint : bytes)
    (hostname : result bytes unit) : list (metrics_error E) :=
  omap id ([BuildResource <$> resource_New [(str "service.name", ServiceName);
       (str "service.instance.id", instance_id instanceID hostname); (str "service.version", Version)];
     PrometheusExporter <$> prometheus_New;
     (if bool_decide (otlpEndpoint ≠ []) then OTLPExporter <$> otlp_New otlpEndpoint else None)]
  ++ ((fun i => InstrumentError <$> new_instrument i.1 i.2) <$> instruments)).

Lemma register_spec {E : Type} `{!OTelLib E} l :
  register (E := E) l =
  match omap id ((fun i : bool * bytes => InstrumentError <$> new_instrument i.1 i.2) <$> l) with
  | e :: _ => Err e
  | [] => Ok tt
  end.
Proof.
  induction l as [|[b n] l IH]; [done|]. cbn. destruct (new_instrument b n); [done|]. exact IH.
Qed.

(** C40: the recorder [New] builds.  [New] fails iff one of the libraries'
    constructors it calls does, with the first such error; otherwise the
    recorder starts with no worker ready, not draining and every counter at
    zero, exports to Prometheus and, iff an endpoint is configured, to OTLP at
    the configured interval, and shuts down first the OTLP exporter, if any,
    and then the provider that exports to it; every counter of the program
    adds to an instrument that has been registered, and two different
    counters never add to the same time series. *)
Theorem New_recorder_spec {E : Type} `{!OTelLib E} (instanceID : bytes) (hostname : result bytes unit)
    (workers : Z) (endpoint : bytes) (interval now : Z) :
  match New_recorder instanceID hostname workers endpoint interval now with
  | Err e => head (new_errors instanceID endpoint hostname) = Some e
  | Ok (r, p) =>
      new_errors (E := E) instanceID endpoint hostname = [] ∧
      numWorkers r = workers ∧ startTime r = now ∧ readyCount r = 0 ∧ draining r = false ∧
      (∀ c, counter_value r c = 0) ∧
      pv_readers p = PrometheusReader :: (if bool_decide (endpoint = []) then [] else [PeriodicReader endpoint interval]) ∧
      pv_shutdown p = (if bool_decide (endpoint = []) then [] else [OTLPExp]) ++ [MeterProviderExp] ∧
      (str "service.instance.id", instance_id instanceID hostname) ∈ pv_attributes p
  end ∧
  (∀ c, (true, (series c).1) ∈ instruments) ∧ (∀ c c', series c = series c' → c = c') ∧
  NoDup instruments.*2.
Proof.
  split_and!; [|apply series_registered|apply series_inj|by apply (bool_decide_unpack _)].
  unfold New_recorder, new_errors. cbv zeta.
  destruct (resource_New _) as [e|]; [done|]. destruct prometheus_New as [e|]; [done|].
  rewrite register_spec. destruct (decide (endpoint = [])) as [->|Hne].
  - cbn [app fmap option_fmap option_map omap list_omap id result_bind bool_decide decide].
    rewrite bool_decide_eq_false_2 by naive_solver. cbn [result_bind].
    destruct (omap id _) as [|e l]; cbn [result_bind]; [|done].
    split_and!; try done. by right; left.
  - rewrite !(bool_decide_eq_true_2 (endpoint ≠ [])), (bool_decide_eq_false_2 (endpoint = [])) by done.
    destruct (otlp_New endpoint) as [e|]; cbn [app fmap option_fmap option_map omap list_omap id result_bind]; [done|].
    destruct (omap id _) as [|e l]; cbn [result_bind]; [|done].
    split_and!; try done. by right; left.
Qed.

(** /healthz answers 200 with the uptime, in seconds with one decimal. *)
Lemma healthz_spec (workers t0 secs : Z) :
  0 ≤ secs < 2 ^ 16 →
  handleHealthz (metrics_New workers t0) (t0 + secs * Second) =
  (StatusOK, str "{" ++ [34] ++ str "status" ++ [34] ++ str ":" ++ [34] ++ str "ok" ++ [34] ++ str ","
     ++ [34] ++ str "uptime_seconds" ++ [34] ++ str ":" ++ decimal secs ++ str ".0}").
Proof.
  intros Hs. unfold handleHealthz. cbn [startTime metrics_New].
  replace (t0 + secs * Second - t0) with (secs * Second) by lia. rewrite format_whole by done.
  do 10 f_equal. by rewrite <- (assoc (++)).
Qed.

(** ** Workers

    [WorkerReady] and [WorkerDone] calls as they are made: [true] for a
    worker that has become ready, [false] for one that returns. *)
Definition worker_event (r : Recorder) (up : bool) : Recorder :=
  if up then rec_WorkerReady r else rec_WorkerDone r.

Definition workers_up (evs : list bool) : Z :=
  Z.of_nat (length (filter (fun b => b = true) evs)) -
  Z.of_nat (length (filter (fun b => b = false) evs)).

Lemma int32_id z : - 2 ^ 31 ≤ z < 2 ^ 31 → int32 z = z.
Proof. intros Hz. unfold int32. rewrite Z.mod_small; lia. Qed.

Lemma int32_add_l a b : int32 (int32 a + b) = int32 (a + b).
Proof.
  unfold int32.
  replace ((a + 2 ^ 31) `mod` 2 ^ 32 - 2 ^ 31 + b + 2 ^ 31) with ((a + 2 ^ 31) `mod` 2 ^ 32 + b) by lia.
  rewrite Z.add_mod_idemp_l by lia. f_equal. f_equal. lia.
Qed.

Lemma worker_events_count evs r :
  readyCount (fold_left worker_event evs (set_ready (int32 (readyCount r)) r)) =
  int32 (readyCount r + workers_up evs).
Proof.
  revert r. induction evs as [|b evs IH]; intros r.
  { change (workers_up []) with 0. cbn. f_equal. lia. }
  cbn [fold_left].
  assert (worker_event (set_ready (int32 (readyCount r)) r) b =
    set_ready (int32 (readyCount r + if b then 1 else -1))
      (set_ready (readyCount r + if b then 1 else -1) r)) as ->.
  { destruct b; cbn; unfold rec_WorkerReady, rec_WorkerDone, set_ready; cbn; f_equal;
      [|rewrite <- Z.add_opp_r]; apply int32_add_l. }
  pose proof (IH (set_ready (readyCount r + if b then 1 else -1) r)) as IHr.
  cbn [readyCount set_ready] in IHr. rewrite IHr.
  f_equal. unfold workers_up. rewrite !filter_cons. destruct b; cbn [length];
    repeat case_decide; simplify_eq; cbn [length]; lia.
Qed.

Lemma worker_events_frame evs r :
  numWorkers (fold_left worker_event evs r) = numWorkers r ∧
  draining (fold_left worker_event evs r) = draining r.
Proof.
  revert r. induction evs as [|b evs IH]; intros r; [done|]. cbn [fold_left].
  destruct (IH (worker_event r b)) as [-> ->]. by destruct b.
Qed.

(** Readiness.  After any sequence of workers coming up and going down
    (fewer than 2^31 of them), /readyz answers 200 exactly when the process
    is not draining, at least one worker is configured, and at least that
    many are up; it answers 503 otherwise. *)
Lemma readyz_spec (workers now : Z) (evs : list bool) (drain : bool) :
  - 2 ^ 31 ≤ workers_up evs < 2 ^ 31 →
  let r := fold_left worker_event evs (metrics_New workers now) in
  (handleReadyz (if drain then rec_SetDraining r else r)).1 =
  if negb drain && (0 <? workers) && (workers <=? workers_up evs)
  then StatusOK else StatusServiceUnavailable.
Proof.
  intros Hb r. pose proof (worker_events_count evs (metrics_New workers now)) as Hc.
  destruct (worker_events_frame evs (metrics_New workers now)) as [Hn Hd]. fold r in Hc, Hn, Hd.
  change (set_ready (int32 (readyCount (metrics_New workers now))) (metrics_New workers now))
    with (metrics_New workers now) in Hc. fold r in Hc.
  cbn [readyCount metrics_New Z.add] in Hc. rewrite int32_id in Hc by done.
  unfold handleReadyz. destruct drain; [done|]. rewrite Hd, Hc, Hn.
  cbn [negb andb draining numWorkers metrics_New].
  rewrite Z.add_0_l. by destruct (workers <=? workers_up evs), (0 <? workers).
Qed.

Lemma readyz_spec_witness :
  (handleReadyz (rec_WorkerReady (metrics_New 1 0))).1 = StatusOK.
Proof. apply (readyz_spec 1 0 [true] false). by vm_compute. Defined.

(** One of the two workers is enough: main.go configures one worker, while
    both the ingress worker and the NACK server report to the recorder. *)
Theorem readyz_with_one_of_two_down :
  (handleReadyz (fold_left worker_event [true; true; false] (metrics_New 1 0))).1 = StatusOK.
Proof. reflexivity. Qed.
