(* ===== verification/ShardCommon.v ===== *)
(** * bitcoin-shard-common, as the program uses it

    The packages frame (wire formats) and shard (group addresses) are a
    separate module: they are the parameters [FrameLib] and [ShardLib].  The
    classes [FrameLaws] and [ShardLaws] state what comments and documents of
    this repository say about them. *)

From S2P Require Import Prelude.

(** ** frame *)

(** The fields the program reads from a decoded frame. *)
Record Header := MkHeader {
  HashKey : Z;
  SeqNum : Z;
}.

Class FrameLib := {
  MagicBSV : Z;
  ProtoVer : Z;
  FrameVerV4 : Z;
  FrameVerV5 : Z;
  FrameVerV6 : Z;
  IsBlockFrame : bytes → bool;
  IsSubtreeDataFrame : bytes → bool;
  IsAnchorFrame : bytes → bool;
  Decode : bytes → option Header;
  DecodeBlock : bytes → option Header;
  DecodeSubtreeData : bytes → option Header;
  DecodeAnchor : bytes → option Header;
}.

(** The decoder [processFrame] selects for a frame. *)
Definition decode_frame `{FrameLib} (raw : bytes) : option Header :=
  if IsBlockFrame raw then DecodeBlock raw
  else if IsSubtreeDataFrame raw then DecodeSubtreeData raw
  else if IsAnchorFrame raw then DecodeAnchor raw
  else Decode raw.

(** Magic is a uint32 and ProtoVer a uint16; HashKey and SeqNum are uint64;
    SeqNum occupies bytes 48 to 55 of a frame ("SeqNum (bytes 48-55), the
    monotonic per-flow counter"). *)
Class FrameLaws `{FrameLib} : Prop := {
  MagicBSV_range : 0 ≤ MagicBSV < 2 ^ 32;
  ProtoVer_range : 0 ≤ ProtoVer < 2 ^ 16;
  decode_range raw hd :
    decode_frame raw = Some hd → 0 ≤ HashKey hd < 2 ^ 64 ∧ 0 ≤ SeqNum hd < 2 ^ 64;
  decode_seq raw hd :
    decode_frame raw = Some hd →
    (56 ≤ length raw)%nat ∧ subslice raw 48 56 = be_put 8 (SeqNum hd);
}.

(** ** shard *)

Record UDPAddr := MkUDPAddr {
  ua_IP : bytes;
  ua_Port : Z;
}.

#[export] Instance UDPAddr_eq_dec : EqDecision UDPAddr.
Proof. solve_decision. Defined.

Class ShardLib := {
  Engine : Type;
  shard_New : Z → Z → Z → Engine;
  Prefix : Engine → Z;
  GroupID : Engine → Z;
  GroupIndex : Engine → bytes → Z;
  Addr : Engine → Z → Z → UDPAddr;
  ControlGroupAddr : Z → Z → Z → bytes;
  CtrlGroupControl : Z;
  CtrlGroupSubtreeAnnounce : Z;
  CtrlGroupBeacon : Z;
}.

(** Group indexes are the [bits] leading bits of the TxID: "Number of txid
    prefix bits used as the group key", "NumGroups: 1 << ShardBits".  A
    control group is FF0X::B:FFFE with the prefix in bytes 0-1, the group id
    in bytes 12-13 and the group number in bytes 14-15; a shard group has its
    index there ("FF05::<shard>").  The control groups are at the top of the
    16-bit space. *)
Class ShardLaws `{ShardLib} : Prop := {
  Prefix_New p g b : Prefix (shard_New p g b) = p;
  GroupID_New p g b : GroupID (shard_New p g b) = g;
  GroupIndex_range p g b txid :
    0 ≤ b ≤ 15 → 0 ≤ GroupIndex (shard_New p g b) txid < 2 ^ b;
  ControlGroupAddr_format p g c :
    0 ≤ p < 2 ^ 16 → 0 ≤ g < 2 ^ 16 → 0 ≤ c < 2 ^ 16 →
    ControlGroupAddr p g c = be_put 2 p ++ replicate 10 0 ++ be_put 2 g ++ be_put 2 c;
  Addr_format p g b i port :
    0 ≤ p < 2 ^ 16 → 0 ≤ g < 2 ^ 16 → 0 ≤ i < 2 ^ 16 →
    Addr (shard_New p g b) i port =
    MkUDPAddr (be_put 2 p ++ replicate 10 0 ++ be_put 2 g ++ be_put 2 i) port;
  CtrlGroupControl_val : CtrlGroupControl = 0xFFFE;
  CtrlGroupBeacon_val : CtrlGroupBeacon = 0xFFFD;
  CtrlGroupSubtreeAnnounce_val : CtrlGroupSubtreeAnnounce = 0xFFFB;
}.

(** ** Instances that satisfy the laws

    A frame with a 92-byte header: magic, version in byte 6, TxID at 8,
    HashKey at 40, SeqNum at 48. *)
Module FrameModel.
Definition magic : Z := 0xE3E1F3E8.

Definition header (raw : bytes) : Header :=
  MkHeader (be_get (subslice raw 40 48)) (be_get (subslice raw 48 56)).

Definition well_formed (ver : Z) (raw : bytes) : bool :=
  (92 <=? Z.of_nat (length raw)) && bool_decide (Forall (fun b => 0 ≤ b ∧ b < 256) raw)
  && (be_get (subslice raw 0 4) =? magic) && (byte_at raw 6 =? ver).

Definition decode (ver : Z) (raw : bytes) : option Header :=
  if well_formed ver raw then Some (header raw) else None.

#[export] Instance lib : FrameLib := {
  MagicBSV := magic;
  ProtoVer := 0x02BF;
  FrameVerV4 := 4; FrameVerV5 := 5; FrameVerV6 := 6;
  IsBlockFrame raw := byte_at raw 6 =? 4;
  IsSubtreeDataFrame raw := byte_at raw 6 =? 5;
  IsAnchorFrame raw := byte_at raw 6 =? 6;
  Decode := decode 2; DecodeBlock := decode 4;
  DecodeSubtreeData := decode 5; DecodeAnchor := decode 6;
}.

Lemma decode_some raw hd :
  decode_frame raw = Some hd → (92 ≤ length raw)%nat ∧ Forall is_byte raw ∧ hd = header raw.
Proof.
  assert (∀ ver, decode ver raw = Some hd →
    (92 ≤ length raw)%nat ∧ Forall is_byte raw ∧ hd = header raw) as Hd.
  { intros ver. unfold decode. destruct (well_formed ver raw) eqn:E; [|done].
    intros [= <-]. unfold well_formed in E. breflect. split_and!; [lia| |done].
    by apply bool_decide_eq_true_1 in H2. }
  unfold decode_frame. cbn. repeat split_if; apply Hd.
Qed.

Lemma be_get_range64 raw lo : Forall is_byte raw → (lo + 8 ≤ length raw)%nat →
  0 ≤ be_get (subslice raw lo (lo + 8)) < 2 ^ 64.
Proof.
  intros Hb Hl. pose proof (be_get_bound _ (Forall_subslice is_byte raw lo (lo + 8) Hb)) as H.
  rewrite length_subslice in H by lia. by replace (lo + 8 - lo)%nat with 8%nat in H by lia.
Qed.

#[export] Instance laws : FrameLaws.
Proof.
  constructor; [done|done|..]; intros raw hd (Hl & Hb & ->)%decode_some; cbn.
  - split; [apply (be_get_range64 raw 40)|apply (be_get_range64 raw 48)]; auto; lia.
  - split; [lia|]. pose proof (be_put_get _ (Forall_subslice is_byte raw 48 56 Hb)) as H.
    by rewrite length_subslice in H by lia.
Qed.
End FrameModel.

Module ShardModel.
Definition group_addr (p g i : Z) : bytes :=
  be_put 2 p ++ replicate 10 0 ++ be_put 2 g ++ be_put 2 i.

(** Prefix, group id, bits. *)
Record engine := MkEngine { eng_prefix : Z; eng_gid : Z; eng_bits : Z }.

#[export] Instance lib : ShardLib := {
  Engine := engine;
  shard_New := MkEngine;
  Prefix := eng_prefix;
  GroupID := eng_gid;
  GroupIndex e txid := (be_get (take 4 txid) / 2 ^ (32 - eng_bits e)) `mod` 2 ^ eng_bits e;
  Addr e i port := MkUDPAddr (group_addr (eng_prefix e) (eng_gid e) i) port;
  ControlGroupAddr := group_addr;
  CtrlGroupControl := 0xFFFE;
  CtrlGroupSubtreeAnnounce := 0xFFFB;
  CtrlGroupBeacon := 0xFFFD;
}.

#[export] Instance laws : ShardLaws.
Proof.
  constructor; try done. intros p g b txid Hb. cbn.
  apply Z.mod_pos_bound. apply Z.pow_pos_nonneg; lia.
Qed.
End ShardModel.
