(* ===== verification/World.v ===== *)
(** * The process: what goroutines share

    One store holds the memory of the process, the rate limiter, the cache
    backend, the recorder (nil or not), the egress sockets and the datagrams
    sent so far.  The environment answers three kinds of questions, in the
    order they are asked: the clock, whether a socket write succeeds, and how
    the run-time orders a map iteration. *)

From S2P Require Import Prelude GoLib RateLimit Cache Metrics ShardCommon.

Record Env := MkEnv {
  env_clock : nat → Z;
  env_write : nat → bool;
  env_choice : nat → nat;
}.

(** The process's clock never goes backwards. *)
Definition monotone_clock (e : Env) : Prop := ∀ n, env_clock e n ≤ env_clock e (S n).

(** A datagram written to a socket: a response on the NACK socket, a frame on
    the egress socket of an interface, an ADVERT on a beacon socket. *)
Inductive Sent :=
| SentResponse (dst : UDPAddr) (b : bytes)
| SentFrame (iface : bytes) (dst : UDPAddr) (b : bytes)
| SentAdvert (group : UDPAddr) (b : bytes).

Section world.
Context {RL : RateLib} {C : Type}.

Record World := MkWorld {
  w_env : Env;
  w_reads : nat;
  w_writes : nat;
  w_picks : nat;
  w_heap : heap;
  w_limiter : Limiter;
  w_cache : C;
  w_rec : option Recorder;
  w_sockets : gmap bytes Z;
  w_sent : list Sent;
}.

(** [time.Now()]. *)
Definition time_now : atomic World Z := fun w =>
  (env_clock (w_env w) (w_reads w),
   MkWorld (w_env w) (S (w_reads w)) (w_writes w) (w_picks w) (w_heap w) (w_limiter w) (w_cache w)
     (w_rec w) (w_sockets w) (w_sent w)).

(** A map-iteration choice. *)
Definition map_choice : atomic World nat := fun w =>
  (env_choice (w_env w) (w_picks w),
   MkWorld (w_env w) (w_reads w) (w_writes w) (S (w_picks w)) (w_heap w) (w_limiter w) (w_cache w)
     (w_rec w) (w_sockets w) (w_sent w)).

(** Write a datagram: on failure nothing leaves the host. *)
Definition net_send (d : Sent) : atomic World bool := fun w =>
  let ok := env_write (w_env w) (w_writes w) in
  (ok,
   MkWorld (w_env w) (w_reads w) (S (w_writes w)) (w_picks w) (w_heap w) (w_limiter w) (w_cache w)
     (w_rec w) (w_sockets w) (if ok then w_sent w ++ [d] else w_sent w)).

Definition limiter_lens : lens World Limiter :=
  Lens w_limiter (fun l w =>
    MkWorld (w_env w) (w_reads w) (w_writes w) (w_picks w) (w_heap w) l (w_cache w) (w_rec w)
      (w_sockets w) (w_sent w)).

Definition set_cache (c : C) (w : World) : World :=
  MkWorld (w_env w) (w_reads w) (w_writes w) (w_picks w) (w_heap w) (w_limiter w) c (w_rec w)
    (w_sockets w) (w_sent w).

Definition set_heap (h : heap) (w : World) : World :=
  MkWorld (w_env w) (w_reads w) (w_writes w) (w_picks w) h (w_limiter w) (w_cache w) (w_rec w)
    (w_sockets w) (w_sent w).

Definition set_sockets (m : gmap bytes Z) (w : World) : World :=
  MkWorld (w_env w) (w_reads w) (w_writes w) (w_picks w) (w_heap w) (w_limiter w) (w_cache w)
    (w_rec w) m (w_sent w).

Definition update_rec (f : Recorder → Recorder) (w : World) : World :=
  MkWorld (w_env w) (w_reads w) (w_writes w) (w_picks w) (w_heap w) (w_limiter w) (w_cache w)
    (f <$> w_rec w) (w_sockets w) (w_sent w).

(** [if rec != nil { rec.M() }]. *)
Definition with_rec (f : Recorder → Recorder) : Prog World unit := modify (update_rec f).

(** The bytes of a slice at this moment. *)
Definition read_slice (s : slice) : atomic World bytes := fun w => (contents (w_heap w) s, w).

Section backend.
Context {E : Type} `{!Backend C E}.

(** [cache.Store(key, value, ttl)]. *)
Definition cache_Store (key : bytes) (v : slice) (ttl : Z) : atomic World (result unit E) := fun w =>
  let '(pick, w1) := map_choice w in
  let '(now, w2) := time_now w1 in
  let '(r, c) := cb_Store (w_heap w2) key v ttl pick now (w_cache w2) in
  (r, set_cache c w2).

(** [cache.Retrieve(key)]. *)
Definition cache_Retrieve (key : bytes) : atomic World (result (option slice) E) := fun w =>
  let '(now, w1) := time_now w in
  let '(r, (h, c)) := cb_Retrieve key now (w_heap w1, w_cache w1) in
  (r, set_cache c (set_heap h w1)).

(** [redisCache.SetNX(key, value, ttl)]. *)
Definition gate_SetNX (setnx : bytes → bytes → Z → Z → atomic C (bool * option E))
    (key v : bytes) (ttl : Z) : atomic World (bool * option E) := fun w =>
  let '(now, w1) := time_now w in
  let '(r, c) := setnx key v ttl now (w_cache w1) in
  (r, set_cache c w1).

(** The three calls, without the intermediate bindings. *)

Lemma cache_Store_eq key v ttl w :
  let n := env_clock (w_env w) (w_reads w) in
  let r := cb_Store (w_heap w) key v ttl (env_choice (w_env w) (w_picks w)) n (w_cache w) in
  cache_Store key v ttl w = (r.1, set_cache r.2 (time_now (map_choice w).2).2).
Proof. cbn. unfold cache_Store. cbn. by destruct (cb_Store _ _ _ _ _ _ _). Qed.

Lemma cache_Retrieve_eq key w :
  let n := env_clock (w_env w) (w_reads w) in
  let r := cb_Retrieve key n (w_heap w, w_cache w) in
  cache_Retrieve key w = (r.1, set_cache r.2.2 (set_heap r.2.1 (time_now w).2)).
Proof. cbn. unfold cache_Retrieve. cbn. by destruct (cb_Retrieve _ _ _) as [? []]. Qed.

Lemma gate_SetNX_eq setnx key v ttl w :
  let r := setnx key v ttl (env_clock (w_env w) (w_reads w)) (w_cache w) in
  gate_SetNX setnx key v ttl w = (r.1, set_cache r.2 (time_now w).2).
Proof. cbn. unfold gate_SetNX. cbn. by destruct (setnx _ _ _ _ _). Qed.
End backend.
End world.
Arguments World {RL} C.
