(* ===== verification/Retransmit.v ===== *)
(** * retransmit: multicast retransmission (retransmit/retransmit.go) *)

From S2P Require Import Prelude GoLib RateLimit Cache Metrics ShardCommon World.

(** An egress interface: name and index. *)
Record Interface := MkInterface { if_Name : bytes; if_Index : Z }.

Section retransmit.
Context {RL : RateLib} {FL : FrameLib} {SH : ShardLib} {C E : Type} `{!Backend C E}.

(** The fields of [Retransmitter] that [New] sets; the sockets are in the
    shared store, and [redisCache] is nil exactly when the backend has no
    deduplication gate. *)
Record Retransmitter := MkRetransmitter {
  rt_engine : Engine;
  rt_ifaces : list Interface;
  rt_egressPort : Z;
  rt_dedupWindow : Z;
}.

(** [Open]: the sockets opened before a failure stay in the map. *)
Fixpoint open_sockets (openEgressSocket : Interface → option E) (ifaces : list Interface)
    (sockets : gmap bytes Z) : result unit E * gmap bytes Z :=
  match ifaces with
  | [] => (Ok tt, sockets)
  | i :: ifaces' =>
      match openEgressSocket i with
      | Some e => (Err e, sockets)
      | None => open_sockets openEgressSocket ifaces' (<[if_Name i := if_Index i]> sockets)
      end
  end.

Definition rt_Open (openEgressSocket : Interface → option E) (r : Retransmitter)
    : atomic (World C) (result unit E) := fun w =>
  let '(res, m) := open_sockets openEgressSocket (rt_ifaces r) (w_sockets w) in
  (res, set_sockets m w).

(** [openEgressSocket]: the results of the system calls in order ([ok] is the
    type assertion), the first failure being reported. *)
Definition openEgressSocket (listen : option E) (ok : bool) (not_udp : E) (file setsockopt : option E)
    : option E :=
  match listen with
  | Some e => Some e
  | None =>
      if negb ok then Some not_udp
      else match file with
           | Some e => Some e
           | None => setsockopt
           end
  end.

(** [Close]: every socket is closed, in map order; the last error is kept. *)
Definition rt_Close (choice : nat → nat) (close : bytes → option E) (w : World C) : option E :=
  fold_left (fun last name => match close name with Some e => Some e | None => last end)
    (shuffle (size (w_sockets w)) choice (map_to_list (w_sockets w)).*1) None.

(** [buildDedupKey]: the SeqNum field; nil for a short frame. *)
Definition buildDedupKey (raw : bytes) : bytes :=
  if bool_decide (length raw < 56)%nat then []
  else put_at (replicate 8 0) 0 (subslice raw 48 56).

(** The multicast destination of a frame. *)
Definition egressGroup (r : Retransmitter) (raw : bytes) (txID : bytes) : UDPAddr :=
  let e := rt_engine r in
  let control := ControlGroupAddr (Prefix e) (GroupID e) in
  let shardGroup := Addr e (GroupIndex e txID) (rt_egressPort r) in
  if bool_decide (7 ≤ length raw)%nat then
    let ver := byte_at raw 6 in
    if ver =? FrameVerV4 then MkUDPAddr (control CtrlGroupControl) (rt_egressPort r)
    else if ver =? FrameVerV5 then MkUDPAddr (control CtrlGroupSubtreeAnnounce) (rt_egressPort r)
    else if ver =? FrameVerV6 then MkUDPAddr (control CtrlGroupControl) (rt_egressPort r)
    else shardGroup
  else shardGroup.

(** The send loop, under the lock: stop at the first failed write. *)
Fixpoint egress_loop (order : list bytes) (dst : UDPAddr) (raw : slice) : atomic (World C) bool :=
  fun w =>
    match order with
    | [] => (true, w)
    | name :: order' =>
        let '(ok, w1) := net_send (SentFrame name dst (contents (w_heap w) raw)) w in
        if ok then egress_loop order' dst raw w1
        else (false, update_rec rec_CacheError w1)
    end.

(** One iteration over the sockets, in the order the run-time picks. *)
Definition egress_all (dst : UDPAddr) (raw : slice) : atomic (World C) bool := fun w =>
  let '(seed, w1) := map_choice w in
  let order := shuffle (size (w_sockets w1)) (fun n => env_choice (w_env w1) (seed + n))
                 (map_to_list (w_sockets w1)).*1 in
  egress_loop order dst raw w1.

(** The part of [Retransmit] after the deduplication gate.  The result says
    whether the error is nil. *)
Definition retransmit_send (r : Retransmitter) (raw : slice) (txID : bytes) : Prog (World C) bool :=
  bs ← perform (read_slice raw);
  perform (egress_all (egressGroup r bs txID) raw).

(** [Retransmit]: [true] is a nil error. *)
Definition Retransmit (r : Retransmitter) (raw : slice) (txID : bytes) : Prog (World C) bool :=
  match cb_SetNX with
  | Some setnx =>
      bs ← perform (read_slice raw);
      let dedupKey := buildDedupKey bs in
      if bool_decide (0 < length dedupKey)%nat then
        res ← perform (gate_SetNX setnx dedupKey (str "1") (rt_dedupWindow r));
        (* the error, res.2, is only logged *)
        if negb res.1 then
          _ ← with_rec rec_RetransmitDedup;
          mret true
        else retransmit_send r raw txID
      else retransmit_send r raw txID
  | None => retransmit_send r raw txID
  end.
End retransmit.

(** ** The egress sockets *)

Section sockets.
Context {RL : RateLib} {SH : ShardLib} {C E : Type}.

Lemma open_sockets_spec (open : Interface → option E) ifaces m :
  ∃ opened rest, ifaces = opened ++ rest ∧ Forall (fun i => open i = None) opened ∧
    (open_sockets open ifaces m).2 =
      fold_left (fun m i => <[if_Name i := if_Index i]> m) opened m ∧
    match rest with
    | [] => (open_sockets open ifaces m).1 = Ok tt
    | i :: _ => ∃ e, open i = Some e ∧ (open_sockets open ifaces m).1 = Err e
    end.
Proof.
  revert m. induction ifaces as [|i ifaces IH]; intros m; cbn [open_sockets].
  { by exists [], []. }
  destruct (open i) as [e|] eqn:Hi.
  { exists [], (i :: ifaces). split_and!; [done|constructor|done|eauto]. }
  destruct (IH (<[if_Name i := if_Index i]> m)) as (opened & rest & -> & Hall & Hm & Hres).
  exists (i :: opened), rest. split_and!; [done|by constructor|done|done].
Qed.

(** [Open].  The interfaces are opened in order up to the first one that
    fails, whose error is returned; the sockets opened so far are in the map
    under the names of their interfaces, and nothing else changes.  If none
    fails the result is nil and every interface has its socket. *)
Lemma rt_Open_spec (open : Interface → option E) (r : Retransmitter) (w : World C) :
  ∃ opened rest, rt_ifaces r = opened ++ rest ∧ Forall (fun i => open i = None) opened ∧
    (rt_Open open r w).2 =
      set_sockets (fold_left (fun m i => <[if_Name i := if_Index i]> m) opened (w_sockets w)) w ∧
    match rest with
    | [] => (rt_Open open r w).1 = Ok tt
    | i :: _ => ∃ e, open i = Some e ∧ (rt_Open open r w).1 = Err e
    end.
Proof.
  destruct (open_sockets_spec open (rt_ifaces r) (w_sockets w)) as (opened & rest & H1 & H2 & H3 & H4).
  exists opened, rest. unfold rt_Open. destruct (open_sockets _ _ _) as [res m]. cbn in *. by subst m.
Qed.

(** [Close].  Every socket is closed, in whatever order the map is
    iterated; the result is nil iff every close succeeds, and otherwise is
    the error of one of them. *)
Lemma rt_Close_spec (choice : nat → nat) (close : bytes → option E) (w : World C) :
  (rt_Close choice close w = None ↔ ∀ n, is_Some (w_sockets w !! n) → close n = None) ∧
  ∀ e, rt_Close choice close w = Some e → ∃ n, is_Some (w_sockets w !! n) ∧ close n = Some e.
Proof.
  unfold rt_Close. set (order := shuffle _ _ _).
  assert (∀ n, n ∈ order ↔ is_Some (w_sockets w !! n)) as Hin.
  { intros n. unfold order. rewrite shuffle_perm, list_elem_of_fmap. split.
    - intros ([n' i] & -> & Hi). apply elem_of_map_to_list in Hi. by exists i.
    - intros [i Hi]. exists (n, i). split; [done|]. by apply elem_of_map_to_list. }
  assert (∀ l last, fold_left (fun last name => match close name with Some e => Some e | None => last end)
    l last = default last (head (omap (fun n => Some <$> close n) (reverse l)))) as Hfold.
  { induction l as [|n l IH] using rev_ind; intros last; [done|].
    rewrite fold_left_app, reverse_snoc, IH. cbn. by destruct (close n). }
  rewrite Hfold. setoid_rewrite <- Hin. clear Hfold Hin. clearbody order.
  assert (∀ x, head (omap (fun n => Some <$> close n) (reverse order)) = Some x →
    ∃ n e, n ∈ order ∧ close n = Some e ∧ x = Some e) as Hsome.
  { intros x Hx. apply head_Some_elem_of, list_elem_of_omap in Hx as (n & Hn & Hc).
    rewrite elem_of_reverse in Hn. destruct (close n) as [e|] eqn:He; cbn in Hc; simplify_eq. eauto. }
  destruct (head _) as [x|] eqn:Hh; cbn [default from_option id].
  - destruct (Hsome x eq_refl) as (n & e & Hn & He & ->). split; [|intros e' [= <-]; eauto].
    split; [done|]. intros Hall. rewrite Hall in He; done.
  - split; [|done]. split; [|done]. intros _ n Hn. apply head_None in Hh.
    destruct (close n) as [e|] eqn:He; [|done]. exfalso.
    apply (not_elem_of_nil (Some e)). rewrite <- Hh. apply list_elem_of_omap.
    exists n. rewrite elem_of_reverse, He. done.
Qed.
End sockets.
