(* ===== verification/Beacon.v ===== *)
(** * beacon: the ADVERT sender (beacon/beacon.go) *)

From Corelib Require Import SpecFloat.
From S2P Require Import Prelude GoLib RateLimit Cache Metrics ShardCommon World Retransmit.

Definition ADVERTSize : nat := 56.

Definition MsgTypeADVERT : Z := 0x20.

Definition FlagHasParent : Z := 0x0002.

Definition FlagDraining : Z := 0x0004.

Definition FlagUnicastRetransmit : Z := 0x0008.

Definition FlagMulticastRetransmit : Z := 0x0010.

(** [Config]. *)
Record BeaconConfig := MkBeaconConfig {
  bc_NACKAddr : bytes;
  bc_NACKPort : Z;
  bc_Tier : Z;
  bc_Preference : Z;
  bc_Interval : Z;
  bc_Scope : Z;
  bc_Flags : Z;
  bc_InstanceID : Z;
  bc_GroupID : Z;
  bc_Iface : option Interface;
}.

Definition set_Interval (d : Z) (c : BeaconConfig) : BeaconConfig :=
  MkBeaconConfig (bc_NACKAddr c) (bc_NACKPort c) (bc_Tier c) (bc_Preference c) d (bc_Scope c)
    (bc_Flags c) (bc_InstanceID c) (bc_GroupID c) (bc_Iface c).

(** [New]: the configuration of the sender. *)
Definition beacon_New (c : BeaconConfig) : BeaconConfig :=
  if bc_Interval c =? 0 then set_Interval (60 * Second) c else c.

(** [uint16(x)]: implementation-defined when the truncated value does not fit. *)
Definition float_to_uint16 (oob : float64 → Z) (x : float64) : Z :=
  match float_trunc x with
  | Some v => if (0 <=? v) && (v <? 2 ^ 16) then v else oob x
  | None => oob x
  end.

Definition beaconPort : Z := 9300.

Section beacon.
Context {RL : RateLib} {FL : FrameLib} {SH : ShardLib} {C E : Type}.

(** [buildADVERT]; [oob] is the out-of-range conversion to uint16. *)
Definition buildADVERT (oob : float64 → Z) (c : BeaconConfig) : bytes :=
  let buf := replicate ADVERTSize 0 in
  let buf := put_at buf 0 (be_put 4 MagicBSV) in
  let buf := put_at buf 4 (be_put 2 ProtoVer) in
  let buf := put_at buf 6 [MsgTypeADVERT] in
  let buf := put_at buf 7 [bc_Scope c] in
  let nackIP := match To16 (bc_NACKAddr c) with Some ip => ip | None => IPv6unspecified end in
  let buf := put_at buf 8 nackIP in
  let buf := put_at buf 24 (be_put 2 (bc_NACKPort c)) in
  let buf := put_at buf 26 [bc_Tier c] in
  let buf := put_at buf 27 [bc_Preference c] in
  let intervalSec := float_to_uint16 oob (Seconds (bc_Interval c)) in
  let buf := put_at buf 28 (be_put 2 intervalSec) in
  let buf := put_at buf 30 (be_put 2 (bc_Flags c)) in
  put_at buf 32 (be_put 4 (bc_InstanceID c)).

(** [beaconGroups]. *)
Definition beaconGroups (c : BeaconConfig) : list UDPAddr :=
  let group prefix := MkUDPAddr (ControlGroupAddr prefix (bc_GroupID c) CtrlGroupBeacon) beaconPort in
  (if (bc_Scope c =? 0x05) || (bc_Scope c =? 0xFF) then [group 0xFF05] else [])
  ++ (if (bc_Scope c =? 0x08) || (bc_Scope c =? 0xFF) then [group 0xFF08] else [])
  ++ (if (bc_Scope c =? 0x0E) || (bc_Scope c =? 0xFF) then [group 0xFF0E] else []).

(** [send]: a failed write is only logged. *)
Fixpoint send (conns : list UDPAddr) (buf : bytes) : Prog (World C) unit :=
  match conns with
  | [] => mret tt
  | conn :: conns' =>
      ok ← perform (net_send (SentAdvert conn buf));
      _ ← (if ok : bool then with_rec rec_BeaconAdvertSent else mret tt);
      send conns' buf
  end.

(** The loop of [Run]: [true] is a tick, [false] the end of the context. *)
Fixpoint beacon_loop (conns : list UDPAddr) (buf : bytes) (evs : list bool) : Prog (World C) bool :=
  match evs with
  | [] => mret false
  | true :: evs' => _ ← send conns buf; beacon_loop conns buf evs'
  | false :: _ => mret true
  end.

(** [Run]: a group that cannot be dialled is skipped; [time.NewTicker] panics
    when the interval is not positive.  The result says whether [Run] has
    returned. *)
Definition beacon_Run (oob : float64 → Z) (c : BeaconConfig) (dial : UDPAddr → option E)
    (evs : list bool) : Prog (World C) bool :=
  let buf := buildADVERT oob c in
  let groups := beaconGroups c in
  if bool_decide (length groups = 0%nat) then mret true
  else
    let conns := filter (fun g => dial g = None) groups in
    if bool_decide (length conns = 0%nat) then mret true
    else if bc_Interval c <=? 0 then Panic
    else
      _ ← send conns buf;
      beacon_loop conns buf evs.
End beacon.

(** ** The interval field *)

(** A whole number of seconds is advertised as it is. *)
Lemma interval_whole oob n : 0 ≤ n < 2 ^ 16 → float_to_uint16 oob (Seconds (n * Second)) = n.
Proof.
  intros Hn. unfold float_to_uint16. rewrite Seconds_whole, uint16_exact by done.
  by rewrite (proj2 (Z.leb_le 0 n)), (proj2 (Z.ltb_lt n (2 ^ 16))) by lia.
Qed.

(** ** The datagram *)

Section facts.
Context {RL : RateLib} {FL : FrameLib} `{!FrameLaws} {SH : ShardLib} {C E : Type}.

Lemma To16_length ip ip' : To16 ip = Some ip' → length ip' = 16%nat.
Proof.
  unfold To16. case_bool_decide as H4; [intros [= <-]; cbn; by rewrite H4|].
  case_bool_decide as H16; [by intros [= <-]|done].
Qed.

(** The address an ADVERT carries. *)
Definition advert_ip (c : BeaconConfig) : bytes :=
  match To16 (bc_NACKAddr c) with Some ip => ip | None => IPv6unspecified end.

Lemma advert_ip_length c : length (advert_ip c) = 16%nat.
Proof. unfold advert_ip. destruct (To16 _) eqn:Ht; [by eapply To16_length|done]. Qed.

(** The fields of an ADVERT, in order. *)
Lemma buildADVERT_layout oob c :
  buildADVERT oob c =
  be_put 4 MagicBSV ++ be_put 2 ProtoVer ++ [MsgTypeADVERT; bc_Scope c] ++ advert_ip c
  ++ be_put 2 (bc_NACKPort c) ++ [bc_Tier c; bc_Preference c]
  ++ be_put 2 (float_to_uint16 oob (Seconds (bc_Interval c)))
  ++ be_put 2 (bc_Flags c) ++ be_put 4 (bc_InstanceID c) ++ replicate 20 0.
Proof.
  unfold buildADVERT. fold (advert_ip c). pose proof (advert_ip_length c) as Hl.
  rewrite (length_16 _ Hl). reflexivity.
Qed.

Lemma advert_address oob c : subslice (buildADVERT oob c) 8 24 = advert_ip c.
Proof. by rewrite buildADVERT_layout, (length_16 _ (advert_ip_length c)). Qed.

Lemma advert_port oob c :
  0 ≤ bc_NACKPort c < 2 ^ 16 → be_get (subslice (buildADVERT oob c) 24 26) = bc_NACKPort c.
Proof.
  intros Hp. rewrite buildADVERT_layout, (length_16 _ (advert_ip_length c)). by apply (be_get_put_id 2).
Qed.

(** C29: the ADVERT datagram.  It has 56 bytes, and a listener reads back the
    magic, the type, the scope, the NACK address (as IPv6), port, tier,
    preference, flags and instance id; an interval of a whole number of
    seconds below 65536 is advertised exactly; the last 20 bytes are zero. *)
Theorem advert_roundtrip (oob : float64 → Z) (c : BeaconConfig) (secs : Z) :
  0 ≤ bc_NACKPort c < 2 ^ 16 → 0 ≤ bc_Flags c < 2 ^ 16 → 0 ≤ bc_InstanceID c < 2 ^ 32 →
  bc_Interval c = secs * Second → 0 ≤ secs < 2 ^ 16 →
  let b := buildADVERT oob c in
  length b = ADVERTSize ∧ be_get (subslice b 0 4) = MagicBSV ∧ be_get (subslice b 4 6) = ProtoVer ∧
  byte_at b 6 = MsgTypeADVERT ∧ byte_at b 7 = bc_Scope c ∧ subslice b 8 24 = advert_ip c ∧
  be_get (subslice b 24 26) = bc_NACKPort c ∧ byte_at b 26 = bc_Tier c ∧
  byte_at b 27 = bc_Preference c ∧ be_get (subslice b 28 30) = secs ∧
  be_get (subslice b 30 32) = bc_Flags c ∧ be_get (subslice b 32 36) = bc_InstanceID c ∧
  subslice b 36 56 = replicate 20 0.
Proof.
  intros Hport Hflags Hid Hint Hsecs b. pose proof MagicBSV_range. pose proof ProtoVer_range.
  assert (float_to_uint16 oob (Seconds (bc_Interval c)) = secs) as Hi
    by (rewrite Hint; by apply interval_whole).
  unfold b. rewrite buildADVERT_layout, Hi, (length_16 _ (advert_ip_length c)).
  split_and!; try reflexivity.
  - by apply (be_get_put_id 4).
  - by apply (be_get_put_id 2).
  - by apply (be_get_put_id 2).
  - by apply (be_get_put_id 2).
  - by apply (be_get_put_id 2).
  - by apply (be_get_put_id 4).
Qed.

(** ** The groups *)

(** Where ADVERTs go.  The scope byte selects the site, organisation or
    global beacon group, or all three; any other byte selects none.  Each is
    the beacon control group FF0X::B:FFFD of its scope, on port 9300, and no
    two are equal. *)
Lemma beaconGroups_spec `{!ShardLaws} (c : BeaconConfig) :
  0 ≤ bc_GroupID c < 2 ^ 16 →
  let group s := MkUDPAddr ([0xFF; s] ++ replicate 10 0 ++ be_put 2 (bc_GroupID c) ++ [0xFF; 0xFD])
                   beaconPort in
  NoDup (beaconGroups c) ∧
  beaconGroups c =
    group <$> (if bc_Scope c =? 0xFF then [0x05; 0x08; 0x0E]
               else filter (fun s => s = bc_Scope c) [0x05; 0x08; 0x0E]).
Proof.
  intros Hg group.
  assert (∀ p, 0 ≤ p < 2 ^ 16 → MkUDPAddr (ControlGroupAddr p (bc_GroupID c) CtrlGroupBeacon) beaconPort
    = MkUDPAddr (be_put 2 p ++ replicate 10 0 ++ be_put 2 (bc_GroupID c) ++ [0xFF; 0xFD]) beaconPort)
    as Hc.
  { intros p Hp. rewrite CtrlGroupBeacon_val, ControlGroupAddr_format by done. done. }
  assert (beaconGroups c = group <$> (if bc_Scope c =? 0xFF then [0x05; 0x08; 0x0E]
               else filter (fun s => s = bc_Scope c) [0x05; 0x08; 0x0E])) as Heq.
  { unfold beaconGroups. rewrite !Hc by done.
    destruct (bc_Scope c =? 0xFF) eqn:HFF; [by rewrite !orb_true_r|]. rewrite !orb_false_r.
    rewrite !filter_cons. repeat split_if; breflect; repeat case_decide; try congruence; done. }
  split; [|done]. rewrite Heq. apply NoDup_fmap_2.
  - intros a b Hab. by injection Hab.
  - destruct (_ =? _); [|apply NoDup_filter]; by apply (bool_decide_unpack _).
Qed.

(** ** Sending *)

Lemma run_send_ok (conns : list UDPAddr) buf (w : World C) :
  (∀ n, env_write (w_env w) n = true) →
  ∃ w', run (send conns buf) w = (Some tt, w') ∧ w_env w' = w_env w ∧
    w_sent w' = w_sent w ++ ((fun g => SentAdvert g buf) <$> conns) ∧
    (adds <$> w_rec w') = (fun a => a ++ replicate (length conns) BeaconAdvertsSent) <$> (adds <$> w_rec w).
Proof.
  revert w. induction conns as [|g conns IH]; intros w Hw; cbn [send].
  - exists w. split_and!; [done|done|by rewrite app_nil_r|]. destruct (w_rec w); cbn; [by rewrite app_nil_r|done].
  - rewrite run_bind, run_perform. unfold net_send. rewrite Hw. cbn [fst snd].
    rewrite run_bind. cbn [run with_rec modify perform fst snd].
    match goal with |- context [run (send conns buf) ?x] =>
      destruct (IH x Hw) as (w' & Hr & He & Hs & Ha) end.
    exists w'. split_and!; [exact Hr|done|rewrite Hs; cbn; by rewrite <- (assoc (++))|].
    rewrite Ha. cbn. destruct (w_rec w); cbn; [by rewrite <- (assoc (++))|done].
Qed.

Lemma run_beacon_loop_ok conns buf n (w : World C) :
  (∀ i, env_write (w_env w) i = true) →
  ∃ w', run (beacon_loop conns buf (replicate n true ++ [false])) w = (Some true, w') ∧
    w_sent w' = w_sent w ++ mjoin (replicate n ((fun g => SentAdvert g buf) <$> conns)).
Proof.
  revert w. induction n as [|n IH]; intros w Hw.
  - exists w. split; [done|]. by rewrite app_nil_r.
  - cbn [replicate app beacon_loop]. rewrite run_bind.
    destruct (run_send_ok conns buf w Hw) as (w1 & -> & He & Hs & _).
    destruct (IH w1) as (w' & Hr & Hs'); [by rewrite He|]. exists w'. split; [done|].
    rewrite Hs', Hs. cbn. by rewrite <- (assoc (++)).
Qed.

(** C37: the beacon's schedule.  With a positive interval, every write
    succeeding and at least one group that can be dialled, [Run] sends the
    same ADVERT to each dialled group once at the start and once per tick,
    and returns when the context ends.  With no group, or none that can be
    dialled, it returns at once and sends nothing. *)
Theorem beacon_schedule (oob : float64 → Z) (c : BeaconConfig) (dial : UDPAddr → option E) (n : nat)
    (w : World C) :
  0 < bc_Interval c → (∀ i, env_write (w_env w) i = true) →
  ∃ w', run (beacon_Run oob c dial (replicate n true ++ [false])) w = (Some true, w') ∧
    let dialled := filter (fun g => dial g = None) (beaconGroups c) in
    w_sent w' = w_sent w ++
      mjoin (replicate (if bool_decide (dialled = []) then 0 else S n)%nat
        ((fun g => SentAdvert g (buildADVERT oob c)) <$> dialled)).
Proof.
  intros Hi Hw. unfold beacon_Run.
  set (groups := beaconGroups c). set (dialled := filter _ groups). cbv zeta. fold dialled.
  case_bool_decide as Hg.
  { assert (dialled = []) as Hd by (unfold dialled; destruct groups; [done|discriminate]).
    exists w. split; [done|]. rewrite bool_decide_eq_true_2 by done. by rewrite app_nil_r. }
  case_bool_decide as Hd.
  { apply nil_length_inv in Hd. exists w. split; [done|]. rewrite bool_decide_eq_true_2 by done.
    by rewrite app_nil_r. }
  rewrite (proj2 (Z.leb_gt _ _)) by done. rewrite run_bind.
  destruct (run_send_ok dialled (buildADVERT oob c) w Hw) as (w1 & -> & He & Hs & _).
  destruct (run_beacon_loop_ok dialled (buildADVERT oob c) n w1) as (w' & Hr & Hs'); [by rewrite He|].
  exists w'. split; [exact Hr|]. rewrite Hs', Hs, bool_decide_eq_false_2 by (by intros ->).
  cbn. by rewrite <- (assoc (++)).
Qed.
End facts.
