(* ===== verification/Ingress.v ===== *)
(** * ingress: the multicast receive worker (ingress/ingress.go) *)

From S2P Require Import Prelude GoLib RateLimit Cache Metrics ShardCommon World.

(** The cache index: HashKey (8 bytes) then SeqNum (8 bytes). *)
Definition indexKey (hashKey seqNum : Z) : bytes :=
  let key := replicate 16 0 in
  let key := put_at key 0 (be_put 8 hashKey) in
  put_at key 8 (be_put 8 seqNum).

(** Results of recvfrom. *)
Inductive errno := EAGAIN | EWOULDBLOCK | EBADF | EINVAL | EINTR | EOTHER.

Inductive recv :=
| RecvData (bs : bytes)
| RecvErr (e : errno).

Section ingress.
Context {RL : RateLib} {FL : FrameLib} {C E : Type} `{!Backend C E}.

(** The fields of [Worker] the hot path reads. *)
Record Worker := MkWorker { wk_ttl : Z }.

(** The common body of the frame handlers, after the decoder has run. *)
Definition storeDecoded (wk : Worker) (raw : slice) (f : option Header) : Prog (World C) unit :=
  match f with
  | None => with_rec (rec_FrameDropped (str "decode_error"))
  | Some hd =>
      _ ← with_rec rec_FrameReceived;
      if SeqNum hd =? 0 then mret tt
      else
        r ← perform (cache_Store (indexKey (HashKey hd) (SeqNum hd)) raw (wk_ttl wk));
        match r with
        | Err _ => with_rec rec_CacheError
        | Ok _ => with_rec rec_FrameCached
        end
  end.

Definition processBlockFrame (wk : Worker) (raw : slice) : Prog (World C) unit :=
  bs ← perform (read_slice raw);
  storeDecoded wk raw (DecodeBlock bs).

Definition processSubtreeDataFrame (wk : Worker) (raw : slice) : Prog (World C) unit :=
  bs ← perform (read_slice raw);
  storeDecoded wk raw (DecodeSubtreeData bs).

Definition processAnchorFrame (wk : Worker) (raw : slice) : Prog (World C) unit :=
  bs ← perform (read_slice raw);
  storeDecoded wk raw (DecodeAnchor bs).

(** [processFrame]. *)
Definition processFrame (wk : Worker) (raw : slice) : Prog (World C) unit :=
  bs ← perform (read_slice raw);
  if IsBlockFrame bs then processBlockFrame wk raw
  else if IsSubtreeDataFrame bs then processSubtreeDataFrame wk raw
  else if IsAnchorFrame bs then processAnchorFrame wk raw
  else storeDecoded wk raw (Decode bs).

(** The kernel writes a datagram at the start of the receive buffer, which is
    allocated once and reused for every datagram. *)
Definition receive_into (buf : nat) (bs : bytes) : Prog (World C) unit :=
  modify (fun w => set_heap (fill (w_heap w) buf bs) w).

(** The receive loop on the results of successive recvfrom calls, each with
    whether the context is done at that point; [true] when [Run] returns. *)
Fixpoint receive_loop (wk : Worker) (buf : nat) (evs : list (recv * bool)) : Prog (World C) bool :=
  match evs with
  | [] => mret false
  | (RecvData bs, _) :: evs' =>
      if bool_decide (0 < length bs)%nat then
        _ ← receive_into buf bs;
        _ ← processFrame wk (Slice buf 0 (length bs));
        receive_loop wk buf evs'
      else receive_loop wk buf evs'
  | (RecvErr e, done) :: evs' =>
      match e with
      | EAGAIN | EWOULDBLOCK => if done : bool then mret true else receive_loop wk buf evs'
      | EBADF | EINVAL => mret true
      | EINTR => receive_loop wk buf evs'
      | EOTHER => if done then mret true else receive_loop wk buf evs'
      end
  end.

(** [openRawSocket]: socket, SO_REUSEPORT, bind; the error of SO_RCVBUF is
    ignored. *)
Definition openRawSocket (socket reuseport bind : option errno) : option errno :=
  match socket with
  | Some e => Some e
  | None => match reuseport with Some e => Some e | None => bind end
  end.

(** [Run]: open, join every group, report ready, receive until done.  The
    result is the error returned, and whether [Run] has returned. *)
Definition ingress_Run (wk : Worker) (opened : option errno) (joins : list (option errno))
    (buf : nat) (evs : list (recv * bool)) : Prog (World C) (option errno * bool) :=
  match opened with
  | Some e => mret (Some e, true)
  | None =>
      match head (omap id joins) with
      | Some e => mret (Some e, true)
      | None =>
          _ ← with_rec rec_WorkerReady;
          returned ← receive_loop wk buf evs;
          if returned : bool then _ ← with_rec rec_WorkerDone; mret (None, true)
          else mret (None, false)
      end
  end.
End ingress.
