(* ===== verification/Server.v ===== *)
(** * server: the NACK server (server/server.go) *)

From S2P Require Import Prelude GoLib RateLimit Cache Metrics ShardCommon World Retransmit.

Definition NACKSize : nat := 64.

Definition ResponseSize : nat := 16.

Definition msgTypeNACK : Z := 0x10.

Definition msgTypeMISS : Z := 0x11.

Definition msgTypeACK : Z := 0x12.

(** Errors of [validateNACK]. *)
Inductive nack_error :=
| InvalidSize (n : Z)
| InvalidMagic (m : Z)
| InvalidType (t : Z).

Section server.
Context {RL : RateLib} {FL : FrameLib} {SH : ShardLib} {C E : Type} `{!Backend C E}.

(** [validateNACK]. *)
Definition validateNACK (datagram : bytes) : option nack_error :=
  if bool_decide (length datagram < NACKSize)%nat then Some (InvalidSize (Z.of_nat (length datagram)))
  else if negb (be_get (subslice datagram 0 4) =? MagicBSV)
  then Some (InvalidMagic (be_get (subslice datagram 0 4)))
  else if negb (byte_at datagram 6 =? msgTypeNACK) then Some (InvalidType (byte_at datagram 6))
  else None.

(** The fields of [Server] that [New] and the setters set; the limiter, the
    cache and the recorder are in the shared store.  [None] is a nil engine. *)
Record Server := MkServer {
  sv_port : Z;
  sv_bindAddr : bytes;
  sv_retransmit : Retransmitter;
  sv_workers : Z;
  sv_suppressACK : bool;
  sv_suppressMISS : bool;
  sv_shardEngine : option Engine;
}.

(** [New] and the setters. *)
Definition server_New (port : Z) (rt : Retransmitter) (workers : Z) : Server :=
  MkServer port [] rt workers false false None.

Definition SetSuppressACK (v : bool) (s : Server) : Server :=
  MkServer (sv_port s) (sv_bindAddr s) (sv_retransmit s) (sv_workers s) v (sv_suppressMISS s)
    (sv_shardEngine s).

Definition SetSuppressMISS (v : bool) (s : Server) : Server :=
  MkServer (sv_port s) (sv_bindAddr s) (sv_retransmit s) (sv_workers s) (sv_suppressACK s) v
    (sv_shardEngine s).

Definition SetBindAddr (addr : bytes) (s : Server) : Server :=
  MkServer (sv_port s) addr (sv_retransmit s) (sv_workers s) (sv_suppressACK s) (sv_suppressMISS s)
    (sv_shardEngine s).

Definition SetShardEngine (e : Engine) (s : Server) : Server :=
  MkServer (sv_port s) (sv_bindAddr s) (sv_retransmit s) (sv_workers s) (sv_suppressACK s)
    (sv_suppressMISS s) (Some e).

(** The 16 bytes of an ACK or MISS. *)
Definition responseBytes (msgType flags seqNum : Z) : bytes :=
  let buf := replicate ResponseSize 0 in
  let buf := put_at buf 0 (be_put 4 MagicBSV) in
  let buf := put_at buf 4 (be_put 2 ProtoVer) in
  let buf := put_at buf 6 [msgType] in
  let buf := put_at buf 7 [flags] in
  put_at buf 8 (be_put 8 seqNum).

Definition responseLabel (msgType : Z) : bytes :=
  if msgType =? msgTypeMISS then str "miss" else str "ack".

(** [sendResponse]. *)
Definition sendResponse (src : UDPAddr) (msgType flags seqNum : Z) : Prog (World C) unit :=
  ok ← perform (net_send (SentResponse src (responseBytes msgType flags seqNum)));
  if negb ok then with_rec (rec_ResponseSendError (responseLabel msgType))
  else with_rec (rec_ResponseSent (responseLabel msgType)).

(** [copy(txID[:], raw[8:40])] when the frame has 40 bytes. *)
Definition frameTxID (raw : bytes) : bytes :=
  if bool_decide (40 ≤ length raw)%nat then put_at (replicate 32 0) 0 (subslice raw 8 40)
  else replicate 32 0.

(** The tail of [processNACK] after the group tier. *)
Definition retransmitAndAck (s : Server) (src : option UDPAddr) (raw : slice) (txID : bytes)
    (groupThrottled : bool) (seqNum : Z) : Prog (World C) unit :=
  ok ← (if groupThrottled then mret true
        else
          ok ← Retransmit (sv_retransmit s) raw txID;
          if ok : bool then _ ← with_rec rec_Retransmit; mret true else mret false);
  if negb ok then mret tt
  else
    match src with
    | Some a => if negb (sv_suppressACK s) then sendResponse a msgTypeACK 1 seqNum else mret tt
    | None => mret tt
    end.

(** The lookup key: HashKey then StartSeq. *)
Definition nackKey (hashKey startSeq : Z) : bytes :=
  let key := replicate 16 0 in
  let key := put_at key 0 (be_put 8 hashKey) in
  put_at key 8 (be_put 8 startSeq).

(** The part of [processNACK] after a cache hit. *)
Definition serveHit (s : Server) (src : option UDPAddr) (srcIP : bytes) (raw : slice) (seqNum : Z)
    : Prog (World C) unit :=
  _ ← with_rec rec_CacheHit;
  bs ← perform (read_slice raw);
  let txID := frameTxID bs in
  groupThrottled ←
    match sv_shardEngine s with
    | None => mret false
    | Some e =>
        ok ← AllowGroup time_now limiter_lens srcIP (GroupIndex e txID);
        if negb ok then _ ← with_rec (rec_RateLimitDrop LevelGroup); mret true else mret false
    end;
  retransmitAndAck s src raw txID groupThrottled seqNum.

(** [processNACK]. *)
Definition processNACK (s : Server) (datagram : bytes) (src : option UDPAddr) : Prog (World C) unit :=
  _ ← with_rec rec_NACKRequest;
  match validateNACK datagram with
  | Some _ => mret tt
  | None =>
      let hashKey := be_get (subslice datagram 8 16) in
      let startSeq := be_get (subslice datagram 16 24) in
      let endSeq := be_get (subslice datagram 24 32) in
      if negb (endSeq =? startSeq) then mret tt
      else
        let srcIP := match src with Some a => ua_IP a | None => IPv6unspecified end in
        allowed ← Allow time_now limiter_lens srcIP startSeq;
        if negb allowed.1 then with_rec (rec_RateLimitDrop allowed.2)
        else
          ok ← AllowChain time_now limiter_lens srcIP hashKey;
          if negb ok then with_rec (rec_RateLimitDrop LevelChain)
          else
            res ← perform (cache_Retrieve (nackKey hashKey startSeq));
            match res with
            | Err _ => with_rec rec_CacheError
            | Ok None =>
                _ ← with_rec rec_CacheMiss;
                match src with
                | Some a =>
                    if negb (sv_suppressMISS s) then sendResponse a msgTypeMISS 0 0 else mret tt
                | None => mret tt
                end
            | Ok (Some raw) => serveHit s src srcIP raw startSeq
            end
  end.
End server.
