(* ===== verification/Main.v ===== *)
(** * main: wiring (main.go)

    The instance id, the NACK address, the multicast groups, the choice of the
    cache backend, and the components built from a configuration. *)

From S2P Require Import Prelude GoLib Strconv NetIP Flag RateLimit RateLimitFacts.
From S2P Require Import ServiceConfig ConfigFacts.
From S2P Require Import Cache CacheMemory CacheRedis Metrics ShardCommon World Retransmit Beacon.
From S2P Require Import Ingress Server.

(** ** Instance id *)

(** hash/crc32 with the Castagnoli polynomial, one bit at a time. *)
Definition Castagnoli : Z := 0x82F63B78.

Definition crc_bit (c : Z) : Z :=
  if Z.testbit c 0 then Z.lxor (Z.shiftr c 1) Castagnoli else Z.shiftr c 1.

Definition crc_byte (c b : Z) : Z := Nat.iter 8 crc_bit (Z.lxor c b).

Definition Checksum (data : bytes) : Z :=
  Z.lxor (fold_left crc_byte data 0xFFFFFFFF) 0xFFFFFFFF.

(** [hashInstanceID]. *)
Definition hashInstanceID (s : bytes) : Z :=
  let h := Checksum s in if h =? 0 then 1 else h.

Example Checksum_check : Checksum (str "123456789") = 0xE3069283.
Proof. reflexivity. Qed.

(** ** The NACK address *)

(** [ip.Equal(x)]. *)
Definition IP_Equal (ip x : bytes) : bool :=
  if bool_decide (length ip = length x) then bool_decide (ip = x)
  else match To16 ip, To16 x with
       | Some a, Some b => bool_decide (a = b)
       | _, _ => false
       end.

Definition IPv4bcast : bytes := [255; 255; 255; 255].

Definition IPv4zero : bytes := [0; 0; 0; 0].

Definition IPv6loopback : bytes := replicate 15 0 ++ [1].

Definition IsUnspecified (ip : bytes) : bool := IP_Equal ip IPv4zero || IP_Equal ip IPv6unspecified.

Definition IsLoopback (ip : bytes) : bool :=
  match To4 ip with Some p => byte_at p 0 =? 127 | None => IP_Equal ip IPv6loopback end.

Definition IsMulticast (ip : bytes) : bool :=
  match To4 ip with
  | Some p => Z.land (byte_at p 0) 0xF0 =? 0xE0
  | None => bool_decide (length ip = 16%nat) && (byte_at ip 0 =? 0xFF)
  end.

Definition IsLinkLocalUnicast (ip : bytes) : bool :=
  match To4 ip with
  | Some p => (byte_at p 0 =? 169) && (byte_at p 1 =? 254)
  | None => bool_decide (length ip = 16%nat) && (byte_at ip 0 =? 0xFE)
            && (Z.land (byte_at ip 1) 0xC0 =? 0x80)
  end.

Definition IsGlobalUnicast (ip : bytes) : bool :=
  (bool_decide (length ip = 4%nat) || bool_decide (length ip = 16%nat))
  && negb (IP_Equal ip IPv4bcast) && negb (IsUnspecified ip) && negb (IsLoopback ip)
  && negb (IsMulticast ip) && negb (IsLinkLocalUnicast ip).

(** An element of [iface.Addrs()]. *)
Inductive net_Addr := IPNet (ip : bytes) | IPAddr (ip : bytes) | OtherAddr.

Inductive addr_error := InvalidNACKAddr | AddrsFailed | NoGlobalUnicast.

(** The address the loop of [pickBeaconNACKAddr] looks at; nil is empty. *)
Definition addr_ip (a : net_Addr) : bytes :=
  match a with IPNet ip => ip | IPAddr ip => ip | OtherAddr => [] end.

(** The first suitable address. *)
Fixpoint first_global (addrs : list net_Addr) : option bytes :=
  match addrs with
  | [] => None
  | a :: addrs' =>
      let ip := addr_ip a in
      if bool_decide (ip = []) || bool_decide (is_Some (To4 ip)) then first_global addrs'
      else if IsGlobalUnicast ip && negb (IsLinkLocalUnicast ip) then To16 ip
      else first_global addrs'
  end.

(** [pickBeaconNACKAddr]; [addrs] is [iface.Addrs()]. *)
Definition pickBeaconNACKAddr (explicit : bytes)
    (addrs : option (list net_Addr)) : result (option bytes) addr_error :=
  if bool_decide (explicit ≠ []) then
    match ParseIP explicit with
    | None => Err InvalidNACKAddr
    | Some ip => Ok (To16 ip)
    end
  else
    match addrs with
    | None => Err AddrsFailed
    | Some l => match first_global l with Some ip => Ok (Some ip) | None => Err NoGlobalUnicast end
    end.

(** ** Components from a configuration *)

Section wiring.
Context {RL : RateLib} {FL : FrameLib} {SH : ShardLib}.

Definition engine_of (c : ServiceConfig) : Engine :=
  shard_New (c_MCPrefix c) (c_MCGroupID c) (c_ShardBits c).

(** [buildGroups]. *)
Definition buildGroups (c : ServiceConfig) (engine : Engine) : list UDPAddr :=
  let port := f_ListenPort (c_flags c) in
  ((fun i => Addr engine (Z.of_nat i) port) <$> seq 0 (Z.to_nat (c_NumGroups c)))
  ++ [MkUDPAddr (ControlGroupAddr (c_MCPrefix c) (c_MCGroupID c) CtrlGroupControl) port]
  ++ (if f_SubtreeDataEnabled (c_flags c) then
        [MkUDPAddr (ControlGroupAddr (c_MCPrefix c) (c_MCGroupID c) CtrlGroupSubtreeAnnounce) port]
      else []).

(** The limiter's configuration. *)
Definition limits_of (f : flags) : Config := {|
  IPRate := f_RLIPRate f; IPBurst := f_RLIPBurst f;
  SenderRate := f_RLSenderRate f; SenderWindow := f_RLSenderWindow f;
  ChainRate := f_RLChainRate f; ChainWindow := f_RLChainWindow f;
  SequenceMax := f_RLSequenceMax f; SequenceWindow := f_RLSequenceWindow f;
  GroupRate := f_RLGroupRate f; GroupBurst := f_RLGroupBurst f;
|}.

Definition retransmitter_of (c : ServiceConfig) (egress : list Interface) : Retransmitter :=
  MkRetransmitter (engine_of c) egress (f_EgressPort (c_flags c)) (f_DedupWindow (c_flags c)).

(** The server; [nackBindIP] is the address picked. *)
Definition server_of (c : ServiceConfig) (egress : list Interface) (nackBindIP : bytes) : Server :=
  SetShardEngine (engine_of c)
    (SetSuppressMISS (f_SuppressMISS (c_flags c))
      (SetSuppressACK (f_SuppressACK (c_flags c))
        (SetBindAddr (IP_String nackBindIP)
          (server_New (f_NACKPort (c_flags c)) (retransmitter_of c egress) (c_NACKWorkers c))))).

Definition worker_of (c : ServiceConfig) : Worker := MkWorker (f_CacheTTL (c_flags c)).

(** The flags of the ADVERT. *)
Definition beacon_flags (f : flags) : Z :=
  let flags := 0 in
  let flags := if f_BeaconFlagsUnicast f then Z.lor flags FlagUnicastRetransmit else flags in
  let flags := if f_BeaconFlagsMulticast f then Z.lor flags FlagMulticastRetransmit else flags in
  if f_BeaconFlagsDraining f then Z.lor flags FlagDraining else flags.

(** The name hashed into the instance id. *)
Definition beacon_host (f : flags) (hostname : result bytes unit) : bytes :=
  match f_InstanceID f with
  | [] => match hostname with Ok h => h | Err _ => [] end
  | id => id
  end.

Definition beacon_of (c : ServiceConfig) (iface : Interface) (nackIP : bytes)
    (hostname : result bytes unit) : BeaconConfig :=
  beacon_New {|
    bc_NACKAddr := nackIP;
    bc_NACKPort := to_uint 16 (f_NACKPort (c_flags c));
    bc_Tier := to_uint 8 (c_BeaconTier c);
    bc_Preference := to_uint 8 (c_BeaconPreference c);
    bc_Interval := f_BeaconInterval (c_flags c);
    bc_Scope := c_BeaconScopeByte c;
    bc_Flags := beacon_flags (c_flags c);
    bc_InstanceID := hashInstanceID (beacon_host (c_flags c) hostname);
    bc_GroupID := c_MCGroupID c;
    bc_Iface := Some iface;
  |}.
End wiring.
