(* ===== verification/MainFacts.v ===== *)
(** * Facts about the wiring

    The instance id, the address picked for the ADVERT, the groups joined at
    ingress and the groups frames are retransmitted to, and the components an
    accepted configuration gives. *)

From S2P Require Import Prelude GoLib Strconv NetIP GoParse Flag RateLimit RateLimitFacts.
From S2P Require Import ServiceConfig ConfigFacts.
From S2P Require Import Cache CacheMemory CacheRedis Metrics ShardCommon World Retransmit Beacon.
From S2P Require Import Ingress Server Main.

(** ** Instance id *)

Lemma lxor_range n a b : 0 ≤ n → 0 ≤ a < 2 ^ n → 0 ≤ b < 2 ^ n → 0 ≤ Z.lxor a b < 2 ^ n.
Proof.
  intros Hn Ha Hb. assert (0 ≤ Z.lxor a b) as H0 by (apply Z.lxor_nonneg; lia). split; [done|].
  destruct (decide (Z.lxor a b = 0)) as [->|Hne]; [by apply Z.pow_pos_nonneg|].
  apply Z.log2_lt_pow2; [lia|]. eapply Z.le_lt_trans; [apply Z.log2_lxor; lia|].
  assert (0 < n) as Hn0.
  { destruct (decide (n = 0)) as [->|]; [|lia]. assert (a = 0) as -> by lia. assert (b = 0) as -> by lia. done. }
  assert (∀ x, 0 ≤ x < 2 ^ n → Z.log2 x < n) as Hlog.
  { intros x Hx. destruct (decide (x = 0)) as [->|]; [done|]. apply Z.log2_lt_pow2; lia. }
  apply Z.max_lub_lt; auto.
Qed.

Lemma crc_byte_range c b : 0 ≤ c < 2 ^ 32 → is_byte b → 0 ≤ crc_byte c b < 2 ^ 32.
Proof.
  intros Hc [Hb0 Hb]. unfold crc_byte.
  assert (∀ x, 0 ≤ x < 2 ^ 32 → 0 ≤ crc_bit x < 2 ^ 32) as Hbit.
  { intros x Hx. unfold crc_bit. assert (0 ≤ Z.shiftr x 1 < 2 ^ 32) as Hs.
    { rewrite Z.shiftr_div_pow2 by lia. split; [apply Z.div_pos; lia|apply Z.div_lt_upper_bound; lia]. }
    destruct (Z.testbit x 0); [|done]. apply (lxor_range 32); [lia|done|unfold Castagnoli; lia]. }
  assert (0 ≤ Z.lxor c b < 2 ^ 32) as H0 by (apply (lxor_range 32); lia).
  cbn [Nat.iter]. by repeat apply Hbit.
Qed.

(** The id is a nonzero uint32. *)
Lemma hashInstanceID_range s : Forall is_byte s → 1 ≤ hashInstanceID s < 2 ^ 32.
Proof.
  intros Hs. assert (0 ≤ Checksum s < 2 ^ 32) as Hc.
  { unfold Checksum. apply (lxor_range 32); [lia| |lia].
    assert (∀ c, 0 ≤ c < 2 ^ 32 → 0 ≤ fold_left crc_byte s c < 2 ^ 32) as H; [|by apply H].
    induction Hs as [|b s Hb Hs IH]; intros c Hc; [done|]. cbn. apply IH. by apply crc_byte_range. }
  unfold hashInstanceID. destruct (_ =? 0) eqn:E; breflect; lia.
Qed.

(** ** The NACK address *)

Definition suitable (ip : bytes) : Prop :=
  length ip = 16%nat ∧ To4 ip = None ∧ IsMulticast ip = false ∧ IsLinkLocalUnicast ip = false ∧
  ip ≠ IPv6loopback ∧ ip ≠ IPv6unspecified.

Lemma global_suitable ip :
  To4 ip = None → IsGlobalUnicast ip = true → suitable ip.
Proof.
  intros H4 Hg. unfold IsGlobalUnicast in Hg. breflect.
  assert (length ip = 16%nat) as Hlen.
  { match goal with H : orb _ _ = true |- _ => apply orb_true_iff in H as [H|H] end;
      match goal with H : bool_decide (length ip = _) = true |- _ => apply bool_decide_eq_true_1 in H end;
      [|done].
    unfold To4 in H4. by rewrite bool_decide_eq_true_2 in H4. }
  unfold suitable. split_and!; try done.
  - intros ->. by unfold IsLoopback in *.
  - intros ->. by unfold IsUnspecified in *.
Qed.

Lemma pick_printed ip o :
  Forall is_byte ip → length ip = 16%nat → pickBeaconNACKAddr (IP_String ip) o = Ok (Some ip).
Proof.
  intros Hb Hl. unfold pickBeaconNACKAddr.
  assert (To16 ip = Some ip) as H16 by (unfold To16; by rewrite bool_decide_eq_false_2, bool_decide_eq_true_2 by lia).
  rewrite bool_decide_eq_true_2.
  - rewrite IP_String_parse, H16 by done. by rewrite H16.
  - intros Hnil. pose proof (IP_String_parse ip Hb) as Hp. by rewrite Hnil, H16 in Hp.
Qed.

Lemma pick_accepted s o :
  s ≠ [] → nack_addr_ok s = true →
  ∃ ip, pickBeaconNACKAddr s o = Ok (Some ip) ∧ length ip = 16%nat ∧ Forall is_byte ip ∧ To4 ip = None.
Proof.
  intros Hs Hok. unfold nack_addr_ok in Hok. rewrite bool_decide_eq_false_2 in Hok by done. cbn [orb] in Hok.
  destruct (ParseIP s) as [ip|] eqn:Hp; [|done]. apply andb_true_iff in Hok as [_ H4]. breflect.
  apply bool_decide_eq_false in H4. destruct (ParseIP_bytes s ip Hp) as [Hl Hb].
  exists ip. unfold pickBeaconNACKAddr. rewrite bool_decide_eq_true_2, Hp by done. unfold To16.
  rewrite bool_decide_eq_false_2, bool_decide_eq_true_2 by lia. split_and!; try done.
  destruct (To4 ip); [by destruct H4|done].
Qed.

Lemma pick_automatic addrs :
  let ok ip := ip ≠ [] ∧ To4 ip = None ∧ IsGlobalUnicast ip = true in
  let candidates := filter ok (addr_ip <$> addrs) in
  pickBeaconNACKAddr [] (Some addrs) =
    match candidates with
    | ip :: _ => Ok (Some ip)
    | [] => Err NoGlobalUnicast
    end ∧
  Forall suitable candidates.
Proof.
  intros ok candidates.
  assert (Forall suitable candidates) as Hsuit.
  { apply Forall_forall. intros ip Hin. apply list_elem_of_filter in Hin as [(_ & H4 & Hg) _].
    by apply global_suitable. }
  split; [|done]. unfold pickBeaconNACKAddr. rewrite bool_decide_eq_false_2 by naive_solver.
  assert (first_global addrs = head candidates) as ->; [|by destruct candidates].
  unfold candidates. clear Hsuit candidates.
  induction addrs as [|a addrs IH]; [done|]. cbn [first_global fmap list_fmap]. rewrite filter_cons.
  set (ip := addr_ip a) in *. unfold ok in *.
  case_bool_decide as Hnil; cbn [orb].
  { rewrite decide_False by naive_solver. apply IH. }
  case_bool_decide as H4.
  { rewrite decide_False by (intros (_ & Hx & _); rewrite Hx in H4; by destruct H4). apply IH. }
  assert (To4 ip = None) as H4' by (destruct (To4 ip); [by destruct H4|done]).
  destruct (IsGlobalUnicast ip) eqn:Hg; cbn [andb].
  - destruct (global_suitable ip H4' Hg) as (Hlen & _ & _ & Hll & _). rewrite Hll. cbn [negb].
    rewrite decide_True by done. unfold To16. rewrite bool_decide_eq_false_2 by lia.
    by rewrite bool_decide_eq_true_2.
  - rewrite decide_False by naive_solver. apply IH.
Qed.

(** C38: the address picked.  Without an explicit address,
    [pickBeaconNACKAddr] succeeds iff the interface has an IPv6 address that
    is global unicast; it returns the first such address in the order the
    interface lists them, and this is a 16-byte address that is neither
    multicast, link-local, loopback, unspecified nor an IPv4 address.  An
    explicit address is taken whatever the interface has, as the 16 bytes it
    stands for; it can be written as [IP.String] prints it; and one that
    [Load] has accepted is never refused and is no IPv4 address. *)
Theorem pickBeaconNACKAddr_spec (addrs : list net_Addr) :
  let ok ip := ip ≠ [] ∧ To4 ip = None ∧ IsGlobalUnicast ip = true in
  let candidates := filter ok (addr_ip <$> addrs) in
  pickBeaconNACKAddr [] (Some addrs) =
    match candidates with
    | ip :: _ => Ok (Some ip)
    | [] => Err NoGlobalUnicast
    end ∧
  Forall suitable candidates ∧
  (∀ ip o, Forall is_byte ip → length ip = 16%nat → pickBeaconNACKAddr (IP_String ip) o = Ok (Some ip)) ∧
  (∀ s o, s ≠ [] → nack_addr_ok s = true →
     ∃ ip, pickBeaconNACKAddr s o = Ok (Some ip) ∧ length ip = 16%nat ∧ Forall is_byte ip ∧ To4 ip = None).
Proof.
  intros ok candidates. split_and!; [| |apply pick_printed|apply pick_accepted].
  all: revert ok candidates; cbv zeta; apply pick_automatic.
Qed.

(** ** Groups *)

Section groups.
Context {RL : RateLib} {FL : FrameLib} {SH : ShardLib} {SHL : ShardLaws}.
Variable InterfaceByName : bytes → bool.
Variable NumCPU : Z.

(** What the groups need of an accepted configuration. *)
Lemma Load_groups f c :
  Load InterfaceByName NumCPU f = Ok c →
  c_flags c = f ∧ 1 ≤ c_ShardBits c ≤ 15 ∧ c_NumGroups c = 2 ^ c_ShardBits c ∧
  0 ≤ c_MCPrefix c < 2 ^ 16 ∧ 0 ≤ c_MCGroupID c < 2 ^ 16.
Proof.
  intros Hc. destruct (Load_cases InterfaceByName NumCPU f) as [(c' & Hc' & _ & Hok)|(e & He & _)];
    [|congruence]. rewrite Hc in Hc'. injection Hc' as <-.
  destruct Hok as (H1 & H2 & H3 & H4 & H5 & H6 & _). split_and!; try done; try lia; by eapply Scopes_range.
Qed.

(** The address FF0X::<gid>:<i>. *)
Definition group_ip (c : ServiceConfig) (i : Z) : bytes :=
  be_put 2 (c_MCPrefix c) ++ replicate 10 0 ++ be_put 2 (c_MCGroupID c) ++ be_put 2 i.

Lemma group_ip_inj c i j :
  0 ≤ i < 2 ^ 16 → 0 ≤ j < 2 ^ 16 → group_ip c i = group_ip c j → i = j.
Proof.
  intros Hi Hj H. unfold group_ip in H. do 3 apply app_inv_head in H. by apply (be_put_inj 2).
Qed.

(** The group numbers joined at ingress. *)
Definition joined (c : ServiceConfig) : list Z :=
  (Z.of_nat <$> seq 0 (Z.to_nat (c_NumGroups c)))
  ++ [0xFFFE] ++ (if f_SubtreeDataEnabled (c_flags c) then [0xFFFB] else []).

Lemma joined_range c : c_NumGroups c ≤ 2 ^ 15 → Forall (fun i => 0 ≤ i < 2 ^ 16) (joined c).
Proof.
  intros Hn. unfold joined. apply Forall_app. split.
  - apply Forall_fmap, Forall_forall. intros i Hi. apply elem_of_seq in Hi. cbn. lia.
  - destruct (f_SubtreeDataEnabled _); repeat (constructor; try lia).
Qed.

Lemma joined_nodup c : c_NumGroups c ≤ 2 ^ 15 → NoDup (joined c).
Proof.
  intros Hn. unfold joined. apply NoDup_app. split_and!.
  - apply NoDup_fmap_2; [apply _|apply NoDup_seq].
  - intros i Hi. apply list_elem_of_fmap in Hi as (k & -> & Hk). apply elem_of_seq in Hk.
    destruct (f_SubtreeDataEnabled _); cbn; rewrite ?elem_of_cons, ?elem_of_nil; lia.
  - destruct (f_SubtreeDataEnabled _); by apply (bool_decide_unpack _).
Qed.

Lemma buildGroups_eq f c :
  Load InterfaceByName NumCPU f = Ok c →
  buildGroups c (engine_of c) =
  (fun i => MkUDPAddr (group_ip c i) (f_ListenPort f)) <$> joined c.
Proof.
  intros Hc. destruct (Load_groups f c Hc) as (Hf & Hb & Hn & Hp & Hg). rewrite <- Hf.
  unfold buildGroups, joined, engine_of. rewrite fmap_app, <- list_fmap_compose. f_equal.
  - apply list_fmap_ext. intros i k Hk. cbn. apply Addr_format; [done|done|].
    apply lookup_seq in Hk as [-> Hlt]. split; [lia|].
    assert (2 ^ c_ShardBits c ≤ 2 ^ 15) by (apply Z.pow_le_mono_r; lia). lia.
  - rewrite CtrlGroupControl_val, CtrlGroupSubtreeAnnounce_val.
    rewrite !ControlGroupAddr_format by done. by destruct (f_SubtreeDataEnabled _).
Qed.

(** The group number a retransmitted frame goes to. *)
Definition egress_number (c : ServiceConfig) (raw txID : bytes) : Z :=
  if bool_decide (7 ≤ length raw)%nat then
    if byte_at raw 6 =? FrameVerV4 then 0xFFFE
    else if byte_at raw 6 =? FrameVerV5 then 0xFFFB
    else if byte_at raw 6 =? FrameVerV6 then 0xFFFE
    else GroupIndex (engine_of c) txID
  else GroupIndex (engine_of c) txID.

Lemma egressGroup_eq f c egress raw txID :
  Load InterfaceByName NumCPU f = Ok c →
  egressGroup (retransmitter_of c egress) raw txID =
  MkUDPAddr (group_ip c (egress_number c raw txID)) (f_EgressPort f).
Proof.
  intros Hc. destruct (Load_groups f c Hc) as (Hf & Hb & Hn & Hp & Hg). rewrite <- Hf.
  assert (0 ≤ GroupIndex (engine_of c) txID < 2 ^ 16) as Hi.
  { pose proof (GroupIndex_range (c_MCPrefix c) (c_MCGroupID c) (c_ShardBits c) txID ltac:(lia)) as Hr.
    assert (2 ^ c_ShardBits c ≤ 2 ^ 15) by (apply Z.pow_le_mono_r; lia). unfold engine_of. lia. }
  unfold egressGroup, egress_number, retransmitter_of. cbn [rt_engine rt_egressPort].
  unfold engine_of at 1 2 3 4 5 6. rewrite !Prefix_New, !GroupID_New.
  rewrite CtrlGroupControl_val, CtrlGroupSubtreeAnnounce_val, !ControlGroupAddr_format by done.
  fold (engine_of c). unfold engine_of at 1 3. rewrite !Addr_format by done.
  by repeat case_match.
Qed.

(** C19: retransmissions reach the groups that are joined.  For every
    configuration [Load] accepts: ingress joins 2^bits shard groups, the
    control group and, if enabled, the subtree group, all distinct; and every
    frame is retransmitted to the address of one of these groups, except a
    subtree-data frame when the subtree group is disabled.  Shard groups
    never collide with control groups. *)
Theorem retransmit_group_joined (f : flags) (c : ServiceConfig) (egress : list Interface)
    (raw txID : bytes) :
  Load InterfaceByName NumCPU f = Ok c →
  let groups := buildGroups c (engine_of c) in
  let dst := egressGroup (retransmitter_of c egress) raw txID in
  Z.of_nat (length groups) = 2 ^ c_ShardBits c + (if f_SubtreeDataEnabled f then 2 else 1) ∧
  NoDup groups ∧ Forall (fun g => ua_Port g = f_ListenPort f) groups ∧
  ua_Port dst = f_EgressPort f ∧
  (ua_IP dst ∈ ua_IP <$> groups ↔
   f_SubtreeDataEnabled f = true ∨ egress_number c raw txID ≠ 0xFFFB).
Proof.
  intros Hc. cbv zeta. rewrite (buildGroups_eq f c Hc), (egressGroup_eq f c egress raw txID Hc).
  destruct (Load_groups f c Hc) as (Hf & Hb & Hn & Hp & Hg).
  assert (0 ≤ c_NumGroups c ≤ 2 ^ 15) as Hn15
    by (rewrite Hn; split; [apply Z.pow_nonneg; lia|apply Z.pow_le_mono_r; lia]).
  pose proof (joined_range c ltac:(lia)) as Hrange. rewrite Forall_forall in Hrange.
  split_and!.
  - rewrite length_fmap. unfold joined. rewrite !length_app, length_fmap, length_seq, <- Hn, Hf.
    destruct (f_SubtreeDataEnabled f); cbn [length]; lia.
  - apply (NoDup_fmap_2_strong _).
    + intros i j Hi Hj Hij. apply (f_equal ua_IP) in Hij.
      by apply (group_ip_inj c i j (Hrange i Hi) (Hrange j Hj)).
    + apply joined_nodup. lia.
  - apply Forall_fmap, Forall_forall. done.
  - done.
  - rewrite <- list_fmap_compose. cbn [ua_IP].
    assert (0 ≤ GroupIndex (engine_of c) txID < c_NumGroups c) as Hi
      by (rewrite Hn; apply GroupIndex_range; lia).
    assert (0 ≤ egress_number c raw txID < 2 ^ 16) as He.
    { unfold egress_number. repeat case_match; lia. }
    assert (group_ip c (egress_number c raw txID) ∈ (group_ip c <$> joined c) ↔
            egress_number c raw txID ∈ joined c) as Hin.
    { rewrite list_elem_of_fmap. split; [|eauto]. intros (j & Hj & Hin).
      apply group_ip_inj in Hj as ->; auto. }
    change (ua_IP ∘ (fun i => MkUDPAddr (group_ip c i) (f_ListenPort f))) with (group_ip c).
    rewrite Hin. clear Hin. unfold joined. rewrite !elem_of_app, list_elem_of_fmap, Hf.
    assert (∀ i, 0 ≤ i < c_NumGroups c → ∃ k, i = Z.of_nat k ∧ k ∈ seq 0 (Z.to_nat (c_NumGroups c))) as Hseq.
    { intros i Hi'. exists (Z.to_nat i). split; [lia|]. apply elem_of_seq. lia. }
    split.
    + intros [(k & Hk & Hs)|[H1|H2]].
      * right. apply elem_of_seq in Hs. lia.
      * right. apply list_elem_of_singleton in H1. lia.
      * destruct (f_SubtreeDataEnabled f); [by left|]. by apply elem_of_nil in H2.
    + intros Hor. unfold egress_number in *.
      repeat case_match; try (left; by apply Hseq); try (right; left; by apply list_elem_of_singleton).
      all: destruct Hor as [?|?]; try done; right; right; by apply list_elem_of_singleton.
Qed.
End groups.

(** ** The advertised endpoint *)

Section advert.
Context {FL : FrameLib} {FLL : FrameLaws} {SH : ShardLib}.
Variable InterfaceByName : bytes → bool.
Variable NumCPU : Z.

Lemma beacon_flags_range f : 0 ≤ beacon_flags f < 2 ^ 16.
Proof.
  unfold beacon_flags. destruct (f_BeaconFlagsUnicast f), (f_BeaconFlagsMulticast f), (f_BeaconFlagsDraining f);
    by vm_compute.
Qed.

Lemma beacon_scope_values s v :
  beacon_scope_byte s = Some v → v = 0x05 ∨ v = 0x08 ∨ v = 0x0E ∨ v = 0xFF.
Proof. unfold beacon_scope_byte. repeat split_if; naive_solver. Qed.

Lemma beacon_flags_bits f :
  Z.testbit (beacon_flags f) 3 = f_BeaconFlagsUnicast f ∧
  Z.testbit (beacon_flags f) 4 = f_BeaconFlagsMulticast f ∧
  Z.testbit (beacon_flags f) 2 = f_BeaconFlagsDraining f.
Proof.
  unfold beacon_flags. by destruct (f_BeaconFlagsUnicast f), (f_BeaconFlagsMulticast f), (f_BeaconFlagsDraining f).
Qed.

(** C30: what an accepted configuration advertises.  Tier and preference are
    advertised as configured; the scope byte is that of the configured scope
    and selects at least one beacon group; the instance id is never 0; the
    flags are exactly those configured; the interval is positive, so the
    ticker of [Run] can be created; the port is the configured one modulo
    2^16. *)
Theorem configured_advert (oob : float64 → Z) (f : flags) (c : ServiceConfig) (iface : Interface)
    (nackIP : bytes) (hostname : result bytes unit) :
  Load InterfaceByName NumCPU f = Ok c →
  0 ≤ f_beaconTier f → 0 ≤ f_beaconPref f → Forall is_byte (beacon_host f hostname) →
  let b := beacon_of c iface nackIP hostname in
  let d := buildADVERT oob b in
  bc_Interval b = f_BeaconInterval f ∧ 0 < bc_Interval b ∧ beaconGroups b ≠ [] ∧
  byte_at d 26 = f_beaconTier f ∧ byte_at d 27 = f_beaconPref f ∧
  beacon_scope_byte (f_BeaconScope f) = Some (byte_at d 7) ∧
  be_get (subslice d 24 26) = f_NACKPort f `mod` 2 ^ 16 ∧
  (Z.testbit (be_get (subslice d 30 32)) 3 = f_BeaconFlagsUnicast f) ∧
  (Z.testbit (be_get (subslice d 30 32)) 4 = f_BeaconFlagsMulticast f) ∧
  (Z.testbit (be_get (subslice d 30 32)) 2 = f_BeaconFlagsDraining f) ∧
  1 ≤ be_get (subslice d 32 36) < 2 ^ 32.
Proof.
  intros Hc Htier Hpref Hhost b d.
  destruct (Load_cases InterfaceByName NumCPU f) as [(c' & Hc' & Hacc & Hok)|(e & He & _)];
    [|congruence]. rewrite Hc in Hc'. injection Hc' as <-.
  destruct Hok as (Hf & _ & _ & _ & _ & _ & _ & _ & _ & _ & _ & Hscope & Htc & Ht & Hpc & Hp).
  destruct Hacc as (_ & _ & _ & _ & _ & _ & _ & _ & _ & Hint & _).
  assert (b = MkBeaconConfig nackIP (to_uint 16 (f_NACKPort f)) (f_beaconTier f) (f_beaconPref f)
    (f_BeaconInterval f) (c_BeaconScopeByte c) (beacon_flags f)
    (hashInstanceID (beacon_host f hostname)) (c_MCGroupID c) (Some iface)) as Hb.
  { unfold b, beacon_of, beacon_New. cbn [bc_Interval]. rewrite Hf.
    rewrite (proj2 (Z.eqb_neq _ _)) by (unfold Second in *; lia). unfold to_uint.
    rewrite Htc, Hpc, !(Z.mod_small _ (2 ^ 8)) by lia. done. }
  pose proof (hashInstanceID_range _ Hhost) as Hid. pose proof (beacon_flags_range f) as Hfl.
  unfold d. rewrite buildADVERT_layout, (length_16 _ (advert_ip_length b)), Hb.
  cbn [bc_Interval bc_NACKPort bc_Tier bc_Preference bc_Scope bc_Flags bc_InstanceID].
  assert (∀ x, 0 ≤ x < 2 ^ 16 → be_get (be_put 2 x) = x) as H16 by (intros; by apply (be_get_put_id 2)).
  split_and!; try done.
  - unfold Second in *. lia.
  - unfold beaconGroups. cbn [bc_Scope].
    by destruct (beacon_scope_values _ _ Hscope) as [->|[->|[->| ->]]].
  - etrans; [apply H16, Z.mod_pos_bound; lia|done].
  - etrans; [apply f_equal2; [by apply H16|done]|]. by apply beacon_flags_bits.
  - etrans; [apply f_equal2; [by apply H16|done]|]. by apply beacon_flags_bits.
  - etrans; [apply f_equal2; [by apply H16|done]|]. by apply beacon_flags_bits.
  - change (1 ≤ be_get (be_put 4 (hashInstanceID (beacon_host f hostname)))). rewrite be_get_put_id by lia. lia.
  - change (be_get (be_put 4 (hashInstanceID (beacon_host f hostname))) < 2 ^ 32).
    rewrite be_get_put_id by lia. lia.
Qed.
End advert.

(** ** The aliases of the chain tier *)

(** The alias of the chain rate is dead.  When neither RL_CHAIN_RATE nor
    RL_CHAIN_WINDOW is set in the environment and the command line sets
    neither -rl-chain-rate nor -rl-chain-window, the chain tier admits 500
    requests per minute, whatever -rl-sender-rate, -rl-sender-window and their
    variables say: the defaults of the chain tier are not zero, and [New] looks
    at the alias only when they are. *)
Lemma sender_alias_ignored {RL : RateLib} (oob : float64 → Z) (Getenv : bytes → bytes)
    (NumCPU : Z) (a : gmap bytes flag_val) :
  Getenv (str "RL_CHAIN_RATE") = [] → Getenv (str "RL_CHAIN_WINDOW") = [] →
  a !! str "rl-chain-rate" = None → a !! str "rl-chain-window" = None →
  let l := New oob (limits_of (flag_vars Getenv NumCPU a)) in
  wl_max (chainLimiter l) = 500 ∧ wl_window (chainLimiter l) = Minute.
Proof.
  intros Hr Hw Har Haw. cbv zeta.
  assert (f_RLChainRate (flag_vars Getenv NumCPU a) = float_of_Z 500) as Hrate
    by (unfold flag_vars, Float64Var, envFloat; cbn [f_RLChainRate]; by rewrite Har, Hr).
  assert (f_RLChainWindow (flag_vars Getenv NumCPU a) = Minute) as Hwin
    by (unfold flag_vars, DurationVar, envDuration; cbn [f_RLChainWindow]; by rewrite Haw, Hw).
  rewrite New_chain_configured; cbn [ChainRate ChainWindow limits_of]; rewrite ?Hrate, ?Hwin; by vm_compute.
Qed.
