(* ===== verification/ServerRun.v ===== *)
(** * The NACK server's receive loop and worker pool (server/server.go, [Run])

    The loop, the [requests] channel and the workers as a step relation: the
    channel is a queue of capacity 100, a worker is idle, processing a
    request (whose remaining steps are a goroutine body) or gone, and the
    context may be cancelled at any time.  The two ghost fields record the
    requests put on the channel and the requests taken from it. *)

From S2P Require Import Prelude GoLib RateLimit Cache Metrics ShardCommon World Retransmit.
From S2P Require Import Server.

(** [nackRequest]. *)
Record nackRequest := MkRequest { rq_data : bytes; rq_src : option UDPAddr }.

(** Where the receive loop is: at the [select] on the context, blocked in
    [ReadFrom], at the [select] that sends a request, waiting for the workers
    after closing the channel, returned. *)
Inductive loop_state :=
| LTop
| LRead
| LSend (rq : nackRequest)
| LDrain
| LReturned.

(** What [ReadFrom] returns. *)
Inductive read_event :=
| ReadTimeout
| ReadError
| ReadDatagram (d : bytes) (src : option UDPAddr).

Definition queue_capacity : nat := 100.

(** The address [Run] listens on: [fmt.Sprintf("[%s]:%d", host, s.port)]. *)
Definition listen_address {RL : RateLib} {SH : ShardLib} (s : Server) : bytes :=
  let host := match sv_bindAddr s with [] => str "::" | a => a end in
  str "[" ++ host ++ str "]:" ++ itoa (sv_port s).

Section pool.
Context {W : Type}.

(** [s.processNACK(conn, workerID, req.data, req.src)]. *)
Variable handle : nackRequest → Prog W unit.

(** The effect of [WorkerDone]. *)
Variable worker_done : W → W.

Inductive worker_state :=
| WIdle
| WBusy (body : Prog W unit)
| WGone.

Record run_state := MkRun {
  rs_loop : loop_state;
  rs_queue : list nackRequest;
  rs_closed : bool;
  rs_done : bool;
  rs_workers : list worker_state;
  rs_accepted : list nackRequest;
  rs_taken : list nackRequest;
  rs_store : W;
}.

(** The loop moves to [l]. *)
Definition goto (l : loop_state) (st : run_state) : run_state :=
  MkRun l (rs_queue st) (rs_closed st) (rs_done st) (rs_workers st) (rs_accepted st) (rs_taken st)
    (rs_store st).

(** [close(requests)], then [wg.Wait()]. *)
Definition close_requests (st : run_state) : run_state :=
  MkRun LDrain (rs_queue st) true (rs_done st) (rs_workers st) (rs_accepted st) (rs_taken st)
    (rs_store st).

(** One result of [ReadFrom] on a buffer of 64 bytes: a longer datagram is
    cut, a shorter one is refused. *)
Definition after_read (ev : read_event) (st : run_state) : run_state :=
  match ev with
  | ReadTimeout => goto LTop st
  | ReadError => if rs_done st then close_requests st else goto LTop st
  | ReadDatagram d src =>
      let buf := take NACKSize d in
      if negb (bool_decide (length buf = NACKSize)) then goto LTop st
      else goto (LSend (MkRequest buf src)) st
  end.

(** [requests <- req]. *)
Definition enqueue (rq : nackRequest) (st : run_state) : run_state :=
  MkRun LTop (rs_queue st ++ [rq]) (rs_closed st) (rs_done st) (rs_workers st)
    (rs_accepted st ++ [rq]) (rs_taken st) (rs_store st).

Definition set_worker (i : nat) (x : worker_state) (st : run_state) : run_state :=
  MkRun (rs_loop st) (rs_queue st) (rs_closed st) (rs_done st) (<[i := x]> (rs_workers st))
    (rs_accepted st) (rs_taken st) (rs_store st).

(** A worker receives the first request of the channel. *)
Definition take_request (i : nat) (rq : nackRequest) (q : list nackRequest) (st : run_state)
    : run_state :=
  MkRun (rs_loop st) q (rs_closed st) (rs_done st) (<[i := WBusy (handle rq)]> (rs_workers st))
    (rs_accepted st) (rs_taken st ++ [rq]) (rs_store st).

Definition worker_action (i : nat) (x : worker_state) (w : W) (st : run_state) : run_state :=
  MkRun (rs_loop st) (rs_queue st) (rs_closed st) (rs_done st) (<[i := x]> (rs_workers st))
    (rs_accepted st) (rs_taken st) w.

(** [ctx] is cancelled. *)
Definition cancel (st : run_state) : run_state :=
  MkRun (rs_loop st) (rs_queue st) (rs_closed st) true (rs_workers st) (rs_accepted st)
    (rs_taken st) (rs_store st).

(** [Run] returns: the deferred [WorkerDone] runs. *)
Definition return_run (st : run_state) : run_state :=
  MkRun LReturned (rs_queue st) (rs_closed st) (rs_done st) (rs_workers st) (rs_accepted st)
    (rs_taken st) (worker_done (rs_store st)).

Inductive run_step : run_state → run_state → Prop :=
| rs_cancel st : rs_done st = false → run_step st (cancel st)
| rs_top_done st : rs_loop st = LTop → rs_done st = true → run_step st (close_requests st)
| rs_top_default st : rs_loop st = LTop → rs_done st = false → run_step st (goto LRead st)
| rs_read st ev : rs_loop st = LRead → run_step st (after_read ev st)
| rs_send st rq :
    rs_loop st = LSend rq → (length (rs_queue st) < queue_capacity)%nat → run_step st (enqueue rq st)
| rs_send_done st rq : rs_loop st = LSend rq → rs_done st = true → run_step st (close_requests st)
| rs_take st i rq q :
    rs_workers st !! i = Some WIdle → rs_queue st = rq :: q → run_step st (take_request i rq q st)
| rs_worker_done st i :
    rs_workers st !! i = Some WIdle → rs_done st = true → run_step st (set_worker i WGone st)
| rs_worker_closed st i :
    rs_workers st !! i = Some WIdle → rs_closed st = true → rs_queue st = [] →
    run_step st (set_worker i WGone st)
| rs_work st i X (f : atomic W X) (k : X → Prog W unit) :
    rs_workers st !! i = Some (WBusy (Atomic X f k)) →
    run_step st (worker_action i (WBusy (k (f (rs_store st)).1)) (f (rs_store st)).2 st)
| rs_finish st i u :
    rs_workers st !! i = Some (WBusy (Ret u)) → run_step st (set_worker i WIdle st)
| rs_return st :
    rs_loop st = LDrain → Forall (fun x => x = WGone) (rs_workers st) → run_step st (return_run st).

(** [Run] once the socket is open and [WorkerReady] has been called. *)
Definition run_start (workers : Z) (w : W) : run_state :=
  MkRun LTop [] false false (replicate (Z.to_nat workers) WIdle) [] [] w.

(** ** The channel *)

Record run_ok (st : run_state) : Prop := MkRunOk {
  ok_capacity : (length (rs_queue st) ≤ queue_capacity)%nat;
  ok_fifo : rs_accepted st = rs_taken st ++ rs_queue st;
  ok_size : Forall (fun rq => length (rq_data rq) = NACKSize) (rs_accepted st);
  ok_pending : ∀ rq, rs_loop st = LSend rq → length (rq_data rq) = NACKSize;
  ok_closed : rs_closed st = true → rs_loop st = LDrain ∨ rs_loop st = LReturned;
  ok_returned : rs_loop st = LReturned → Forall (fun x => x = WGone) (rs_workers st);
  ok_drain : rs_loop st = LDrain ∨ rs_loop st = LReturned → rs_closed st = true ∧ rs_done st = true;
}.

(** Prove the fields of [run_ok] of an explicit state. *)
Ltac ok_fields := constructor; cbn in *; intros; destruct_or?; try congruence; auto.

Lemma run_start_ok workers w : run_ok (run_start workers w).
Proof. ok_fields. lia. Qed.

Lemma ok_open st : run_ok st → rs_loop st ≠ LDrain → rs_loop st ≠ LReturned → rs_closed st = false.
Proof. intros Hok H1 H2. destruct (rs_closed st) eqn:Hc; [|done]. by destruct (ok_closed st Hok Hc). Qed.

Lemma after_read_ok ev st : rs_loop st = LRead → run_ok st → run_ok (after_read ev st).
Proof.
  intros Hl Hok. assert (rs_closed st = false) as Hc by (apply ok_open; congruence).
  destruct Hok as [H1 H2 H3 H4 H5 H6 H7]. destruct ev as [| |d src]; cbn [after_read].
  - ok_fields.
  - destruct (rs_done st) eqn:Hd; ok_fields.
  - case_bool_decide as Hn; cbn [negb]; ok_fields. simplify_eq. exact Hn.
Qed.

Lemma all_gone_insert (l : list worker_state) i x y :
  Forall (fun z => z = WGone) l → l !! i = Some x → x ≠ WGone → Forall (fun z => z = WGone) (<[i := y]> l).
Proof. intros Hl Hi Hx. by destruct Hx; apply (proj1 (Forall_lookup _ _) Hl i). Qed.

Lemma run_step_ok st st' : run_step st st' → run_ok st → run_ok st'.
Proof.
  intros Hs Hok. destruct Hs as [st Hd|st Hl Hd|st Hl Hd|st ev Hl|st rq Hl Hq|st rq Hl Hd|st i rq q Hi Hq
    |st i Hi Hd|st i Hi Hc Hq|st i X f k Hi|st i u Hi|st Hl Hg].
  4: by apply after_read_ok.
  - destruct Hok as [H1 H2 H3 H4 H5 H6 H7]. ok_fields; naive_solver.
  - destruct Hok as [H1 H2 H3 H4 H5 H6 H7]. ok_fields.
  - assert (rs_closed st = false) as Hc by (apply ok_open; congruence).
    destruct Hok as [H1 H2 H3 H4 H5 H6 H7]. ok_fields.
  - assert (rs_closed st = false) as Hc by (apply ok_open; congruence).
    destruct Hok as [H1 H2 H3 H4 H5 H6 H7]. ok_fields.
    + rewrite length_app. simpl. lia.
    + rewrite H2. by rewrite (assoc (++)).
    + apply Forall_app. auto.
  - destruct Hok as [H1 H2 H3 H4 H5 H6 H7]. ok_fields.
  - destruct Hok as [H1 H2 H3 H4 H5 H6 H7]. rewrite Hq in *. ok_fields.
    + lia.
    + rewrite H2. by rewrite <- (assoc (++)).
    + by eapply all_gone_insert; eauto.
  - destruct Hok as [H1 H2 H3 H4 H5 H6 H7]. ok_fields. by eapply all_gone_insert; eauto.
  - destruct Hok as [H1 H2 H3 H4 H5 H6 H7]. ok_fields. by eapply all_gone_insert; eauto.
  - destruct Hok as [H1 H2 H3 H4 H5 H6 H7]. ok_fields. by eapply all_gone_insert; eauto.
  - destruct Hok as [H1 H2 H3 H4 H5 H6 H7]. ok_fields. by eapply all_gone_insert; eauto.
  - destruct Hok as [H1 H2 H3 H4 H5 H6 H7]. ok_fields.
Qed.

Lemma run_reachable_ok st st' : rtc run_step st st' → run_ok st → run_ok st'.
Proof. induction 1; eauto using run_step_ok. Qed.

(** C13: no request is lost, duplicated or reordered.  In every state the
    server reaches, the channel holds at most 100 requests, and the requests
    put on it are exactly those the workers have taken, in order, followed by
    those still queued; each has exactly 64 bytes.  The channel is never sent
    on after it is closed, and when [Run] has returned every worker is gone. *)
Theorem channel_conserves_requests (workers : Z) (w : W) (st : run_state) :
  rtc run_step (run_start workers w) st →
  (length (rs_queue st) ≤ queue_capacity)%nat ∧
  rs_accepted st = rs_taken st ++ rs_queue st ∧
  Forall (fun rq => length (rq_data rq) = NACKSize) (rs_accepted st) ∧
  (∀ rq, rs_loop st = LSend rq → rs_closed st = false) ∧
  (rs_loop st = LReturned → Forall (fun x => x = WGone) (rs_workers st)).
Proof.
  intros Hr. pose proof (run_reachable_ok _ _ Hr (run_start_ok workers w)) as Hok.
  split_and!; try apply Hok. intros rq Hl. apply ok_open; congruence.
Qed.

(** ** Shutdown *)

(** How far the loop is from returning, once the context is cancelled. *)
Definition loop_rank (l : loop_state) : nat :=
  match l with LRead => 4 | LSend _ => 3 | LTop => 2 | LDrain => 1 | LReturned => 0 end.

(** One worker gets closer to being gone. *)
Definition worker_lt (x y : worker_state) : Prop :=
  match y with
  | WIdle => x = WGone
  | WBusy (Ret _) => x = WIdle
  | WBusy (Atomic X f k) => ∃ v, x = WBusy (k v)
  | _ => False
  end.

Definition workers_lt (l' l : list worker_state) : Prop :=
  ∃ i x y, l !! i = Some y ∧ worker_lt x y ∧ l' = <[i := x]> l.

Lemma worker_lt_wf x : Acc worker_lt x.
Proof.
  assert (Acc worker_lt WGone) as Hgone by (constructor; by intros y Hy).
  assert (Acc worker_lt WIdle) as Hidle by (constructor; by intros y ->).
  destruct x as [|body|]; [done| |done].
  induction body as [u| |X f k IH]; constructor; intros y Hy; cbn in Hy;
    [by subst|done|destruct Hy as [v ->]; apply IH].
Qed.

Lemma workers_lt_cons x l : Acc worker_lt x → Acc workers_lt l → Acc workers_lt (x :: l).
Proof.
  intros Hx. revert l. induction Hx as [x _ IHx]. intros l Hl. induction Hl as [l Hl IHl].
  constructor. intros l' (i & a & b & Hi & Hab & ->).
  destruct i as [|i]; cbn in *; simplify_eq.
  - apply IHx; [done|]. by constructor.
  - apply IHl. by exists i, a, b.
Qed.

Lemma workers_lt_wf l : Acc workers_lt l.
Proof.
  induction l as [|x l IH]; [|apply workers_lt_cons; auto using worker_lt_wf].
  constructor. by intros l' (i & a & b & Hi & _).
Qed.

(** What is left to do: of the loop, in the channel, by the workers. *)
Definition remaining (st : run_state) : nat * nat * list worker_state :=
  (loop_rank (rs_loop st), length (rs_queue st), rs_workers st).

Definition remaining_lt (x y : nat * nat * list worker_state) : Prop :=
  (x.1.1 < y.1.1)%nat ∨
  (x.1.1 = y.1.1 ∧ ((x.1.2 < y.1.2)%nat ∨ (x.1.2 = y.1.2 ∧ workers_lt x.2 y.2))).

Lemma remaining_wf x : Acc remaining_lt x.
Proof.
  destruct x as [[n q] l]. revert q l. induction n as [n IHn] using lt_wf_ind. intros q.
  induction q as [q IHq] using lt_wf_ind. intros l. induction (workers_lt_wf l) as [l _ IHl].
  constructor. intros [[n' q'] l'] [Hlt|[Heq [Hlt|[Heq' Hw]]]]; cbn in *; subst; auto.
Qed.

(** Every step after cancellation brings the loop closer to its end, or
    shortens the channel, or brings a worker closer to its end. *)
Lemma run_step_decreases st st' :
  run_step st st' → rs_done st = true →
  rs_done st' = true ∧ remaining_lt (remaining st') (remaining st).
Proof.
  intros Hs Hdone. unfold remaining_lt, remaining. cbn [fst snd].
  destruct Hs as [st Hd|st Hl Hd|st Hl Hd|st ev Hl|st rq Hl Hq|st rq Hl Hd|st i rq q Hi Hq
    |st i Hi Hd|st i Hi Hc Hq|st i X f k Hi|st i u Hi|st Hl Hg]; try congruence.
  5: split; [done|]; right; split; [done|]; left; cbn; rewrite Hq; simpl; lia.
  5-8: split; [done|]; right; split; [done|]; right; split; [done|]; cbn;
    eexists i, _, _; split_and!; [exact Hi|cbn; eauto|reflexivity].
  all: try (split; [done|]; left; cbn; rewrite Hl; simpl; lia).
  destruct ev as [| |d src]; cbn [after_read]; rewrite ?Hdone; [..|case_bool_decide];
    (split; [done|]; left; cbn; rewrite Hl; simpl; lia).
Qed.

Lemma run_sn st : rs_done st = true → sn run_step st.
Proof.
  remember (remaining st) as x eqn:Hx. revert st Hx. induction (remaining_wf x) as [x _ IH].
  intros st Hx Hd. constructor. intros st' Hs. cbn in Hs.
  destruct (run_step_decreases st st' Hs Hd) as [Hd' Hlt].
  eapply IH; [|reflexivity|done]. by rewrite Hx.
Qed.

Lemma all_gone_or (l : list worker_state) :
  Forall (fun x => x = WGone) l ∨ ∃ i x, l !! i = Some x ∧ x ≠ WGone.
Proof.
  induction l as [|x l IH]; [by left|]. destruct x as [|body|].
  - right. by exists 0%nat, WIdle.
  - right. by exists 0%nat, (WBusy body).
  - destruct IH as [Hg|(i & x & Hi & Hx)]; [left; by constructor|right; by exists (S i), x].
Qed.

(** After cancellation the server can always move on until [Run] returns,
    unless a worker has panicked. *)
Lemma run_progress st :
  rs_done st = true → nf run_step st →
  rs_loop st = LReturned ∨ ∃ i, rs_workers st !! i = Some (WBusy Panic).
Proof.
  intros Hd Hnf. destruct (rs_loop st) as [| |rq| |] eqn:Hl; [..|by left].
  - destruct Hnf. eexists. by apply rs_top_done.
  - destruct Hnf. eexists. by apply (rs_read st ReadTimeout).
  - destruct Hnf. eexists. by eapply rs_send_done.
  - destruct (all_gone_or (rs_workers st)) as [Hg|(i & x & Hi & Hx)].
    { destruct Hnf. eexists. by apply rs_return. }
    destruct x as [|[u| |X f k]|]; [..|done].
    + destruct Hnf. eexists. by apply (rs_worker_done st i).
    + destruct Hnf. eexists. by apply (rs_finish st i u).
    + right. by exists i.
    + destruct Hnf. eexists. by apply (rs_work st i X f k).
Qed.

Lemma run_done_stays st st' : rtc run_step st st' → rs_done st = true → rs_done st' = true.
Proof.
  induction 1 as [|st1 st2 st3 Hs _ IH]; [done|]. intros Hd. apply IH.
  by apply (run_step_decreases st1 st2 Hs Hd).
Qed.

(** Graceful shutdown terminates.  Once the context is cancelled, in
    whatever state the loop, the channel and the workers are, the server
    makes only finitely many further steps however they are scheduled, and it
    stops only when [Run] has returned, or a worker has panicked. *)
Lemma shutdown_terminates (st : run_state) :
  rs_done st = true →
  sn run_step st ∧
  ∀ st', rtc run_step st st' → nf run_step st' →
    rs_loop st' = LReturned ∨ ∃ i, rs_workers st' !! i = Some (WBusy Panic).
Proof.
  intros Hd. split; [by apply run_sn|]. intros st' Hr Hnf. apply run_progress; [|done].
  by eapply run_done_stays.
Qed.

(** ** Invariants of the shared store *)

Definition worker_preserves (np : bool) (I : W → Prop) (x : worker_state) : Prop :=
  match x with WBusy body => preserves np I body | _ => True end.

(** What every request's body preserves, the server preserves. *)
Lemma run_step_preserves (np : bool) (I : W → Prop) st st' :
  (∀ rq, preserves np I (handle rq)) → (∀ w, I w → I (worker_done w)) → run_step st st' →
  I (rs_store st) ∧ Forall (worker_preserves np I) (rs_workers st) →
  I (rs_store st') ∧ Forall (worker_preserves np I) (rs_workers st').
Proof.
  intros Hh Hd Hs [HI Hw]. destruct Hs as [st Hdn|st Hl Hdn|st Hl Hdn|st ev Hl|st rq Hl Hq|st rq Hl Hdn
    |st i rq q Hi Hq|st i Hi Hdn|st i Hi Hc Hq|st i X f k Hi|st i u Hi|st Hl Hg];
    cbn; try by auto.
  - by destruct ev as [| |d src]; cbn [after_read]; [|destruct (rs_done st)|destruct (negb _)].
  - split; [done|]. apply Forall_insert; cbn; auto.
  - split; [done|]. by apply Forall_insert.
  - split; [done|]. by apply Forall_insert.
  - destruct (proj1 (Forall_lookup _ _) Hw i _ Hi (rs_store st) HI) as [Hf Hk].
    split; [done|]. by apply Forall_insert.
  - split; [done|]. by apply Forall_insert.
Qed.
End pool.

Arguments run_state W : clear implicits.
Arguments worker_state W : clear implicits.

(** The server of the program: requests are processed by [processNACK]. *)
Section server.
Context {RL : RateLib} {FL : FrameLib} {SH : ShardLib} {C E : Type} `{!Backend C E}.

Definition server_handle (s : Server) (rq : nackRequest) : Prog (World C) unit :=
  processNACK s (rq_data rq) (rq_src rq).

Definition server_step (s : Server) : run_state (World C) → run_state (World C) → Prop :=
  run_step (server_handle s) (update_rec rec_WorkerDone).

(** [Run]: an error when the socket cannot be opened. *)
Definition server_Run (s : Server) (listen : option E) (w : World C) : result (run_state (World C)) E :=
  match listen with
  | Some e => Err e
  | None => Ok (run_start (sv_workers s) (update_rec rec_WorkerReady w))
  end.
End server.
