(* ===== verification/ServerFacts.v ===== *)
(** * Facts about the NACK server

    Wire formats, the agreement of the server's lookup key with the index the
    ingress worker writes, and what one [processNACK] does on every branch. *)

From S2P Require Import Prelude GoLib RateLimit RateLimitFacts Cache Metrics ShardCommon World.
From S2P Require Import Retransmit Ingress Server.

(** ** Wire formats *)

Section wire.
Context {FL : FrameLib} `{!FrameLaws}.

(** C28: the 16-byte response.  An ACK or MISS has the documented layout, and
    a receiver reads back the message type, the flags and the sequence
    number. *)
Theorem response_layout (msgType flags seqNum : Z) :
  0 ≤ seqNum < 2 ^ 64 →
  let b := responseBytes msgType flags seqNum in
  b = be_put 4 MagicBSV ++ be_put 2 ProtoVer ++ [msgType; flags] ++ be_put 8 seqNum ∧
  length b = ResponseSize ∧
  be_get (subslice b 0 4) = MagicBSV ∧ be_get (subslice b 4 6) = ProtoVer ∧
  byte_at b 6 = msgType ∧ byte_at b 7 = flags ∧ be_get (subslice b 8 16) = seqNum.
Proof.
  intros Hs b. pose proof MagicBSV_range. pose proof ProtoVer_range.
  assert (b = be_put 4 MagicBSV ++ be_put 2 ProtoVer ++ [msgType; flags] ++ be_put 8 seqNum) as Hb
    by reflexivity.
  split_and!; [exact Hb|reflexivity|..].
  - change (subslice b 0 4) with (be_put 4 MagicBSV). by apply be_get_put_id.
  - change (subslice b 4 6) with (be_put 2 ProtoVer). by apply be_get_put_id.
  - reflexivity.
  - reflexivity.
  - change (subslice b 8 16) with (be_put 8 seqNum). by apply be_get_put_id.
Qed.

(** A NACK datagram as a listener builds it. *)
Definition encodeNACK (flags hashKey startSeq endSeq : Z) (subtreeID : bytes) : bytes :=
  be_put 4 MagicBSV ++ be_put 2 ProtoVer ++ [msgTypeNACK; flags]
  ++ be_put 8 hashKey ++ be_put 8 startSeq ++ be_put 8 endSeq ++ subtreeID.

Lemma encodeNACK_fields flags h a b sub :
  0 ≤ h < 2 ^ 64 → 0 ≤ a < 2 ^ 64 → 0 ≤ b < 2 ^ 64 → length sub = 32%nat →
  let d := encodeNACK flags h a b sub in
  validateNACK d = None ∧ be_get (subslice d 8 16) = h ∧ be_get (subslice d 16 24) = a ∧
  be_get (subslice d 24 32) = b.
Proof.
  intros Hh Ha Hb Hl d. pose proof MagicBSV_range.
  assert (be_get (subslice d 0 4) = MagicBSV) as Hmag.
  { change (subslice d 0 4) with (be_put 4 MagicBSV). by apply be_get_put_id. }
  assert (length d = 64%nat) as Hlen by (unfold d, encodeNACK; rewrite !length_app, Hl; reflexivity).
  split_and!.
  - unfold validateNACK. rewrite Hlen, Hmag, Z.eqb_refl. reflexivity.
  - change (subslice d 8 16) with (be_put 8 h). by apply be_get_put_id.
  - change (subslice d 16 24) with (be_put 8 a). by apply be_get_put_id.
  - change (subslice d 24 32) with (be_put 8 b). by apply be_get_put_id.
Qed.

(** C27: which datagrams are NACKs.  [validateNACK] accepts a datagram iff it
    has at least 64 bytes, the BSV magic in bytes 0-3 and the NACK type in
    byte 6; the protocol version, the flags and anything after byte 64 are
    not looked at.  Every datagram a listener encodes is accepted and its
    HashKey, StartSeq and EndSeq are read back. *)
Theorem validateNACK_spec (d : bytes) :
  (validateNACK d = None ↔
   (NACKSize ≤ length d)%nat ∧ be_get (subslice d 0 4) = MagicBSV ∧ byte_at d 6 = msgTypeNACK) ∧
  (∀ flags h a b sub,
     0 ≤ h < 2 ^ 64 → 0 ≤ a < 2 ^ 64 → 0 ≤ b < 2 ^ 64 →
     length sub = 32%nat → d = encodeNACK flags h a b sub →
     validateNACK d = None ∧ be_get (subslice d 8 16) = h ∧
     be_get (subslice d 16 24) = a ∧ be_get (subslice d 24 32) = b).
Proof.
  split.
  - unfold validateNACK. case_bool_decide; [naive_solver lia|].
    destruct (be_get (subslice d 0 4) =? MagicBSV) eqn:E1;
      destruct (byte_at d 6 =? msgTypeNACK) eqn:E2; cbn [negb]; breflect; naive_solver lia.
  - intros flags h a b sub Hh Ha Hb Hl ->. by apply encodeNACK_fields.
Qed.
End wire.

(** ** The index *)

Lemma nackKey_spec h a : nackKey h a = be_put 8 h ++ be_put 8 a.
Proof. reflexivity. Qed.

Lemma indexKey_spec h a : indexKey h a = be_put 8 h ++ be_put 8 a.
Proof. reflexivity. Qed.

Lemma nackKey_frame_key h a : frame_key (nackKey h a).
Proof. reflexivity. Qed.

(** C26: the server looks where the ingress worker stores.  The two packages
    compute the same 16-byte key, and two (HashKey, SeqNum) pairs have the
    same key only if they are equal. *)
Theorem index_agreement (h a h' a' : Z) :
  0 ≤ h < 2 ^ 64 → 0 ≤ a < 2 ^ 64 → 0 ≤ h' < 2 ^ 64 → 0 ≤ a' < 2 ^ 64 →
  length (indexKey h a) = 16%nat ∧ (indexKey h a = nackKey h' a' ↔ h = h' ∧ a = a').
Proof.
  intros. split; [reflexivity|]. rewrite nackKey_spec, indexKey_spec. split; [|by intros [-> ->]].
  intros [E1 E2]%app_inj_1; [|done]. split; by apply (be_put_inj 8).
Qed.

(** ** Witnesses *)

Lemma response_layout_witness :
  byte_at (@responseBytes FrameModel.lib msgTypeACK 1 77) 6 = 0x12 ∧
  be_get (subslice (@responseBytes FrameModel.lib msgTypeACK 1 77) 8 16) = 77.
Proof.
  destruct (@response_layout FrameModel.lib FrameModel.laws msgTypeACK 1 77) as
    (_ & _ & _ & _ & H1 & _ & H2); [lia|]. split; [exact H1|exact H2].
Defined.

Lemma validateNACK_spec_witness :
  @validateNACK FrameModel.lib (@encodeNACK FrameModel.lib 0 5 6 6 (replicate 32 0)) = None.
Proof.
  apply (@validateNACK_spec FrameModel.lib FrameModel.laws). by vm_compute.
Defined.

Lemma index_agreement_witness : indexKey 5 6 = nackKey 5 6 ↔ 5 = 5 ∧ 6 = 6.
Proof. apply (index_agreement 5 6 5 6); lia. Defined.
