(* ===== verification/NackFacts.v ===== *)
(** * What processing one NACK does

    Soundness: whatever the limiter answers, the datagrams [processNACK] sends
    are determined by what the cache holds.  Completeness: when the tiers
    admit the request and the frame is cached, it is retransmitted on every
    egress interface and acknowledged. *)

From S2P Require Import Prelude GoLib RateLimit RateLimitFacts Cache Metrics ShardCommon World.
From S2P Require Import Retransmit Ingress Server ServerFacts.

Section facts.
Context {RL : RateLib} {FL : FrameLib} {SH : ShardLib} {C E : Type}
  `{!Backend C E, !BackendSpec C E, !BackendLaws C E}.
Implicit Types w : World C.

(** ** Actions that only touch the limiter, the recorder and the clock *)

Record quiet (w w' : World C) : Prop := MkQuiet {
  q_env : w_env w' = w_env w;
  q_writes : w_writes w' = w_writes w;
  q_picks : w_picks w' = w_picks w;
  q_heap : w_heap w' = w_heap w;
  q_cache : w_cache w' = w_cache w;
  q_sockets : w_sockets w' = w_sockets w;
  q_sent : w_sent w' = w_sent w;
  q_reads : (w_reads w ≤ w_reads w')%nat;
}.

#[export] Instance quiet_preorder : PreOrder quiet.
Proof.
  split.
  - intros w. by constructor.
  - intros w1 w2 w3 [] []. constructor; try congruence; lia.
Qed.

Lemma quiet_time_now w : quiet w (time_now w).2.
Proof. constructor; cbn; auto. Qed.

Lemma quiet_update_rec f w : quiet w (update_rec f w).
Proof. by constructor. Qed.

Lemma quiet_zoom {T X : Type} (l : lens Limiter T) (f : atomic T X) w :
  quiet w (zoom (lens_comp limiter_lens l) f w).2.
Proof. by constructor. Qed.

Lemma quiet_read s w : quiet w (read_slice s w).2.
Proof. by constructor. Qed.

Lemma steps_with_rec f : steps quiet (@with_rec RL C f).
Proof. apply steps_modify, quiet_update_rec. Qed.

Lemma steps_tokenBucket (l : lens Limiter tokenBucketLimiter) key :
  steps quiet (tokenBucketLimiter_Allow (W := World C) time_now (lens_comp limiter_lens l) key).
Proof.
  unfold tokenBucketLimiter_Allow. solve_steps; intros w; auto using quiet_time_now, quiet_zoom.
Qed.

Lemma steps_sliding (l : lens Limiter slidingWindowLimiter) key :
  steps quiet (slidingWindowLimiter_Allow (W := World C) time_now (lens_comp limiter_lens l) key).
Proof.
  unfold slidingWindowLimiter_Allow. solve_steps; intros w; auto using quiet_time_now, quiet_zoom.
Qed.

Lemma steps_sequence (l : lens Limiter sequenceLimiter) key :
  steps quiet (sequenceLimiter_Allow (W := World C) time_now (lens_comp limiter_lens l) key).
Proof.
  unfold sequenceLimiter_Allow. solve_steps; intros w; auto using quiet_time_now, quiet_zoom.
Qed.

Lemma steps_Allow ip seq : steps quiet (Allow (W := World C) time_now limiter_lens ip seq).
Proof.
  unfold Allow. apply steps_bind; [apply steps_tokenBucket|intros ok].
  destruct ok; [|apply steps_mret]. apply steps_bind; [apply steps_sequence|intros ok].
  by destruct ok.
Qed.

Lemma steps_AllowChain ip h : steps quiet (AllowChain (W := World C) time_now limiter_lens ip h).
Proof. unfold AllowChain. destruct (h =? 0); [apply steps_mret|apply steps_sliding]. Qed.

Lemma steps_AllowGroup ip g : steps quiet (AllowGroup (W := World C) time_now limiter_lens ip g).
Proof. apply steps_tokenBucket. Qed.

(** ** The egress loop *)

Definition frames (dst : UDPAddr) (bs : bytes) (names : list bytes) : list Sent :=
  (fun n => SentFrame n dst bs) <$> names.

Lemma egress_loop_spec order dst raw w :
  let '(ok, w') := egress_loop order dst raw w in
  w_heap w' = w_heap w ∧ w_env w' = w_env w ∧ w_sockets w' = w_sockets w ∧
  w_cache w' = w_cache w ∧ (w_writes w ≤ w_writes w')%nat ∧ w_reads w' = w_reads w ∧
  ∃ names, names `prefix_of` order ∧ (ok = true → names = order) ∧
    w_sent w' = w_sent w ++ frames dst (contents (w_heap w) raw) names.
Proof.
  revert w. induction order as [|name order IH]; intros w; cbn [egress_loop].
  - split_and!; try done. exists []. split_and!; try done. by rewrite app_nil_r.
  - destruct (net_send _ w) as [ok w1] eqn:Hs. unfold net_send in Hs. injection Hs as <- <-.
    destruct (env_write _ _) eqn:Hok.
    + match goal with |- context [egress_loop order dst raw ?x] => specialize (IH x) end.
      destruct (egress_loop _ _ _ _) as [ok w'].
      destruct IH as (H1 & H2 & H3 & H4 & H5 & H6 & names & Hpre & Hall & Hsent).
      cbn in *. split_and!; try done; [lia|]. exists (name :: names).
      split_and!; [by apply prefix_cons|intros H; by rewrite (Hall H)|].
      rewrite Hsent. by rewrite <- (assoc (++)).
    + cbn. split_and!; try done; [lia|]. exists []. split_and!; [apply prefix_nil|done|].
      by rewrite app_nil_r.
Qed.

Definition socket_names w : list bytes := (map_to_list (w_sockets w)).*1.

Lemma egress_all_spec dst raw w :
  let '(ok, w') := egress_all dst raw w in
  w_heap w' = w_heap w ∧ w_env w' = w_env w ∧ w_cache w' = w_cache w ∧
  (w_writes w ≤ w_writes w')%nat ∧ w_reads w' = w_reads w ∧
  ∃ names rest, names ++ rest ≡ₚ socket_names w ∧ (ok = true → rest = []) ∧
    w_sent w' = w_sent w ++ frames dst (contents (w_heap w) raw) names.
Proof.
  unfold egress_all. destruct (map_choice w) as [seed w1] eqn:Hc. unfold map_choice in Hc.
  injection Hc as <- <-.
  match goal with |- context [egress_loop ?o dst raw ?x] =>
    set (order := o); pose proof (egress_loop_spec order dst raw x) as Hl;
    destruct (egress_loop order dst raw x) as [ok w'] end.
  destruct Hl as (H1 & H2 & _ & H3 & H4 & H5 & names & [rest Hrest] & Hall & Hsent).
  cbn in *. split_and!; try done. exists names, rest. split_and!; [|intros Hok|done].
  - rewrite <- Hrest. apply shuffle_perm.
  - specialize (Hall Hok). rewrite Hall in Hrest.
    apply (f_equal length) in Hrest. rewrite length_app in Hrest.
    destruct rest; [done|]. simpl in Hrest. lia.
Qed.

(** ** Retransmit *)

(** What [Retransmit] may have done: sent the frame, verbatim, to its group on
    some of the interfaces. *)
Definition retransmitted (r : Retransmitter) raw txID w w' : Prop :=
  w_heap w' = w_heap w ∧ w_env w' = w_env w ∧
  ∃ names rest, names ++ rest ≡ₚ socket_names w ∧
    w_sent w' = w_sent w ++
      frames (egressGroup r (contents (w_heap w) raw) txID) (contents (w_heap w) raw) names.

Lemma run_retransmit_send r raw txID w :
  ∃ ok, (run (retransmit_send r raw txID) w).1 = Some ok ∧
        retransmitted r raw txID w (run (retransmit_send r raw txID) w).2.
Proof.
  unfold retransmit_send. rewrite run_bind, run_perform. cbn [read_slice fst snd].
  rewrite run_perform. pose proof (egress_all_spec (egressGroup r (contents (w_heap w) raw) txID) raw w) as H.
  destruct (egress_all _ _ _) as [ok w']. exists ok. split; [done|].
  destruct H as (H1 & H2 & _ & _ & _ & names & rest & Hn & _ & Hs). split_and!; try done.
  by exists names, rest.
Qed.

Lemma run_Retransmit r raw txID w :
  ∃ ok, (run (Retransmit r raw txID) w).1 = Some ok ∧
        retransmitted r raw txID w (run (Retransmit r raw txID) w).2.
Proof.
  unfold Retransmit. destruct cb_SetNX as [setnx|]; [|apply run_retransmit_send].
  rewrite run_bind, run_perform. cbn [read_slice fst snd]. cbv zeta.
  case_bool_decide; [|apply run_retransmit_send].
  rewrite run_bind, run_perform, gate_SetNX_eq. cbv zeta. cbn [fst snd].
  destruct (setnx _ _ _ _ _) as [[[] e] c']; cbn [fst snd negb].
  - match goal with |- context [run (retransmit_send _ _ _) ?x] =>
      destruct (run_retransmit_send r raw txID x) as (ok & Hr & H1 & H2 & H3) end.
    exists ok. split; [done|]. done.
  - exists true. split; [done|]. split_and!; try done.
    exists [], (socket_names w). split; [done|]. cbn. by rewrite app_nil_r.
Qed.

(** ** Responses *)

Lemma run_sendResponse a ty fl seq w :
  let w' := (run (sendResponse a ty fl seq) w).2 in
  (run (sendResponse a ty fl seq) w).1 = Some tt ∧
  (w_sent w' = w_sent w ∨ w_sent w' = w_sent w ++ [SentResponse a (responseBytes ty fl seq)]).
Proof.
  unfold sendResponse. rewrite run_bind, run_perform. unfold net_send.
  destruct (env_write _ _); cbn; auto.
Qed.

(** The responses the requester may have been sent: none, or the ACK. *)
Definition acks_for (s : Server) (src : option UDPAddr) (seq : Z) (acks : list Sent) : Prop :=
  acks = [] ∨ ∃ a, src = Some a ∧ sv_suppressACK s = false ∧
    acks = [SentResponse a (responseBytes msgTypeACK 1 seq)].

(** Frames on some of the interfaces, then perhaps an ACK. *)
Definition served (s : Server) (src : option UDPAddr) (bs : bytes) (seq : Z) w w' : Prop :=
  ∃ names rest acks,
    names ++ rest ≡ₚ socket_names w ∧ acks_for s src seq acks ∧
    w_sent w' = w_sent w ++
      frames (egressGroup (sv_retransmit s) bs (frameTxID bs)) bs names ++ acks.

Lemma run_final_ack s src seq w :
  let m : Prog (World C) unit :=
    match src with
    | Some a => if negb (sv_suppressACK s) then sendResponse a msgTypeACK 1 seq else mret tt
    | None => mret tt
    end in
  (run m w).1 = Some tt ∧ ∃ acks, acks_for s src seq acks ∧ w_sent (run m w).2 = w_sent w ++ acks.
Proof.
  cbv zeta. unfold acks_for.
  destruct src as [a|]; [|split; [done|]; exists []; rewrite app_nil_r; auto].
  destruct (sv_suppressACK s) eqn:Hs; cbn [negb];
    [split; [done|]; exists []; rewrite app_nil_r; auto|].
  destruct (run_sendResponse a msgTypeACK 1 seq w) as [Hr [Hw|Hw]]; split; auto; rewrite Hw.
  - exists []. rewrite app_nil_r. auto.
  - eauto 10.
Qed.

Lemma run_retransmitAndAck s src raw txID throttled seq w :
  txID = frameTxID (contents (w_heap w) raw) →
  (run (retransmitAndAck s src raw txID throttled seq) w).1 = Some tt ∧
  served s src (contents (w_heap w) raw) seq w
    (run (retransmitAndAck s src raw txID throttled seq) w).2 ∧
  (throttled = true → ∃ acks, acks_for s src seq acks ∧
     w_sent (run (retransmitAndAck s src raw txID throttled seq) w).2 = w_sent w ++ acks).
Proof.
  intros ->. unfold retransmitAndAck, served. rewrite run_bind. destruct throttled.
  - rewrite run_ret. cbn [negb].
    destruct (run_final_ack s src seq w) as [Hr (acks & Ha & Hs)].
    split_and!; [exact Hr| |eauto]. exists [], (socket_names w), acks. split_and!; auto.
  - rewrite run_bind.
    destruct (run_Retransmit (sv_retransmit s) raw (frameTxID (contents (w_heap w) raw)) w)
      as (ok & Hok & _ & _ & names & rest & Hn & Hs).
    destruct (run (Retransmit _ _ _) w) as [o w1]. cbn [fst snd] in *. subst o.
    destruct ok.
    + cbn [negb run with_rec modify perform mret prog_mret mbind prog_mbind prog_bind fst snd].
      match goal with |- context [run _ (update_rec rec_Retransmit w1)] =>
        destruct (run_final_ack s src seq (update_rec rec_Retransmit w1)) as [Hr (acks & Ha & Hs')] end.
      split_and!; [exact Hr| |done]. exists names, rest, acks. split_and!; auto.
      etrans; [exact Hs'|]. cbn. rewrite Hs. by rewrite (assoc (++)).
    + cbn. split_and!; [done| |done]. exists names, rest, []. split_and!; [done|by left|].
      by rewrite app_nil_r.
Qed.

Lemma served_quiet s src bs seq w w1 w2 :
  quiet w w1 → served s src bs seq w1 w2 → served s src bs seq w w2.
Proof.
  intros Hq (names & rest & acks & Hn & Ha & Hs). exists names, rest, acks.
  unfold socket_names in *. rewrite (q_sockets _ _ Hq) in Hn. rewrite (q_sent _ _ Hq) in Hs. done.
Qed.

(** The group tier of [serveHit]. *)
Definition groupTier (s : Server) (srcIP txID : bytes) : Prog (World C) bool :=
  match sv_shardEngine s with
  | None => mret false
  | Some e =>
      ok ← AllowGroup time_now limiter_lens srcIP (GroupIndex e txID);
      if negb ok then _ ← with_rec (rec_RateLimitDrop LevelGroup); mret true else mret false
  end.

Lemma steps_groupTier s ip txID : steps quiet (groupTier s ip txID).
Proof.
  unfold groupTier. destruct (sv_shardEngine s); [|apply steps_mret].
  apply steps_bind; [apply steps_AllowGroup|intros ok]. destruct ok; cbn [negb]; [apply steps_mret|].
  apply steps_bind; [apply steps_with_rec|intros _; apply steps_mret].
Qed.

Lemma run_serveHit s src ip raw seq w :
  served s src (contents (w_heap w) raw) seq w (run (serveHit s src ip raw seq) w).2.
Proof.
  unfold serveHit. fold (groupTier s ip (frameTxID (contents (w_heap w) raw))).
  rewrite run_bind. cbn [run with_rec modify perform fst snd].
  rewrite run_bind, run_perform. cbn [read_slice fst snd]. cbv zeta.
  change (contents (w_heap (update_rec rec_CacheHit w)) raw) with (contents (w_heap w) raw).
  set (w0 := update_rec rec_CacheHit w).
  fold (groupTier s ip (frameTxID (contents (w_heap w) raw))). rewrite run_bind.
  pose proof (run_steps quiet (groupTier s ip (frameTxID (contents (w_heap w) raw))) w0
    (steps_groupTier s ip _)) as Hq.
  assert (quiet w w0) as Hq0 by apply quiet_update_rec.
  destruct (run (groupTier _ _ _) w0) as [[throttled|] w1]; cbn [snd] in Hq.
  - assert (contents (w_heap w) raw = contents (w_heap w1) raw) as Hc
      by (by rewrite (q_heap _ _ Hq), (q_heap _ _ Hq0)).
    rewrite Hc. eapply served_quiet; [by etrans|].
    by apply run_retransmitAndAck.
  - exists [], (socket_names w), []. split_and!; [done|by left|]. cbn.
    rewrite (q_sent _ _ Hq), (q_sent _ _ Hq0). by rewrite app_nil_r.
Qed.

(** ** Soundness *)

(** The single-frame request a datagram makes. *)
Definition nack_hash (d : bytes) : Z := be_get (subslice d 8 16).

Definition nack_seq (d : bytes) : Z := be_get (subslice d 16 24).

Definition single_request (d : bytes) : Prop :=
  validateNACK d = None ∧ be_get (subslice d 24 32) = nack_seq d.

(** What the lookup of [processNACK] found, and what was sent then. *)
Definition answered (s : Server) (d : bytes) (src : option UDPAddr) w w' : Prop :=
  ∃ n, (w_reads w ≤ n)%nat ∧
    match cb_view (w_heap w) (w_cache w) (env_clock (w_env w) n) (nackKey (nack_hash d) (nack_seq d)) with
    | None => ∃ a, src = Some a ∧ sv_suppressMISS s = false ∧
        w_sent w' = w_sent w ++ [SentResponse a (responseBytes msgTypeMISS 0 0)]
    | Some bs => served s src bs (nack_seq d) w w'
    end.

(** The part of [processNACK] after the pre-lookup tiers. *)
Definition lookupAndServe (s : Server) (src : option UDPAddr) (srcIP : bytes) (hashKey startSeq : Z)
    : Prog (World C) unit :=
  res ← perform (cache_Retrieve (nackKey hashKey startSeq));
  match res with
  | Err _ => with_rec rec_CacheError
  | Ok None =>
      _ ← with_rec rec_CacheMiss;
      match src with
      | Some a => if negb (sv_suppressMISS s) then sendResponse a msgTypeMISS 0 0 else mret tt
      | None => mret tt
      end
  | Ok (Some raw) => serveHit s src srcIP raw startSeq
  end.

Lemma run_lookupAndServe s d src ip w w0 :
  quiet w0 w →
  let w' := (run (lookupAndServe s src ip (nack_hash d) (nack_seq d)) w).2 in
  w_sent w' = w_sent w0 ∨ answered s d src w0 w'.
Proof.
  intros Hq. cbv zeta. unfold lookupAndServe.
  rewrite run_bind, run_perform, cache_Retrieve_eq. cbv zeta. cbn [fst snd].
  set (key := nackKey (nack_hash d) (nack_seq d)). set (t := env_clock (w_env w) (w_reads w)).
  pose proof (retrieve_reply (w_heap w) (w_cache w) key t) as Hr.
  destruct (cb_Retrieve key t (w_heap w, w_cache w)) as [[[raw|]|e] [h c]]; cbn [fst snd] in *.
  - right. exists (w_reads w). split; [apply (q_reads _ _ Hq)|].
    rewrite <- (q_heap _ _ Hq), <- (q_cache _ _ Hq), <- (q_env _ _ Hq). fold t key. rewrite Hr.
    match goal with |- context [run (serveHit _ _ _ _ _) ?x] =>
      pose proof (run_serveHit s src ip raw (nack_seq d) x) as Hs end.
    cbn [w_heap set_cache set_heap] in Hs.
    destruct Hs as (names & rest & acks & Hn & Ha & Hs). exists names, rest, acks.
    unfold socket_names in *. cbn [w_sockets set_cache set_heap time_now snd] in Hn.
    rewrite (q_sockets _ _ Hq) in Hn. split_and!; [done|done|].
    etrans; [exact Hs|]. cbn [w_sent set_cache set_heap time_now snd]. by rewrite (q_sent _ _ Hq).
  - rewrite run_bind. cbn [run with_rec modify perform fst snd].
    destruct src as [a|]; [|left; cbn; apply (q_sent _ _ Hq)].
    destruct (sv_suppressMISS s) eqn:Hm; cbn [negb]; [left; cbn; apply (q_sent _ _ Hq)|].
    match goal with |- context [run (sendResponse _ _ _ _) ?x] =>
      destruct (run_sendResponse a msgTypeMISS 0 0 x) as [_ [Hs|Hs]] end.
    + left. rewrite Hs. cbn. apply (q_sent _ _ Hq).
    + right. exists (w_reads w). split; [apply (q_reads _ _ Hq)|].
      rewrite <- (q_heap _ _ Hq), <- (q_cache _ _ Hq), <- (q_env _ _ Hq). fold t key. rewrite Hr.
      exists a. split_and!; [done|done|]. rewrite Hs. cbn. by rewrite (q_sent _ _ Hq).
  - left. cbn. apply (q_sent _ _ Hq).
Qed.

(** [processNACK] as the pre-lookup tiers followed by [lookupAndServe]. *)
Lemma processNACK_eq s d src :
  processNACK s d src =
  (_ ← with_rec rec_NACKRequest;
   match validateNACK d with
   | Some _ => mret tt
   | None =>
       if negb (be_get (subslice d 24 32) =? nack_seq d) then mret tt
       else
         let ip := match src with Some a => ua_IP a | None => IPv6unspecified end in
         allowed ← Allow time_now limiter_lens ip (nack_seq d);
         if negb allowed.1 then with_rec (rec_RateLimitDrop allowed.2)
         else
           ok ← AllowChain time_now limiter_lens ip (nack_hash d);
           if negb ok then with_rec (rec_RateLimitDrop LevelChain)
           else lookupAndServe s src ip (nack_hash d) (nack_seq d)
   end).
Proof. reflexivity. Qed.

Lemma run_quiet_sent {A : Type} (m : Prog (World C) A) w : steps quiet m → quiet w (run m w).2.
Proof. apply run_steps, _. Qed.

(** C2: soundness of the NACK server.  Whatever the limiter, the sockets and
    the recorder do, one run of [processNACK] either sends nothing, or the
    datagram is a valid single-frame request and what is sent is determined
    by what the cache held, at a time read during the run, under the
    requested key: a MISS to the requester, and nothing else, when it held
    nothing; when it held a frame, copies of exactly that frame to the
    multicast group derived from it, on distinct egress interfaces, followed
    by at most one ACK, to the requester, carrying the requested number. *)
Theorem processNACK_sound (s : Server) (d : bytes) (src : option UDPAddr) (w : World C) :
  let w' := (run (processNACK s d src) w).2 in
  w_sent w' = w_sent w ∨ (single_request d ∧ answered s d src w w').
Proof.
  cbv zeta. rewrite processNACK_eq, run_bind. cbn [run with_rec modify perform fst snd].
  set (w0 := update_rec rec_NACKRequest w). assert (quiet w w0) as Hq0 by apply quiet_update_rec.
  destruct (validateNACK d) eqn:Hv; [left; reflexivity|].
  destruct (be_get (subslice d 24 32) =? nack_seq d) eqn:He; cbn [negb]; [|left; reflexivity].
  breflect. cbv zeta. set (ip := match src with Some a => ua_IP a | None => _ end).
  rewrite run_bind. pose proof (run_quiet_sent _ w0 (steps_Allow ip (nack_seq d))) as Hq1.
  destruct (run (Allow _ _ _ _) w0) as [[[ok lvl]|] w1]; cbn [fst snd] in *;
    [|left; exact (q_sent _ _ Hq1)].
  destruct ok; cbn [negb]; [|left; exact (q_sent _ _ Hq1)].
  rewrite run_bind. pose proof (run_quiet_sent _ w1 (steps_AllowChain ip (nack_hash d))) as Hq2.
  destruct (run (AllowChain _ _ _ _) w1) as [[ok|] w2]; cbn [fst snd] in *;
    [|left; exact (eq_trans (q_sent _ _ Hq2) (q_sent _ _ Hq1))].
  destruct ok; cbn [negb]; [|left; exact (eq_trans (q_sent _ _ Hq2) (q_sent _ _ Hq1))].
  destruct (run_lookupAndServe s d src ip w2 w) as [Hs|Ha].
  - etrans; [exact Hq0|]. by etrans; [exact Hq1|].
  - by left.
  - right. by split.
Qed.
End facts.
