(* ===== verification/Concurrency.v ===== *)
(** * Invariants of the shared store

    The bounds the components keep alone (of the cache, of the two window
    tiers, of what is sent) are kept by every atomic action of every handler,
    so by every interleaving of them. *)

From S2P Require Import Prelude GoLib RateLimit RateLimitFacts Cache CacheMemory CacheRedis.
From S2P Require Import Metrics ShardCommon World Retransmit Ingress Server ServerRun.
From S2P Require Import ServerFacts NackFacts.

(** An invariant every operation of a backend keeps. *)
Class BackendInv (C E : Type) `{!Backend C E} (J : C → Prop) := {
  bi_store h k s ttl p now (c : C) : J c → J (cb_Store (E := E) h k s ttl p now c).2;
  bi_retrieve h k now (c : C) : J c → J (cb_Retrieve (E := E) k now (h, c)).2.2;
  bi_setnx f k v ttl now (c : C) : cb_SetNX (E := E) = Some f → J c → J (f k v ttl now c).2;
}.

Section concurrency.
Context {RL : RateLib} {FL : FrameLib} {SH : ShardLib} {C E : Type} `{!Backend C E}
  {J : C → Prop} `{!BackendInv C E J}.
Implicit Types w : World C.

(** A datagram the process may send: a response is a 16-byte ACK or MISS, a
    frame leaves by an open egress socket. *)
Definition sent_ok (sockets : gmap bytes Z) (d : Sent) : Prop :=
  match d with
  | SentResponse _ b =>
      ∃ ty fl seq, (ty = msgTypeACK ∨ ty = msgTypeMISS) ∧ b = responseBytes ty fl seq
  | SentFrame n _ _ => is_Some (sockets !! n)
  | SentAdvert _ _ => True
  end.

(** The caps of the two window tiers, and whether panics are to be excluded:
    then the caps must be ones [make] can allocate. *)
Context {chain_max seq_max : Z} {np : bool}.
Hypothesis caps_ok : np = true → make_times_ok chain_max = true ∧ make_times_ok seq_max = true.

(** The invariant: the cache keeps [J], the caps do not change, no key of a window tier holds more
    timestamps than its tier admits, and every datagram sent is [sent_ok]. *)
Record bounded (w : World C) : Prop := MkBounded {
  bd_cache : J (w_cache w);
  bd_chain_max : wl_max (chainLimiter (w_limiter w)) = chain_max;
  bd_seq_max : wl_max (seqLimiter (w_limiter w)) = seq_max;
  bd_chain : window_ok (chainLimiter (w_limiter w));
  bd_seq : window_ok (seqLimiter (w_limiter w));
  bd_sent : Forall (sent_ok (w_sockets w)) (w_sent w);
}.

(** ** Every action keeps the invariant *)

Definition keeps w w' : Prop := bounded w → bounded w'.

Lemma keeps_time_now w : keeps w (time_now w).2.
Proof. by intros []. Qed.

Lemma keeps_update_rec f w : keeps w (update_rec f w).
Proof. by intros []. Qed.

Lemma keeps_read s w : keeps w (read_slice s w).2.
Proof. by intros []. Qed.

Lemma pres_with_rec_keeps f : preserves np bounded (with_rec f).
Proof. apply preserves_modify. intros w. apply keeps_update_rec. Qed.

Lemma pres_unwrap {A : Type} (o : option A) :
  (np = true → is_Some o) → preserves np bounded (unwrap o).
Proof.
  intros Ho. destruct o; [done|]. cbn. destruct np; [|done]. by destruct (Ho eq_refl).
Qed.

Lemma pres_ip_tier key :
  preserves np bounded (tokenBucketLimiter_Allow (W := World C) time_now (lens_comp limiter_lens ip_lens) key).
Proof.
  apply preserves_bind; [apply preserves_perform; by intros w []|intros _].
  apply preserves_bind; [apply preserves_perform, keeps_time_now|intros t].
  apply preserves_perform. by intros w [].
Qed.

Lemma pres_group_tier key :
  preserves np bounded (tokenBucketLimiter_Allow (W := World C) time_now (lens_comp limiter_lens group_lens) key).
Proof.
  apply preserves_bind; [apply preserves_perform; by intros w []|intros _].
  apply preserves_bind; [apply preserves_perform, keeps_time_now|intros t].
  apply preserves_perform. by intros w [].
Qed.

Lemma pres_chain_tier key :
  preserves np bounded (slidingWindowLimiter_Allow (W := World C) time_now (lens_comp limiter_lens chain_lens) key).
Proof.
  apply preserves_bind; [apply preserves_perform, keeps_time_now|intros t].
  intros w Hb. split.
  - destruct Hb. constructor; cbn; auto; [|by apply window_Allow_ok].
    by rewrite (proj1 (window_Allow_config _ _ _)).
  - apply pres_unwrap. intros Hnp. apply window_Allow_total.
    cbn. rewrite (bd_chain_max _ Hb). by apply caps_ok.
Qed.

Lemma pres_seq_tier key :
  preserves np bounded (sequenceLimiter_Allow (W := World C) time_now (lens_comp limiter_lens seq_lens) key).
Proof.
  apply preserves_bind; [apply preserves_perform, keeps_time_now|intros t].
  intros w Hb. split.
  - destruct Hb. constructor; cbn; auto; [|by apply window_Allow_ok].
    by rewrite (proj1 (window_Allow_config _ _ _)).
  - apply pres_unwrap. intros Hnp. apply window_Allow_total.
    cbn. rewrite (bd_seq_max _ Hb). by apply caps_ok.
Qed.

Lemma keeps_Store key v ttl w : keeps w (cache_Store key v ttl w).2.
Proof.
  intros []. rewrite cache_Store_eq. cbv zeta. cbn [snd]. constructor; cbn; auto. by apply bi_store.
Qed.

Lemma keeps_Retrieve key w : keeps w (cache_Retrieve key w).2.
Proof.
  intros []. rewrite cache_Retrieve_eq. cbv zeta. cbn [snd]. constructor; cbn; auto. by apply bi_retrieve.
Qed.

Lemma keeps_SetNX f key v ttl w : cb_SetNX = Some f → keeps w (gate_SetNX f key v ttl w).2.
Proof.
  intros Hf []. rewrite gate_SetNX_eq. cbv zeta. cbn [snd]. constructor; cbn; auto. by apply bi_setnx.
Qed.

Lemma keeps_respond a ty fl seq w :
  ty = msgTypeACK ∨ ty = msgTypeMISS → keeps w (net_send (SentResponse a (responseBytes ty fl seq)) w).2.
Proof.
  intros Hty []. unfold net_send. constructor; cbn; auto. destruct (env_write _ _); [|done].
  apply Forall_app. split; [done|]. repeat constructor. by exists ty, fl, seq.
Qed.

Lemma pres_sendResponse a ty fl seq :
  ty = msgTypeACK ∨ ty = msgTypeMISS → preserves np bounded (sendResponse a ty fl seq).
Proof.
  intros Hty. unfold sendResponse. apply preserves_bind; [apply preserves_perform; intros w; by apply keeps_respond|].
  intros ok. destruct ok; apply pres_with_rec_keeps.
Qed.

Lemma keeps_egress_loop order dst raw w :
  Forall (fun n => is_Some (w_sockets w !! n)) order → keeps w (egress_loop order dst raw w).2.
Proof.
  revert w. induction order as [|n order IH]; intros w Ho Hb; cbn [egress_loop]; [done|].
  apply Forall_cons in Ho as [Hn Ho]. destruct (net_send _ w) as [ok w1] eqn:Hs.
  assert (bounded w1 ∧ w_sockets w1 = w_sockets w) as [Hb1 Hk1].
  { unfold net_send in Hs. injection Hs as <- <-. split; [|done]. destruct Hb.
    constructor; cbn; auto. destruct (env_write _ _); [|done]. apply Forall_app. split; [done|].
    by repeat constructor. }
  destruct ok; [apply IH; [by rewrite Hk1|done]|by apply keeps_update_rec].
Qed.

Lemma keeps_egress_all dst raw w : keeps w (egress_all dst raw w).2.
Proof.
  intros Hb. unfold egress_all, map_choice. apply keeps_egress_loop; [|by destruct Hb].
  cbn [w_sockets]. rewrite shuffle_perm. apply Forall_fmap, Forall_forall. intros [n i] Hin.
  apply elem_of_map_to_list in Hin. by exists i.
Qed.

(** ** The handlers *)

Lemma pres_Retransmit r raw txID : preserves np bounded (Retransmit r raw txID).
Proof.
  assert (preserves np bounded (retransmit_send (C := C) r raw txID)) as Hsend.
  { unfold retransmit_send. apply preserves_bind; [apply preserves_perform, keeps_read|].
    intros bs. apply preserves_perform. intros w. apply keeps_egress_all. }
  unfold Retransmit. destruct cb_SetNX as [f|] eqn:Hf; [|done].
  apply preserves_bind; [apply preserves_perform, keeps_read|intros bs]. cbv zeta. destruct (bool_decide _); [|done].
  apply preserves_bind; [apply preserves_perform; intros w; by apply keeps_SetNX|].
  intros [[] e]; cbn [fst negb]; [done|].
  apply preserves_bind; [apply pres_with_rec_keeps|done].
Qed.

Lemma pres_serveHit s src ip raw seq : preserves np bounded (serveHit s src ip raw seq).
Proof.
  unfold serveHit. apply preserves_bind; [apply pres_with_rec_keeps|intros _].
  apply preserves_bind; [apply preserves_perform, keeps_read|intros bs]. cbv zeta. apply preserves_bind.
  - destruct (sv_shardEngine s); [|done]. apply preserves_bind; [apply pres_group_tier|].
    intros []; cbn [negb]; [done|]. apply preserves_bind; [apply pres_with_rec_keeps|done].
  - intros throttled. unfold retransmitAndAck. apply preserves_bind.
    + destruct throttled; [done|]. apply preserves_bind; [apply pres_Retransmit|intros []; [|done]].
      apply preserves_bind; [apply pres_with_rec_keeps|done].
    + intros []; cbn [negb]; [|done]. destruct src; [|done]. destruct (sv_suppressACK s); [done|].
      apply pres_sendResponse. by left.
Qed.

Lemma pres_processNACK s d src : preserves np bounded (processNACK s d src).
Proof.
  unfold processNACK. apply preserves_bind; [apply pres_with_rec_keeps|intros _].
  destruct (validateNACK d); [done|]. cbv zeta. destruct (negb _); [done|].
  apply preserves_bind.
  { unfold Allow. apply preserves_bind; [apply pres_ip_tier|intros []; [|done]]. cbn [negb].
    apply preserves_bind; [apply pres_seq_tier|by intros []]. }
  intros [[] lvl]; cbn [fst negb]; [|apply pres_with_rec_keeps]. apply preserves_bind.
  { unfold AllowChain. destruct (_ =? 0); [done|apply pres_chain_tier]. }
  intros []; cbn [negb]; [|apply pres_with_rec_keeps].
  apply preserves_bind; [apply preserves_perform; intros w; apply keeps_Retrieve|].
  intros [[raw|]|e]; [apply pres_serveHit| |apply pres_with_rec_keeps].
  apply preserves_bind; [apply pres_with_rec_keeps|intros _].
  destruct src; [|done]. destruct (sv_suppressMISS s); [done|]. apply pres_sendResponse. by right.
Qed.

Lemma pres_storeDecoded wk raw f : preserves np bounded (storeDecoded wk raw f).
Proof.
  destruct f as [hd|]; cbn [storeDecoded]; [|apply pres_with_rec_keeps].
  apply preserves_bind; [apply pres_with_rec_keeps|intros _]. destruct (_ =? 0); [done|].
  apply preserves_bind; [apply preserves_perform; intros w; apply keeps_Store|].
  intros [|]; apply pres_with_rec_keeps.
Qed.

Lemma pres_processFrame wk raw : preserves np bounded (processFrame wk raw).
Proof.
  unfold processFrame. apply preserves_bind; [apply preserves_perform, keeps_read|intros bs].
  repeat (split_if; [apply preserves_bind; [apply preserves_perform, keeps_read|intros bs'; apply pres_storeDecoded]|]).
  apply pres_storeDecoded.
Qed.

Lemma pres_receive_loop wk buf evs : preserves np bounded (receive_loop wk buf evs).
Proof.
  induction evs as [|[[bs|e] done] evs IH]; cbn [receive_loop]; [apply preserves_mret| |].
  - destruct (bool_decide _); [|done].
    apply preserves_bind; [apply preserves_modify; by intros w []|intros _].
    apply preserves_bind; [apply pres_processFrame|done].
  - destruct e; try done; by destruct done.
Qed.

Lemma pres_ingress_Run wk opened joins buf evs : preserves np bounded (ingress_Run wk opened joins buf evs).
Proof.
  unfold ingress_Run. destruct opened; [done|]. destruct (head _); [done|].
  apply preserves_bind; [apply pres_with_rec_keeps|intros _].
  apply preserves_bind; [apply pres_receive_loop|intros []; [|done]].
  apply preserves_bind; [apply pres_with_rec_keeps|done].
Qed.
End concurrency.

(** ** The deployments *)

Definition mem_inv (max : Z) (c : MemCache) : Prop := maxKeys c = max ∧ mem_bounded c.

#[export] Instance mem_backend_inv (E : Type) (max : Z) : BackendInv MemCache E (mem_inv max).
Proof.
  constructor.
  - intros h k s ttl p now c [Hm Hb]. split; [|by apply mem_Store_bounded].
    cbn. by rewrite (proj1 (mem_evict_config p c)).
  - done.
  - done.
Qed.

Lemma mem_tick_inv max now c : mem_inv max c → mem_inv max (mem_tick now c).
Proof.
  intros [Hm Hb]. split; [|by apply (mem_step_bounded c _ (step_tick now c))].
  unfold mem_tick. by destruct (gcRunning c).
Qed.

Lemma bounded_start {RL : RateLib} {FL : FrameLib} oob cfg max (w : World MemCache) :
  w_limiter w = New oob cfg → w_cache w = mem_New max → w_sent w = [] →
  bounded (J := mem_inv max) (chain_max := wl_max (chainLimiter (New oob cfg)))
    (seq_max := SequenceMax cfg) w.
Proof.
  intros Hl Hc Hsent. constructor; rewrite ?Hl, ?Hc, ?Hsent; try done.
  split; [done|]. intros H0. unfold mem_Len. cbn in *. rewrite map_size_empty. lia.
Qed.
