(* ===== verification/Lifecycle.v ===== *)
(** * The life of the process (main.go, [run] from the goroutines on)

    The goroutines [run] starts (metrics listener, cache size sampler, ingress
    worker, NACK server, beacon), the wait for a signal and the shutdown: set
    draining and sleep, cancel the context, close [done], wait for the
    goroutines, shut the exporters down, return.  Ticks and datagrams still to
    come are finite lists, so that every finite prefix of the outside world
    is covered. *)

From S2P Require Import Prelude GoLib RateLimit RateLimitFacts Cache CacheMemory CacheRedis.
From S2P Require Import Metrics ShardCommon World Retransmit Beacon Ingress Server ServerRun.

(** Where [run] is, from the receive on [sigCh] on. *)
Inductive main_state :=
| MSignal      (* blocked in [sig := <-sigCh] *)
| MSleep       (* in [time.Sleep(cfg.DrainTimeout)] *)
| MCancel      (* at [cancel()] *)
| MCloseDone   (* at [close(done)] *)
| MWait        (* in [wg.Wait()] *)
| MShutdown    (* at [rec.Shutdown(ctx2)] *)
| MReturned.

Section lifecycle.
Context {W : Type}.

(** [processNACK], the server's deferred [WorkerDone], [SetDraining], and
    whether a drain timeout is configured. *)
Variable handle : nackRequest → Prog W unit.
Variable worker_done : W → W.
Variable set_draining : W → W.
Variable drain : bool.

(** The body of a received datagram, and the ingress worker's deferred
    [WorkerDone]. *)
Variable on_frame : bytes → Prog W unit.
Variable ingress_done : W → W.

(** What happens in the background: the cache's own goroutine, or other
    users of a shared backend. *)
Variable background : W → W → Prop.

(** A goroutine other than the server.  A ticker loop selects between its
    ticker and the context; the receive loop blocks in recvfrom, which gives
    up after 200 ms; the metrics listener waits for [done]. *)
Inductive goroutine :=
| GTick (body : Prog W unit) (ticks : nat)
| GTickBusy (body : Prog W unit) (ticks : nat) (m : Prog W unit)
| GRecv (evs : list recv)
| GRecvBusy (evs : list recv) (m : Prog W unit)
| GExit (m : Prog W unit)
| GServe (s : serve_state)
| GReturned.

(** One result of recvfrom, [ctx] being whether the context is done. *)
Definition after_recv (ctx : bool) (r : recv) (evs : list recv) : goroutine :=
  match r with
  | RecvData bs =>
      if bool_decide (0 < length bs)%nat then GRecvBusy evs (on_frame bs) else GRecv evs
  | RecvErr e =>
      match e with
      | EAGAIN | EWOULDBLOCK | EOTHER => if ctx then GExit (modify ingress_done) else GRecv evs
      | EBADF | EINVAL => GExit (modify ingress_done)
      | EINTR => GRecv evs
      end
  end.

(** A step of a goroutine that runs code. *)
Inductive busy_step : goroutine → W → goroutine → W → Prop :=
| bs_tick b n X (f : atomic W X) k w :
    busy_step (GTickBusy b n (Atomic X f k)) w (GTickBusy b n (k (f w).1)) (f w).2
| bs_tick_end b n u w : busy_step (GTickBusy b n (Ret u)) w (GTick b n) w
| bs_recv evs X (f : atomic W X) k w :
    busy_step (GRecvBusy evs (Atomic X f k)) w (GRecvBusy evs (k (f w).1)) (f w).2
| bs_recv_end evs u w : busy_step (GRecvBusy evs (Ret u)) w (GRecv evs) w
| bs_exit X (f : atomic W X) k w :
    busy_step (GExit (Atomic X f k)) w (GExit (k (f w).1)) (f w).2
| bs_exit_end u w : busy_step (GExit (Ret u)) w GReturned w.

(** A step of a goroutine; [ctx] and [done] say whether the context is
    cancelled and the channel [done] closed.  When nothing more is received,
    recvfrom times out, or the socket has been closed by the goroutine that
    waits for the context. *)
Inductive gor_step (ctx done : bool) : goroutine → W → goroutine → W → Prop :=
| gs_busy g w g' w' : busy_step g w g' w' → gor_step ctx done g w g' w'
| gs_tick b n w : gor_step ctx done (GTick b (S n)) w (GTickBusy b n b) w
| gs_tick_done b n w : ctx = true → gor_step ctx done (GTick b n) w GReturned w
| gs_recv r evs w : gor_step ctx done (GRecv (r :: evs)) w (after_recv ctx r evs) w
| gs_recv_timeout e evs w :
    ctx = true → e ∈ [EAGAIN; EBADF] → gor_step ctx done (GRecv evs) w (after_recv ctx (RecvErr e) evs) w
| gs_serve s s' w : serve_step done s s' → gor_step ctx done (GServe s) w (GServe s') w
| gs_serve_end w : gor_step ctx done (GServe SReturned) w GReturned w.

(** The process: the server's own state holds the store and whether the
    is cancelled.  What happens in the background is in no wait group and
    does not watch the context: [pc_ticks] such steps are to come. *)
Record proc := MkProc {
  pc_main : main_state;
  pc_done : bool;
  pc_server : run_state W;
  pc_gors : list goroutine;
  pc_ticks : nat;
}.

Definition pc_ctx (p : proc) : bool := rs_done (pc_server p).

Definition store_of (p : proc) : W := rs_store (pc_server p).

Definition with_store (w : W) (st : run_state W) : run_state W :=
  MkRun (rs_loop st) (rs_queue st) (rs_closed st) (rs_done st) (rs_workers st) (rs_accepted st)
    (rs_taken st) w.

(** The signal has been received. *)
Definition on_signal (st : run_state W) : main_state * run_state W :=
  if drain then (MSleep, with_store (set_draining (rs_store st)) st) else (MCancel, st).

Inductive proc_step : proc → proc → Prop :=
| ps_signal d st gs n :
    proc_step (MkProc MSignal d st gs n) (MkProc (on_signal st).1 d (on_signal st).2 gs n)
| ps_slept d st gs n : proc_step (MkProc MSleep d st gs n) (MkProc MCancel d st gs n)
| ps_cancel d st gs n : proc_step (MkProc MCancel d st gs n) (MkProc MCloseDone d (cancel st) gs n)
| ps_close d st gs n : proc_step (MkProc MCloseDone d st gs n) (MkProc MWait true st gs n)
| ps_wait d st gs n :
    rs_loop st = LReturned → Forall (fun g => g = GReturned) gs →
    proc_step (MkProc MWait d st gs n) (MkProc MShutdown d st gs n)
| ps_shutdown d st gs n : proc_step (MkProc MShutdown d st gs n) (MkProc MReturned d st gs n)
| ps_server m d st st' gs n :
    run_step handle worker_done st st' → rs_done st' = rs_done st →
    proc_step (MkProc m d st gs n) (MkProc m d st' gs n)
| ps_gor m d st gs n i g g' w' :
    gs !! i = Some g → gor_step (rs_done st) d g (rs_store st) g' w' →
    proc_step (MkProc m d st gs n) (MkProc m d (with_store w' st) (<[i := g']> gs) n)
| ps_background m d st gs n w' :
    background (rs_store st) w' →
    proc_step (MkProc m d st gs (S n)) (MkProc m d (with_store w' st) gs n).

(** ** What holds in every state *)

(** The context is cancelled exactly from [cancel()] on, [done] is closed
    exactly from [close(done)] on, and once [wg.Wait()] has returned every
    goroutine is gone. *)
Record proc_ok (p : proc) : Prop := MkProcOk {
  po_ctx : pc_ctx p = match pc_main p with MSignal | MSleep | MCancel => false | _ => true end;
  po_done : pc_done p = match pc_main p with MWait | MShutdown | MReturned => true | _ => false end;
  po_gone : pc_main p = MShutdown ∨ pc_main p = MReturned →
    rs_loop (pc_server p) = LReturned ∧ Forall (fun g => g = GReturned) (pc_gors p);
}.

Lemma returned_stays st st' : run_step handle worker_done st st' → rs_loop st = LReturned → rs_loop st' = LReturned.
Proof. intros Hs Hl. destruct Hs; cbn; congruence. Qed.

Lemma gone_stuck ctx d g w g' w' : gor_step ctx d g w g' w' → g ≠ GReturned.
Proof. intros Hs. destruct Hs as [g w g' w' Hb| | | | | |]; [|done..]. by destruct Hb. Qed.

Lemma proc_step_ok p p' : proc_step p p' → proc_ok p → proc_ok p'.
Proof.
  intros Hs [Hc Hd Hg]. destruct Hs as [d st gs n|d st gs n|d st gs n|d st gs n|d st gs n Hl Hgs|d st gs n
    |m d st st' gs n Hs He|m d st gs n i g g' w' Hi Hs|m d st gs n w' Hbg]; unfold pc_ctx in *; cbn in *;
    try (constructor; unfold pc_ctx; cbn; auto; intros [|]; congruence).
  - unfold on_signal. destruct drain; constructor; unfold pc_ctx; cbn; auto; intros [|]; congruence.
  - constructor; unfold pc_ctx; cbn; [congruence|done|]. intros Hm. destruct (Hg Hm) as [Hl Hgs].
    split; [by eapply returned_stays|done].
  - constructor; unfold pc_ctx; cbn; [done|done|]. intros Hm. destruct (Hg Hm) as [Hl Hgs].
    exfalso. apply gone_stuck in Hs. by apply Hs, (proj1 (Forall_lookup _ _) Hgs i).
Qed.

Lemma proc_reachable_ok p p' : rtc proc_step p p' → proc_ok p → proc_ok p'.
Proof. induction 1; eauto using proc_step_ok. Qed.

(** ** Termination *)

Definition main_rank (m : main_state) : nat :=
  match m with
  | MSignal => 6 | MSleep => 5 | MCancel => 4 | MCloseDone => 3 | MWait => 2 | MShutdown => 1
  | MReturned => 0
  end.

(** [g'] is closer to its end than [g]: less is still to come from outside,
    or the body has less to do. *)
Definition gor_lt (g' g : goroutine) : Prop :=
  match g with
  | GTick b n => g' = GReturned ∨ ∃ n', n = S n' ∧ g' = GTickBusy b n' b
  | GTickBusy b n (Ret _) => g' = GTick b n
  | GTickBusy b n (Atomic X f k) => ∃ v, g' = GTickBusy b n (k v)
  | GRecv evs => g' = GExit (modify ingress_done) ∨ ∃ ctx r evs', evs = r :: evs' ∧ g' = after_recv ctx r evs'
  | GRecvBusy evs (Ret _) => g' = GRecv evs
  | GRecvBusy evs (Atomic X f k) => ∃ v, g' = GRecvBusy evs (k v)
  | GExit (Ret _) => g' = GReturned
  | GExit (Atomic X f k) => ∃ v, g' = GExit (k v)
  | GServe SListening => g' = GServe SShutdown
  | GServe SShutdown => g' = GServe SReturned
  | GServe SReturned => g' = GReturned
  | GTickBusy _ _ Panic | GRecvBusy _ Panic | GExit Panic | GReturned => False
  end.

Lemma gor_step_lt ctx d g w g' w' : gor_step ctx d g w g' w' → gor_lt g' g.
Proof.
  intros Hs. destruct Hs as [g w g' w' Hb|b n w|b n w Hc|r evs w|e evs w Hc He|s s' w Hsv|w]; cbn; eauto 6.
  - destruct Hb; cbn; eauto.
  - left. subst ctx. apply elem_of_cons in He as [->|He%list_elem_of_singleton]; [done|by subst e].
  - by destruct Hsv.
Qed.

Lemma returned_acc : Acc gor_lt GReturned.
Proof. by constructor. Qed.

Lemma exit_acc m : Acc gor_lt (GExit m).
Proof.
  induction m as [u| |X f k IH]; constructor; intros g Hg; cbn in Hg.
  - subst g. apply returned_acc.
  - done.
  - destruct Hg as [v ->]. apply IH.
Qed.

(** A loop goes on with what it does after the body. *)
Lemma tick_busy_acc b n m : Acc gor_lt (GTick b n) → Acc gor_lt (GTickBusy b n m).
Proof.
  intros Ha. induction m as [u| |X f k IH]; constructor; intros g Hg; cbn in Hg;
    [by subst|done|destruct Hg as [v ->]; apply IH].
Qed.

Lemma recv_busy_acc evs m : Acc gor_lt (GRecv evs) → Acc gor_lt (GRecvBusy evs m).
Proof.
  intros Ha. induction m as [u| |X f k IH]; constructor; intros g Hg; cbn in Hg;
    [by subst|done|destruct Hg as [v ->]; apply IH].
Qed.

Lemma tick_acc b n : Acc gor_lt (GTick b n).
Proof.
  induction n as [|n IH]; constructor; intros g [->|(n' & Hn & ->)]; [exact returned_acc|done|exact returned_acc|].
  injection Hn as <-. by apply tick_busy_acc.
Qed.

Lemma recv_acc evs : Acc gor_lt (GRecv evs).
Proof.
  induction evs as [|r evs IH]; constructor; intros g [->|(ctx & r' & evs' & Hevs & ->)];
    [apply (exit_acc _)|done|apply (exit_acc _)|]. injection Hevs as <- <-.
  destruct r as [bs|e]; cbn [after_recv].
  - case_bool_decide; [by apply recv_busy_acc|done].
  - destruct e; try destruct ctx; auto using exit_acc.
Qed.

Lemma gor_lt_wf g : Acc gor_lt g.
Proof.
  destruct g as [b n|b n m|evs|evs m|m|s|];
    auto using tick_acc, recv_acc, exit_acc, returned_acc, tick_busy_acc, recv_busy_acc.
  assert (Acc gor_lt (GServe SReturned)) as H1 by (constructor; intros g' ->; exact returned_acc).
  assert (Acc gor_lt (GServe SShutdown)) as H2 by (constructor; by intros g' ->).
  destruct s; [|done|done]. constructor. by intros g' ->.
Qed.
(** One goroutine of the list gets closer to its end. *)
Definition gors_lt (l' l : list goroutine) : Prop :=
  ∃ i x y, l !! i = Some y ∧ gor_lt x y ∧ l' = <[i := x]> l.

Lemma gors_lt_cons x l : Acc gor_lt x → Acc gors_lt l → Acc gors_lt (x :: l).
Proof.
  intros Hx. revert l. induction Hx as [x _ IHx]. intros l Hl. induction Hl as [l Hl IHl].
  constructor. intros l' (i & a & b & Hi & Hab & ->).
  destruct i as [|i]; cbn in *; simplify_eq.
  - apply IHx; [done|]. by constructor.
  - apply IHl. by exists i, a, b.
Qed.

Lemma gors_lt_wf l : Acc gors_lt l.
Proof.
  induction l as [|x l IH]; [|apply gors_lt_cons; auto using gor_lt_wf].
  constructor. by intros l' (i & a & b & Hi & _).
Qed.

Definition proc_lt (p' p : nat * (nat * nat * list (worker_state W)) * list goroutine) : Prop :=
  (p'.1.1 < p.1.1)%nat ∨
  (p'.1.1 = p.1.1 ∧ (remaining_lt p'.1.2 p.1.2 ∨ (p'.1.2 = p.1.2 ∧ gors_lt p'.2 p.2))).

Lemma proc_lt_wf x : Acc proc_lt x.
Proof.
  destruct x as [[n s] l]. revert s l. induction n as [n IHn] using lt_wf_ind. intros s.
  induction (remaining_wf s) as [s _ IHs]. intros l. induction (gors_lt_wf l) as [l _ IHl].
  constructor. intros [[n' s'] l'] [Hlt|[Heq [Hlt|[Heq' Hw]]]]; cbn in *; subst; auto.
Qed.

Definition proc_remaining (p : proc) : nat * (nat * nat * list (worker_state W)) * list goroutine :=
  ((main_rank (pc_main p) + pc_ticks p)%nat, remaining (pc_server p), pc_gors p).

Lemma proc_step_decreases p p' :
  proc_step p p' → pc_ctx p = true → pc_ctx p' = true ∧ proc_lt (proc_remaining p') (proc_remaining p).
Proof.
  intros Hs. unfold pc_ctx, proc_lt, proc_remaining. destruct Hs as [d st gs n|d st gs n|d st gs n|d st gs n|d st gs n Hl Hgs|d st gs n
    |m d st st' gs n Hs He|m d st gs n i g g' w' Hi Hs|m d st gs n w' Hbg]; cbn; intros Hd.
  - unfold on_signal. destruct drain; cbn; (split; [done|left; lia]).
  - split; [done|left; lia].
  - split; [done|left; lia].
  - split; [done|left; lia].
  - split; [done|left; lia].
  - split; [done|left; lia].
  - split; [congruence|]. right. split; [done|]. left.
    by destruct (run_step_decreases handle worker_done st st' Hs Hd).
  - split; [done|]. right. split; [done|]. right. split; [done|].
    exists i, g', g. split_and!; [done|by eapply gor_step_lt|done].
  - split; [done|left; lia].
Qed.

Lemma proc_sn p : pc_ctx p = true → sn proc_step p.
Proof.
  remember (proc_remaining p) as x eqn:Hx. revert p Hx. induction (proc_lt_wf x) as [x _ IH].
  intros p Hx Hd. constructor. intros p' Hs. cbn in Hs.
  destruct (proc_step_decreases p p' Hs Hd) as [Hd' Hlt].
  eapply IH; [|reflexivity|done]. by rewrite Hx.
Qed.

(** A goroutine that has panicked. *)
Definition panicked (g : goroutine) : Prop :=
  match g with GTickBusy _ _ Panic | GRecvBusy _ Panic | GExit Panic => True | _ => False end.

Definition proc_panicked (p : proc) : Prop :=
  (∃ i, rs_workers (pc_server p) !! i = Some (WBusy Panic)) ∨ Exists panicked (pc_gors p).

(** Once the context is cancelled and [done] closed, a goroutine can move
    unless it has returned or panicked. *)
Lemma gor_progress g w : g = GReturned ∨ panicked g ∨ ∃ g' w', gor_step true true g w g' w'.
Proof.
  destruct g as [b n|b n m|evs|evs m|m|s|]; cbn; [| | | | | |by left]; right.
  - right. do 2 eexists. by apply gs_tick_done.
  - destruct m as [u| |X f k]; [|by left|]; right; do 2 eexists; apply gs_busy; constructor.
  - right. do 2 eexists. by apply (gs_recv_timeout _ _ EAGAIN); [|left].
  - destruct m as [u| |X f k]; [|by left|]; right; do 2 eexists; apply gs_busy; constructor.
  - destruct m as [u| |X f k]; [|by left|]; right; do 2 eexists; apply gs_busy; constructor.
  - right. destruct s; do 2 eexists; [by apply gs_serve, sv_done|apply gs_serve, sv_shutdown|apply gs_serve_end].
Qed.

Lemma all_returned_or (l : list goroutine) :
  Forall (fun g => g = GReturned) l ∨ ∃ i g, l !! i = Some g ∧ g ≠ GReturned.
Proof.
  induction l as [|g l IH]; [by left|].
  assert (g = GReturned ∨ g ≠ GReturned) as [->|Hg] by (destruct g; auto).
  - destruct IH as [Hl|(i & g & Hi & Hg)]; [left; by constructor|right; by exists (S i), g].
  - right. by exists 0%nat, g.
Qed.

Lemma proc_progress p :
  proc_ok p → pc_ctx p = true → nf proc_step p → pc_main p = MReturned ∨ proc_panicked p.
Proof.
  intros [Hctx Hdone _] Hc Hnf. destruct p as [m d st gs n]. unfold pc_ctx in *. cbn in *.
  destruct m; try congruence.
  - destruct Hnf. eexists. apply ps_close.
  - subst d. destruct (all_returned_or gs) as [Hgs|(i & g & Hi & Hg)].
    + assert (rs_loop st = LReturned ∨ rs_loop st ≠ LReturned) as [Hl|Hl]
        by (destruct (rs_loop st); auto).
      { destruct Hnf. eexists. by apply ps_wait. }
      right. left. destruct (run_progress handle worker_done st Hc) as [|Hp]; [|done|done].
      intros [st' Hs]. apply Hnf. eexists. eapply ps_server; [exact Hs|].
      destruct (run_step_decreases _ _ _ _ Hs Hc). congruence.
    + right. right. destruct (gor_progress g (rs_store st)) as [?|[Hp|(g' & w' & Hs)]]; [done| |].
      { apply Exists_exists. exists g. split; [by eapply list_elem_of_lookup_2|done]. }
      destruct Hnf. eexists. eapply ps_gor; [exact Hi|]. by rewrite Hc.
  - destruct Hnf. eexists. apply ps_shutdown.
  - by left.
Qed.

Lemma proc_ctx_stays p p' : rtc proc_step p p' → pc_ctx p = true → pc_ctx p' = true.
Proof.
  induction 1 as [|p1 p2 p3 Hs _ IH]; [done|]. intros Hd. apply IH. by apply (proc_step_decreases p1 p2 Hs Hd).
Qed.

(** Up to [wg.Wait()] nothing but the outside world holds [run] up. *)
Lemma main_moves p :
  pc_main p ≠ MWait → pc_main p ≠ MReturned →
  ∃ p', proc_step p p' ∧ (main_rank (pc_main p') < main_rank (pc_main p))%nat.
Proof.
  destruct p as [m d st gs n]. cbn. intros Hw Hr.
  destruct m; try done; eexists; (split; [constructor|]); cbn; try lia.
  unfold on_signal. destruct drain; cbn; lia.
Qed.

(** ** Invariants of the shared store *)

Definition gor_preserves (np : bool) (I : W → Prop) (g : goroutine) : Prop :=
  match g with
  | GTick b _ => preserves np I b
  | GTickBusy b _ m => preserves np I b ∧ preserves np I m
  | GRecvBusy _ m | GExit m => preserves np I m
  | _ => True
  end.

Definition proc_preserves (np : bool) (I : W → Prop) (p : proc) : Prop :=
  I (store_of p) ∧ Forall (worker_preserves np I) (rs_workers (pc_server p)) ∧
  Forall (gor_preserves np I) (pc_gors p).

Lemma gor_step_preserves np I ctx d g w g' w' :
  (∀ bs, preserves np I (on_frame bs)) → (∀ w, I w → I (ingress_done w)) →
  gor_step ctx d g w g' w' → I w → gor_preserves np I g → I w' ∧ gor_preserves np I g'.
Proof.
  intros Hf Hd Hs HI Hg. destruct Hs as [g w g' w' Hb|b n w|b n w Hc|r evs w|e evs w Hc He|s s' w Hsv|w]; cbn in *; auto.
  - destruct Hb; cbn in *; try (split; naive_solver).
  - split; [done|]. destruct r as [bs|e]; cbn; [case_bool_decide; cbn; auto|].
    destruct e; try destruct ctx; cbn; auto.
  - split; [done|]. subst ctx. apply elem_of_cons in He as [->|He%list_elem_of_singleton]; [|subst e]; cbn; auto.
Qed.

(** What every body preserves, the process preserves. *)
Lemma proc_step_preserves np I p p' :
  (∀ rq, preserves np I (handle rq)) → (∀ w, I w → I (worker_done w)) → (∀ w, I w → I (set_draining w)) →
  (∀ bs, preserves np I (on_frame bs)) → (∀ w, I w → I (ingress_done w)) → (∀ w w', background w w' → I w → I w') →
  proc_step p p' → proc_preserves np I p → proc_preserves np I p'.
Proof.
  intros Hh Hwd Hsd Hf Hid Hgc Hs (HI & Hw & Hg). unfold proc_preserves, store_of in *.
  destruct Hs as [d st gs n|d st gs n|d st gs n|d st gs n|d st gs n Hl Hgs|d st gs n
    |m d st st' gs n Hs He|m d st gs n i g g' w' Hi Hs|m d st gs n w' Hbg]; cbn in *; try done.
  - unfold on_signal. destruct drain; cbn; auto.
  - destruct (run_step_preserves handle worker_done np I st st') as [? ?]; auto.
  - destruct (gor_step_preserves np I (rs_done st) d g (rs_store st) g' w') as [? ?]; auto.
    { by apply (proj1 (Forall_lookup _ _) Hg i). }
    split_and!; [done|done|]. by apply Forall_insert.
  - by eauto.
Qed.

Lemma preserved_no_panic I p : proc_preserves true I p → ¬ proc_panicked p.
Proof.
  intros (_ & Hw & Hg) [[i Hi]|Hp].
  - by pose proof (proj1 (Forall_lookup _ _) Hw i _ Hi).
  - apply Exists_exists in Hp as (g & Hin & Hp). rewrite Forall_forall in Hg. specialize (Hg g Hin).
    destruct g as [| ? ? []| |? []|[]| |]; cbn in *; naive_solver.
Qed.
End lifecycle.

Arguments goroutine W : clear implicits.
Arguments proc W : clear implicits.
