(* ===== verification/Rely.v ===== *)
(** * Rely and guarantee for goroutine bodies

    A body runs among other goroutines.  Between two of its actions the others
    move the store along the relation [rely]; what the body does itself is
    described by [act].  A body may also own something of type [M], rights or
    nothing, that its actions change.  [guarded] says that every action of the
    body is as [act] allows, whatever the others do in between. *)

From S2P Require Import Prelude.

Section rely.
Context {W M : Type} (rely : W → W → Prop) `{!PreOrder rely}.

(** [act m w m' w']: an action from the store [w] to [w'] that leaves [m'] of
    [m].  Only stores that are [within] are considered. *)
Variable act : M → W → M → W → Prop.
Variable within : W → Prop.

(** [body], started with [m] in [w] or any later store, does only what [act]
    allows, and ends as [Φ] says. *)
Fixpoint guarded {A : Type} (m : M) (body : Prog W A) (Φ : A → M → W → Prop) (w : W) : Prop :=
  ∀ w1, rely w w1 →
  match body with
  | Ret a => Φ a m w1
  | Panic => True
  | Atomic X f k =>
      within (f w1).2 → ∃ m', act m w1 m' (f w1).2 ∧ guarded m' (k (f w1).1) Φ (f w1).2
  end.

Lemma guarded_later {A : Type} m (body : Prog W A) Φ w w' :
  rely w w' → guarded m body Φ w → guarded m body Φ w'.
Proof.
  intros Hr Hg. destruct body; intros w1 H1; (assert (rely w w1) as H2 by (by etrans)); exact (Hg w1 H2).
Qed.

Lemma guarded_bind {A B : Type} m (body : Prog W A) (k : A → Prog W B) Φ w :
  guarded m body (fun a m' w' => guarded m' (k a) Φ w') w → guarded m (body ≫= k) Φ w.
Proof.
  revert m w. induction body as [a| |X f j IH]; intros m w Hg.
  - apply (Hg w). done.
  - by intros w1 H1.
  - intros w1 H1 Hv. destruct (Hg w1 H1 Hv) as (m' & Ha & Hk). exists m'. split; [done|]. by apply IH.
Qed.

Lemma guarded_mono {A : Type} m (body : Prog W A) (Φ Ψ : A → M → W → Prop) w :
  (∀ a m' w', Φ a m' w' → Ψ a m' w') → guarded m body Φ w → guarded m body Ψ w.
Proof.
  intros HΦ. revert m w. induction body as [a| |X f j IH]; intros m w Hg.
  - intros w1 H1. by apply HΦ, Hg.
  - by intros w1 H1.
  - intros w1 H1 Hv. destruct (Hg w1 H1 Hv) as (m' & Ha & Hk). exists m'. split; [done|]. by apply IH.
Qed.

Lemma guarded_ret {A : Type} m (a : A) (Φ : A → M → W → Prop) w :
  (∀ w', rely w w' → Φ a m w') → guarded m (mret a) Φ w.
Proof. auto. Qed.

(** One action, from any later store. *)
Lemma guarded_perform {X : Type} m m' (f : atomic W X) (Φ : X → M → W → Prop) w :
  (∀ w1, rely w w1 → within (f w1).2 →
     act m w1 m' (f w1).2 ∧ ∀ w2, rely (f w1).2 w2 → Φ (f w1).1 m' w2) →
  guarded m (perform f) Φ w.
Proof. intros Hf w1 H1 Hv. destruct (Hf w1 H1 Hv) as [Ha HΦ]. by exists m'. Qed.

(** An action that anyone may do and that needs nothing. *)
Variable calm : W → W → Prop.
Hypothesis calm_rely : ∀ w w', calm w w' → rely w w'.
Hypothesis calm_act : ∀ m w w', calm w w' → act m w m w'.

Lemma guarded_calm {A : Type} m (body : Prog W A) (Φ : A → M → W → Prop) w :
  steps calm body → (∀ a w', rely w w' → Φ a m w') → guarded m body Φ w.
Proof.
  revert w. induction body as [a| |X f j IH]; intros w Hs HΦ w1 H1; cbn in *; [by apply HΦ|done|].
  destruct Hs as [Hf Hj]. intros Hv. exists m. split; [by apply calm_act|]. apply IH; [done|].
  intros a w' Hw'. apply HΦ. etrans; [exact H1|]. etrans; [|exact Hw']. by apply calm_rely.
Qed.

(** Sequencing after a calm body. *)
Lemma guarded_calm_bind {A B : Type} m (body : Prog W A) (k : A → Prog W B) Φ w :
  steps calm body → (∀ a w', rely w w' → guarded m (k a) Φ w') → guarded m (body ≫= k) Φ w.
Proof. intros Hs Hk. by apply guarded_bind, guarded_calm. Qed.
End rely.
