(* ===== verification/Rights.v ===== *)
(** * Rights that goroutines win from a shared gate

    [Rely] with a number of rights.  Every action keeps the relation [R]; a
    body uses a right up when it does what [spent] counts, and may get one
    only from a step that shuts the gate.  Then at most one right is spent while the gate stays shut, however the bodies of the worker
    pool, of the other goroutines and [run] itself interleave. *)

From S2P Require Import Prelude GoLib RateLimit RateLimitFacts Cache CacheMemory CacheRedis.
From S2P Require Import Metrics ShardCommon World Retransmit Beacon Ingress Server ServerRun Lifecycle Rely.

Section rights.
Context {W : Type} (R : W → W → Prop) `{!PreOrder R}.

(** What is counted; whether the gate is shut; the stores considered. *)
Variable spent : W → nat.
Variable shut : W → Prop.
Variable within : W → Prop.
Hypothesis shut_stays : ∀ w w', R w w' → within w' → shut w → shut w'.

(** An action that uses no right. *)
Definition calm (w w' : W) : Prop := R w w' ∧ (spent w' ≤ spent w)%nat.

#[global] Instance calm_preorder : PreOrder calm.
Proof.
  split; [by split|]. intros w1 w2 w3 [H1 H2] [H3 H4]. split; [by etrans|lia].
Qed.

(** From [m] rights to [m']. *)
Definition acts (m : nat) (w : W) (m' : nat) (w' : W) : Prop :=
  R w w' ∧
  ((m' + spent w' ≤ m + spent w)%nat ∨
   (¬ shut w ∧ shut w' ∧ (m' + spent w' ≤ S (m + spent w))%nat)).

Lemma calm_acts m w w' : calm w w' → acts m w m w'.
Proof. intros [Hr Hs]. split; [done|]. left. lia. Qed.

Lemma calm_R w w' : calm w w' → R w w'.
Proof. by intros []. Qed.

Local Abbreviation guarded := (guarded R acts within).

(** ** The worker pool *)

Variable handle : nackRequest → Prog W unit.
Variable worker_done : W → W.

(** How the store moves whatever happens. *)
Context (later : W → W → Prop) `{!PreOrder later}.
Hypothesis R_later : ∀ w w', R w w' → later w w'.
Hypothesis within_back : ∀ w w', later w w' → within w' → within w.
Hypothesis handle_later : ∀ rq, steps later (handle rq).

(** What is known of the store when a request is taken. *)
Variable base : W → Prop.
Hypothesis base_stays : ∀ w w', R w w' → base w → base w'.
Hypothesis handle_guarded : ∀ rq w, base w → guarded 0%nat (handle rq) (fun _ _ _ => True) w.
Hypothesis worker_done_calm : ∀ w, calm w (worker_done w).

Definition worker_guarded (w : W) (x : worker_state W) (m : nat) : Prop :=
  match x with WBusy body => guarded m body (fun _ _ _ => True) w | _ => True end.

(** The workers' rights and what they have spent add up to at most one more
    than [n]; if it is one more the gate is shut. *)
Definition budget (n : nat) (ms : list nat) (w : W) : Prop :=
  (sum_list ms + spent w ≤ S n)%nat ∧ ((n < sum_list ms + spent w)%nat → shut w).

Record pool_inv (n : nat) (st : run_state W) : Prop := MkPoolInv {
  pi_base : base (rs_store st);
  pi_rights : ∃ ms, Forall2 (worker_guarded (rs_store st)) (rs_workers st) ms ∧ budget n ms (rs_store st);
}.

Lemma workers_later w w' xs ms :
  R w w' → Forall2 (worker_guarded w) xs ms → Forall2 (worker_guarded w') xs ms.
Proof.
  intros Hr Hw. eapply Forall2_impl; [exact Hw|]. intros [|body|] m; cbn; auto. by apply guarded_later.
Qed.

Lemma sum_list_insert (ms : list nat) i m m' :
  ms !! i = Some m → (sum_list (<[i := m']> ms) + m = sum_list ms + m')%nat.
Proof.
  revert i. induction ms as [|x ms IH]; intros [|i] Hi; simplify_eq/=; [lia|].
  specialize (IH i Hi). lia.
Qed.

Lemma budget_calm n ms w w' : calm w w' → within w' → budget n ms w → budget n ms w'.
Proof.
  intros [Hr Hs] Hv [Hb Hsh]. split; [lia|]. intros Hn. eapply shut_stays; [done..|]. apply Hsh. lia.
Qed.

Lemma budget_acts n ms i m m' w w' :
  ms !! i = Some m → acts m w m' w' → within w' → budget n ms w → budget n (<[i := m']> ms) w'.
Proof.
  intros Hi [Hr Ha] Hv [Hb Hsh]. pose proof (sum_list_insert ms i m m' Hi) as Hsum.
  destruct Ha as [Ha|(Hn & Hs' & Ha)].
  - split; [lia|]. intros Hlt. eapply shut_stays; [done..|]. apply Hsh. lia.
  - destruct (decide (n < sum_list ms + spent w)%nat) as [Hlt|Hge]; [by destruct Hn; apply Hsh|].
    split; [lia|done].
Qed.

(** A worker that stops being busy gives its rights up. *)
Lemma budget_drop n ms i w : budget n ms w → budget n (<[i := 0%nat]> ms) w.
Proof.
  intros [Hb Hsh]. destruct (ms !! i) as [m|] eqn:Hi.
  - pose proof (sum_list_insert ms i m 0 Hi). split; [lia|]. intros Hlt. apply Hsh. lia.
  - by rewrite list_insert_ge by (by apply lookup_ge_None).
Qed.

Lemma pool_inv_calm n st w' l q c d acc tk :
  calm (rs_store st) w' → within w' → pool_inv n st →
  pool_inv n (MkRun l q c d (rs_workers st) acc tk w').
Proof.
  intros Hc Hv [Hb (ms & Hw & Hbud)]. split; cbn; [by eapply base_stays; [apply Hc|]|].
  exists ms. split; [|by eapply budget_calm]. eapply workers_later; [apply Hc|done].
Qed.

(** A worker becomes idle, busy or gone, with no rights. *)
Lemma pool_inv_worker n st i x l q c d acc tk :
  worker_guarded (rs_store st) x 0 → pool_inv n st →
  pool_inv n (MkRun l q c d (<[i := x]> (rs_workers st)) acc tk (rs_store st)).
Proof.
  intros Hx [Hb (ms & Hw & Hbud)]. split; cbn; [done|]. exists (<[i := 0%nat]> ms).
  split; [by apply Forall2_insert|by apply budget_drop].
Qed.

Lemma after_read_store ev (st : run_state W) : rs_store (after_read ev st) = rs_store st.
Proof. destruct ev; cbn [after_read]; [done|by destruct (rs_done st)|by case_bool_decide]. Qed.

Lemma pool_step_inv n st st' :
  run_step handle worker_done st st' → within (rs_store st') → pool_inv n st → pool_inv n st'.
Proof.
  intros Hs Hv Hp. destruct Hs as [st Hd|st Hl Hd|st Hl Hd|st ev Hl|st rq Hl Hq|st rq Hl Hd|st i rq q Hi Hq
    |st i Hi Hd|st i Hi Hc Hq|st i X f k Hi|st i u Hi|st Hl Hg].
  1-3, 5-6: by apply pool_inv_calm.
  - rewrite after_read_store in Hv. destruct ev as [| |d src]; cbn [after_read].
    + by apply pool_inv_calm.
    + destruct (rs_done st); by apply pool_inv_calm.
    + case_bool_decide; by apply pool_inv_calm.
  - apply pool_inv_worker; [|done]. apply handle_guarded, Hp.
  - by apply pool_inv_worker.
  - by apply pool_inv_worker.
  - destruct Hp as [Hb (ms & Hw & Hbud)]. cbn in Hv.
    destruct (Forall2_lookup_l _ _ _ _ _ Hw Hi) as (m & Hm & Hg).
    destruct (Hg (rs_store st) (reflexivity _) Hv) as (m' & Ha & Hk). pose proof Ha as [Hr _].
    split; cbn; [by eapply base_stays|]. exists (<[i := m']> ms).
    split; [apply Forall2_insert; [by eapply workers_later|done]|by eapply budget_acts].
  - by apply pool_inv_worker.
  - by apply pool_inv_calm.
Qed.

(** ** The process *)

Variable set_draining : W → W.
Variable drain : bool.
Variable on_frame : bytes → Prog W unit.
Variable ingress_done : W → W.
Variable background : W → W → Prop.
Hypothesis set_draining_calm : ∀ w, calm w (set_draining w).
Hypothesis on_frame_calm : ∀ bs, steps calm (on_frame bs).
Hypothesis ingress_done_calm : ∀ w, calm w (ingress_done w).
Hypothesis background_calm : ∀ w w', background w w' → calm w w'.

Definition gor_calm (g : goroutine W) : Prop :=
  match g with
  | GTick b _ => steps calm b
  | GTickBusy b _ m => steps calm b ∧ steps calm m
  | GRecvBusy _ m | GExit m => steps calm m
  | _ => True
  end.

Local Abbreviation proc_step := 
  (proc_step handle worker_done set_draining drain on_frame ingress_done background).

Lemma after_recv_calm ctx r evs : gor_calm (after_recv on_frame ingress_done ctx r evs).
Proof.
  assert (gor_calm (GExit (modify ingress_done))) by (by apply steps_modify).
  destruct r as [bs|e]; cbn [after_recv]; [case_bool_decide; [apply on_frame_calm|done]|].
  destruct e; try destruct ctx; done.
Qed.

Lemma gor_step_calm ctx d g w g' w' :
  gor_step on_frame ingress_done ctx d g w g' w' → gor_calm g → calm w w' ∧ gor_calm g'.
Proof.
  intros Hs Hg. destruct Hs as [g w g' w' Hb|b n w|b n w Hc|r evs w|e evs w Hc He|s s' w Hsv|w];
    try (split; [done|]; auto using after_recv_calm; done).
  destruct Hb as [b n X f k w|b n u w|evs X f k w|evs u w|X f k w|u w]; cbn in *.
  - destruct Hg as [Hb [Hf Hk]]. split; [apply Hf|by split].
  - by destruct Hg.
  - destruct Hg as [Hf Hk]. by split.
  - done.
  - destruct Hg as [Hf Hk]. by split.
  - done.
Qed.

Lemma proc_step_gors p p' :
  proc_step p p' → Forall gor_calm (pc_gors p) → Forall gor_calm (pc_gors p').
Proof.
  intros Hs Hg. destruct Hs as [| | | | | | |m d st gs k i g g' w' Hi Hs|]; cbn in *; try done.
  apply Forall_insert; [done|]. eapply gor_step_calm; [exact Hs|]. by apply (proj1 (Forall_lookup _ _) Hg i).
Qed.

Lemma proc_reachable_gors p p' :
  rtc proc_step p p' → Forall gor_calm (pc_gors p) → Forall gor_calm (pc_gors p').
Proof. induction 1; eauto using proc_step_gors. Qed.

Definition proc_inv (n : nat) (p : proc W) : Prop :=
  pool_inv n (pc_server p) ∧ Forall gor_calm (pc_gors p).

Lemma proc_step_inv n p p' :
  proc_step p p' → within (store_of p') → proc_inv n p → proc_inv n p'.
Proof.
  intros Hs Hv [Hp Hg]. split; [|by eapply proc_step_gors].
  unfold store_of in Hv. destruct Hs as [d st gs k|d st gs k|d st gs k|d st gs k|d st gs k Hl Hgs|d st gs k
    |m d st st' gs k Hs He|m d st gs k i g g' w' Hi Hs|m d st gs k w' Hbg]; cbn in *; try done.
  - unfold on_signal in *. destruct drain; cbn in *; [by apply pool_inv_calm|done].
  - by apply pool_inv_calm.
  - by eapply pool_step_inv.
  - apply pool_inv_calm; [|done..]. eapply gor_step_calm; [exact Hs|]. by apply (proj1 (Forall_lookup _ _) Hg i).
  - apply pool_inv_calm; [by apply background_calm|done..].
Qed.

(** The store of a process moves along [later]. *)
Definition worker_later (x : worker_state W) : Prop :=
  match x with WBusy body => steps later body | _ => True end.

Definition proc_later (p : proc W) : Prop :=
  Forall worker_later (rs_workers (pc_server p)) ∧ Forall gor_calm (pc_gors p).

Lemma pool_step_later st st' :
  run_step handle worker_done st st' → Forall worker_later (rs_workers st) →
  later (rs_store st) (rs_store st') ∧ Forall worker_later (rs_workers st').
Proof.
  intros Hs Hw. destruct Hs as [st Hd|st Hl Hd|st Hl Hd|st ev Hl|st rq Hl Hq|st rq Hl Hd|st i rq q Hi Hq
    |st i Hi Hd|st i Hi Hc Hq|st i X f k Hi|st i u Hi|st Hl Hg]; cbn; try (split; [done|]); try done.
  - destruct ev; cbn [after_read]; [done|by destruct (rs_done st)|by case_bool_decide].
  - apply Forall_insert; [done|]. apply handle_later.
  - by apply Forall_insert.
  - by apply Forall_insert.
  - pose proof (proj1 (Forall_lookup _ _) Hw i _ Hi) as [Hf Hk]. split; [apply Hf|]. by apply Forall_insert; [|apply Hk].
  - by apply Forall_insert.
  - split; [|done]. apply R_later, worker_done_calm.
Qed.

Lemma proc_step_later p p' :
  proc_step p p' → proc_later p → later (store_of p) (store_of p') ∧ proc_later p'.
Proof.
  intros Hs [Hw Hg]. pose proof (proc_step_gors _ _ Hs Hg) as Hg'. unfold proc_later, store_of in *.
  destruct Hs as [d st gs k|d st gs k|d st gs k|d st gs k|d st gs k Hl Hgs|d st gs k
    |m d st st' gs k Hs He|m d st gs k i g g' w' Hi Hs|m d st gs k w' Hbg]; cbn in *; try done.
  - unfold on_signal. destruct drain; cbn; split; try done. apply R_later, set_draining_calm.
  - by destruct (pool_step_later st st' Hs Hw).
  - split; [|done]. apply R_later. eapply gor_step_calm; [exact Hs|]. by apply (proj1 (Forall_lookup _ _) Hg i).
  - split; [|done]. by apply R_later, background_calm.
Qed.

Lemma proc_reachable_later p p' :
  rtc proc_step p p' → proc_later p → later (store_of p) (store_of p') ∧ proc_later p'.
Proof.
  induction 1 as [p|p1 p2 p3 Hs _ IH]; [done|]. intros Hl.
  destruct (proc_step_later p1 p2 Hs Hl) as [H12 Hl2]. destruct (IH Hl2) as [H23 Hl3].
  split; [by etrans|done].
Qed.

(** No worker is processing a request. *)
Definition no_request (st : run_state W) : Prop :=
  Forall (fun x => match x with WBusy _ => False | _ => True end) (rs_workers st).

Lemma proc_inv_start p :
  no_request (pc_server p) → base (store_of p) → Forall gor_calm (pc_gors p) →
  proc_inv (spent (store_of p)) p.
Proof.
  intros Hn Hb Hg. split; [|done]. split; [done|]. exists (replicate (length (rs_workers (pc_server p))) 0%nat).
  assert (∀ k, sum_list (replicate k 0%nat) = 0%nat) as H0 by (induction k; simpl; lia).
  split.
  - apply Forall2_replicate_r; [done|]. eapply Forall_impl; [exact Hn|]. by intros [].
  - unfold budget. rewrite H0. unfold store_of. split; [lia|]. intros. lia.
Qed.
(** The invariant along a run that stays within the stores considered. *)
Lemma proc_reachable_inv n p p' :
  rtc proc_step p p' → within (store_of p') → proc_later p → proc_inv n p → proc_inv n p'.
Proof.
  intros Hr Hv. induction Hr as [p|p1 p2 p3 Hs Hr IH]; intros Hl Hp; [done|].
  destruct (proc_step_later p1 p2 Hs Hl) as [H12 Hl2]. apply IH; [done|done|].
  eapply proc_step_inv; [exact Hs| |done]. eapply within_back; [|exact Hv].
  by apply proc_reachable_later.
Qed.

(** From a state in which no request is being processed, what is spent grows
    by at most one. *)
Lemma proc_spends_once p0 p1 p :
  Forall worker_later (rs_workers (pc_server p0)) → Forall gor_calm (pc_gors p0) →
  rtc proc_step p0 p1 → no_request (pc_server p1) → base (store_of p1) →
  rtc proc_step p1 p → within (store_of p) → (spent (store_of p) ≤ S (spent (store_of p1)))%nat.
Proof.
  intros Hw0 Hg0 H01 Hn Hb H1 Hv. destruct (proc_reachable_later p0 p1 H01) as [_ Hl1]; [done|].
  destruct (proc_reachable_inv (spent (store_of p1)) p1 p) as [[_ (ms & _ & Hbud & _)] _]; try done.
  - apply proc_inv_start; [done|done|by apply Hl1].
  - unfold store_of at 1. lia.
Qed.
End rights.
