(* ===== verification/Account.v ===== *)
(** * Accounting for what a process does

    The store records events.  Every worker may cause only the events its
    request allows, the receive loop and the other goroutines only the events
    allowed to all; what a worker or the receive loop knows of the store while
    the others run is a rely ([Rely]).  Then every event of the process is
    allowed to all or by a request a worker has taken, under every
    interleaving. *)

From S2P Require Import Prelude GoLib RateLimit RateLimitFacts Cache CacheMemory CacheRedis.
From S2P Require Import Metrics ShardCommon World Retransmit Beacon Ingress Server ServerRun Lifecycle Rely.

Section account.
Context {W D : Type} (events : W → list D).

(** Between two actions of a worker the store moves along [R]; between two
    actions of the receive loop, along [Q]: the others do less than the receive
    loop. *)
Context (R Q : W → W → Prop) `{!PreOrder R, !PreOrder Q}.
Hypothesis Q_R : ∀ w w', Q w w' → R w w'.

(** What a request allows; what is allowed to all. *)
Variable may : nackRequest → D → Prop.
Variable free : D → Prop.

(** The events of an action satisfy [P]. *)
Definition emits (P : D → Prop) (w w' : W) : Prop :=
  ∃ new, events w' = events w ++ new ∧ Forall P new.

#[global] Instance emits_preorder P : PreOrder (emits P).
Proof.
  split.
  - intros w. exists []. by rewrite app_nil_r.
  - intros w1 w2 w3 (n & H1 & Hn) (n' & H2 & Hn'). exists (n ++ n'). rewrite H2, H1, (assoc_L (++)).
    split; [done|]. by apply Forall_app.
Qed.

Lemma emits_none P w w' : events w' = events w → emits P w w'.
Proof. intros He. exists []. by rewrite app_nil_r. Qed.

(** An action of a worker on a request, of the receive loop, of any other
    goroutine. *)
Definition serving (rq : nackRequest) (_ : unit) (w : W) (_ : unit) (w' : W) : Prop :=
  Q w w' ∧ emits (may rq) w w'.

Definition receiving (_ : unit) (w : W) (_ : unit) (w' : W) : Prop := R w w' ∧ emits free w w'.

Definition aside (w w' : W) : Prop := Q w w' ∧ emits free w w'.

Abbreviation anywhere := (fun _ : W => True).
Abbreviation whatever := (fun _ _ _ => True).

Variable handle : nackRequest → Prog W unit.
Variables (worker_done set_draining ingress_done : W → W) (drain : bool).
Variable on_frame : bytes → Prog W unit.
Variable background : W → W → Prop.

(** What is known of the store always; the datagrams received. *)
Variable base : W → Prop.
Variable datagram : bytes → Prop.
Hypothesis base_stays : ∀ w w', R w w' → base w → base w'.
Hypothesis handle_serves : ∀ rq w, base w → guarded R (serving rq) anywhere tt (handle rq) whatever w.
Hypothesis on_frame_receives :
  ∀ bs w, base w → datagram bs → guarded Q receiving anywhere tt (on_frame bs) whatever w.
Hypothesis worker_done_aside : ∀ w, aside w (worker_done w).
Hypothesis set_draining_aside : ∀ w, aside w (set_draining w).
Hypothesis ingress_done_aside : ∀ w, aside w (ingress_done w).
Hypothesis background_aside : ∀ w w', base w → background w w' → aside w w'.

Local Abbreviation proc_step :=
  (proc_step handle worker_done set_draining drain on_frame ingress_done background).

(** A body that is working for one of the requests. *)
Definition worker_serves (rqs : list nackRequest) (w : W) (x : worker_state W) : Prop :=
  match x with
  | WBusy body => ∃ rq, rq ∈ rqs ∧ guarded R (serving rq) anywhere tt body whatever w
  | _ => True
  end.

Definition recv_ok (r : recv) : Prop := match r with RecvData bs => datagram bs | _ => True end.

Definition receives (g : goroutine W) : bool :=
  match g with GRecv _ | GRecvBusy _ _ => true | _ => false end.

Definition gor_ok (w : W) (g : goroutine W) : Prop :=
  match g with
  | GTick b _ => steps aside b
  | GTickBusy b _ m => steps aside b ∧ steps aside m
  | GRecv evs => Forall recv_ok evs
  | GRecvBusy evs m => Forall recv_ok evs ∧ guarded Q receiving anywhere tt m whatever w
  | GExit m => steps aside m
  | _ => True
  end.

(** One goroutine receives. *)
Definition one_receiver (gs : list (goroutine W)) : Prop :=
  ∀ i j g g', gs !! i = Some g → gs !! j = Some g' → receives g = true → receives g' = true → i = j.

(** An event that is allowed. *)
Definition accounted (rqs : list nackRequest) (d : D) : Prop := free d ∨ ∃ rq, rq ∈ rqs ∧ may rq d.

Record pool_account (st : run_state W) : Prop := MkPoolAccount {
  pa_base : base (rs_store st);
  pa_workers : Forall (worker_serves (rs_taken st) (rs_store st)) (rs_workers st);
  pa_events : Forall (accounted (rs_taken st)) (events (rs_store st));
}.

Definition account (p : proc W) : Prop :=
  pool_account (pc_server p) ∧ Forall (gor_ok (store_of p)) (pc_gors p) ∧ one_receiver (pc_gors p).

(** ** What survives *)

Lemma worker_serves_stays rqs rqs' w w' x :
  R w w' → rqs ⊆ rqs' → worker_serves rqs w x → worker_serves rqs' w' x.
Proof.
  intros Hr Hs. destruct x as [|body|]; cbn; auto. intros (rq & Hin & Hg). exists rq.
  split; [by apply Hs|by eapply guarded_later].
Qed.

Lemma accounted_mono rqs rqs' d : rqs ⊆ rqs' → accounted rqs d → accounted rqs' d.
Proof. intros Hs [Hf|(rq & Hin & Hm)]; [by left|]. right. exists rq. auto. Qed.

Lemma gor_ok_stays w w' g : (receives g = true → Q w w') → gor_ok w g → gor_ok w' g.
Proof.
  intros Hq. destruct g; cbn in *; auto. intros [He Hg]. split; [done|]. apply (guarded_later Q _ _ _ _ _ w w'); auto.
Qed.

Lemma emits_accounted rqs P w w' :
  (∀ d, P d → accounted rqs d) → emits P w w' →
  Forall (accounted rqs) (events w) → Forall (accounted rqs) (events w').
Proof.
  intros HP (new & -> & Hn) He. apply Forall_app. split; [done|]. by eapply Forall_impl.
Qed.

(** A move of the store by [R] with accounted events. *)
Lemma pool_account_moves st w' l q c d acc tk P :
  R (rs_store st) w' → emits P (rs_store st) w' → rs_taken st ⊆ tk → (∀ e, P e → accounted tk e) →
  pool_account st → pool_account (MkRun l q c d (rs_workers st) acc tk w').
Proof.
  intros Hr Hem Hs HP [Hb Hw He]. split; cbn; [by eapply base_stays| |].
  - eapply Forall_impl; [exact Hw|]. intros x. by apply worker_serves_stays.
  - eapply emits_accounted; [exact HP|done|]. eapply Forall_impl; [exact He|]. intros e. by apply accounted_mono.
Qed.

Lemma pool_account_aside st w' l q c d acc :
  aside (rs_store st) w' → pool_account st → pool_account (MkRun l q c d (rs_workers st) acc (rs_taken st) w').
Proof.
  intros [Hq He] Hp. eapply pool_account_moves; [by apply Q_R|exact He|done| |done]. by left.
Qed.

Lemma aside_refl w : aside w w.
Proof. split; [done|by apply emits_none]. Qed.

(** A worker changes its state. *)
Lemma pool_account_worker st i x l q c d acc tk :
  rs_taken st ⊆ tk → worker_serves tk (rs_store st) x → pool_account st →
  pool_account (MkRun l q c d (<[i := x]> (rs_workers st)) acc tk (rs_store st)).
Proof.
  intros Hs Hx [Hb Hw He]. split; cbn; [done| |].
  - apply Forall_insert; [|done]. eapply Forall_impl; [exact Hw|]. intros y. by apply worker_serves_stays.
  - eapply Forall_impl; [exact He|]. intros e. by apply accounted_mono.
Qed.

(** ** Every step *)

Lemma pool_step_account st st' :
  run_step handle worker_done st st' → pool_account st →
  pool_account st' ∧ Q (rs_store st) (rs_store st') .
Proof.
  intros Hs Hp. destruct Hs as [st Hd|st Hl Hd|st Hl Hd|st ev Hl|st rq Hl Hq|st rq Hl Hd|st i rq q Hi Hq
    |st i Hi Hd|st i Hi Hc Hq|st i X f k Hi|st i u Hi|st Hl Hg].
  1-3, 5-6: (split; [|done]); apply pool_account_aside; [apply aside_refl|done].
  - split; [|by destruct ev; cbn [after_read]; [|destruct (rs_done st)|case_bool_decide]].
    destruct ev as [| |d src]; cbn [after_read]; [|destruct (rs_done st)|case_bool_decide];
      (apply pool_account_aside; [apply aside_refl|done]).
  - split; [|done]. apply pool_account_worker; [set_solver| |done]. exists rq. split; [set_solver|].
    apply handle_serves, Hp.
  - split; [|done]. by apply pool_account_worker.
  - split; [|done]. by apply pool_account_worker.
  - destruct (proj1 (Forall_lookup _ _) (pa_workers _ Hp) i _ Hi) as (rq & Hin & Hg).
    destruct (Hg (rs_store st) (reflexivity _) I) as ([] & [Hq He] & Hk). cbn.
    split; [|done]. unfold worker_action.
    assert (pool_account (MkRun (rs_loop st) (rs_queue st) (rs_closed st) (rs_done st) (rs_workers st)
      (rs_accepted st) (rs_taken st) (f (rs_store st)).2)) as Hp'.
    { eapply pool_account_moves; [by apply Q_R|exact He|done| |done]. intros d Hd. right. by exists rq. }
    refine (pool_account_worker _ i (WBusy (k (f (rs_store st)).1)) _ _ _ _ _ (rs_taken st) _ _ Hp'); [done|].
    by exists rq.
  - split; [|done]. by apply pool_account_worker.
  - cbn. split; [|apply worker_done_aside]. by apply pool_account_aside.
Qed.

Lemma gor_ok_recv ctx r evs w :
  base w → recv_ok r → Forall recv_ok evs → gor_ok w (after_recv on_frame ingress_done ctx r evs).
Proof.
  intros Hb Hr He. assert (gor_ok w (GExit (modify ingress_done))) by (by apply steps_modify).
  destruct r as [bs|e]; cbn [after_recv].
  - case_bool_decide; [|done]. split; [done|]. by apply on_frame_receives.
  - destruct e; try destruct ctx; done.
Qed.

(** Only the receiving goroutine does more than [Q]. *)
Lemma gor_step_account ctx d g w g' w' :
  gor_step on_frame ingress_done ctx d g w g' w' → base w → gor_ok w g →
  R w w' ∧ emits free w w' ∧ (receives g = false → Q w w') ∧ gor_ok w' g' ∧
  (receives g' = true → receives g = true).
Proof.
  intros Hs Hb Hg. assert (emits free w w) as Hn by (by apply emits_none).
  destruct Hs as [g w g' w' Hbusy|b n w|b n w Hc|r evs w|e evs w Hc He|s s' w Hsv|w]; cbn in Hg.
  - destruct Hbusy as [b n X f k w|b n u w|evs X f k w|evs u w|X f k w|u w]; cbn in *; try done.
    + destruct Hg as [Hb' [Hf Hk]]. destruct (Hf w) as [Hq He]. split_and!; auto.
    + by destruct Hg.
    + destruct Hg as [Hevs Hg]. destruct (Hg w (reflexivity _) I) as ([] & [Hr He] & Hk). by split_and!.
    + by destruct Hg.
    + destruct Hg as [Hf Hk]. destruct (Hf w) as [Hq He]. split_and!; auto.
  - by split_and!.
  - by split_and!.
  - apply Forall_cons_1 in Hg as [Hr Hevs]. split_and!; [done..|by apply gor_ok_recv|done].
  - split_and!; [done..|by apply gor_ok_recv|done].
  - by split_and!.
  - by split_and!.
Qed.

Lemma one_receiver_middle pre g post :
  Forall (fun g => receives g = false) pre → Forall (fun g => receives g = false) post →
  one_receiver (pre ++ g :: post).
Proof.
  intros Hpre Hpost.
  assert (∀ i x, (pre ++ g :: post) !! i = Some x → receives x = true → i = length pre) as Hi.
  { intros i x Hx Hr. apply lookup_app_Some in Hx as [Hx|[Hle Hx]].
    - apply (proj1 (Forall_lookup _ _) Hpre) in Hx. congruence.
    - destruct (i - length pre)%nat as [|j] eqn:Hj; [lia|].
      apply (proj1 (Forall_lookup _ _) Hpost) in Hx. congruence. }
  intros i j x y Hx Hy Hrx Hry. by rewrite (Hi i x), (Hi j y).
Qed.

Lemma one_receiver_insert gs i g g' :
  gs !! i = Some g → (receives g' = true → receives g = true) → one_receiver gs → one_receiver (<[i := g']> gs).
Proof.
  intros Hi Hg Ho j k x y Hj Hk Hx Hy.
  assert (∀ j x, <[i := g']> gs !! j = Some x → receives x = true →
    ∃ x', gs !! j = Some x' ∧ receives x' = true) as Hold.
  { intros l z Hl Hz. destruct (decide (i = l)) as [<-|Hne].
    - rewrite list_lookup_insert_eq in Hl by (by eapply lookup_lt_Some). injection Hl as <-. by exists g; auto.
    - rewrite list_lookup_insert_ne in Hl by done. by exists z. }
  destruct (Hold j x Hj Hx) as (x' & Hj' & Hx'), (Hold k y Hk Hy) as (y' & Hk' & Hy'). by eapply Ho.
Qed.

Lemma gors_stay w w' gs : Q w w' → Forall (gor_ok w) gs → Forall (gor_ok w') gs.
Proof. intros Hq Hg. eapply Forall_impl; [exact Hg|]. intros g. by apply gor_ok_stays. Qed.

(** The goroutines after one of them has moved. *)
Lemma gors_move w w' gs i g g' :
  gs !! i = Some g → (receives g = false → Q w w') → (receives g' = true → receives g = true) →
  gor_ok w' g' → one_receiver gs → Forall (gor_ok w) gs → Forall (gor_ok w') (<[i := g']> gs).
Proof.
  intros Hi Hq Hg' Hok Ho Hg. apply Forall_lookup. intros j x Hj. destruct (decide (i = j)) as [<-|Hne].
  - rewrite list_lookup_insert_eq in Hj by (by eapply lookup_lt_Some). by injection Hj as <-.
  - rewrite list_lookup_insert_ne in Hj by done. eapply gor_ok_stays; [|by apply (proj1 (Forall_lookup _ _) Hg j)].
    intros Hx. apply Hq. destruct (receives g) eqn:Hrg; [|done]. by destruct Hne; eapply Ho.
Qed.

Lemma proc_step_account p p' : proc_step p p' → account p → account p'.
Proof.
  intros Hs (Hp & Hg & Ho). unfold account, store_of in *.
  destruct Hs as [d st gs k|d st gs k|d st gs k|d st gs k|d st gs k Hl Hgs|d st gs k
    |m d st st' gs k Hs He|m d st gs k i g g' w' Hi Hs|m d st gs k w' Hbg]; cbn in *; try done.
  - unfold on_signal. destruct drain; cbn; [|done]. pose proof (set_draining_aside (rs_store st)) as Ha.
    split_and!; [by apply pool_account_aside| |done]. eapply gors_stay; [apply Ha|done].
  - split_and!; [|done..]. apply pool_account_aside; [apply aside_refl|done].
  - destruct (pool_step_account _ _ Hs Hp) as [Hp' Hq]. split_and!; [done| |done]. by eapply gors_stay.
  - destruct (gor_step_account _ _ _ _ _ _ Hs (pa_base _ Hp) (proj1 (Forall_lookup _ _) Hg i _ Hi))
      as (Hr & He & Hq & Hg' & Hrec).
    split_and!; [|by eapply gors_move|by eapply one_receiver_insert].
    eapply pool_account_moves; [done|exact He|done| |done]. by left.
  - pose proof (background_aside _ _ (pa_base _ Hp) Hbg) as Ha.
    split_and!; [by apply pool_account_aside| |done]. eapply gors_stay; [apply Ha|done].
Qed.

Lemma proc_reachable_account p p' : rtc proc_step p p' → account p → account p'.
Proof. induction 1; eauto using proc_step_account. Qed.
End account.
