(* ===== verification/Process.v ===== *)
(** * The whole process: the goroutines of [run] (main.go)

    [Lifecycle] instantiated with the program: the server processes requests
    with [processNACK], the ingress worker frames with [processFrame], the
    sampler reads the size of the cache, the beacon sends ADVERTs.  After a
    signal the process ends. *)

From S2P Require Import Prelude GoLib RateLimit RateLimitFacts ServiceConfig Cache CacheMemory.
From S2P Require Import CacheRedis Metrics ShardCommon World Retransmit Beacon Ingress Server.
From S2P Require Import ServerRun Concurrency Lifecycle.

Section process.
Context {RL : RateLib} {FL : FrameLib} {SH : ShardLib} {C E : Type} `{!Backend C E}.

(** The cache size sampler, on one tick. *)
Definition sample_size (Len : C → Z) : Prog (World C) unit :=
  n ← perform (fun w : World C => (Len (w_cache w), w));
  with_rec (rec_CacheSize n).

(** One datagram, received into the buffer and processed. *)
Definition ingress_frame (wk : Worker) (buf : nat) (bs : bytes) : Prog (World C) unit :=
  _ ← receive_into buf bs;
  processFrame wk (Slice buf 0 (length bs)).

(** The ingress goroutine after [Run] has opened the socket ([opened]) and
    joined the groups ([joins]). *)
Definition ingress_goroutine (opened : option errno) (joins : list (option errno)) (evs : list recv)
    : goroutine (World C) :=
  match opened, head (omap id joins) with
  | None, None => GRecvBusy evs (with_rec rec_WorkerReady)
  | _, _ => GReturned
  end.

(** The beacon goroutine. *)
Definition beacon_goroutine (oob : float64 → Z) (c : BeaconConfig) (dial : UDPAddr → option E)
    (ticks : nat) : goroutine (World C) :=
  let buf := buildADVERT oob c in
  let conns := filter (fun g => dial g = None) (beaconGroups c) in
  if bool_decide (length conns = 0%nat) then GReturned
  else GTickBusy (send conns buf) ticks (if bc_Interval c <=? 0 then Panic else send conns buf).

(** What the goroutines meet outside: the sockets they open, and the ticks and
    datagrams that will come. *)
Record outside := MkOutside {
  ou_opened : option errno;
  ou_joins : list (option errno);
  ou_recvs : list recv;
  ou_sizeTicks : nat;
  ou_dial : UDPAddr → option E;
  ou_advertTicks : nat;
  ou_listen : option E;
  ou_background : nat;
}.

(** The goroutines, in the order in which [run] starts them; the sampler only
    if the cache has a [Len] method, the beacon only if it is enabled. *)
Definition goroutines (oob : float64 → Z) (sizer : option (C → Z)) (beacon : option BeaconConfig)
    (o : outside) : list (goroutine (World C)) :=
  [GServe SListening]
  ++ (match sizer with Some Len => [GTick (sample_size Len) (ou_sizeTicks o)] | None => [] end)
  ++ [ingress_goroutine (ou_opened o) (ou_joins o) (ou_recvs o)]
  ++ (match beacon with Some c => [beacon_goroutine oob c (ou_dial o) (ou_advertTicks o)] | None => [] end).

(** The server's [Run], which returns at once if it cannot listen. *)
Definition server_goroutine (s : Server) (listen : option E) (w : World C) : run_state (World C) :=
  match server_Run s listen w with
  | Ok st => st
  | Err _ => MkRun LReturned [] false false [] [] [] w
  end.

(** The process when [run] has started its goroutines and waits for a signal. *)
Definition running (oob : float64 → Z) (s : Server) (sizer : option (C → Z))
    (beacon : option BeaconConfig) (o : outside) (w : World C) : proc (World C) :=
  MkProc MSignal false (server_goroutine s (ou_listen o) w) (goroutines oob sizer beacon o) (ou_background o).

(** What happens to the backend in the background, [bg now c c'] at the time
    [now]: a sweep of the in-memory cache, another endpoint's use of Redis. *)
Inductive background (bg : Z → C → C → Prop) (w : World C) : World C → Prop :=
| Background c : bg (env_clock (w_env w) (w_reads w)) (w_cache w) c → background bg w (set_cache c (time_now w).2).

Definition program_step (s : Server) (wk : Worker) (buf : nat) (f : flags) (bg : Z → C → C → Prop) :
    proc (World C) → proc (World C) → Prop :=
  proc_step (server_handle s) (update_rec rec_WorkerDone) (update_rec rec_SetDraining)
    (0 <? f_DrainTimeout f) (ingress_frame wk buf) (update_rec rec_WorkerDone) (background bg).

(** ** No goroutine panics *)

Context {J : C → Prop} `{!BackendInv C E J} {chain_max seq_max : Z} {np : bool}.
Hypothesis caps_ok : np = true → make_times_ok chain_max = true ∧ make_times_ok seq_max = true.
Local Abbreviation bounded := (bounded (J := J) (chain_max := chain_max) (seq_max := seq_max)).

Lemma pres_sample_size Len : preserves np bounded (sample_size Len).
Proof.
  apply preserves_bind; [by apply preserves_perform|]. intros n. apply pres_with_rec_keeps.
Qed.

Lemma pres_ingress_frame wk buf bs : preserves np bounded (ingress_frame wk buf bs).
Proof.
  apply preserves_bind; [apply preserves_modify; by intros w []|]. intros _. by apply pres_processFrame.
Qed.

Lemma pres_send conns buf : preserves np bounded (send (C := C) conns buf).
Proof.
  induction conns as [|g conns IH]; cbn [send]; [apply preserves_mret|].
  apply preserves_bind.
  - apply preserves_perform. intros w []. unfold net_send. constructor; cbn; auto.
    destruct (env_write _ _); [|done]. apply Forall_app. split; [done|]. by repeat constructor.
  - intros ok. apply preserves_bind; [destruct ok; [apply pres_with_rec_keeps|apply preserves_mret]|done].
Qed.

Lemma running_preserves oob s sizer beacon o w :
  (∀ c, beacon = Some c → 0 < bc_Interval c) → bounded w →
  proc_preserves np bounded (running oob s sizer beacon o w).
Proof.
  intros Hint Hb. unfold proc_preserves, running, store_of. cbn [pc_server pc_gors].
  split_and!.
  - unfold server_goroutine, server_Run. destruct (ou_listen o); [done|]. by apply keeps_update_rec.
  - unfold server_goroutine, server_Run. destruct (ou_listen o); [constructor|]. by apply Forall_replicate.
  - unfold goroutines. rewrite !Forall_app. split_and!.
    + by repeat constructor.
    + destruct sizer; [|constructor]. apply Forall_cons_2; [apply pres_sample_size|constructor].
    + apply Forall_cons_2; [|constructor]. unfold ingress_goroutine.
      destruct (ou_opened o), (head (omap id (ou_joins o))); try done. cbn [gor_preserves]. apply pres_with_rec_keeps.
    + destruct beacon as [c|]; [|constructor].
      apply Forall_cons_2; [|constructor]. unfold beacon_goroutine. cbv zeta.
      case_bool_decide; [done|]. specialize (Hint c eq_refl).
      rewrite (proj2 (Z.leb_gt _ _)) by done. split; apply pres_send.
Qed.

Lemma keeps_background bg w w' :
  (∀ now c c', bg now c c' → J c → J c') → background bg w w' → bounded w → bounded w'.
Proof. intros Hbg [c Hc] []. constructor; cbn; eauto. Qed.

Lemma program_step_preserves s wk buf f bg p p' :
  (∀ now c c', bg now c c' → J c → J c') → program_step s wk buf f bg p p' → proc_preserves np bounded p → proc_preserves np bounded p'.
Proof.
  intros Hgc. apply proc_step_preserves; intros; try apply keeps_update_rec; try done.
  - by apply pres_processNACK.
  - apply pres_ingress_frame.
  - by eapply keeps_background.
Qed.

Lemma program_reachable_preserves s wk buf f bg p p' :
  (∀ now c c', bg now c c' → J c → J c') → rtc (program_step s wk buf f bg) p p' → proc_preserves np bounded p → proc_preserves np bounded p'.
Proof. intros Hgc. induction 1; eauto using program_step_preserves. Qed.
End process.

Arguments outside E : clear implicits.

(** Every backend keeps the trivial invariant. *)
Definition any_backend_inv (C E : Type) `{!Backend C E} : BackendInv C E (fun _ => True).
Proof. by constructor. Qed.

Lemma running_ok {RL : RateLib} {FL : FrameLib} {SH : ShardLib} {C E : Type} `{!Backend C E}
    oob s sizer beacon (o : outside E) (w : World C) :
  proc_ok (running oob s sizer beacon o w).
Proof.
  constructor; unfold pc_ctx, running; cbn; [|done|by intros [|]].
  unfold server_goroutine. destruct (server_Run s _ w) eqn:Hs; [|done].
  unfold server_Run in Hs. destruct (ou_listen o); [done|]. by injection Hs as <-.
Qed.

Lemma fresh_bounded {RL : RateLib} {FL : FrameLib} {C : Type} oob cfg (w : World C) :
  w_limiter w = New oob cfg → w_sent w = [] →
  bounded (J := fun _ => True) (chain_max := wl_max (chainLimiter (New oob cfg)))
    (seq_max := SequenceMax cfg) w.
Proof. intros Hl Hs. constructor; rewrite ?Hl, ?Hs; done. Qed.

(** The process ends after a signal.  Take the whole program as [run]
    starts it, with any cache backend, on a fresh limiter whose caps the
    run-time can allocate, whatever requests, datagrams, errors and ticks
    come and however the goroutines are scheduled.  No goroutine ever panics.
    From the signal to [wg.Wait()] [run] itself is never blocked by another
    goroutine.  Once it has cancelled the context the process makes only
    finitely many further steps, and it stops only when [run] has returned;
    then, and as soon as the exporters are shut down, the server's [Run] and
    every other goroutine have returned. *)
Lemma process_ends {RL : RateLib} {FL : FrameLib} {SH : ShardLib} {C E : Type} `{!Backend C E}
    (oob : float64 → Z) (cfg : Config) (s : Server) (wk : Worker) (buf : nat) (f : flags)
    (sizer : option (C → Z)) (beacon : option BeaconConfig) (o : outside E) (bg : Z → C → C → Prop) (w : World C)
    (p : proc (World C)) :
  w_limiter w = New oob cfg → w_sent w = [] →
  make_times_ok (wl_max (chainLimiter (New oob cfg))) = true → make_times_ok (SequenceMax cfg) = true →
  (∀ c, beacon = Some c → 0 < bc_Interval c) →
  rtc (program_step s wk buf f bg) (running oob s sizer beacon o w) p →
  ¬ proc_panicked p ∧
  (pc_main p ≠ MWait → pc_main p ≠ MReturned →
   ∃ p', program_step s wk buf f bg p p' ∧ (main_rank (pc_main p') < main_rank (pc_main p))%nat) ∧
  (pc_ctx p = true →
   sn (program_step s wk buf f bg) p ∧
   ∀ p', rtc (program_step s wk buf f bg) p p' → nf (program_step s wk buf f bg) p' → pc_main p' = MReturned) ∧
  (pc_main p = MShutdown ∨ pc_main p = MReturned →
   rs_loop (pc_server p) = LReturned ∧ Forall (fun g => g = GReturned) (pc_gors p)).
Proof.
  intros Hl Hsent Hchain Hseq Hint Hr.
  pose proof (any_backend_inv C E) as Hinv.
  assert (∀ p', rtc (program_step s wk buf f bg) (running oob s sizer beacon o w) p' → ¬ proc_panicked p') as Hnp.
  { intros p' Hr'. eapply preserved_no_panic, (program_reachable_preserves (np := true)
      (chain_max := wl_max (chainLimiter (New oob cfg))) (seq_max := SequenceMax cfg)); [by intros _|done| |].
    - exact Hr'.
    - by apply running_preserves, fresh_bounded. }
  pose proof (proc_reachable_ok _ _ _ _ _ _ _ _ _ Hr (running_ok oob s sizer beacon o w)) as Hok.
  split_and!; [by apply Hnp|by apply main_moves| |by apply Hok].
  intros Hc. split; [by apply proc_sn|]. intros p' Hp' Hnf.
  destruct (proc_progress (server_handle s) (update_rec rec_WorkerDone) (update_rec rec_SetDraining)
    (0 <? f_DrainTimeout f) (ingress_frame wk buf) (update_rec rec_WorkerDone) (background bg) p') as [Hm|Hp]; [| |done|done|].
  - by eapply proc_reachable_ok.
  - by eapply proc_ctx_stays.
  - exfalso. by apply (Hnp p'); [etrans|].
Qed.

(** The background goroutine of the in-memory cache. *)
Definition mem_background (now : Z) (c c' : MemCache) : Prop := c' = mem_tick now c.

Lemma mem_background_inv max now c c' : mem_background now c c' → mem_inv max c → mem_inv max c'.
Proof. intros ->. apply mem_tick_inv. Qed.

(** C12: the limits hold in the running process.  Take the whole program on a
    fresh limiter and an in-memory cache: the NACK server with any number of
    workers, the ingress worker on any datagrams, the sampler, the beacon, the
    cache's background goroutine, a shutdown at any time.  However their
    atomic actions interleave, the cache never holds more keys than its limit,
    no key of the chain or sequence tier ever holds more timestamps than the
    tier's cap, every response sent is a 16-byte ACK or MISS, and frames only
    leave by open egress sockets. *)
Theorem process_limits {RL : RateLib} {FL : FrameLib} {SH : ShardLib} {E : Type}
    (oob : float64 → Z) (cfg : Config) (max : Z) (s : Server) (wk : Worker) (buf : nat) (f : flags)
    (sizer : option (MemCache → Z)) (beacon : option BeaconConfig) (o : outside E) (w : World MemCache)
    (p : proc (World MemCache)) :
  w_limiter w = New oob cfg → w_cache w = mem_New max → w_sent w = [] →
  (∀ c, beacon = Some c → 0 < bc_Interval c) →
  rtc (program_step (E := E) s wk buf f mem_background) (running oob s sizer beacon o w) p →
  let w' := store_of p in
  (0 < max → mem_Len (w_cache w') ≤ max) ∧
  (∀ key ts, wl_keys (chainLimiter (w_limiter w')) !! key = Some ts →
     Z.of_nat (length ts) ≤ wl_max (chainLimiter (New oob cfg))) ∧
  (∀ key ts, wl_keys (seqLimiter (w_limiter w')) !! key = Some ts →
     Z.of_nat (length ts) ≤ Z.max 0 (SequenceMax cfg)) ∧
  Forall (sent_ok (w_sockets w')) (w_sent w').
Proof.
  intros Hl Hc Hsent Hint Hr. cbv zeta.
  pose proof (program_reachable_preserves (np := false) (J := mem_inv max) ltac:(done) _ _ _ _ _ _ _
    (mem_background_inv max) Hr (running_preserves oob s sizer beacon o w Hint (bounded_start oob cfg max w Hl Hc Hsent)))
    as [[Hcache Hchain Hseq Hkeys Hseqs Hout] _].
  split_and!; [|intros key ts Hk..|done].
  - intros H0. destruct Hcache as [<- Hm]. by apply Hm.
  - pose proof (Hkeys key ts Hk) as Hts. rewrite Hchain in Hts.
    rewrite Z.max_r in Hts by (apply Z.lt_le_incl, New_chain_positive). exact Hts.
  - rewrite <- Hseq. by apply (Hseqs key).
Qed.
