(* ===== verification/Startup.v ===== *)
(** * Starting and leaving [run] (main.go)

    [main] and [run]: the configuration, the exporters, the cache backend and
    the deduplication gate, the interfaces and sockets, the NACK address, the
    components, the goroutines, the beacon; every early return with its error,
    and the deferred calls that then release what has been acquired. *)

From S2P Require Import Prelude GoLib Strconv NetIP GoParse Flag RateLimit RateLimitFacts.
From S2P Require Import ServiceConfig ConfigFacts CommandLine Cache CacheMemory CacheRedis.
From S2P Require Import Metrics ShardCommon World Retransmit Beacon Ingress Server Main MainFacts.
From S2P Require Import ServerRun Concurrency Lifecycle Process.

(** The deployments the configuration selects. *)
Inductive deployment := MemoryOnly | RedisOnly | MemoryWithGate.

(** What [run] acquires and has to release. *)
Inductive resource := RCache | RGate | RSocket (iface : bytes) | RContext.

(** The deferred calls. *)
Inductive cleanup := CloseCache | CloseGate | CloseEgress (ifaces : list bytes) | CancelContext.

Definition releases (c : cleanup) : list resource :=
  match c with
  | CloseCache => [RCache]
  | CloseGate => [RGate]
  | CloseEgress ifaces => RSocket <$> ifaces
  | CancelContext => [RContext]
  end.

Section startup.
Context {RL : RateLib} {FL : FrameLib} {SH : ShardLib} {E : Type} `{!OTelLib E}.

Inductive run_error :=
| ConfigFailed (e : config_error)
| MetricsFailed (e : metrics_error E)
| RedisAddrRequired
| RedisFailed (e : E)
| InterfaceNotFound (name : bytes)
| OpenFailed (e : E)
| NACKAddrFailed (e : addr_error)
| BeaconFailed (e : addr_error)
| IndexOutOfRange.     (* a run-time panic *)

(** What the host answers, in the order in which [run] asks. *)
Record host := MkHost {
  ho_args : list bytes;
  ho_Getenv : bytes → bytes;
  ho_NumCPU : Z;
  ho_knows : bytes → bool;                    (* net.InterfaceByName, in Load *)
  ho_hostname : result bytes unit;
  ho_now : Z;
  ho_redis : option E;                        (* redis.New *)
  ho_iface : bytes → option Interface;        (* net.InterfaceByName, in run *)
  ho_open : Interface → option E;             (* openEgressSocket *)
  ho_addrs : nat → Interface → option (list net_Addr);   (* iface.Addrs, per call *)
}.

(** What [run] has done so far: the deferred calls, the last one first, and
    the resources acquired, in order. *)
Record progress := MkProgress {
  pg_deferred : list cleanup;
  pg_acquired : list resource;
}.

(** The statements of [run]: fail with an error, or go on. *)
Definition Run (A : Type) : Type := progress → result A run_error * progress.

#[local] Instance run_mret : MRet Run := fun A a g => (Ok a, g).

#[local] Instance run_mbind : MBind Run := fun A B k m g =>
  match m g with
  | (Ok a, g') => k a g'
  | (Err e, g') => (Err e, g')
  end.

Definition fail {A : Type} (e : run_error) : Run A := fun g => (Err e, g).

Definition acquire (rs : list resource) : Run unit :=
  fun g => (Ok tt, MkProgress (pg_deferred g) (pg_acquired g ++ rs)).

Definition defer (c : cleanup) : Run unit :=
  fun g => (Ok tt, MkProgress (c :: pg_deferred g) (pg_acquired g)).

(** The cache backend; unknown names, which [Load] refuses, mean memory. *)
Definition open_cache (h : host) (f : flags) : Run bool :=
  is_redis ← (if bool_decide (f_CacheBackend f = str "redis") then
                if bool_decide (f_RedisAddr f = []) then fail RedisAddrRequired
                else match ho_redis h with
                     | Some e => fail (RedisFailed e)
                     | None => mret true
                     end
              else mret false);
  _ ← acquire [RCache];
  _ ← defer CloseCache;
  mret is_redis.

(** The deduplication gate: Redis too if it is configured and answers. *)
Definition open_gate (h : host) (f : flags) (is_redis : bool) : Run deployment :=
  if is_redis then mret RedisOnly
  else if bool_decide (f_RedisAddr f = []) then mret MemoryOnly
  else
    match ho_redis h with
    | Some _ => mret MemoryOnly
    | None => _ ← acquire [RGate]; _ ← defer CloseGate; mret MemoryWithGate
    end.

Fixpoint resolve_ifaces (h : host) (names : list bytes) : Run (list Interface) :=
  match names with
  | [] => mret []
  | name :: names' =>
      match ho_iface h name with
      | None => fail (InterfaceNotFound name)
      | Some i => rest ← resolve_ifaces h names'; mret (i :: rest)
      end
  end.

(** The interfaces for which [Open] opens a socket: up to the first failure. *)
Fixpoint opened (open : Interface → option E) (ifaces : list Interface) : list Interface :=
  match ifaces with
  | [] => []
  | i :: ifaces' => match open i with Some _ => [] | None => i :: opened open ifaces' end
  end.

(** [retrans.Open()], which defers nothing when it fails.  [Close] closes the
    sockets of the map, one per name. *)
Definition open_egress (h : host) (ifaces : list Interface) : Run (gmap bytes Z) :=
  _ ← acquire ((fun i => RSocket (if_Name i)) <$> opened (ho_open h) ifaces);
  match open_sockets (ho_open h) ifaces ∅ with
  | (Err e, _) => fail (OpenFailed e)
  | (Ok _, sockets) => _ ← defer (CloseEgress (map_to_list sockets).*1); mret sockets
  end.

(** The address to bind and to advertise, on the [n]-th call. *)
Definition nack_addr (h : host) (n : nat) (f : flags) (iface : Interface) :
    result (option bytes) addr_error :=
  pickBeaconNACKAddr (f_BeaconNACKAddr f) (ho_addrs h n iface).

(** What [run] has built when its goroutines run. *)
Record started := MkStarted {
  sd_config : ServiceConfig;
  sd_recorder : Recorder;
  sd_provider : Provider;
  sd_deployment : deployment;
  sd_groups : list UDPAddr;
  sd_mcIface : Interface;
  sd_egress : list Interface;
  sd_limits : Config;
  sd_sockets : gmap bytes Z;
  sd_server : Server;
  sd_worker : Worker;
  sd_beacon : option BeaconConfig;
}.

(** The beacon, if enabled: the goroutines before it already run. *)
Definition start_beacon (h : host) (c : ServiceConfig) (iface : Interface) : Run (option BeaconConfig) :=
  if f_BeaconEnabled (c_flags c) then
    match nack_addr h 1 (c_flags c) iface with
    | Err e => fail (BeaconFailed e)
    | Ok ip => mret (Some (beacon_of c iface (default [] ip) (ho_hostname h)))
    end
  else mret None.

(** [run] from the configuration to the wait for a signal. *)
Definition run_from (h : host) (c : ServiceConfig) : Run started :=
  let f := c_flags c in
  rp ← match New_recorder (f_InstanceID f) (ho_hostname h) (c_NumWorkers c) (f_OTLPEndpoint f)
                (c_OTLPInterval c) (ho_now h) with
       | Err e => fail (MetricsFailed e)
       | Ok rp => mret rp
       end;
  d ← open_cache h f ≫= open_gate h f;
  let groups := buildGroups c (engine_of c) in
  mcIface ← match ho_iface h (f_MCIface f) with
            | None => fail (InterfaceNotFound (f_MCIface f))
            | Some i => mret i
            end;
  egress ← resolve_ifaces h (c_EgressIfaces c);
  sockets ← open_egress h egress;
  match egress with
  | [] => fail IndexOutOfRange
  | iface :: _ =>
      match nack_addr h 0 f iface with
      | Err e => fail (NACKAddrFailed e)
      | Ok ip =>
          let srv := server_of c egress (default [] ip) in
          _ ← acquire [RContext];
          _ ← defer CancelContext;
          beacon ← start_beacon h c iface;
          mret (MkStarted c rp.1 rp.2 d groups mcIface egress (limits_of f) sockets srv (worker_of c) beacon)
      end
  end.

(** [Load] as [run] calls it. *)
Definition load (h : host) : load_outcome :=
  Load_main (ho_knows h) (ho_NumCPU h) (ho_Getenv h) (ho_args h).

(** How [run] ends before it waits for a signal, or what it has built; with
    the deferred calls and what has been acquired. *)
Inductive run_outcome :=
| Exited (status : Z)
| Failed (e : run_error) (g : progress)
| Waiting (s : started) (g : progress).

Definition run_main (h : host) : run_outcome :=
  match load h with
  | LoadExits status => Exited status
  | LoadReturns (Err e) => Failed (ConfigFailed e) (MkProgress [] [])
  | LoadReturns (Ok c) =>
      match run_from h c (MkProgress [] []) with
      | (Err e, g) => Failed e g
      | (Ok s, g) => Waiting s g
      end
  end.

(** The exit status of [main], when [run] returns [err]. *)
Definition exit_status (err : option run_error) : Z := match err with Some _ => 1 | None => 0 end.

(** The resources the deferred calls release, in the order of the calls. *)
Definition released (g : progress) : list resource := pg_deferred g ≫= releases.

End startup.
