(* ===== verification/StartupFacts.v ===== *)
(** * Facts about starting and leaving [run]

    What has been acquired is released; which error is reported, and what has
    been built when there is none; the address advertised is the address bound;
    and from the start to the end, the program ends after a signal. *)

From S2P Require Import Prelude GoLib Strconv NetIP GoParse Flag RateLimit RateLimitFacts.
From S2P Require Import ServiceConfig ConfigFacts CommandLine Cache CacheMemory CacheRedis.
From S2P Require Import Metrics ShardCommon World Retransmit Beacon Ingress Server Main MainFacts.
From S2P Require Import ServerRun Concurrency Lifecycle Process Startup.

Section startup.
Context {RL : RateLib} {FL : FrameLib} {SH : ShardLib} {E : Type} `{!OTelLib E}.
#[local] Existing Instances run_mret run_mbind.
Local Abbreviation Run := (Startup.Run (E := E)).
Local Abbreviation run_error := (Startup.run_error (E := E)).
Local Abbreviation host := (Startup.host (E := E)).
Implicit Types (h : host).

(** ** What is acquired is released *)

(** What has been acquired is what the deferred calls release, and the sockets
    [lost]. *)
Definition balanced (lost : list bytes) (g : progress) : Prop :=
  pg_acquired g ≡ₚ released g ++ (RSocket <$> lost).

(** [m] keeps the balance; a failure to open an egress socket may lose
    sockets; and [m] does not panic. *)
Definition tidy {A : Type} (m : Run A) : Prop :=
  ∀ lost g, balanced lost g →
  match m g with
  | (Ok _, g') => balanced lost g'
  | (Err (OpenFailed _), g') => ∃ more, balanced more g'
  | (Err IndexOutOfRange, _) => False
  | (Err _, g') => balanced lost g'
  end.

Lemma tidy_mret {A : Type} (a : A) : tidy (mret a).
Proof. by intros lost g Hg. Qed.

Lemma tidy_bind {A B : Type} (m : Run A) (k : A → Run B) :
  tidy m → (∀ a, tidy (k a)) → tidy (m ≫= k).
Proof.
  intros Hm Hk lost g Hg. specialize (Hm lost g Hg). unfold mbind, run_mbind.
  destruct (m g) as [[a|e] g']; [by apply Hk|done].
Qed.

Lemma tidy_fail {A : Type} (e : run_error) :
  match e with OpenFailed _ | IndexOutOfRange => False | _ => True end → tidy (fail (A := A) e).
Proof. intros He lost g Hg. cbn. by destruct e. Qed.

(** Acquire, then defer the release. *)
Lemma balanced_acquire lost g rs c :
  releases c = rs → balanced lost g → balanced lost (MkProgress (c :: pg_deferred g) (pg_acquired g ++ rs)).
Proof.
  unfold balanced, released. cbn [pg_deferred pg_acquired]. intros <- Hg. rewrite bind_cons, Hg.
  by rewrite (Permutation_app_comm _ (releases c)), (assoc (++)).
Qed.

Lemma tidy_acquire {A : Type} (rs : list resource) (c : cleanup) (k : Run A) :
  releases c = rs → tidy k → tidy (acquire rs ≫= fun _ => defer c ≫= fun _ => k).
Proof.
  intros Hc Hk lost g Hg. apply (Hk lost (MkProgress (c :: pg_deferred g) (pg_acquired g ++ rs))).
  by apply balanced_acquire.
Qed.

Lemma tidy_resolve h names : tidy (resolve_ifaces h names).
Proof.
  induction names as [|n names IH]; cbn [resolve_ifaces]; [apply tidy_mret|].
  destruct (ho_iface h n); [|by apply tidy_fail]. apply tidy_bind; [done|]. intros rest. apply tidy_mret.
Qed.

(** A list of names and the names of the map they are the keys of. *)
Lemma names_lost (names keys : list bytes) :
  NoDup keys → (∀ n, n ∈ keys ↔ n ∈ names) →
  ∃ lost, names ≡ₚ keys ++ lost ∧ (lost = [] ↔ NoDup names).
Proof.
  intros Hnd Hin. destruct (submseteq_Permutation keys names) as [lost Hl].
  { apply NoDup_submseteq; [done|]. intros n. apply Hin. }
  exists lost. split; [done|]. split.
  - intros ->. by rewrite Hl, app_nil_r.
  - intros Hns. assert (names ≡ₚ keys) as Hp by (by apply NoDup_Permutation; [..|intros n; by rewrite Hin]).
    rewrite Hp in Hl. apply Permutation_length in Hl. rewrite length_app in Hl. destruct lost; [done|]. simpl in Hl. lia.
Qed.

Lemma opened_all (open : Interface → option E) ifaces m m' u :
  open_sockets open ifaces m = (Ok u, m') →
  opened open ifaces = ifaces ∧ ∀ n, is_Some (m' !! n) ↔ is_Some (m !! n) ∨ n ∈ if_Name <$> ifaces.
Proof.
  revert m. induction ifaces as [|i ifaces IH]; intros m; cbn [open_sockets opened].
  - intros [= _ <-]. split; [done|]. set_solver.
  - destruct (open i); [done|]. intros Ho. destruct (IH _ Ho) as [-> Hn]. split; [done|]. intros n.
    rewrite Hn, fmap_cons, elem_of_cons. destruct (decide (n = if_Name i)) as [->|Hne].
    + rewrite lookup_insert_eq. naive_solver.
    + rewrite lookup_insert_ne by done. naive_solver.
Qed.

(** [Open] loses a socket iff two interfaces have one name. *)
Lemma open_egress_balance h ifaces g :
  balanced [] g →
  match open_egress h ifaces g with
  | (Ok _, g') => ∃ lost, balanced lost g' ∧ (lost = [] ↔ NoDup (if_Name <$> ifaces))
  | (Err (OpenFailed _), g') => ∃ lost, balanced lost g'
  | (Err _, _) => False
  end.
Proof.
  intros Hg. unfold open_egress, mbind, run_mbind, acquire.
  destruct (open_sockets _ _ _) as [[u|e] sockets] eqn:Ho; cbn.
  - destruct (opened_all _ _ _ _ _ Ho) as [-> Hn].
    destruct (names_lost (if_Name <$> ifaces) (map_to_list sockets).*1) as (lost & Hp & Hlost).
    { apply NoDup_fst_map_to_list. }
    { intros n. assert (n ∈ (map_to_list sockets).*1 ↔ is_Some (sockets !! n)) as ->.
      { rewrite list_elem_of_fmap. split.
        - intros ([n' i] & -> & Hi). apply elem_of_map_to_list in Hi. by exists i.
        - intros [i Hi]. exists (n, i). split; [done|]. by apply elem_of_map_to_list. }
      rewrite Hn, lookup_empty. split; [by intros [[]|]|by right]. }
    exists lost. split; [|done]. unfold balanced, released in *. cbn [pg_acquired pg_deferred].
    rewrite bind_cons, Hg, app_nil_r. cbn [releases].
    assert (((fun i => RSocket (if_Name i)) <$> ifaces) = RSocket <$> (if_Name <$> ifaces)) as ->
      by (by rewrite <- list_fmap_compose).
    rewrite Hp, fmap_app. rewrite (Permutation_app_comm (pg_deferred g ≫= releases)). solve_Permutation.
  - exists (if_Name <$> opened (ho_open h) ifaces). unfold balanced, released in *. cbn [pg_acquired pg_deferred].
    rewrite Hg, app_nil_r. by rewrite <- list_fmap_compose.
Qed.

Lemma tidy_open_cache h f : tidy (open_cache h f).
Proof.
  apply tidy_bind.
  - case_bool_decide; [|apply tidy_mret]. case_bool_decide; [by apply tidy_fail|].
    destruct (ho_redis h); [by apply tidy_fail|apply tidy_mret].
  - intros b. by apply tidy_acquire, tidy_mret.
Qed.

Lemma tidy_open_gate h f b : tidy (open_gate h f b).
Proof.
  unfold open_gate. destruct b; [apply tidy_mret|]. case_bool_decide; [apply tidy_mret|].
  destruct (ho_redis h); [apply tidy_mret|]. by apply tidy_acquire, tidy_mret.
Qed.

Lemma tidy_start_beacon h c iface : tidy (start_beacon h c iface).
Proof.
  unfold start_beacon. destruct (f_BeaconEnabled _); [|apply tidy_mret].
  destruct (nack_addr _ _ _ _); [apply tidy_mret|by apply tidy_fail].
Qed.

(** How [run_from] ends: in balance but for the sockets lost. *)
Definition ends_balanced (ifaces : list Interface) (r : result started run_error * progress) : Prop :=
  match r with
  | (Ok s, g) => ∃ lost, balanced lost g ∧ (lost = [] ↔ NoDup (if_Name <$> sd_egress s))
  | (Err e, g) =>
      e ≠ IndexOutOfRange ∧
      ∃ lost, balanced lost g ∧ ((∀ e', e ≠ OpenFailed e') → NoDup (if_Name <$> ifaces) → lost = [])
  end.

Lemma ends_bind {A : Type} ifaces (m : Run A) (k : A → Run started) g :
  tidy m → balanced [] g → (∀ a g', (m g).1 = Ok a → balanced [] g' → ends_balanced ifaces (k a g')) →
  ends_balanced ifaces ((m ≫= k) g).
Proof.
  intros Hm Hg Hk. specialize (Hm [] g Hg). unfold mbind, run_mbind.
  destruct (m g) as [[a|e] g']; [by apply Hk|]. cbn.
  destruct e; try (split; [done|by exists []]).
  split; [done|]. destruct Hm as [lost Hl]. exists lost. split; [done|]. intros Hne. by destruct (Hne e).
Qed.

Lemma resolve_ok h names g l g' :
  resolve_ifaces h names g = (Ok l, g') → l = omap (ho_iface h) names ∧ length l = length names.
Proof.
  revert l g g'. induction names as [|n names IH]; intros l g g'; cbn [resolve_ifaces]; [by intros [= <- _]|].
  cbn [omap list_omap]. destruct (ho_iface h n); [|done]. unfold mbind, run_mbind.
  destruct (resolve_ifaces h names g) as [[rest|e] g1] eqn:Hr; [|done].
  intros [= <- _]. cbn. destruct (IH _ _ _ Hr) as [<- ->]. done.
Qed.

Lemma run_from_balance h c :
  c_EgressIfaces c ≠ [] →
  ends_balanced (omap (ho_iface h) (c_EgressIfaces c)) (run_from h c (MkProgress [] [])).
Proof.
  intros Hne. unfold run_from. cbv zeta.
  apply ends_bind; [destruct (New_recorder _ _ _ _ _ _); [apply tidy_mret|by apply tidy_fail]|by constructor|intros rp g1 _ Hg1].
  apply ends_bind; [apply tidy_bind; [apply tidy_open_cache|apply tidy_open_gate]|done|intros d g2 _ Hg2].
  apply ends_bind; [destruct (ho_iface _ _); [apply tidy_mret|by apply tidy_fail]|done|intros mcIface g3 _ Hg3].
  apply ends_bind; [apply tidy_resolve|done|intros egress g4 Hr Hg4].
  destruct (resolve_ifaces h (c_EgressIfaces c) g3) as [r g3'] eqn:Hres. cbn in Hr. subst r.
  apply resolve_ok in Hres as [<- Hlen].
  pose proof (open_egress_balance h egress g4 Hg4) as Hopen. unfold mbind at 1, run_mbind at 1.
  destruct (open_egress h egress g4) as [[sockets|e] g5].
  2:{ destruct e; try done. split; [done|]. destruct Hopen as [lost Hl]. exists lost. split; [done|].
      intros Hno. by destruct (Hno e). }
  destruct Hopen as (lost & Hl & Hnd). destruct egress as [|iface egress]; [by destruct (c_EgressIfaces c)|].
  destruct (nack_addr h 0 (c_flags c) iface) as [ip|e].
  2:{ split; [done|]. exists lost. split; [done|]. intros _. apply Hnd. }
  pose proof (balanced_acquire lost g5 [RContext] CancelContext eq_refl Hl) as Hl6.
  unfold start_beacon, mbind, run_mbind, acquire, defer, mret, run_mret. cbn [pg_deferred pg_acquired].
  destruct (f_BeaconEnabled _); [destruct (nack_addr h 1 _ _)|]; cbn; [by exists lost| |by exists lost].
  split; [done|]. exists lost. split; [done|]. intros _. apply Hnd.
Qed.

(** ** Which error is reported *)

Definition missing (h : host) (name : bytes) : option run_error :=
  match ho_iface h name with None => Some (InterfaceNotFound name) | Some _ => None end.

Definition cache_errors (h : host) (f : flags) : list run_error :=
  if bool_decide (f_CacheBackend f = str "redis") then
    if bool_decide (f_RedisAddr f = []) then [RedisAddrRequired]
    else match ho_redis h with Some e => [RedisFailed e] | None => [] end
  else [].

Definition beacon_errors (h : host) (c : ServiceConfig) (iface : Interface) : list run_error :=
  if f_BeaconEnabled (c_flags c) then
    match nack_addr h 1 (c_flags c) iface with Err e => [BeaconFailed e] | Ok _ => [] end
  else [].

(** Everything that can keep [run] from starting, in the order in which it is
    met. *)
Definition startup_errors (h : host) (c : ServiceConfig) : list run_error :=
  let f := c_flags c in
  (match New_recorder (f_InstanceID f) (ho_hostname h) (c_NumWorkers c) (f_OTLPEndpoint f)
           (c_OTLPInterval c) (ho_now h) with
   | Err e => [MetricsFailed e]
   | Ok _ => []
   end)
  ++ cache_errors h f
  ++ omap (missing h) (f_MCIface f :: c_EgressIfaces c)
  ++ (OpenFailed <$> omap (ho_open h) (omap (ho_iface h) (c_EgressIfaces c)))
  ++ match omap (ho_iface h) (c_EgressIfaces c) with
     | [] => []
     | iface :: _ =>
         (match nack_addr h 0 f iface with Err e => [NACKAddrFailed e] | Ok _ => [] end)
         ++ beacon_errors h c iface
     end.

(** The deployment: Redis; memory with Redis as the gate; or memory alone,
    also when the gate's server does not answer. *)
Definition deployment_of (h : host) (f : flags) : deployment :=
  if bool_decide (f_CacheBackend f = str "redis") then RedisOnly
  else if bool_decide (f_RedisAddr f ≠ []) && bool_decide (ho_redis h = None) then MemoryWithGate
  else MemoryOnly.

(** What [run] has built. *)
Definition built (h : host) (c : ServiceConfig) (s : started) : Prop :=
  let f := c_flags c in
  sd_config s = c ∧ sd_deployment s = deployment_of h f ∧
  sd_limits s = limits_of f ∧ sd_worker s = worker_of c ∧
  sd_groups s = buildGroups c (engine_of c) ∧
  ho_iface h (f_MCIface f) = Some (sd_mcIface s) ∧
  ho_iface h <$> c_EgressIfaces c = Some <$> sd_egress s ∧
  ∃ iface egress' ip, sd_egress s = iface :: egress' ∧ nack_addr h 0 f iface = Ok ip ∧
    sd_server s = server_of c (sd_egress s) (default [] ip) ∧
    if f_BeaconEnabled f then
      ∃ ip', nack_addr h 1 f iface = Ok ip' ∧
        sd_beacon s = Some (beacon_of c iface (default [] ip') (ho_hostname h))
    else sd_beacon s = None.

(** [m] fails with the first of [errs], or there is none and its result
    satisfies [P]. *)
Definition reports {A : Type} (m : Run A) (errs : list run_error) (P : A → Prop) : Prop :=
  ∀ g, match (m g).1 with
       | Err e => head errs = Some e
       | Ok a => errs = [] ∧ P a
       end.

Lemma reports_mret {A : Type} (a : A) (P : A → Prop) : P a → reports (mret a) [] P.
Proof. by intros Ha g. Qed.

Lemma reports_fail {A : Type} e errs (P : A → Prop) : head errs = Some e → reports (fail e) errs P.
Proof. by intros He g. Qed.

Lemma reports_bind {A B : Type} (m : Run A) (k : A → Run B) errs errs' P Q :
  reports m errs P → (∀ a, P a → reports (k a) errs' Q) → reports (m ≫= k) (errs ++ errs') Q.
Proof.
  intros Hm Hk g. specialize (Hm g). unfold mbind, run_mbind.
  destruct (m g) as [[a|e] g']; cbn in *.
  - destruct Hm as [-> Ha]. by apply Hk.
  - by destruct errs.
Qed.

Lemma reports_then {A : Type} (m : Run unit) (k : Run A) errs P :
  (∀ g, (m g).1 = Ok tt) → reports k errs P → reports (m ≫= fun _ => k) errs P.
Proof.
  intros Hm Hk. apply (reports_bind m _ [] errs (fun _ => True)); [|done].
  intros g. by rewrite Hm.
Qed.

Lemma missing_none h names :
  omap (missing h) names = [] → ho_iface h <$> names = Some <$> omap (ho_iface h) names.
Proof.
  induction names as [|n names IH]; [done|]. cbn [omap list_omap]. unfold missing at 1.
  destruct (ho_iface h n) as [i|] eqn:Hi; [|done]. intros Hm. cbn. rewrite Hi. f_equal. by apply IH.
Qed.

Lemma open_sockets_first (open : Interface → option E) ifaces m :
  (open_sockets open ifaces m).1 = match omap open ifaces with e :: _ => Err e | [] => Ok tt end.
Proof.
  revert m. induction ifaces as [|i ifaces IH]; intros m; [done|]. cbn. destruct (open i); [done|]. apply IH.
Qed.

Lemma reports_resolve h names :
  reports (resolve_ifaces h names) (omap (missing h) names)
    (fun l => l = omap (ho_iface h) names ∧ ho_iface h <$> names = Some <$> l).
Proof.
  induction names as [|n names IH]; cbn [resolve_ifaces omap list_omap]; [by apply reports_mret|].
  unfold missing at 1. destruct (ho_iface h n) as [i|] eqn:Hi; [|by apply reports_fail].
  rewrite <- (app_nil_r (omap (missing h) names)). eapply reports_bind; [exact IH|].
  intros l [Hl Hn]. apply reports_mret. cbn. rewrite Hi, <- Hl, <- Hn. done.
Qed.

Lemma reports_open_egress h ifaces :
  reports (open_egress h ifaces) (OpenFailed <$> omap (ho_open h) ifaces) (fun _ => True).
Proof.
  intros g. unfold open_egress. pose proof (open_sockets_first (ho_open h) ifaces ∅) as Hf.
  destruct (open_sockets _ _ _) as [[u|e] sockets]; cbn in *; by destruct (omap (ho_open h) ifaces); simplify_eq.
Qed.

Lemma reports_deployment h c :
  reports (open_cache h (c_flags c) ≫= open_gate h (c_flags c))
    (cache_errors h (c_flags c)) (fun d => d = deployment_of h (c_flags c)).
Proof.
  intros g. unfold open_cache, open_gate, cache_errors, deployment_of, mbind, run_mbind, mret, run_mret.
  repeat case_bool_decide; destruct (ho_redis h); by try congruence.
Qed.

Lemma reports_start_beacon h c iface :
  reports (start_beacon h c iface) (beacon_errors h c iface)
    (fun b => if f_BeaconEnabled (c_flags c) then
                ∃ ip, nack_addr h 1 (c_flags c) iface = Ok ip ∧
                  b = Some (beacon_of c iface (default [] ip) (ho_hostname h))
              else b = None).
Proof.
  unfold start_beacon, beacon_errors. destruct (f_BeaconEnabled _); [|by apply reports_mret].
  destruct (nack_addr _ _ _ _) as [ip|e]; [|by apply reports_fail]. apply reports_mret. by eexists.
Qed.

Lemma run_from_reports h c :
  c_EgressIfaces c ≠ [] → reports (run_from h c) (startup_errors h c) (built h c).
Proof.
  intros Hne. unfold run_from, startup_errors. cbv zeta.
  eapply reports_bind with (P := fun _ => True); [|intros rp _].
  { destruct (New_recorder _ _ _ _ _ _); [by apply reports_mret|by apply reports_fail]. }
  eapply reports_bind; [apply reports_deployment|intros d Hd].
  change (omap (missing h) (f_MCIface (c_flags c) :: c_EgressIfaces c))
    with (omap (missing h) ([f_MCIface (c_flags c)] ++ c_EgressIfaces c)).
  rewrite omap_app, <- app_assoc.
  eapply reports_bind with (P := fun i => ho_iface h (f_MCIface (c_flags c)) = Some i); [|intros mcIface Hmc].
  { cbn. unfold missing. destruct (ho_iface h _); [by apply reports_mret|by apply reports_fail]. }
  eapply reports_bind; [apply reports_resolve|intros egress [Hl Hn]]. rewrite <- Hl.
  eapply reports_bind; [apply reports_open_egress|intros sockets _].
  destruct egress as [|iface egress]; [by destruct (c_EgressIfaces c)|].
  destruct (nack_addr h 0 (c_flags c) iface) as [ip|e] eqn:Hip; [|by apply reports_fail].
  do 2 (apply reports_then; [done|]).
  cbn [app]. rewrite <- (app_nil_r (beacon_errors _ _ _)).
  eapply reports_bind; [apply reports_start_beacon|intros beacon Hb]. apply reports_mret.
  repeat (split; [done|]). by exists iface, egress, ip.
Qed.
Lemma load_accepted h c :
  load h = LoadReturns (Ok c) →
  acceptable (ho_knows h) (c_flags c) ∧ c_EgressIfaces c ≠ [].
Proof.
  unfold load, Load_main. destruct (Parse _ _) as [a rest|]; [|done]. intros [= Hl].
  destruct (Load_cases (ho_knows h) (ho_NumCPU h) (flag_vars (ho_Getenv h) (ho_NumCPU h) a))
    as [(c' & Hc' & Hacc & Hok)|(e & He & _)]; [|congruence].
  rewrite Hl in Hc'. injection Hc' as <-. destruct Hok as (-> & _ & _ & _ & _ & _ & _ & _ & _ & Hok & _). done.
Qed.

(** What [run_main] has to do with [startup_errors] and [built]. *)
Definition run_main_reports (h : host) : Prop :=
  match run_main h with
  | Exited status => load h = LoadExits status
  | Failed (ConfigFailed e) _ => load h = LoadReturns (Err e)
  | Failed e _ => ∃ c, load h = LoadReturns (Ok c) ∧ head (startup_errors h c) = Some e
  | Waiting s _ =>
      load h = LoadReturns (Ok (sd_config s)) ∧ startup_errors h (sd_config s) = [] ∧
      built h (sd_config s) s
  end.

Lemma head_app_inv {A : Type} (l k : list A) x :
  head (l ++ k) = Some x → head l = Some x ∨ head k = Some x.
Proof. destruct l; auto. Qed.

(** The first error is none of the configuration; and it is not the beacon's,
    if the beacon's address is looked for where the server's was found. *)
Lemma startup_errors_head h c e :
  head (startup_errors h c) = Some e →
  (∀ e', e ≠ ConfigFailed e') ∧
  ((∀ f iface, nack_addr h 1 f iface = nack_addr h 0 f iface) → ∀ e', e ≠ BeaconFailed e').
Proof.
  unfold startup_errors, cache_errors, beacon_errors.
  intros [Hh|[Hh|[Hh|[Hh|Hh]%head_app_inv]%head_app_inv]%head_app_inv]%head_app_inv.
  - destruct (New_recorder _ _ _ _ _ _); simplify_eq/=. done.
  - repeat case_bool_decide; try destruct (ho_redis h); by simplify_eq/=.
  - assert (e ∈ omap (missing h) (f_MCIface (c_flags c) :: c_EgressIfaces c)) as (n & _ & Hn)%list_elem_of_omap.
    { destruct (omap _ _); [done|]. injection Hh as ->. left. }
    unfold missing in Hn. destruct (ho_iface h n); by simplify_eq.
  - destruct (omap (ho_open h) _); by simplify_eq/=.
  - destruct (omap _ _) as [|iface l]; [done|].
    destruct (nack_addr h 0 _ iface) as [ip|e0] eqn:Hip; [|by simplify_eq/=].
    destruct (f_BeaconEnabled _); [|done]. destruct (nack_addr h 1 _ iface) as [|e1] eqn:Hip1; [done|].
    injection Hh as <-. split; [done|]. intros Hn. specialize (Hn (c_flags c) iface). congruence.
Qed.

Lemma run_main_spec h : run_main_reports h.
Proof.
  unfold run_main_reports, run_main. destruct (load h) as [[c|e]|status] eqn:Hl; [|done..].
  apply load_accepted in Hl as Hc. pose proof (run_from_reports h c (proj2 Hc) (MkProgress [] [])) as Hr.
  destruct (run_from h c _) as [[s|e] g]; cbn in Hr.
  - destruct Hr as [He Hb]. pose proof Hb as [-> _]. done.
  - destruct e; try by exists c. apply startup_errors_head in Hr as [Hr _]. by destruct (Hr e).
Qed.

Lemma run_main_balance h s g :
  run_main h = Waiting s g →
  ∃ lost, pg_acquired g ≡ₚ released g ++ (RSocket <$> lost) ∧ (lost = [] ↔ NoDup (if_Name <$> sd_egress s)).
Proof.
  unfold run_main. destruct (load h) as [[c|e]|status] eqn:Hl; try done.
  apply load_accepted in Hl as [_ Hne]. pose proof (run_from_balance h c Hne) as Ht.
  destruct (run_from h c _) as [[s'|e] g']; [|done]. by intros [= <- <-].
Qed.


(** C11: what [run] needs to start, and in which order it fails.  If [Load]
    returns an error [run] returns it; otherwise it returns the first of: the
    exporters' error, a missing or unreachable Redis server if that is the
    cache, an unknown multicast or egress interface, the first egress socket
    that cannot be opened, no address for NACKs, no address for the beacon.
    An unreachable Redis server that is only the gate is no error: the program
    runs on memory alone.  If there is no such obstacle [run] reaches its wait
    for a signal, with the server, the ingress worker, the limits, the groups
    and the beacon of the configuration. *)
Theorem run_startup (h : host) :
  match run_main h with
  | Exited status => load h = LoadExits status
  | Failed (ConfigFailed e) _ => load h = LoadReturns (Err e)
  | Failed e _ => ∃ c, load h = LoadReturns (Ok c) ∧ head (startup_errors h c) = Some e
  | Waiting s _ =>
      load h = LoadReturns (Ok (sd_config s)) ∧ startup_errors h (sd_config s) = [] ∧
      built h (sd_config s) s
  end.
Proof. apply run_main_spec. Qed.

(** ** The address bound and the address advertised *)

Lemma beacon_of_address c iface ip hostname :
  bc_NACKAddr (beacon_of c iface ip hostname) = ip ∧
  bc_NACKPort (beacon_of c iface ip hostname) = to_uint 16 (f_NACKPort (c_flags c)).
Proof. unfold beacon_of, beacon_New. by destruct (_ =? 0). Qed.

Lemma nack_addr_ok_bytes h n f iface ip :
  acceptable (ho_knows h) f →
  (∀ l, ho_addrs h n iface = Some l → Forall (fun a => Forall is_byte (addr_ip a)) l) →
  nack_addr h n f iface = Ok ip →
  ∃ ip', ip = Some ip' ∧ length ip' = 16%nat ∧ Forall is_byte ip' ∧ To4 ip' = None.
Proof.
  intros Hacc Hb. unfold nack_addr. destruct (decide (f_BeaconNACKAddr f = [])) as [Hnil|Hne].
  - rewrite Hnil. destruct (ho_addrs h n iface) as [l|] eqn:Hl; [|done].
    destruct (pick_automatic l) as [-> Hs]. cbv zeta in *.
    destruct (filter _ _) as [|ip' ips] eqn:Hf; [done|]. intros [= <-]. exists ip'.
    apply Forall_cons in Hs as [Hs _]. destruct Hs as (Hlen & H4 & _). split_and!; try done.
    specialize (Hb l eq_refl). rewrite Forall_forall in Hb.
    assert (ip' ∈ addr_ip <$> l) as (a & -> & Ha)%list_elem_of_fmap.
    { assert (ip' ∈ ip' :: ips) as Hin by left. rewrite <- Hf in Hin.
      by apply list_elem_of_filter in Hin as [_ Hin]. }
    by apply Hb.
  - destruct (pick_accepted (f_BeaconNACKAddr f) (ho_addrs h n iface) Hne) as (ip' & -> & ?).
    { by do 10 destruct Hacc as [_ Hacc]. }
    intros [= <-]. by exists ip'.
Qed.

(** C31: the beacon advertises the address the server listens on.  If the
    interface's addresses do not change while [run] starts, the beacon always
    finds an address, it is an IPv6 one, the text the server binds is that
    address as [ParseIP] reads it, and it is the NACK address in every ADVERT;
    the ADVERT's port is the server's whenever that is a valid port. *)
Theorem bound_address_advertised (h : host) :
  (∀ iface, ho_addrs h 1 iface = ho_addrs h 0 iface) →
  (∀ n iface l, ho_addrs h n iface = Some l → Forall (fun a => Forall is_byte (addr_ip a)) l) →
  match run_main h with
  | Failed (BeaconFailed _) _ => False
  | Waiting s _ =>
      ∀ b oob, sd_beacon s = Some b →
      ∃ ip, length ip = 16%nat ∧ To4 ip = None ∧
        ParseIP (sv_bindAddr (sd_server s)) = Some ip ∧ subslice (buildADVERT oob b) 8 24 = ip ∧
        (0 ≤ sv_port (sd_server s) < 2 ^ 16 →
         be_get (subslice (buildADVERT oob b) 24 26) = sv_port (sd_server s))
  | _ => True
  end.
Proof.
  intros Hsame Hbytes. pose proof (run_main_spec h) as Hspec. unfold run_main_reports in Hspec.
  assert (∀ f iface, nack_addr h 1 f iface = nack_addr h 0 f iface) as Hn
    by (intros f iface; unfold nack_addr; by rewrite Hsame).
  destruct (run_main h) as [status|e g|s g]; [done| |].
  - destruct e as [| | | | | | | e|]; try done.
    destruct Hspec as (c & _ & Hh). apply startup_errors_head in Hh as [_ Hh]. by destruct (Hh Hn e).
  - destruct Hspec as (Hl & _ & Hb). apply load_accepted in Hl as [Hacc _].
    destruct Hb as (_ & _ & _ & _ & _ & _ & _ & iface & egress & ip & _ & Hip & Hsrv & Hbeacon).
    intros b oob Hsome. rewrite Hsome in Hbeacon. destruct (f_BeaconEnabled _); [|done].
    destruct Hbeacon as (ip1 & Hip1 & [= ->]). rewrite Hn, Hip in Hip1. injection Hip1 as <-.
    destruct (nack_addr_ok_bytes h 0 _ iface ip Hacc (Hbytes 0%nat iface) Hip) as (ip' & -> & Hlen & Hb & H4).
    assert (To16 ip' = Some ip') as H16
      by (unfold To16; by rewrite bool_decide_eq_false_2, bool_decide_eq_true_2 by lia).
    cbn [from_option id] in *.
    destruct (beacon_of_address (sd_config s) iface ip' (ho_hostname h)) as [Ha Hp].
    exists ip'. rewrite Hsrv. split_and!; try done.
    + cbn. by rewrite IP_String_parse, H16.
    + rewrite advert_address. unfold advert_ip. by rewrite Ha, H16.
    + intros Hport. assert (bc_NACKPort (beacon_of (sd_config s) iface ip' (ho_hostname h)) =
        f_NACKPort (c_flags (sd_config s))) as Hpe by (rewrite Hp; by apply Z.mod_small).
      rewrite advert_port; rewrite Hpe; [done|exact Hport].
Qed.

(** ** From the start to the end *)

Lemma built_interval h c s b :
  acceptable (ho_knows h) (c_flags c) → built h c s → sd_beacon s = Some b → 0 < bc_Interval b.
Proof.
  intros Hacc Hb Hs. destruct Hb as (_ & _ & _ & _ & _ & _ & _ & iface & egress & ip & _ & _ & _ & Hbeacon).
  rewrite Hs in Hbeacon. destruct (f_BeaconEnabled _); [|done]. destruct Hbeacon as (ip1 & _ & [= ->]).
  assert (Second ≤ f_BeaconInterval (c_flags c)) as Hi by (by do 9 destruct Hacc as [_ Hacc]; destruct Hacc).
  unfold beacon_of, beacon_New. cbn [bc_Interval]. unfold Second in Hi.
  rewrite (proj2 (Z.eqb_neq _ _)) by lia. cbn. lia.
Qed.

(** C10: the program ends after a signal.  Take the program as [run] has
    started it from an accepted configuration, on any cache backend and a
    fresh limiter whose caps the run-time can allocate, whatever requests,
    datagrams, errors and ticks come and however the goroutines are scheduled.
    No goroutine ever panics.  From the signal to [wg.Wait()] [run] itself is
    never blocked by another goroutine.  Once it has cancelled the context the
    process makes only finitely many further steps, and it stops only when
    [run] has returned; then, and as soon as the exporters are shut down, the
    server's [Run] and every other goroutine have returned, and the deferred
    calls release everything [run] has acquired (if no two egress interfaces
    have one name). *)
Theorem run_ends {C E' : Type} `{!Backend C E'} (oob : float64 → Z) (h : host) (s : started) (g : progress)
    (buf : nat) (sizer : option (C → Z)) (o : outside E') (bg : Z → C → C → Prop) (w : World C)
    (p : proc (World C)) :
  let step := program_step (sd_server s) (sd_worker s) buf (c_flags (sd_config s)) bg in
  run_main h = Waiting s g →
  w_limiter w = New oob (sd_limits s) → w_sent w = [] →
  make_times_ok (wl_max (chainLimiter (New oob (sd_limits s)))) = true →
  make_times_ok (SequenceMax (sd_limits s)) = true →
  rtc step (running oob (sd_server s) sizer (sd_beacon s) o w) p →
  ¬ proc_panicked p ∧
  (pc_main p ≠ MWait → pc_main p ≠ MReturned →
   ∃ p', step p p' ∧ (main_rank (pc_main p') < main_rank (pc_main p))%nat) ∧
  (pc_ctx p = true → sn step p ∧ ∀ p', rtc step p p' → nf step p' → pc_main p' = MReturned) ∧
  (pc_main p = MShutdown ∨ pc_main p = MReturned →
   rs_loop (pc_server p) = LReturned ∧ Forall (fun g => g = GReturned) (pc_gors p)) ∧
  (NoDup (if_Name <$> sd_egress s) → released g ≡ₚ pg_acquired g).
Proof.
  intros step Hw Hl Hsent Hchain Hseq Hr.
  pose proof (run_main_spec h) as Hspec. unfold run_main_reports in Hspec. rewrite Hw in Hspec.
  destruct Hspec as (Hload & _ & Hb). apply load_accepted in Hload as [Hacc Hne].
  destruct (process_ends oob (sd_limits s) (sd_server s) (sd_worker s) buf (c_flags (sd_config s)) sizer
    (sd_beacon s) o bg w p Hl Hsent Hchain Hseq) as (H1 & H2 & H3 & H4); [|exact Hr|].
  { intros c Hc. by eapply built_interval. }
  split_and!; try done. intros Hnd. destruct (run_main_balance h s g Hw) as (lost & Hp & Hlost).
  rewrite (proj2 Hlost Hnd), app_nil_r in Hp. by symmetry.
Qed.
End startup.
