(* ===== verification/Delivery.v ===== *)
(** * Delivery: what happens to a request the limiter admits

    The tiers are described by what they would answer at the clock readings
    still to come; with that, [processNACK] on a cached frame is determined:
    which datagrams leave the host, on every branch of the group tier and of
    the deduplication gate, and what the recorder counts. *)

From S2P Require Import Prelude GoLib RateLimit RateLimitFacts Cache Metrics ShardCommon World.
From S2P Require Import Retransmit Ingress Server ServerFacts NackFacts.

Section delivery.
Context {RL : RateLib} {FL : FrameLib} {SH : ShardLib} {C E : Type}
  `{!Backend C E, !BackendSpec C E, !BackendLaws C E}.
Implicit Types w : World C.

(** ** Verdicts of the tiers

    [later w t]: [t] is a clock reading [w] can still make. *)
Definition later w (t : Z) : Prop := ∃ n, (w_reads w ≤ n)%nat ∧ t = env_clock (w_env w) n.

Definition ip_verdict (l : Limiter) (ip : bytes) (t : Z) : bool :=
  (AllowAt (tb_limiter (ipLimiter l) (IP_String ip)) t).1.

Definition seq_verdict (l : Limiter) (seq t : Z) : option bool :=
  (window_Allow seq t (seqLimiter l)).1.

Definition chain_verdict (l : Limiter) (ip : bytes) (h t : Z) : option bool :=
  if h =? 0 then Some true else (window_Allow (chainKey ip h) t (chainLimiter l)).1.

Definition group_verdict (l : Limiter) (ip : bytes) (g t : Z) : bool :=
  (AllowAt (tb_limiter (groupLimiter l) (groupKey ip g)) t).1.

(** The pre-lookup tiers admit the request at every reading to come. *)
Definition admits w (ip : bytes) (h seq : Z) : Prop :=
  ∀ t, later w t →
    ip_verdict (w_limiter w) ip t = true ∧ seq_verdict (w_limiter w) seq t = Some true ∧
    chain_verdict (w_limiter w) ip h t = Some true.

(** The group tier answers [g] at every reading to come. *)
Definition group_answers (s : Server) w (ip txID : bytes) (g : bool) : Prop :=
  match sv_shardEngine s with
  | None => g = true
  | Some e => ∀ t, later w t → group_verdict (w_limiter w) ip (GroupIndex e txID) t = g
  end.

(** The deduplication gate answers [g] for the frame [bs] at every reading to
    come, in any of the states [P]; there is no gate without Redis. *)
Definition gate_answers (r : Retransmitter) (P : C → Prop) w (bs : bytes) (g : bool) : Prop :=
  match cb_SetNX with
  | None => g = true
  | Some f =>
      (56 ≤ length bs)%nat ∧
      ∀ c t, P c → later w t →
        (f (buildDedupKey bs) (str "1") (rt_dedupWindow r) t c).1.1 = g
  end.

(** ** The recorder *)

(** The counter updates made since [w]. *)
Definition logged w w' (l : list counter) : Prop :=
  (adds <$> w_rec w') = (fun a => a ++ l) <$> (adds <$> w_rec w).

Lemma logged_refl w : logged w w [].
Proof. unfold logged. destruct (w_rec w); cbn; [by rewrite app_nil_r|done]. Qed.

Lemma logged_trans w1 w2 w3 l l' : logged w1 w2 l → logged w2 w3 l' → logged w1 w3 (l ++ l').
Proof.
  unfold logged. intros H1 H2. rewrite H2, H1. destruct (w_rec w1); cbn; [by rewrite (assoc (++))|done].
Qed.

Lemma logged_add c w w0 : w_rec w0 = w_rec w → logged w (update_rec (add c) w0) [c].
Proof. intros H. unfold logged. cbn. rewrite H. by destruct (w_rec w). Qed.

Lemma logged_same w w' : w_rec w' = w_rec w → logged w w' [].
Proof. intros H. unfold logged. rewrite H. apply (logged_refl w). Qed.

(** ** Running an admitted request up to the lookup *)

Lemma later_step w w' t :
  w_env w' = w_env w → (w_reads w ≤ w_reads w')%nat → later w' t → later w t.
Proof. intros He Hr (n & Hn & ->). exists n. rewrite He. split; [lia|done]. Qed.

Lemma later_now w : later w (env_clock (w_env w) (w_reads w)).
Proof. by exists (w_reads w). Qed.

Lemma later_quiet w w' t : quiet w w' → later w' t → later w t.
Proof. intros Hq. apply later_step; apply Hq. Qed.

(** One call of a token-bucket tier. *)
Lemma run_bucket_tier (l : lens Limiter tokenBucketLimiter) key w :
  (∀ t x, view l (put l x t) = x) →
  ∃ w', run (tokenBucketLimiter_Allow (W := World C) time_now (lens_comp limiter_lens l) key) w =
    (Some (AllowAt (tb_limiter (view l (w_limiter w)) key) (env_clock (w_env w) (w_reads w))).1, w')
    ∧ quiet w w' ∧ w_rec w' = w_rec w ∧ w_reads w' = S (w_reads w) ∧
    ∃ a b, w_limiter w' = put l b (put l a (w_limiter w)).
Proof.
  intros Hvp. rewrite run_tokenBucketLimiter_Allow. cbn [view put lens_comp limiter_lens w_limiter].
  set (t := env_clock _ _). eexists. split_and!.
  - f_equal. f_equal. cbn. rewrite Hvp.
    change (tb_take key (env_clock (w_env w) (w_reads w)) (tb_ensure key (view l (w_limiter w))).2)
      with (tb_call key (env_clock (w_env w) (w_reads w)) (view l (w_limiter w))).
    by rewrite tb_call_spec.
  - constructor; cbn; auto.
  - done.
  - done.
  - cbn. eauto.
Qed.

(** One call of a window tier. *)
Lemma run_window_tier {K : Type} `{Countable K} (l : lens Limiter (window_limiter K)) key w b :
  (window_Allow key (env_clock (w_env w) (w_reads w)) (view l (w_limiter w))).1 = Some b →
  ∃ w', run (t ← perform (W := World C) time_now;
             r ← perform (zoom (lens_comp limiter_lens l) (window_Allow key t));
             unwrap r) w = (Some b, w')
    ∧ quiet w w' ∧ w_rec w' = w_rec w ∧ w_reads w' = S (w_reads w) ∧
    ∃ a, w_limiter w' = put l a (w_limiter w).
Proof.
  intros Hb. rewrite run_bind, run_perform. cbn [time_now fst snd].
  rewrite run_bind, run_perform. cbn [zoom lens_comp limiter_lens view put w_limiter fst snd].
  rewrite Hb. cbn [unwrap]. rewrite run_ret. eexists. split_and!; [done| |done|done|by eexists].
  constructor; cbn; auto.
Qed.

Lemma run_Allow_admitted w ip h seq :
  admits w ip h seq →
  ∃ w', run (Allow time_now limiter_lens ip seq) w = (Some (true, str ""), w') ∧ quiet w w' ∧
    w_rec w' = w_rec w ∧ w_reads w' = (w_reads w + 2)%nat ∧
    chainLimiter (w_limiter w') = chainLimiter (w_limiter w) ∧
    groupLimiter (w_limiter w') = groupLimiter (w_limiter w).
Proof.
  intros Ha. destruct (run_bucket_tier ip_lens (IP_String ip) w ltac:(done))
    as (w1 & Hr1 & Hq1 & Hrec1 & Hn1 & a & b & Hl1).
  destruct (Ha _ (later_now w)) as [Hip _]. unfold ip_verdict in Hip.
  assert (seqLimiter (w_limiter w1) = seqLimiter (w_limiter w)) as Hseq1 by (by rewrite Hl1).
  destruct (run_window_tier seq_lens seq w1 true) as (w2 & Hr2 & Hq2 & Hrec2 & Hn2 & a' & Hl2).
  { destruct (Ha (env_clock (w_env w1) (w_reads w1))) as (_ & Hs & _).
    - apply (later_quiet w w1); [done|apply later_now].
    - cbn. rewrite Hseq1. exact Hs. }
  exists w2. split_and!.
  - unfold Allow. rewrite run_bind, Hr1. cbn [view ip_lens] in *. rewrite Hip. cbn [negb].
    unfold sequenceLimiter_Allow. rewrite run_bind, Hr2. done.
  - by etrans.
  - by rewrite Hrec2.
  - lia.
  - by rewrite Hl2, Hl1.
  - by rewrite Hl2, Hl1.
Qed.

Lemma run_AllowChain_admitted w ip h :
  (∀ t, later w t → chain_verdict (w_limiter w) ip h t = Some true) →
  ∃ w', run (AllowChain time_now limiter_lens ip h) w = (Some true, w') ∧ quiet w w' ∧
    w_rec w' = w_rec w ∧ w_reads w' = (w_reads w + if (h =? 0)%Z then 0 else 1)%nat ∧
    groupLimiter (w_limiter w') = groupLimiter (w_limiter w).
Proof.
  intros Ha. unfold AllowChain. specialize (Ha _ (later_now w)). unfold chain_verdict in Ha.
  destruct (h =? 0); [exists w; by rewrite Nat.add_0_r|].
  destruct (run_window_tier chain_lens (chainKey ip h) w true Ha) as (w' & Hr & Hq & Hrec & Hn & a & Hl).
  exists w'. split_and!; try done; [lia|by rewrite Hl].
Qed.

(** ** The group tier *)

Lemma run_groupTier_value s ip txID g w :
  group_answers s w ip txID g →
  ∃ w', run (groupTier s ip txID) w = (Some (negb g), w') ∧ quiet w w' ∧
    logged w w' (if g then [] else [RateLimitDrops LevelGroup]).
Proof.
  unfold group_answers, groupTier. destruct (sv_shardEngine s) as [e|].
  2:{ intros ->. exists w. split_and!; [done|done|apply logged_refl]. }
  intros Hg. unfold AllowGroup. rewrite run_bind.
  destruct (run_bucket_tier group_lens (groupKey ip (GroupIndex e txID)) w ltac:(done))
    as (w1 & Hr & Hq & Hrec & _). rewrite Hr.
  specialize (Hg _ (later_now w)). unfold group_verdict in Hg. cbn [view group_lens]. rewrite Hg.
  destruct g; cbn [negb].
  - exists w1. split_and!; [done|done|by apply logged_same].
  - exists (update_rec (rec_RateLimitDrop LevelGroup) w1). split_and!; [done|..].
    + etrans; [exact Hq|apply quiet_update_rec].
    + by apply (logged_add (RateLimitDrops LevelGroup)).
Qed.

(** ** Sending when every write succeeds *)

Definition writes_succeed w : Prop := ∀ n, env_write (w_env w) n = true.

Lemma egress_loop_ok order dst raw w :
  writes_succeed w →
  (egress_loop order dst raw w).1 = true ∧ w_rec (egress_loop order dst raw w).2 = w_rec w.
Proof.
  revert w. induction order as [|name order IH]; intros w Hw; cbn [egress_loop]; [done|].
  unfold net_send. rewrite Hw.
  match goal with |- context [egress_loop order dst raw ?x] => by destruct (IH x Hw) as [-> ->] end.
Qed.

Lemma egress_all_ok dst raw w :
  writes_succeed w →
  (egress_all dst raw w).1 = true ∧ w_rec (egress_all dst raw w).2 = w_rec w.
Proof.
  intros Hw. unfold egress_all, map_choice.
  match goal with |- context [egress_loop ?o dst raw ?x] =>
    by destruct (egress_loop_ok o dst raw x Hw) as [-> ->] end.
Qed.

Lemma run_retransmit_send_ok r raw txID w :
  writes_succeed w →
  let bs := contents (w_heap w) raw in
  ∃ w' names, run (retransmit_send r raw txID) w = (Some true, w') ∧ names ≡ₚ socket_names w ∧
    w_sent w' = w_sent w ++ frames (egressGroup r bs txID) bs names ∧ w_rec w' = w_rec w ∧
    w_env w' = w_env w.
Proof.
  intros Hw. cbv zeta. unfold retransmit_send. rewrite run_bind, run_perform.
  cbn [read_slice fst snd]. rewrite run_perform.
  set (dst := egressGroup _ _ _). pose proof (egress_all_spec dst raw w) as Hs.
  destruct (egress_all_ok dst raw w Hw) as [Hok Hrec].
  destruct (egress_all dst raw w) as [ok w']. cbn [fst snd] in *. subst ok.
  destruct Hs as (_ & He & _ & _ & _ & names & rest & Hn & Hrest & Hs).
  rewrite Hrest, app_nil_r in Hn by done. by exists w', names.
Qed.

Lemma length_buildDedupKey bs : (56 ≤ length bs)%nat → length (buildDedupKey bs) = 8%nat.
Proof.
  intros Hl. unfold buildDedupKey. rewrite bool_decide_eq_false_2 by lia.
  rewrite length_put_at; [done|]. rewrite length_subslice by lia. simpl. lia.
Qed.

(** [Retransmit] with a gate that answers [gate]. *)
Lemma run_Retransmit_value r raw txID gate w :
  let bs := contents (w_heap w) raw in
  writes_succeed w → gate_answers r (fun c => c = w_cache w) w bs gate →
  ∃ w' names, run (Retransmit r raw txID) w = (Some true, w') ∧ names ≡ₚ socket_names w ∧
    w_sent w' = w_sent w ++ (if gate then frames (egressGroup r bs txID) bs names else []) ∧
    logged w w' (if gate then [] else [RetransmitDedups]) ∧ w_env w' = w_env w.
Proof.
  cbv zeta. intros Hw Hg. unfold Retransmit. unfold gate_answers in Hg.
  destruct cb_SetNX as [f|].
  2:{ subst gate. destruct (run_retransmit_send_ok r raw txID w Hw) as (w' & names & H1 & H2 & H3 & H4 & H5).
      exists w', names. split_and!; try done. by apply logged_same. }
  destruct Hg as [Hlen Hg]. rewrite run_bind, run_perform. cbn [read_slice fst snd]. cbv zeta.
  rewrite bool_decide_eq_true_2 by (rewrite length_buildDedupKey by done; lia).
  rewrite run_bind, run_perform, gate_SetNX_eq. cbv zeta. cbn [fst snd].
  specialize (Hg (w_cache w) _ eq_refl (later_now w)). rewrite Hg.
  destruct gate; cbn [negb].
  - match goal with |- context [run (retransmit_send _ _ _) ?x] =>
      destruct (run_retransmit_send_ok r raw txID x) as (w' & names & H1 & H2 & H3 & H4 & H5);
      [exact Hw|] end.
    exists w', names. split_and!; try done. by apply logged_same.
  - eexists _, (socket_names w). split_and!; [done|done| | |done].
    + cbn. by rewrite app_nil_r.
    + by apply (logged_add RetransmitDedups).
Qed.

(** The ACK of a served request. *)
Definition ack_list (s : Server) (src : option UDPAddr) (seq : Z) : list Sent :=
  match src with
  | Some a => if sv_suppressACK s then [] else [SentResponse a (responseBytes msgTypeACK 1 seq)]
  | None => []
  end.

Definition ack_log (s : Server) (src : option UDPAddr) : list counter :=
  match src with
  | Some _ => if sv_suppressACK s then [] else [ResponsesSent (str "ack")]
  | None => []
  end.

Lemma run_final_ack_ok s src seq w :
  writes_succeed w →
  let m : Prog (World C) unit :=
    match src with
    | Some a => if negb (sv_suppressACK s) then sendResponse a msgTypeACK 1 seq else mret tt
    | None => mret tt
    end in
  ∃ w', run m w = (Some tt, w') ∧ w_sent w' = w_sent w ++ ack_list s src seq ∧
    logged w w' (ack_log s src).
Proof.
  intros Hw. cbv zeta. unfold ack_list, ack_log.
  assert (w_sent w = w_sent w ++ []) as Hnil by (by rewrite app_nil_r).
  destruct src as [a|]; [|exists w; split_and!; [done|done|apply logged_refl]].
  destruct (sv_suppressACK s); cbn [negb]; [exists w; split_and!; [done|done|apply logged_refl]|].
  unfold sendResponse. rewrite run_bind, run_perform. unfold net_send. rewrite Hw. cbn [fst snd negb].
  eexists. split_and!; [done|done|]. by apply (logged_add (ResponsesSent (str "ack"))).
Qed.

(** ** An admitted request for a cached frame *)

Lemma group_answers_quiet s w w' ip txID g :
  (∀ t, later w' t → later w t) →
  groupLimiter (w_limiter w') = groupLimiter (w_limiter w) →
  group_answers s w ip txID g → group_answers s w' ip txID g.
Proof.
  unfold group_answers. intros Hl Hg. destruct (sv_shardEngine s); [|done].
  intros H t Ht. unfold group_verdict. rewrite Hg. apply H. auto.
Qed.

Lemma gate_answers_mono r (P Q : C → Prop) w w' bs g :
  (∀ c, Q c → P c) → (∀ t, later w' t → later w t) →
  gate_answers r P w bs g → gate_answers r Q w' bs g.
Proof.
  unfold gate_answers. intros HPQ Hl. destruct cb_SetNX; [|done].
  intros [Hlen H]. split; [done|]. intros c t Hc Ht. apply H; auto.
Qed.

(** What the recorder counts for a hit. *)
Definition hit_log (s : Server) (src : option UDPAddr) (group gate : bool) : list counter :=
  (if group then (if gate then [] else [RetransmitDedups]) ++ [Retransmits]
   else [RateLimitDrops LevelGroup]) ++ ack_log s src.

(** What is sent for a hit, when the interfaces are visited in order [names]. *)
Definition hit_sent (s : Server) (src : option UDPAddr) (bs : bytes) (seq : Z) (group gate : bool)
    (names : list bytes) : list Sent :=
  (if group && gate then frames (egressGroup (sv_retransmit s) bs (frameTxID bs)) bs names else [])
  ++ ack_list s src seq.

Lemma run_retransmitAndAck_ok s src raw seq group gate w :
  let bs := contents (w_heap w) raw in
  writes_succeed w → gate_answers (sv_retransmit s) (fun c => c = w_cache w) w bs gate →
  ∃ w' names, run (retransmitAndAck s src raw (frameTxID bs) (negb group) seq) w = (Some tt, w') ∧
    names ≡ₚ socket_names w ∧
    w_sent w' = w_sent w ++ hit_sent s src bs seq group gate names ∧
    logged w w' ((if group then (if gate then [] else [RetransmitDedups]) ++ [Retransmits] else [])
                 ++ ack_log s src).
Proof.
  cbv zeta. intros Hw Hg. unfold retransmitAndAck, hit_sent. rewrite run_bind.
  destruct group; cbn [negb andb].
  - rewrite run_bind.
    destruct (run_Retransmit_value (sv_retransmit s) raw (frameTxID (contents (w_heap w) raw)) gate w
      Hw Hg) as (w1 & names & H1 & H2 & H3 & H4 & H5). rewrite H1.
    cbn [run with_rec modify perform mret prog_mret mbind prog_mbind prog_bind fst snd negb].
    destruct (run_final_ack_ok s src seq (update_rec rec_Retransmit w1)) as (w' & Hr & Hs & Hl).
    { intros n. cbn. rewrite H5. apply Hw. }
    exists w', names. split_and!; [exact Hr|done| |].
    + rewrite Hs. cbn [w_sent update_rec]. rewrite H3. by rewrite (assoc (++)).
    + eapply logged_trans; [|exact Hl]. eapply logged_trans; [exact H4|by apply (logged_add Retransmits)].
  - rewrite run_ret. cbn [negb]. destruct (run_final_ack_ok s src seq w Hw) as (w' & Hr & Hs & Hl).
    exists w', (socket_names w). split_and!; [exact Hr|done|exact Hs|exact Hl].
Qed.

Lemma run_serveHit_ok s src ip raw seq group gate w :
  let bs := contents (w_heap w) raw in
  writes_succeed w → group_answers s w ip (frameTxID bs) group →
  gate_answers (sv_retransmit s) (fun c => c = w_cache w) w bs gate →
  ∃ w' names, run (serveHit s src ip raw seq) w = (Some tt, w') ∧ names ≡ₚ socket_names w ∧
    w_sent w' = w_sent w ++ hit_sent s src bs seq group gate names ∧
    logged w w' (CacheHits :: hit_log s src group gate).
Proof.
  cbv zeta. intros Hw Hgr Hga. unfold serveHit. rewrite run_bind.
  cbn [run with_rec modify perform fst snd]. rewrite run_bind, run_perform.
  cbn [read_slice fst snd]. cbv zeta.
  change (contents (w_heap (update_rec rec_CacheHit w)) raw) with (contents (w_heap w) raw).
  set (w0 := update_rec rec_CacheHit w). set (txID := frameTxID (contents (w_heap w) raw)) in *.
  fold (groupTier (C := C) s ip txID). rewrite run_bind.
  destruct (run_groupTier_value s ip txID group w0) as (w1 & Hr1 & Hq1 & Hl1);
    [by apply (group_answers_quiet s w w0)|].
  rewrite Hr1. assert (contents (w_heap w1) raw = contents (w_heap w) raw) as Hc
    by (by rewrite (q_heap _ _ Hq1)).
  destruct (run_retransmitAndAck_ok s src raw seq group gate w1) as (w' & names & Hr & Hn & Hs & Hl).
  { intros n. rewrite (q_env _ _ Hq1). apply Hw. }
  { rewrite Hc. eapply gate_answers_mono; [| |exact Hga].
    - intros c ->. apply (q_cache _ _ Hq1).
    - intros t. by apply (later_quiet w0 w1). }
  rewrite Hc in Hr, Hs. exists w', names. split_and!; [exact Hr| | |].
  - unfold socket_names in *. by rewrite (q_sockets _ _ Hq1) in Hn.
  - by rewrite Hs, (q_sent _ _ Hq1).
  - apply (logged_trans w w0 w' [CacheHits]); [by apply (logged_add CacheHits)|].
    unfold hit_log. destruct group; (eapply logged_trans in Hl; [|exact Hl1]); exact Hl.
Qed.

(** The address the limiter sees. *)
Definition src_ip (src : option UDPAddr) : bytes :=
  match src with Some a => ua_IP a | None => IPv6unspecified end.

(** The clock reading of the cache lookup of an admitted request: it comes
    after those of the IP and sequence tiers, and of the chain tier unless
    the HashKey is 0. *)
Definition lookup_time w (h : Z) : Z :=
  env_clock (w_env w) (w_reads w + if (h =? 0)%Z then 2 else 3)%nat.

(** The pre-lookup tiers let an admitted request through to the lookup. *)
Lemma run_processNACK_admitted s d src w :
  single_request d → admits w (src_ip src) (nack_hash d) (nack_seq d) →
  ∃ w2, run (processNACK s d src) w =
        run (lookupAndServe s src (src_ip src) (nack_hash d) (nack_seq d)) w2 ∧
    quiet w w2 ∧ logged w w2 [NACKRequests] ∧
    groupLimiter (w_limiter w2) = groupLimiter (w_limiter w) ∧
    env_clock (w_env w2) (w_reads w2) = lookup_time w (nack_hash d).
Proof.
  intros [Hv He] Ha. rewrite processNACK_eq, run_bind. cbn [run with_rec modify perform fst snd].
  rewrite Hv, He, Z.eqb_refl. cbn [negb]. cbv zeta. fold (src_ip src).
  set (w0 := update_rec rec_NACKRequest w).
  destruct (run_Allow_admitted w0 (src_ip src) (nack_hash d) (nack_seq d) Ha)
    as (w1 & Hr1 & Hq1 & Hrec1 & Hn1 & Hc1 & Hg1).
  rewrite run_bind, Hr1. cbn [fst negb].
  destruct (run_AllowChain_admitted w1 (src_ip src) (nack_hash d))
    as (w2 & Hr2 & Hq2 & Hrec2 & Hn2 & Hg2).
  { intros t Ht. destruct (Ha t) as (_ & _ & Hch); [by apply (later_quiet w0 w1)|].
    unfold chain_verdict in *. by rewrite Hc1. }
  rewrite run_bind, Hr2. cbn [negb]. assert (quiet w w2) as Hq.
  { etrans; [apply (quiet_update_rec rec_NACKRequest w)|]. by etrans. }
  exists w2. split_and!; [done|done| |by rewrite Hg2, Hg1|].
  - unfold logged. rewrite Hrec2, Hrec1. cbn. by destruct (w_rec w).
  - unfold lookup_time. rewrite (q_env _ _ Hq), Hn2, Hn1. cbn [w_reads w0 update_rec].
    f_equal. destruct (nack_hash d =? 0); lia.
Qed.

Lemma run_processNACK_hit (s : Server) (d : bytes) (src : option UDPAddr) (w : World C) (bs : bytes)
    (group gate : bool) :
  let key := nackKey (nack_hash d) (nack_seq d) in
  let reply := cb_Retrieve key (lookup_time w (nack_hash d)) (w_heap w, w_cache w) in
  single_request d → admits w (src_ip src) (nack_hash d) (nack_seq d) →
  cb_view (w_heap w) (w_cache w) (lookup_time w (nack_hash d)) key = Some bs →
  (∀ e, reply.1 ≠ Err e) →
  group_answers s w (src_ip src) (frameTxID bs) group →
  gate_answers (sv_retransmit s) (fun c => c = reply.2.2) w bs gate →
  writes_succeed w →
  ∃ w' names, run (processNACK s d src) w = (Some tt, w') ∧ names ≡ₚ socket_names w ∧
    w_sent w' = w_sent w ++ hit_sent s src bs (nack_seq d) group gate names ∧
    logged w w' ([NACKRequests; CacheHits] ++ hit_log s src group gate).
Proof.
  intros key reply Hd Ha Hview Herr Hgr Hga Hw.
  destruct (run_processNACK_admitted s d src w Hd Ha) as (w2 & -> & Hq & Hlog & Hg & Ht).
  unfold lookupAndServe. rewrite run_bind, run_perform, cache_Retrieve_eq. cbv zeta. cbn [fst snd].
  rewrite (q_heap _ _ Hq), (q_cache _ _ Hq), Ht. fold key. fold reply.
  pose proof (retrieve_reply (w_heap w) (w_cache w) key (lookup_time w (nack_hash d))) as Hrep.
  fold reply in Hrep. rewrite Hview in Hrep. clearbody reply.
  destruct reply as [[[raw|]|e] [h c]]; cbn [fst snd] in *; [|done|by destruct (Herr e)].
  injection Hrep as ->.
  match goal with |- context [run (serveHit _ _ _ _ _) ?x] => set (w3 := x) end.
  assert (∀ t', later w3 t' → later w t') as Hlater.
  { intros t' Ht'. apply (later_quiet w w2); [done|].
    apply (later_step w2 w3); [done|cbn; lia|done]. }
  destruct (run_serveHit_ok s src (src_ip src) raw (nack_seq d) group gate w3)
    as (w' & names & Hr & Hn & Hs & Hl).
  { intros n. cbn. rewrite (q_env _ _ Hq). apply Hw. }
  { by apply (group_answers_quiet s w). }
  { by eapply gate_answers_mono; [|exact Hlater|exact Hga]. }
  exists w', names. split_and!; [exact Hr| | |].
  - unfold socket_names in *. cbn in Hn. by rewrite (q_sockets _ _ Hq) in Hn.
  - rewrite Hs. cbn. by rewrite (q_sent _ _ Hq).
  - by apply (logged_trans w w3 w' [NACKRequests]).
Qed.

(** C3: an admitted request for a cached frame.  Suppose the pre-lookup tiers
    admit the request, the cache holds the frame [bs] when it is looked up,
    the backend answers and socket writes succeed.  Then, for both answers of
    the group tier and both answers of the deduplication gate, [processNACK]
    returns without panic; the frame goes to its group, verbatim and exactly
    once per egress socket, iff the group tier and the gate both let it; the
    ACK (unless suppressed) is sent in all four cases, after the frames; and
    the recorder counts the request, the hit, the tier's drop or the gate's,
    the retransmission whenever the group tier lets it, and the response. *)
Theorem processNACK_hit (s : Server) (d : bytes) (src : option UDPAddr) (w : World C) (bs : bytes)
    (group gate : bool) :
  let key := nackKey (nack_hash d) (nack_seq d) in
  let reply := cb_Retrieve key (lookup_time w (nack_hash d)) (w_heap w, w_cache w) in
  single_request d → admits w (src_ip src) (nack_hash d) (nack_seq d) →
  cb_view (w_heap w) (w_cache w) (lookup_time w (nack_hash d)) key = Some bs →
  (∀ e, reply.1 ≠ Err e) →
  group_answers s w (src_ip src) (frameTxID bs) group →
  gate_answers (sv_retransmit s) (fun c => c = reply.2.2) w bs gate →
  writes_succeed w →
  ∃ w' names, run (processNACK s d src) w = (Some tt, w') ∧ names ≡ₚ socket_names w ∧
    w_sent w' = w_sent w ++ hit_sent s src bs (nack_seq d) group gate names ∧
    logged w w' ([NACKRequests; CacheHits] ++ hit_log s src group gate).
Proof. apply run_processNACK_hit. Qed.

(** C17: an admitted request for a frame the cache does not hold is answered
    by one MISS to the requester (none when MISS responses are suppressed or
    the source address is unknown), nothing is retransmitted, and the
    recorder counts the request, the miss and the response. *)
Theorem processNACK_miss (s : Server) (d : bytes) (src : option UDPAddr) (w : World C) :
  let key := nackKey (nack_hash d) (nack_seq d) in
  single_request d → admits w (src_ip src) (nack_hash d) (nack_seq d) →
  cb_view (w_heap w) (w_cache w) (lookup_time w (nack_hash d)) key = None →
  (∀ e, (cb_Retrieve key (lookup_time w (nack_hash d)) (w_heap w, w_cache w)).1 ≠ Err e) →
  writes_succeed w →
  ∃ w', run (processNACK s d src) w = (Some tt, w') ∧
    match src with
    | Some a =>
        if sv_suppressMISS s
        then w_sent w' = w_sent w ∧ logged w w' [NACKRequests; CacheMisses]
        else w_sent w' = w_sent w ++ [SentResponse a (responseBytes msgTypeMISS 0 0)] ∧
             logged w w' [NACKRequests; CacheMisses; ResponsesSent (str "miss")]
    | None => w_sent w' = w_sent w ∧ logged w w' [NACKRequests; CacheMisses]
    end.
Proof.
  intros key Hd Ha Hview Herr Hw.
  destruct (run_processNACK_admitted s d src w Hd Ha) as (w2 & -> & Hq & Hlog & Hg & Ht).
  unfold lookupAndServe. rewrite run_bind, run_perform, cache_Retrieve_eq. cbv zeta. cbn [fst snd].
  rewrite (q_heap _ _ Hq), (q_cache _ _ Hq), Ht. fold key.
  pose proof (retrieve_reply (w_heap w) (w_cache w) key (lookup_time w (nack_hash d))) as Hrep.
  rewrite Hview in Hrep.
  destruct (cb_Retrieve _ _ _) as [[[raw|]|e] [h c]]; cbn [fst snd] in *; [done| |by destruct (Herr e)].
  rewrite run_bind. cbn [run with_rec modify perform fst snd].
  match goal with |- context [update_rec rec_CacheMiss ?x] =>
    set (w3 := update_rec rec_CacheMiss x) end.
  assert (logged w w3 [NACKRequests; CacheMisses]) as Hl3
    by (apply (logged_trans w w2 w3 [NACKRequests]); [done|by apply (logged_add CacheMisses)]).
  assert (w_sent w3 = w_sent w) as Hs3 by (cbn; apply (q_sent _ _ Hq)).
  destruct src as [a|]; [|by exists w3].
  destruct (sv_suppressMISS s); cbn [negb]; [by exists w3|].
  unfold sendResponse. rewrite run_bind, run_perform. unfold net_send.
  assert (∀ n, env_write (w_env w3) n = true) as Hw3
    by (intros n; cbn; rewrite (q_env _ _ Hq); apply Hw).
  rewrite Hw3. cbn [fst snd negb]. eexists. split_and!; [done| |].
  - cbn [w_sent with_rec update_rec run modify perform fst snd]. by rewrite Hs3.
  - apply (logged_trans w w3 _ [NACKRequests; CacheMisses]); [done|].
    by apply (logged_add (ResponsesSent (str "miss"))).
Qed.

(** ** Refusals *)



End delivery.
