(* ===== verification/System.v ===== *)
(** * From multicast frame to retransmission

    The ingress worker and the NACK server together: what the receive loop
    leaves in the cache, and what a later NACK obtains.  The guarantee holds
    for backends that copy what they store; Aliasing.v has the in-memory
    cache, which keeps a reference to the receive buffer. *)

From S2P Require Import Prelude GoLib RateLimit RateLimitFacts Cache CacheMemory CacheRedis.
From S2P Require Import Metrics ShardCommon World Retransmit Ingress Server ServerFacts.
From S2P Require Import NackFacts Delivery.

Section ingress.
Context {RL : RateLib} {FL : FrameLib} {SH : ShardLib} {C E : Type}
  `{!Backend C E, !BackendSpec C E, !BackendLaws C E}.
Implicit Types w : World C.

Lemma run_processFrame wk raw w :
  run (processFrame wk raw) w =
  run (storeDecoded wk raw (decode_frame (contents (w_heap w) raw))) w.
Proof.
  unfold processFrame, decode_frame. rewrite run_bind, run_perform. cbn [read_slice fst snd].
  destruct (IsBlockFrame _); [done|]. destruct (IsSubtreeDataFrame _); [done|].
  by destruct (IsAnchorFrame _).
Qed.

(** The frame [bs] makes the worker store it, under this key. *)
Definition stored_under (bs : bytes) (key : bytes) : Prop :=
  ∃ hd, decode_frame bs = Some hd ∧ SeqNum hd ≠ 0 ∧ key = indexKey (HashKey hd) (SeqNum hd).

Lemma processFrame_cases (wk : Worker) (raw : slice) (w : World C) :
  let bs := contents (w_heap w) raw in
  let now := env_clock (w_env w) (w_reads w) in
  let pick := env_choice (w_env w) (w_picks w) in
  ∃ w', run (processFrame wk raw) w = (Some tt, w') ∧
    w_sent w' = w_sent w ∧ w_heap w' = w_heap w ∧ w_env w' = w_env w ∧ w_limiter w' = w_limiter w ∧
    (w_reads w ≤ w_reads w' ≤ S (w_reads w))%nat ∧
    match decode_frame bs with
    | None => w_cache w' = w_cache w ∧ logged w w' [FramesDropped (str "decode_error")]
    | Some hd =>
        if SeqNum hd =? 0 then w_cache w' = w_cache w ∧ logged w w' [FramesReceived]
        else
          let r := cb_Store (w_heap w) (indexKey (HashKey hd) (SeqNum hd)) raw (wk_ttl wk) pick now
                     (w_cache w) in
          w_cache w' = r.2 ∧
          logged w w' [FramesReceived; match r.1 with Ok _ => FramesCached | Err _ => CacheErrors end]
    end.
Proof.
  cbv zeta. rewrite run_processFrame. destruct (decode_frame _) as [hd|]; cbn [storeDecoded].
  2:{ eexists. split_and!; [done..|cbn; lia|cbn; lia|done|by apply (logged_add (FramesDropped _))]. }
  rewrite run_bind. cbn [run with_rec modify perform fst snd].
  destruct (SeqNum hd =? 0).
  { eexists. split_and!; [done..|cbn; lia|cbn; lia|done|by apply (logged_add FramesReceived)]. }
  rewrite run_bind, run_perform, cache_Store_eq. cbv zeta. cbn [fst snd].
  cbn [w_heap w_env w_picks w_reads w_cache update_rec].
  destruct (cb_Store _ _ _ _ _ _ _) as [[[]|e] c]; cbn [fst snd];
    (eexists; split_and!; [done..|cbn; lia|cbn; lia|done|]);
    unfold logged; cbn; destruct (w_rec w); cbn; try done; by rewrite <- (assoc (++)).
Qed.

(** C16: one received frame, on every branch.  [processFrame] never panics,
    sends nothing and leaves memory alone.  A frame that does not decode is
    counted as dropped; a decoded frame without a sequence number is counted
    as received; any other decoded frame, of whichever of the four kinds, is
    counted as received and stored, once, under HashKey and SeqNum with the
    configured TTL, and the outcome of the store is counted. *)
Theorem processFrame_spec (wk : Worker) (raw : slice) (w : World C) :
  let bs := contents (w_heap w) raw in
  let now := env_clock (w_env w) (w_reads w) in
  let pick := env_choice (w_env w) (w_picks w) in
  ∃ w', run (processFrame wk raw) w = (Some tt, w') ∧
    w_sent w' = w_sent w ∧ w_heap w' = w_heap w ∧ w_env w' = w_env w ∧ w_limiter w' = w_limiter w ∧
    (w_reads w ≤ w_reads w' ≤ S (w_reads w))%nat ∧
    match decode_frame bs with
    | None => w_cache w' = w_cache w ∧ logged w w' [FramesDropped (str "decode_error")]
    | Some hd =>
        if SeqNum hd =? 0 then w_cache w' = w_cache w ∧ logged w w' [FramesReceived]
        else
          let r := cb_Store (w_heap w) (indexKey (HashKey hd) (SeqNum hd)) raw (wk_ttl wk) pick now
                     (w_cache w) in
          w_cache w' = r.2 ∧
          logged w w' [FramesReceived; match r.1 with Ok _ => FramesCached | Err _ => CacheErrors end]
    end.
Proof. apply processFrame_cases. Qed.

(** ** What later frames leave of a cached one *)

Section copying.
Context `{!Copying C E}.

Definition view_at w (t : Z) (key : bytes) : option bytes :=
  cb_view (w_heap w) (w_cache w) t key.

(** Receiving into a buffer does not change what a copying backend holds. *)
Lemma view_receive w buf bs t key :
  view_at (run (receive_into buf bs) w).2 t key = view_at w t key.
Proof. apply view_heap. Qed.

Lemma clock_mono w i j : monotone_clock (w_env w) → (i ≤ j)%nat → env_clock (w_env w) i ≤ env_clock (w_env w) j.
Proof. intros Hm Hij. induction Hij as [|j Hij IH]; [done|]. specialize (Hm j). lia. Qed.

(** A frame with another key leaves the entry of [key] alone. *)
Lemma processFrame_keeps wk raw w key :
  ¬ stored_under (contents (w_heap w) raw) key → cb_roomy (w_cache w) →
  ∃ w', run (processFrame wk raw) w = (Some tt, w') ∧ cb_roomy (w_cache w') ∧
    w_env w' = w_env w ∧ w_limiter w' = w_limiter w ∧ (w_reads w ≤ w_reads w')%nat ∧
    w_sent w' = w_sent w ∧
    ∀ t, env_clock (w_env w) (w_reads w) ≤ t → view_at w' t key = view_at w t key.
Proof.
  intros Hkey Hroom. destruct (processFrame_cases wk raw w)
    as (w' & Hr & Hs & Hh & He & Hl & [Hn _] & Hcase).
  exists w'. unfold view_at. rewrite Hh.
  destruct (decode_frame (contents (w_heap w) raw)) as [hd|] eqn:Hd.
  2:{ destruct Hcase as [-> _]. split_and!; auto. }
  destruct (SeqNum hd =? 0) eqn:Hz; [destruct Hcase as [-> _]; split_and!; auto|]. breflect.
  destruct Hcase as [-> _].
  assert (key ≠ indexKey (HashKey hd) (SeqNum hd)) as Hne by (intros ->; apply Hkey; by exists hd).
  split_and!; auto.
  - by eapply (store_roomy _ _ _ _ _ _ _ (env_clock (w_env w) (w_reads w)) key).
  - intros t Ht. by apply store_roomy.
Qed.

(** The receive loop on a list of datagrams. *)
Definition receive_all (wk : Worker) (buf : nat) (ds : list bytes) : Prog (World C) bool :=
  receive_loop wk buf ((fun d => (RecvData d, false)) <$> ds).

Lemma receive_all_keeps wk buf key ds w :
  Forall (fun d => ¬ stored_under d key) ds → cb_roomy (w_cache w) → monotone_clock (w_env w) →
  ∃ w', run (receive_all wk buf ds) w = (Some false, w') ∧ cb_roomy (w_cache w') ∧
    w_env w' = w_env w ∧ w_limiter w' = w_limiter w ∧ (w_reads w ≤ w_reads w')%nat ∧
    w_sent w' = w_sent w ∧
    ∀ t, env_clock (w_env w) (w_reads w') ≤ t → view_at w' t key = view_at w t key.
Proof.
  intros Hds. revert w. induction Hds as [|d ds Hd Hds IH]; intros w Hroom Hm.
  { exists w. by split_and!. }
  unfold receive_all. cbn [fmap list_fmap receive_loop].
  case_bool_decide as Hlen; [|by apply IH].
  rewrite run_bind. cbn [run receive_into modify perform fst snd].
  set (w0 := set_heap (fill (w_heap w) buf d) w).
  assert (contents (w_heap w0) (Slice buf 0 (length d)) = d) as Hc by apply contents_fill.
  rewrite run_bind.
  destruct (processFrame_keeps wk (Slice buf 0 (length d)) w0 key) as (w1 & Hr & Hroom1 & He1 & Hl1 & Hn1 & Hs1 & Hv1).
  { by rewrite Hc. } { done. }
  rewrite Hr.
  destruct (IH w1 Hroom1) as (w' & Hr' & Hroom' & He' & Hl' & Hn' & Hs' & Hv'); [by rewrite He1|].
  exists w'. split_and!; [exact Hr'|done|by rewrite He'|by rewrite Hl'| |by rewrite Hs'|].
  { etrans; [exact Hn1|exact Hn']. }
  intros t Ht. rewrite Hv' by (by rewrite He1).
  rewrite Hv1; [apply (view_receive w buf d)|].
  etrans; [|exact Ht]. apply (clock_mono w); [done|]. etrans; [exact Hn1|exact Hn'].
Qed.

(** The entry a frame leaves when it is received and stored. *)
Lemma receive_stores wk buf bs hd w :
  (0 < length bs)%nat → decode_frame bs = Some hd → SeqNum hd ≠ 0 → 0 < wk_ttl wk →
  cb_roomy (w_cache w) →
  let key := indexKey (HashKey hd) (SeqNum hd) in
  let t0 := env_clock (w_env w) (w_reads w) in
  (cb_Store (fill (w_heap w) buf bs) key (Slice buf 0 (length bs)) (wk_ttl wk)
     (env_choice (w_env w) (w_picks w)) t0 (w_cache w)).1 = Ok tt →
  ∃ w', run (receive_all wk buf [bs]) w = (Some false, w') ∧ cb_roomy (w_cache w') ∧
    w_env w' = w_env w ∧ (w_reads w ≤ w_reads w')%nat ∧ w_sent w' = w_sent w ∧
    ∀ t, t0 ≤ t < t0 + wk_ttl wk → view_at w' t key = Some bs.
Proof.
  intros Hlen Hd Hz Httl Hroom key t0 Hok. unfold receive_all. cbn [fmap list_fmap receive_loop].
  rewrite bool_decide_eq_true_2 by done. rewrite run_bind.
  cbn [run receive_into modify perform fst snd]. set (w0 := set_heap (fill (w_heap w) buf bs) w).
  assert (contents (w_heap w0) (Slice buf 0 (length bs)) = bs) as Hc by apply contents_fill.
  rewrite run_bind.
  destruct (processFrame_cases wk (Slice buf 0 (length bs)) w0)
    as (w1 & Hr & Hs & Hh & He & _ & [Hn _] & Hcase).
  rewrite Hr. rewrite Hc, Hd, (proj2 (Z.eqb_neq _ _) Hz) in Hcase. destruct Hcase as [Hcache _].
  cbn [w_heap w_env w_reads w_picks w_cache w0 set_heap] in Hcache. fold key t0 in Hcache.
  exists w1. unfold view_at. split_and!; [done| |done|done|done|].
  - rewrite Hcache.
    apply (store_roomy _ _ key _ _ _ t0 t0 [] Hroom); [done|]. by intros ?%(f_equal length).
  - intros t Ht. rewrite Hh, Hcache.
    rewrite (store_hit (w_heap w0) (w_cache w) key) by done. by rewrite Hc.
Qed.

Lemma receive_all_cons wk buf d ds w w1 :
  run (receive_all wk buf [d]) w = (Some false, w1) →
  run (receive_all wk buf (d :: ds)) w = run (receive_all wk buf ds) w1.
Proof.
  unfold receive_all. cbn [fmap list_fmap receive_loop]. case_bool_decide; [|by intros [= <-]].
  rewrite !run_bind. cbn [run receive_into modify perform fst snd]. rewrite !run_bind.
  destruct (run (processFrame _ _) _) as [[[]|] w']; [|done]. by intros [= <-].
Qed.

(** C1: a cached frame is retransmitted verbatim.  For a backend that copies
    what it stores and does not evict: a frame is received and its store
    accepted; any number of other frames, with other keys, are received into
    the same buffer; then a single-frame NACK for the frame's HashKey and
    SeqNum arrives, is looked up before the TTL has passed, and is let
    through by the tiers and the gate.  Then exactly the bytes first received
    are sent, once on every egress socket, to the group derived from them,
    followed by the ACK. *)
Theorem cached_frame_retransmitted (s : Server) (wk : Worker) (buf : nat) (f0 : bytes) (hd : Header)
    (others : list bytes) (d : bytes) (src : option UDPAddr) (w : World C) :
  let key := indexKey (HashKey hd) (SeqNum hd) in
  let t0 := env_clock (w_env w) (w_reads w) in
  let w1 := (run (receive_all wk buf (f0 :: others)) w).2 in
  let reply := cb_Retrieve key (lookup_time w1 (nack_hash d)) (w_heap w1, w_cache w1) in
  monotone_clock (w_env w) → cb_roomy (w_cache w) →
  (0 < length f0)%nat → decode_frame f0 = Some hd → SeqNum hd ≠ 0 → 0 < wk_ttl wk →
  (cb_Store (fill (w_heap w) buf f0) key (Slice buf 0 (length f0)) (wk_ttl wk)
     (env_choice (w_env w) (w_picks w)) t0 (w_cache w)).1 = Ok tt →
  Forall (fun f => ¬ stored_under f key) others →
  single_request d → nack_hash d = HashKey hd → nack_seq d = SeqNum hd →
  admits w1 (src_ip src) (nack_hash d) (nack_seq d) →
  lookup_time w1 (nack_hash d) < t0 + wk_ttl wk →
  (∀ e, reply.1 ≠ Err e) →
  group_answers s w1 (src_ip src) (frameTxID f0) true →
  gate_answers (sv_retransmit s) (fun c => c = reply.2.2) w1 f0 true →
  writes_succeed w →
  ∃ w' names, run (processNACK s d src) w1 = (Some tt, w') ∧ names ≡ₚ socket_names w1 ∧
    w_sent w' = w_sent w ++
      frames (egressGroup (sv_retransmit s) f0 (frameTxID f0)) f0 names ++ ack_list s src (SeqNum hd).
Proof.
  intros key t0 w1 reply Hm Hroom Hlen Hd Hz Httl Hok Hoth Hreq Hh Hq Hadm Hlook Herr Hgr Hga Hw.
  destruct (receive_stores wk buf f0 hd w Hlen Hd Hz Httl Hroom Hok)
    as (wa & Hra & Hrooma & Hea & Hna & Hsa & Hva).
  destruct (receive_all_keeps wk buf key others wa Hoth Hrooma) as (wb & Hrb & _ & Heb & _ & Hnb & Hsb & Hvb);
    [by rewrite Hea|].
  assert (w1 = wb) as Hw1 by (unfold w1; rewrite (receive_all_cons wk buf f0 others w wa Hra); by rewrite Hrb).
  clearbody w1. subst w1.
  assert (env_clock (w_env wa) (w_reads wb) ≤ lookup_time wb (nack_hash d)) as Hlt.
  { unfold lookup_time. rewrite Heb. apply (clock_mono wa); [by rewrite Hea|lia]. }
  assert (t0 ≤ lookup_time wb (nack_hash d)) as Hlt0.
  { etrans; [|exact Hlt]. rewrite Hea. apply (clock_mono w); [done|]. etrans; [exact Hna|exact Hnb]. }
  destruct (run_processNACK_hit s d src wb f0 true true) as (w' & names & Hr & Hn & Hs & _); try done.
  - change (view_at wb (lookup_time wb (nack_hash d)) (nackKey (nack_hash d) (nack_seq d)) = Some f0).
    rewrite Hh, Hq. change (nackKey (HashKey hd) (SeqNum hd)) with key. rewrite <- Hh.
    rewrite Hvb by done. by apply Hva.
  - unfold reply in Herr. rewrite Hh, Hq. rewrite Hh in Herr. exact Herr.
  - unfold reply in Hga. rewrite Hh, Hq. rewrite Hh in Hga. exact Hga.
  - intros n. rewrite Heb, Hea. apply Hw.
  - exists w', names. split_and!; [done|done|]. rewrite Hs, Hsb, Hsa. unfold hit_sent. by rewrite Hq.
Qed.
End copying.
End ingress.
