(* ===== verification/Gate.v ===== *)
(** * The deduplication gate (retransmit/retransmit.go, cache/redis/redis.go)

    [Retransmit] asks Redis, with SET NX, whether some endpoint has already
    retransmitted the frame.  The class [GateLaws] states what the gate
    promises to the retransmitter; the two deployments with a Redis client
    keep the promise, and [dedup_window] is proved against the class. *)

From S2P Require Import Prelude GoLib RateLimit RateLimitFacts Cache CacheMemory CacheRedis.
From S2P Require Import Metrics ShardCommon World Retransmit Ingress Server ServerFacts.
From S2P Require Import NackFacts Delivery.

(** ** The key *)

(** The dedup key of a decoded frame is its sequence number. *)
Lemma buildDedupKey_seq {FL : FrameLib} `{!FrameLaws} raw hd :
  decode_frame raw = Some hd → buildDedupKey raw = be_put 8 (SeqNum hd).
Proof.
  intros Hd. destruct (decode_seq raw hd Hd) as [Hl Hs]. unfold buildDedupKey.
  rewrite bool_decide_eq_false_2 by lia. rewrite Hs. reflexivity.
Qed.

(** C36: what the gate identifies.  Two decoded frames have the same
    deduplication key iff they carry the same sequence number: frames of
    different flows (different HashKeys) with the same number are one frame
    to the gate, although the cache keeps them apart. *)
Theorem dedup_key_spec {FL : FrameLib} `{!FrameLaws} (raw raw' : bytes) (hd hd' : Header) :
  decode_frame raw = Some hd → decode_frame raw' = Some hd' →
  length (buildDedupKey raw) = 8%nat ∧
  (buildDedupKey raw = buildDedupKey raw' ↔ SeqNum hd = SeqNum hd') ∧
  (HashKey hd ≠ HashKey hd' →
   indexKey (HashKey hd) (SeqNum hd) ≠ indexKey (HashKey hd') (SeqNum hd')).
Proof.
  intros Hd Hd'. destruct (decode_range raw hd Hd) as [Hh Hr].
  destruct (decode_range raw' hd' Hd') as [Hh' Hr'].
  rewrite (buildDedupKey_seq raw hd Hd), (buildDedupKey_seq raw' hd' Hd'). split_and!.
  - reflexivity.
  - split; [by apply (be_put_inj 8)|by intros ->].
  - rewrite !indexKey_spec. intros Hne [E _]%app_inj_1; [|done]. apply Hne. by apply (be_put_inj 8).
Qed.

(** ** What the gate promises *)

(** [marked c t k]: the key [k] is taken at time [t]. *)
Class GateSpec (C : Type) := { marked : C → Z → bytes → Prop }.

Class GateLaws (C E : Type) `{!Backend C E} `{!GateSpec C}
    (gate : bytes → bytes → Z → Z → atomic C (bool * option E)) : Prop := {
  gate_some : cb_SetNX = Some gate;
  gate_open_marks (c : C) k v ttl now t :
    0 < ttl → (gate k v ttl now c).1.1 = true → now ≤ t < now + ttl → marked (gate k v ttl now c).2 t k;
  gate_marked_shut (c : C) k v ttl now : marked c now k → (gate k v ttl now c).1.1 = false;
  gate_keeps (c : C) k v ttl now k' t :
    marked c now k' → marked c t k' → now ≤ t → marked (gate k v ttl now c).2 t k';
  store_keeps (h : heap) (c : C) k s ttl p now k' t :
    frame_key k → length k' = 8%nat → now ≤ t → marked c t k' →
    marked (cb_Store h k s ttl p now c).2 t k';
  retrieve_keeps (h : heap) (c : C) k now k' t :
    now ≤ t → marked c t k' → marked (cb_Retrieve k now (h, c)).2.2 t k';
}.

(** What the program does to the backend, at the time [now]. *)
Inductive backend_step {C E : Type} `{!Backend C E} (now : Z) : C → C → Prop :=
| bs_store h k s ttl p (c : C) :
    frame_key k → backend_step now c (cb_Store h k s ttl p now c).2
| bs_retrieve h k (c : C) : backend_step now c (cb_Retrieve k now (h, c)).2.2
| bs_setnx f k v ttl (c : C) : cb_SetNX = Some f → backend_step now c (f k v ttl now c).2.

(** A history of such steps between two times. *)
Inductive backend_path {C E : Type} `{!Backend C E} : Z → Z → C → C → Prop :=
| bp_nil lo hi (c : C) : lo ≤ hi → backend_path lo hi c c
| bp_cons lo now hi (c1 c2 c3 : C) :
    lo ≤ now → backend_step now c1 c2 → backend_path now hi c2 c3 → backend_path lo hi c1 c3.

(** ** The deployments with a gate *)

Section instances.
Context {RD : RedisLib} `{!RedisSpec, !RedisLaws}.

(** A SET NX that is refused or fails answers false; one on a taken key is
    refused. *)
Lemma setnx_taken db k v ttl now :
  is_Some (redis_view db now k) → (redis_SetNX k v ttl now db).1.1 = false.
Proof.
  intros [x Hx]. pose proof (setnx_error db k v ttl now) as He.
  destruct (redis_SetNX k v ttl now db) as [[b [e|]] db'] eqn:Hr; cbn in *; [by eapply He|].
  destruct b; [|done]. assert (redis_view db now k = None) as Hn by (eapply setnx_true; by rewrite Hr).
  congruence.
Qed.

Lemma setnx_marks db k v ttl now t :
  0 < ttl → (redis_SetNX k v ttl now db).1.1 = true → now ≤ t < now + ttl →
  is_Some (redis_view (redis_SetNX k v ttl now db).2 t k).
Proof.
  intros Httl Hb Ht. pose proof (setnx_error db k v ttl now) as He.
  destruct (redis_SetNX k v ttl now db) as [[b [e|]] db'] eqn:Hr; cbn in *; subst b.
  - by specialize (He e eq_refl).
  - pose proof (setnx_set db k v ttl now t Httl) as Hs. rewrite Hr in Hs. eexists. by apply Hs.
Qed.

Lemma setnx_keeps_marks db k v ttl now k' t :
  is_Some (redis_view db now k') → is_Some (redis_view db t k') → now ≤ t →
  is_Some (redis_view (redis_SetNX k v ttl now db).2 t k').
Proof.
  intros Hn Ht Hle. destruct (decide (k' = k)) as [->|Hne].
  - by rewrite setnx_keeps.
  - by rewrite setnx_other.
Qed.

#[export] Instance redis_gate_spec : GateSpec RedisDeployment :=
  { marked c t k := is_Some (redis_view (rd_db c) t (frame_prefix ++ k)) }.

#[export] Instance redis_gate_laws : GateLaws RedisDeployment redis_error (fun k v ttl now c =>
    let '(r, db) := redis_cache_SetNX (MkRedisCache frame_prefix) k v ttl now (rd_db c) in
    (r, MkRedisDeployment db)).
Proof.
  constructor; cbn [marked redis_gate_spec]; unfold redis_cache_SetNX; cbn [prefix].
  - reflexivity.
  - intros c k v ttl now t Httl Hb Ht.
    pose proof (setnx_marks (rd_db c) (frame_prefix ++ k) v ttl now t Httl) as Hm.
    destruct (redis_SetNX _ _ _ _ _); cbn in *. auto.
  - intros c k v ttl now Hm. pose proof (setnx_taken _ _ v ttl _ Hm) as Hs.
    by destruct (redis_SetNX _ _ _ _ _).
  - intros c k v ttl now k' t Hn Ht Hle.
    pose proof (setnx_keeps_marks (rd_db c) (frame_prefix ++ k) v ttl now _ t Hn Ht Hle) as Hm.
    by destruct (redis_SetNX _ _ _ _ _).
  - intros h c k s ttl p now k' t Hk Hk' Hle Hm. cbn. unfold redis_Store. cbn [prefix].
    pose proof (set_other (rd_db c) (frame_prefix ++ k) (contents h s) ttl now t (frame_prefix ++ k') Hle)
      as Hs. destruct (redis_Set _ _ _ _ _); cbn in *. rewrite Hs; [done|].
    intros ->%(inj (app frame_prefix)). unfold frame_key in Hk. congruence.
  - intros h c k now k' t Hle Hm. cbn.
    pose proof (get_view (rd_db c) (frame_prefix ++ k) now t (frame_prefix ++ k')) as Hv.
    destruct (redis_Get _ _ _) as [[v|[]] db']; cbn in *; by rewrite Hv.
Qed.

#[export] Instance hybrid_gate_spec : GateSpec HybridDeployment :=
  { marked c t k := is_Some (redis_view (hd_db c) t (dedup_prefix ++ k)) }.

#[export] Instance hybrid_gate_laws : GateLaws HybridDeployment redis_error (fun k v ttl now c =>
    let '(r, db) := redis_cache_SetNX (MkRedisCache dedup_prefix) k v ttl now (hd_db c) in
    (r, MkHybridDeployment (hd_mem c) db)).
Proof.
  constructor; cbn [marked hybrid_gate_spec]; unfold redis_cache_SetNX; cbn [prefix].
  - reflexivity.
  - intros c k v ttl now t Httl Hb Ht.
    pose proof (setnx_marks (hd_db c) (dedup_prefix ++ k) v ttl now t Httl) as Hm.
    destruct (redis_SetNX _ _ _ _ _); cbn in *. auto.
  - intros c k v ttl now Hm. pose proof (setnx_taken _ _ v ttl _ Hm) as Hs.
    by destruct (redis_SetNX _ _ _ _ _).
  - intros c k v ttl now k' t Hn Ht Hle.
    pose proof (setnx_keeps_marks (hd_db c) (dedup_prefix ++ k) v ttl now _ t Hn Ht Hle) as Hm.
    by destruct (redis_SetNX _ _ _ _ _).
  - done.
  - done.
Qed.
End instances.

(** ** One retransmission per window *)

Section gate.
Context {RL : RateLib} {FL : FrameLib} {SH : ShardLib} {C E : Type}
  `{!Backend C E} `{!GateSpec C} {gate : bytes → bytes → Z → Z → atomic C (bool * option E)}
  `{!GateLaws C E gate}.
Implicit Types w : World C.

Lemma backend_path_le lo hi (c c' : C) : backend_path lo hi c c' → lo ≤ hi.
Proof. induction 1; lia. Qed.

(** A taken key stays taken while the program uses the backend. *)
Lemma step_marked now (c c' : C) t k :
  length k = 8%nat → now ≤ t → backend_step now c c' → marked c now k → marked c t k → marked c' t k.
Proof.
  intros Hk Ht Hs Hn Hm. destruct Hs as [h k' s ttl p c Hk'|h k' c|f k' v ttl c Hf].
  - by apply store_keeps.
  - by apply retrieve_keeps.
  - rewrite gate_some in Hf. injection Hf as <-. by apply gate_keeps.
Qed.

Lemma marked_path lo hi D c c' k :
  length k = 8%nat → backend_path lo hi c c' →
  (∀ t, lo ≤ t < D → marked c t k) → ∀ t, hi ≤ t < D → marked c' t k.
Proof.
  intros Hk Hp. induction Hp as [lo hi c Hle|lo now hi c1 c2 c3 Hle Hs Hp IH]; intros Hm t Ht.
  { apply Hm. lia. }
  pose proof (backend_path_le _ _ _ _ Hp). apply IH; [|done]. clear IH t Ht.
  intros t Ht. eapply step_marked; [done| |exact Hs|apply Hm; lia..]. lia.
Qed.

(** [Retransmit] up to the answer of the gate. *)
Lemma run_Retransmit_gate r raw txID w :
  let bs := contents (w_heap w) raw in
  let now := env_clock (w_env w) (w_reads w) in
  let res := gate (buildDedupKey bs) (str "1") (rt_dedupWindow r) now (w_cache w) in
  let w1 := set_cache res.2 (time_now w).2 in
  (56 ≤ length bs)%nat →
  run (Retransmit r raw txID) w =
  if res.1.1 then run (retransmit_send r raw txID) w1
  else (Some true, update_rec rec_RetransmitDedup w1).
Proof.
  cbv zeta. intros Hlen. unfold Retransmit. rewrite gate_some.
  rewrite run_bind, run_perform. cbn [read_slice fst snd]. cbv zeta.
  rewrite bool_decide_eq_true_2 by (rewrite length_buildDedupKey by done; lia).
  rewrite run_bind, run_perform, gate_SetNX_eq. cbv zeta. cbn [fst snd].
  by destruct (gate _ _ _ _ _) as [[[] e] c].
Qed.

Lemma run_retransmit_send_cache r raw txID w :
  w_cache (run (retransmit_send r raw txID) w).2 = w_cache w.
Proof.
  unfold retransmit_send. rewrite run_bind, run_perform. cbn [read_slice fst snd]. rewrite run_perform.
  pose proof (egress_all_spec (egressGroup r (contents (w_heap w) raw) txID) raw w) as H.
  destruct (egress_all _ _ _) as [ok w']. by destruct H as (_ & _ & Hc & _).
Qed.

(** C5: one retransmission per window.  An endpoint retransmits a frame: the
    gate lets it through, and what leaves the host is copies of it, verbatim,
    to its group, on distinct egress sockets.  Until the deduplication window has passed,
    whatever the endpoints sharing the backend store, look up or gate in
    between, [Retransmit] of a frame with the same key, by any endpoint,
    sends nothing, reports success and counts one suppressed
    retransmission. *)
Theorem dedup_window (r r' : Retransmitter) (raw raw' : slice) (txID txID' : bytes)
    (w w2 : World C) :
  let bs := contents (w_heap w) raw in
  let bs' := contents (w_heap w2) raw' in
  let t := env_clock (w_env w) (w_reads w) in
  let t' := env_clock (w_env w2) (w_reads w2) in
  let w1 := (run (Retransmit r raw txID) w).2 in
  (56 ≤ length bs)%nat → 0 < rt_dedupWindow r →
  (gate (buildDedupKey bs) (str "1") (rt_dedupWindow r) t (w_cache w)).1.1 = true →
  backend_path t t' (w_cache w1) (w_cache w2) → t' < t + rt_dedupWindow r →
  (56 ≤ length bs')%nat → buildDedupKey bs' = buildDedupKey bs →
  (∃ names rest, names ++ rest ≡ₚ socket_names w ∧
     w_sent w1 = w_sent w ++ frames (egressGroup r bs txID) bs names) ∧
  ∃ w2', run (Retransmit r' raw' txID') w2 = (Some true, w2') ∧ w_sent w2' = w_sent w2 ∧
    logged w2 w2' [RetransmitDedups].
Proof.
  intros bs bs' t t' w1 Hlen Hwin Hopen Hpath Hin Hlen' Hkey.
  assert (w_cache w1 = (gate (buildDedupKey bs) (str "1") (rt_dedupWindow r) t (w_cache w)).2) as Hc1.
  { unfold w1. rewrite run_Retransmit_gate by done. fold bs t. rewrite Hopen.
    by rewrite run_retransmit_send_cache. }
  split.
  - destruct (run_Retransmit r raw txID w) as (ok & _ & _ & _ & names & rest & Hn & Hs).
    by exists names, rest.
  - rewrite run_Retransmit_gate by done. fold bs' t'. rewrite Hkey.
    assert (marked (w_cache w2) t' (buildDedupKey bs)) as Hm.
    { eapply (marked_path t t' (t + rt_dedupWindow r)); [by apply length_buildDedupKey|done| |].
      - intros u Hu. rewrite Hc1. by apply gate_open_marks.
      - split; [done|lia]. }
    rewrite (gate_marked_shut _ _ _ _ _ Hm). eexists. split_and!; [done|done|].
    by apply (logged_add RetransmitDedups).
Qed.
End gate.
