(* ===== verification/GateRun.v ===== *)
(** * The deduplication gate in the running process

    [dedup_window] is about one endpoint that retransmits before another asks.
    Here the workers of one process interleave: between the answer of the gate
    and the send loop other workers look the same frame up, ask the gate, send.
    Still at most one copy of a frame leaves by an interface per window, for a
    backend whose lookups give the caller bytes of its own. *)

From S2P Require Import Prelude GoLib RateLimit RateLimitFacts ServiceConfig Cache CacheMemory.
From S2P Require Import CacheRedis Metrics ShardCommon World Retransmit Beacon Ingress Server.
From S2P Require Import ServerRun ServerFacts NackFacts Concurrency Lifecycle Rely Rights Process.
From S2P Require Import Delivery System Gate.

(** Every lookup returns a new array and leaves the others alone. *)
Class FreshRetrieve (C E : Type) `{!Backend C E} : Prop := {
  retrieve_new (h : heap) (c : C) k now s :
    (cb_Retrieve k now (h, c)).1 = Ok (Some s) →
    (sl_buf s ∉ dom h) ∧ sl_buf s ∈ dom ((cb_Retrieve k now (h, c)).2.1);
  retrieve_frame (h : heap) (c : C) k now :
    dom h ⊆ dom ((cb_Retrieve k now (h, c)).2.1) ∧
    ∀ l, l ∈ dom h → (cb_Retrieve k now (h, c)).2.1 !! l = h !! l;
}.

#[export] Instance redis_fresh {RD : RedisLib} : FreshRetrieve RedisDeployment redis_error.
Proof.
  assert (∀ (h : heap) bs, sl_buf (alloc h bs).1 ∉ dom h) as Hfresh
    by (intros h bs; unfold alloc; cbn; apply is_fresh).
  assert (∀ (h : heap) bs, dom (alloc h bs).2 = {[sl_buf (alloc h bs).1]} ∪ dom h) as Hdom
    by (intros h bs; unfold alloc; cbn; by rewrite dom_insert_L).
  assert (∀ (h : heap) bs l, l ∈ dom h → (alloc h bs).2 !! l = h !! l) as Hkeep.
  { intros h bs l Hl. unfold alloc. cbn. rewrite lookup_insert_ne; [done|]. intros <-. by apply (Hfresh h bs). }
  constructor; cbn; unfold redis_Retrieve; cbn [prefix].
  - intros h c k now s. destruct (redis_Get _ _ _) as [[v|[]] db]; cbn; try done.
    intros [= <-]. rewrite Hdom. split; [apply Hfresh|set_solver].
  - intros h c k now. destruct (redis_Get _ _ _) as [[v|[]] db]; cbn; try done.
    rewrite Hdom. split; [set_solver|apply Hkeep].
Qed.

(** What happens to a backend in the background leaves the marks alone. *)
Definition keeps_marks {C : Type} `{!GateSpec C} (bg : Z → C → C → Prop) : Prop :=
  ∀ now c c' t k, length k = 8%nat → now ≤ t → bg now c c' → marked c now k → marked c t k → marked c' t k.

(** The endpoints that share the backend do. *)
Lemma sharing_keeps_marks {C E : Type} `{!Backend C E} `{!GateSpec C}
    {gate : bytes → bytes → Z → Z → atomic C (bool * option E)} `{!GateLaws C E gate} :
  keeps_marks (C := C) backend_step.
Proof. intros now c c' t k. apply step_marked. Qed.

Section gate_run.
Context {RL : RateLib} {FL : FrameLib} {SH : ShardLib} {C E : Type}
  `{!Backend C E} `{!GateSpec C} {gate : bytes → bytes → Z → Z → atomic C (bool * option E)}
  `{!GateLaws C E gate, !FreshRetrieve C E}.
Implicit Types w : World C.

(** The environment stays and the clock goes on. *)
Definition later w w' : Prop := w_env w' = w_env w ∧ (w_reads w ≤ w_reads w')%nat.

#[global] Instance later_preorder : PreOrder later.
Proof. split; [by split|]. intros w1 w2 w3 [H1 H2] [H3 H4]. split; [congruence|lia]. Qed.

Lemma clock_le (e : Env) m n : monotone_clock e → (m ≤ n)%nat → env_clock e m ≤ env_clock e n.
Proof. intros He Hle. induction Hle as [|n _ IH]; [done|]. specialize (He n). lia. Qed.

Lemma quiet_later w w' : quiet w w' → later w w'.
Proof. intros []. done. Qed.

(** The receive buffer, an interface, a deduplication key, and a window. *)
Variables (buf : nat) (iface K : bytes) (start window : Z).
Hypothesis K_length : length K = 8%nat.

Definition is_copy (d : Sent) : bool :=
  match d with
  | SentFrame n _ b => bool_decide (n = iface) && bool_decide (buildDedupKey b = K)
  | _ => false
  end.

(** The copies that have left by the interface. *)
Definition copies w : nat := length (filter (fun d => is_copy d = true) (w_sent w)).

(** Only the receive buffer is overwritten. *)
Definition heap_grows (h h' : heap) : Prop :=
  dom h ⊆ dom h' ∧ ∀ l, l ∈ dom h → l ≠ buf → h' !! l = h !! l.

(** The clock has not left the window. *)
Definition in_window w : Prop :=
  monotone_clock (w_env w) ∧ ∀ i, (i < w_reads w)%nat → env_clock (w_env w) i < start + window.

(** The key is taken for the rest of the window. *)
Definition shut w : Prop :=
  ∀ t, env_clock (w_env w) (w_reads w) ≤ t < start + window → marked (w_cache w) t K.

Definition rely w w' : Prop :=
  later w w' ∧ heap_grows (w_heap w) (w_heap w') ∧ (in_window w' → shut w → shut w').

Lemma in_window_back w w' : later w w' → in_window w' → in_window w.
Proof. intros [He Hr] [Hm Hi]. rewrite He in *. split; [done|]. intros i Hlt. apply Hi. lia. Qed.

#[global] Instance rely_preorder : PreOrder rely.
Proof.
  split.
  - intros w. by split.
  - intros w1 w2 w3 (H1 & [Hd Hh] & Hs) (H1' & [Hd' Hh'] & Hs'). split_and!.
    + by etrans.
    + split; [set_solver|]. intros l Hl Hne. rewrite Hh' by set_solver. by apply Hh.
    + intros Hv Hsh. apply Hs'; [done|]. apply Hs; [by eapply in_window_back|done].
Qed.

Local Abbreviation calm := (calm rely copies).
Local Abbreviation acts := (acts rely copies shut).
Local Abbreviation guarded := (guarded rely acts in_window).
Local Abbreviation guarded_bind := (guarded_bind rely acts in_window).
Local Abbreviation guarded_calm :=
  (guarded_calm rely acts in_window calm (calm_R rely copies) (calm_acts rely copies shut)).
Local Abbreviation guarded_calm_bind :=
  (guarded_calm_bind rely acts in_window calm (calm_R rely copies) (calm_acts rely copies shut)).

(** An action that changes the backend only by keeping marks is calm if it
    sends no copy. *)
Lemma calm_intro w w' :
  later w w' → heap_grows (w_heap w) (w_heap w') → (copies w' ≤ copies w)%nat →
  (in_window w' → ∀ t, env_clock (w_env w) (w_reads w) ≤ t → env_clock (w_env w') (w_reads w') ≤ t →
     t < start + window → shut w → marked (w_cache w) t K → marked (w_cache w') t K) →
  calm w w'.
Proof.
  intros Hl Hh Hc Hm. split; [|done]. split_and!; [done|done|]. intros Hv Hs t Ht.
  pose proof Hl as [He Hr]. pose proof Hv as [Hmono _].
  assert (env_clock (w_env w) (w_reads w) ≤ t) as Hle.
  { rewrite He in *. pose proof (clock_le _ _ _ Hmono Hr). lia. }
  apply Hm; try done; [lia|lia|]. apply Hs. lia.
Qed.

Lemma calm_quiet w w' : quiet w w' → calm w w'.
Proof.
  intros Hq. pose proof (quiet_later _ _ Hq). destruct Hq as [_ _ _ Hh Hc _ Hs _].
  apply calm_intro; [done|by rewrite Hh|by unfold copies; rewrite Hs|by rewrite Hc].
Qed.

Lemma copies_snoc w d : w_sent w ++ [d] = w_sent w ++ [d] → is_copy d = false →
  length (filter (fun d => is_copy d = true) (w_sent w ++ [d])) = copies w.
Proof. intros _ Hd. rewrite filter_app, filter_cons, decide_False, app_nil_r by congruence. done. Qed.

Lemma calm_net_send d w : is_copy d = false → calm w (net_send d w).2.
Proof.
  intros Hd. apply calm_intro; cbn; try done.
  unfold copies at 1. cbn. destruct (env_write _ _); [by rewrite copies_snoc|done].
Qed.

Lemma calm_Store key v ttl w : frame_key key → calm w (cache_Store key v ttl w).2.
Proof.
  intros Hk. rewrite cache_Store_eq. cbv zeta. cbn [snd]. apply calm_intro; cbn; [by split; cbn; auto|done|done|].
  intros _ t Ht _ _ _ Hm. by apply store_keeps.
Qed.

Lemma calm_Retrieve key w : calm w (cache_Retrieve key w).2.
Proof.
  rewrite cache_Retrieve_eq. cbv zeta. cbn [snd].
  pose proof (retrieve_frame (w_heap w) (w_cache w) key (env_clock (w_env w) (w_reads w))) as [Hd Hh].
  apply calm_intro; cbn; [by split; cbn; auto|by split; auto|done|].
  intros _ t Ht _ _ _ Hm. by apply retrieve_keeps.
Qed.

Lemma calm_receive bs w : calm w (set_heap (fill (w_heap w) buf bs) w).
Proof.
  apply calm_intro; cbn; [done| |done|done]. unfold fill. split; [rewrite dom_insert; set_solver|].
  intros l _ Hne. by rewrite lookup_insert_ne.
Qed.

Lemma steps_calm {A : Type} (body : Prog (World C) A) : steps quiet body → steps calm body.
Proof. apply steps_impl, calm_quiet. Qed.

(** ** The handlers *)

(** What a worker knows when it takes a request. *)
Definition base w : Prop :=
  monotone_clock (w_env w) ∧ start ≤ env_clock (w_env w) (w_reads w) ∧ buf ∈ dom (w_heap w).

Lemma base_stays w w' : rely w w' → base w → base w'.
Proof.
  intros ((He & Hr) & [Hd _] & _) (Hm & Hs & Hb). unfold base. rewrite He. split_and!; [done| |set_solver].
  pose proof (clock_le _ _ _ Hm Hr). lia.
Qed.

(** The slice is over an array of its own. *)
Definition owned (raw : slice) w : Prop := sl_buf raw ∈ dom (w_heap w) ∧ sl_buf raw ≠ buf.

Lemma owned_later raw w w' :
  rely w w' → owned raw w → owned raw w' ∧ contents (w_heap w') raw = contents (w_heap w) raw.
Proof.
  intros (_ & [Hd Hh] & _) [Hin Hne]. split; [split; [set_solver|done]|].
  unfold contents. by rewrite Hh.
Qed.

Lemma guarded_read {A : Type} m raw (k : bytes → Prog (World C) A) Φ w :
  owned raw w → (∀ w', rely w w' → guarded m (k (contents (w_heap w) raw)) Φ w') →
  guarded m (perform (read_slice raw) ≫= k) Φ w.
Proof.
  intros Ho Hk. apply guarded_bind. apply guarded_perform with (m' := m).
  intros w1 H1 _. split; [apply calm_acts, calm_quiet, quiet_read|]. intros w2 H2. cbn in *.
  rewrite (proj2 (owned_later _ _ _ H1 Ho)). apply Hk. by etrans.
Qed.

(** Of the frames sent to distinct interfaces at most one is a copy, and none
    if the frame has another key. *)
Lemma copies_frames dst bs names :
  NoDup names →
  (length (filter (fun d => is_copy d = true) (frames dst bs names)) ≤
   if decide (buildDedupKey bs = K) then 1 else 0)%nat ∧
  (iface ∉ names → filter (fun d => is_copy d = true) (frames dst bs names) = []).
Proof.
  unfold frames. induction 1 as [|n names Hin Hnd [IH1 IH2]].
  { split; [case_decide; simpl; lia|done]. }
  cbn [fmap list_fmap]. rewrite filter_cons. destruct (decide (is_copy _ = true)) as [Hc|_].
  - cbn in Hc. apply andb_true_iff in Hc as [->%bool_decide_eq_true Hk%bool_decide_eq_true].
    rewrite IH2 by done. split; [|intros []; left]. by rewrite decide_True.
  - split; [done|]. intros Hni. apply IH2. set_solver.
Qed.

(** The send loop uses up a right if the frame has the key. *)
Lemma acts_egress m dst raw w :
  (buildDedupKey (contents (w_heap w) raw) = K → (1 ≤ m)%nat) →
  acts m w 0 (egress_all dst raw w).2.
Proof.
  intros Hm. pose proof (egress_all_spec dst raw w) as Hs. destruct (egress_all dst raw w) as [ok w'].
  destruct Hs as (Hh & He & Hc & _ & Hr & names & rest & Hn & _ & Hsent). cbn [snd].
  assert (NoDup names) as Hnd.
  { assert (NoDup (names ++ rest)) as Hnd by (rewrite Hn; apply NoDup_fst_map_to_list).
    by apply NoDup_app in Hnd as [Hnd _]. }
  destruct (copies_frames dst (contents (w_heap w) raw) names Hnd) as [Hf _].
  split.
  - split_and!; [by split; [|lia]|by rewrite Hh|]. intros _. unfold shut. by rewrite He, Hr, Hc.
  - left. unfold copies. rewrite Hsent, filter_app, length_app.
    case_decide as Hk; [specialize (Hm Hk)|]; lia.
Qed.

Lemma steps_sendResponse a ty fl seq : steps calm (sendResponse a ty fl seq).
Proof.
  unfold sendResponse. apply steps_bind; [apply steps_perform; intros w; by apply calm_net_send|].
  intros []; apply steps_calm, steps_with_rec.
Qed.

Lemma guarded_send m r raw txID w :
  owned raw w → (buildDedupKey (contents (w_heap w) raw) = K → (1 ≤ m)%nat) →
  guarded m (retransmit_send r raw txID) (fun _ _ _ => True) w.
Proof.
  intros Ho Hm. unfold retransmit_send. apply guarded_read; [done|]. intros w' Hr.
  destruct (owned_later _ _ _ Hr Ho) as [Ho' Hc'].
  apply guarded_perform with (m' := 0%nat). intros w1 H1 _. split; [|done]. apply acts_egress.
  by rewrite (proj2 (owned_later _ _ _ H1 Ho')), Hc'.
Qed.

(** The answer of the gate: a right comes only with the key taken. *)
Lemma acts_gate key w :
  let w' := (gate_SetNX gate key (str "1") window w).2 in
  let ok := (gate_SetNX gate key (str "1") window w).1.1 in
  0 < window → base w → in_window w' →
  acts 0 w (if decide (ok = true ∧ key = K) then 1 else 0) w'.
Proof.
  intros w' ok Hwin (Hmono & Hstart & _) Hv. unfold w', ok in *. clear w' ok.
  rewrite gate_SetNX_eq in *. cbv zeta in *. cbn [snd fst] in *.
  set (now := env_clock (w_env w) (w_reads w)) in *.
  assert (now < start + window) as Hnow by (apply (proj2 Hv); cbn; lia).
  assert (now ≤ env_clock (w_env w) (S (w_reads w))) as Hnext by apply Hmono.
  assert (rely w (set_cache (gate key (str "1") window now (w_cache w)).2 (time_now w).2)) as Hrely.
  { split_and!; [by split; cbn; auto|done|]. intros _ Hs t Ht. cbn in Ht |- *.
    apply gate_keeps; [apply Hs|apply Hs|]; fold now; lia. }
  split; [done|]. case_decide as Hd; [right|by left]. destruct Hd as [Hok ->]. split_and!.
  - intros Hs. assert (marked (w_cache w) now K) as Hm by (apply Hs; fold now; lia).
    rewrite (gate_marked_shut (E := E) (w_cache w) K (str "1") window now Hm) in Hok. done.
  - intros t Ht. cbn in Ht |- *. apply gate_open_marks; [done..|lia].
  - done.
Qed.

Lemma guarded_Retransmit r raw txID w :
  rt_dedupWindow r = window → 0 < window → base w → owned raw w →
  guarded 0%nat (Retransmit (E := E) r raw txID) (fun _ _ _ => True) w.
Proof.
  intros Hwin Hpos Hb Ho. unfold Retransmit. rewrite gate_some. apply guarded_read; [done|].
  intros w1 H1. cbv zeta. destruct (owned_later _ _ _ H1 Ho) as [Ho1 Hc1].
  pose proof (base_stays _ _ H1 Hb) as Hb1. rewrite <- Hc1. case_bool_decide as Hlen.
  - rewrite Hwin. intros w2 H2 Hv. eexists.
    split; [by apply acts_gate; [|eapply base_stays|]|].
    pose proof (acts_gate (buildDedupKey (contents (w_heap w1) raw)) w2 Hpos (base_stays _ _ H2 Hb1) Hv) as [Hr _].
    destruct (owned_later _ _ _ H2 Ho1) as [Ho2 Hc2]. destruct (owned_later _ _ _ Hr Ho2) as [Ho3 Hc3].
    destruct (gate_SetNX gate _ (str "1") window w2) as [[ok err] w3]. cbn [fst snd] in *.
    destruct ok; cbn [negb].
    + apply guarded_send; [done|]. rewrite Hc3, Hc2. intros Hk. by rewrite decide_True.
    + apply guarded_calm; [|done]. apply steps_bind; [apply steps_calm, steps_with_rec|intros _; apply steps_mret].
  - apply guarded_send; [done|]. intros Hk. rewrite Hk, K_length in Hlen. lia.
Qed.

Lemma guarded_serveHit s src ip raw seq w :
  rt_dedupWindow (sv_retransmit s) = window → 0 < window → base w → owned raw w →
  guarded 0%nat (serveHit (E := E) s src ip raw seq) (fun _ _ _ => True) w.
Proof.
  intros Hwin Hpos Hb Ho. unfold serveHit. fold (groupTier (C := C) s ip).
  apply guarded_calm_bind; [apply steps_calm, steps_with_rec|]. intros _ w1 H1.
  destruct (owned_later _ _ _ H1 Ho) as [Ho1 _]. apply guarded_read; [done|]. intros w2 H2. cbv zeta.
  apply guarded_calm_bind; [apply steps_calm, steps_groupTier|]. intros throttled w3 H3.
  assert (rely w w3) as Hr by (etrans; [exact H1|by etrans]). unfold retransmitAndAck.
  apply guarded_bind. 
  assert (∀ m ok w', guarded m (if negb ok then mret tt else
    match src with
    | Some a => if negb (sv_suppressACK s) then sendResponse a msgTypeACK 1 seq else mret tt
    | None => mret tt
    end : Prog (World C) unit) (fun _ _ _ => True) w') as Hack.
  { intros m ok w'. apply guarded_calm; [|done]. destruct ok; [|apply steps_mret]. cbn [negb].
    destruct src; [|apply steps_mret]. destruct (sv_suppressACK s); [apply steps_mret|]. apply steps_sendResponse. }
  destruct throttled; [by apply guarded_ret|]. apply guarded_bind.
  eapply guarded_mono; [|apply guarded_Retransmit; [done..|by eapply base_stays|by eapply owned_later]].
  intros ok m' w' _. apply guarded_calm; [|done].
  destruct ok; [|apply steps_mret]. apply steps_bind; [apply steps_calm, steps_with_rec|intros _; apply steps_mret].
Qed.

Lemma guarded_processNACK s d src w :
  rt_dedupWindow (sv_retransmit s) = window → 0 < window → base w →
  guarded 0%nat (processNACK (E := E) s d src) (fun _ _ _ => True) w.
Proof.
  intros Hwin Hpos Hb. unfold processNACK.
  apply guarded_calm_bind; [apply steps_calm, steps_with_rec|]. intros _ w1 H1.
  destruct (validateNACK d); [by apply guarded_ret|]. cbv zeta. destruct (negb _); [by apply guarded_ret|].
  apply guarded_calm_bind; [apply steps_calm, steps_Allow|]. intros allowed w2 H2.
  destruct (negb _); [by apply guarded_calm; [apply steps_calm, steps_with_rec|]|].
  apply guarded_calm_bind; [apply steps_calm, steps_AllowChain|]. intros ok w3 H3.
  destruct (negb ok); [by apply guarded_calm; [apply steps_calm, steps_with_rec|]|].
  assert (rely w w3) as Hr by (etrans; [exact H1|by etrans]).
  pose proof (base_stays _ _ Hr Hb) as Hb3.
  intros w4 H4 Hv. exists 0%nat. split; [apply calm_acts, calm_Retrieve|].
  pose proof (base_stays _ _ H4 Hb3) as Hb4. pose proof (calm_Retrieve (nackKey (be_get (subslice d 8 16))
    (be_get (subslice d 16 24))) w4) as [Hr4 _].
  pose proof (base_stays _ _ Hr4 Hb4) as Hb5. rewrite cache_Retrieve_eq in *. cbv zeta in *. cbn [fst snd] in *.
  pose proof (retrieve_new (E := E) (w_heap w4) (w_cache w4) (nackKey (be_get (subslice d 8 16))
    (be_get (subslice d 16 24))) (env_clock (w_env w4) (w_reads w4))) as Hnew.
  destruct (cb_Retrieve _ _ _) as [[[raw|]|err] [h c]]; cbn [fst snd] in *.
  - apply guarded_serveHit; [done..|]. destruct (Hnew raw eq_refl) as [Hni Hin]. split; [done|].
    intros Heq. rewrite Heq in Hni. by destruct Hb4 as (_ & _ & Hbuf).
  - apply guarded_calm; [|done]. apply steps_bind; [apply steps_calm, steps_with_rec|intros _].
    destruct src; [|apply steps_mret]. destruct (sv_suppressMISS s); [apply steps_mret|]. apply steps_sendResponse.
  - apply guarded_calm; [|done]. apply steps_calm, steps_with_rec.
Qed.

(** ** The process *)

Lemma steps_processFrame wk raw : steps calm (processFrame (E := E) wk raw).
Proof.
  assert (∀ r f, steps calm (storeDecoded (E := E) wk r f)) as Hs.
  { intros r [hd|]; cbn [storeDecoded]; [|apply steps_calm, steps_with_rec].
    apply steps_bind; [apply steps_calm, steps_with_rec|intros _]. destruct (_ =? 0); [apply steps_mret|].
    apply steps_bind; [|intros []; apply steps_calm, steps_with_rec].
    apply steps_perform. intros w. apply calm_Store. reflexivity. }
  unfold processFrame. apply steps_bind; [apply steps_calm, steps_perform, quiet_read|intros bs].
  repeat (split_if; [apply steps_bind; [apply steps_calm, steps_perform, quiet_read|intros bs'; apply Hs]|]).
  apply Hs.
Qed.

Lemma steps_ingress_frame wk bs : steps calm (ingress_frame (E := E) wk buf bs).
Proof.
  apply steps_bind; [|intros _; apply steps_processFrame]. apply steps_modify. intros w. apply calm_receive.
Qed.

Lemma steps_send conns b : steps calm (send (C := C) conns b).
Proof.
  induction conns as [|g conns IH]; cbn [send]; [apply steps_mret|].
  apply steps_bind; [apply steps_perform; intros w; by apply calm_net_send|].
  intros ok. apply steps_bind; [|done]. destruct ok; [apply steps_calm, steps_with_rec|apply steps_mret].
Qed.

Lemma running_calm oob s sizer beacon (o : outside E) w :
  Forall (gor_calm rely copies) (pc_gors (running oob s sizer beacon o w)).
Proof.
  unfold running, goroutines. cbn [pc_gors]. rewrite !Forall_app. split_and!.
  - by repeat constructor.
  - destruct sizer; [|constructor]. apply Forall_cons_2; [|constructor].
    apply steps_bind; [by apply steps_calm, steps_perform|intros n; apply steps_calm, steps_with_rec].
  - apply Forall_cons_2; [|constructor]. unfold ingress_goroutine.
    destruct (ou_opened o), (head (omap id (ou_joins o))); try done; apply steps_calm, steps_with_rec.
  - destruct beacon as [c|]; [|constructor]. apply Forall_cons_2; [|constructor].
    unfold beacon_goroutine. cbv zeta. case_bool_decide; [done|].
    split; [|destruct (bc_Interval c <=? 0); [done|]]; apply steps_send.
Qed.

Lemma steps_later {A : Type} (body : Prog (World C) A) : steps quiet body → steps later body.
Proof. apply steps_impl, quiet_later. Qed.

Lemma later_calm w w' : calm w w' → later w w'.
Proof. by intros [[H _] _]. Qed.

Lemma later_Retransmit r raw txID : steps later (Retransmit (E := E) r raw txID).
Proof.
  assert (steps later (retransmit_send (C := C) r raw txID)) as Hsend.
  { unfold retransmit_send. apply steps_bind; [apply steps_later, steps_perform, quiet_read|intros bs].
    apply steps_perform. intros w. pose proof (egress_all_spec (egressGroup r bs txID) raw w) as Hs.
    destruct (egress_all _ _ _) as [ok w']. destruct Hs as (_ & He & _ & _ & Hr & _). split; [done|cbn; lia]. }
  unfold Retransmit. destruct cb_SetNX as [f|]; [|done].
  apply steps_bind; [apply steps_later, steps_perform, quiet_read|intros bs]. cbv zeta.
  destruct (bool_decide _); [|done].
  apply steps_bind; [apply steps_perform; intros w; rewrite gate_SetNX_eq; by split; cbn; auto|].
  intros [[] err]; cbn [fst negb]; [done|].
  apply steps_bind; [apply steps_later, steps_with_rec|intros _; apply steps_mret].
Qed.

Lemma later_sendResponse a ty fl seq : steps later (sendResponse (C := C) a ty fl seq).
Proof. eapply steps_impl, steps_sendResponse. apply later_calm. Qed.

Lemma later_processNACK s d src : steps later (processNACK (E := E) s d src).
Proof.
  unfold processNACK. apply steps_bind; [apply steps_later, steps_with_rec|intros _].
  destruct (validateNACK d); [done|]. cbv zeta. destruct (negb _); [done|].
  apply steps_bind; [apply steps_later, steps_Allow|intros allowed].
  destruct (negb _); [apply steps_later, steps_with_rec|].
  apply steps_bind; [apply steps_later, steps_AllowChain|intros ok].
  destruct (negb ok); [apply steps_later, steps_with_rec|].
  apply steps_bind; [apply steps_perform; intros w; apply later_calm, calm_Retrieve|].
  intros [[raw|]|err]; [| |apply steps_later, steps_with_rec].
  - unfold serveHit. fold (groupTier (C := C) s (match src with Some a => ua_IP a | None => IPv6unspecified end)).
    apply steps_bind; [apply steps_later, steps_with_rec|intros _].
    apply steps_bind; [apply steps_later, steps_perform, quiet_read|intros bs]. cbv zeta.
    apply steps_bind; [apply steps_later, steps_groupTier|intros throttled]. unfold retransmitAndAck.
    apply steps_bind.
    + destruct throttled; [done|]. apply steps_bind; [apply later_Retransmit|intros []; [|done]].
      apply steps_bind; [apply steps_later, steps_with_rec|done].
    + intros []; cbn [negb]; [|done]. destruct src; [|done]. destruct (sv_suppressACK s); [done|].
      apply later_sendResponse.
  - apply steps_bind; [apply steps_later, steps_with_rec|intros _]. destruct src; [|done].
    destruct (sv_suppressMISS s); [done|]. apply later_sendResponse.
Qed.

Lemma calm_update_rec g w : calm w (update_rec g w).
Proof. apply calm_quiet, quiet_update_rec. Qed.

Lemma calm_background bg w w' : keeps_marks bg → background bg w w' → calm w w'.
Proof.
  intros Hbg [c Hc]. apply calm_intro; cbn; [by split; cbn; auto|done|done|].
  intros _ t Ht _ Hlt Hs Hm. eapply Hbg; [exact K_length|exact Ht|exact Hc| |exact Hm]. apply Hs. lia.
Qed.

Lemma running_workers oob s sizer beacon (o : outside E) w :
  Forall (worker_later later) (rs_workers (pc_server (running oob s sizer beacon o w))).
Proof.
  cbn. unfold server_goroutine, server_Run. destruct (ou_listen o); [constructor|]. by apply Forall_replicate.
Qed.

Lemma running_store oob s sizer beacon (o : outside E) w : later w (store_of (running oob s sizer beacon o w)).
Proof. unfold store_of. cbn. unfold server_goroutine, server_Run. by destruct (ou_listen o). Qed.

Lemma running_later oob s wk f sizer beacon (o : outside E) bg w p :
  keeps_marks bg → rtc (program_step (E := E) s wk buf f bg) (running oob s sizer beacon o w) p → later w (store_of p).
Proof.
  intros Hbg Hr. etrans; [apply (running_store oob s sizer beacon o)|].
  eapply (proc_reachable_later rely copies (server_handle s) _ later); [..|exact Hr|].
  - by intros w1 w2 [].
  - intros rq. apply later_processNACK.
  - intros w1. apply calm_update_rec.
  - intros w1. apply calm_update_rec.
  - intros bs. apply steps_ingress_frame.
  - intros w1. apply calm_update_rec.
  - intros w1 w2. by apply calm_background.
  - split; [apply running_workers|apply running_calm].
Qed.

Lemma copies_once oob s wk f sizer beacon (o : outside E) bg w p0 p :
  keeps_marks bg →
  rt_dedupWindow (sv_retransmit s) = window → 0 < window →
  rtc (program_step (E := E) s wk buf f bg) (running oob s sizer beacon o w) p0 →
  no_request (pc_server p0) → base (store_of p0) →
  rtc (program_step (E := E) s wk buf f bg) p0 p → in_window (store_of p) →
  (copies (store_of p) ≤ S (copies (store_of p0)))%nat.
Proof.
  intros Hbg Hwin Hpos H0 Hn Hb Hr Hv.
  eapply (proc_spends_once rely copies shut in_window (fun w1 w2 Hrel => proj2 (proj2 Hrel)) (server_handle s) _ later); [..|exact H0|exact Hn|exact Hb|exact Hr|exact Hv].
  - by intros w1 w2 [].
  - apply in_window_back.
  - intros rq. apply later_processNACK.
  - apply base_stays.
  - intros rq w1 Hb1. by apply guarded_processNACK.
  - intros w1. apply calm_update_rec.
  - intros w1. apply calm_update_rec.
  - intros bs. apply steps_ingress_frame.
  - intros w1. apply calm_update_rec.
  - intros w1 w2. by apply calm_background.
  - apply running_workers.
  - apply running_calm.
Qed.
End gate_run.

(** C6: one retransmission per window, under every interleaving.  Take the
    whole process, on a backend whose gate keeps its promise, whose lookups
    return bytes of their own and whose marks survive what else happens to it
    (the witness: other endpoints store, look up and ask the gate of the same
    Redis), in any state the process has reached in which no request
    is being processed.  However its goroutines go on from there, whatever is
    requested, received and stored, while the clock stays within one
    deduplication window at most one copy of the frames with a given
    deduplication key leaves by any given interface. *)
Theorem gate_admits_once {RL : RateLib} {FL : FrameLib} {SH : ShardLib} {C E : Type} `{!Backend C E}
    `{!GateSpec C} {gate : bytes → bytes → Z → Z → atomic C (bool * option E)} `{!GateLaws C E gate}
    `{!FreshRetrieve C E} (oob : float64 → Z) (s : Server) (wk : Worker) (buf : nat) (f : flags)
    (sizer : option (C → Z)) (beacon : option BeaconConfig) (o : outside E) (bg : Z → C → C → Prop)
    (w : World C) (p0 p : proc (World C)) (iface K : bytes) :
  let step := program_step s wk buf f bg in
  let w0 := store_of p0 in
  let start := env_clock (w_env w0) (w_reads w0) in
  let window := rt_dedupWindow (sv_retransmit s) in
  length K = 8%nat → 0 < window → monotone_clock (w_env w) → keeps_marks bg →
  rtc step (running oob s sizer beacon o w) p0 → no_request (pc_server p0) → buf ∈ dom (w_heap w0) →
  rtc step p0 p →
  (∀ i, (i < w_reads (store_of p))%nat → env_clock (w_env w) i < start + window) →
  (copies iface K (store_of p) ≤ S (copies iface K w0))%nat.
Proof.
  intros step w0 start window HK Hpos Hmono Hbg H0 Hn Hbuf Hr Hin.
  destruct (running_later buf iface K start window HK oob s wk f sizer beacon o bg w p0 Hbg H0) as [He _].
  eapply (copies_once buf iface K start window HK oob s wk f sizer beacon o bg w p0 p); try done.
  - by split_and!; [rewrite He|unfold start, w0|].
  - destruct (running_later buf iface K start window HK oob s wk f sizer beacon o bg w p) as [He' _]; [done|by etrans|].
    split; [by rewrite He'|]. intros i Hi. rewrite He'. by apply Hin.
Qed.
