(* ===== verification/Integrity.v ===== *)
(** * What the running process sends

    Every datagram answers a request that a worker has taken, or is an ADVERT:
    [Account] for the program.  For a backend that copies, a frame that
    leaves is one that was received, verbatim, and is the frame the request
    asks for, however the receive loop overwrites its buffer and fills the
    cache in the meantime. *)

From S2P Require Import Prelude GoLib RateLimit RateLimitFacts ServiceConfig Cache CacheMemory.
From S2P Require Import CacheRedis Metrics ShardCommon World Retransmit Beacon Ingress Server.
From S2P Require Import ServerRun ServerFacts NackFacts Concurrency Lifecycle Rely Account Process.
From S2P Require Import Delivery System Gate Rights GateRun.

(** The fields of a request. *)
Definition rq_hash (rq : nackRequest) : Z := be_get (subslice (rq_data rq) 8 16).
Definition rq_seq (rq : nackRequest) : Z := be_get (subslice (rq_data rq) 16 24).
Definition rq_end (rq : nackRequest) : Z := be_get (subslice (rq_data rq) 24 32).

(** What a request can make a server send: [origin] says where frames come
    from. *)
Definition answers {FL : FrameLib} {SH : ShardLib} (s : Server) (origin : bytes → Prop)
    (rq : nackRequest) (d : Sent) : Prop :=
  validateNACK (rq_data rq) = None ∧ rq_end rq = rq_seq rq ∧
  match d with
  | SentFrame _ g b =>
      origin b ∧ stored_under b (nackKey (rq_hash rq) (rq_seq rq)) ∧
      g = egressGroup (sv_retransmit s) b (frameTxID b)
  | SentResponse a b =>
      rq_src rq = Some a ∧
      (b = responseBytes msgTypeACK 1 (rq_seq rq) ∨ b = responseBytes msgTypeMISS 0 0)
  | SentAdvert _ _ => False
  end.

(** What needs no request. *)
Definition advert {FL : FrameLib} {SH : ShardLib} (oob : float64 → Z) (beacon : option BeaconConfig) (d : Sent) : Prop :=
  match d with
  | SentAdvert g b => ∃ c, beacon = Some c ∧ g ∈ beaconGroups c ∧ b = buildADVERT oob c
  | _ => False
  end.

Section integrity.
Context {RL : RateLib} {FL : FrameLib} {SH : ShardLib} {C E : Type}
  `{!Backend C E, !BackendSpec C E, !BackendLaws C E, !Copying C E, !FreshRetrieve C E}.
Implicit Types w : World C.

(** The receive buffer; where frames come from; what is advertised. *)
Variables (buf : nat) (origin : bytes → Prop) (oob : float64 → Z) (beacon : option BeaconConfig).

(** A lookup, now or later, finds only frames that were received, under the
    key of their header. *)
Definition genuine w : Prop :=
  ∀ t k v, env_clock (w_env w) (w_reads w) ≤ t → frame_key k →
    cb_view (w_heap w) (w_cache w) t k = Some v → origin v ∧ stored_under v k.

Definition honest w : Prop := monotone_clock (w_env w) ∧ genuine w ∧ buf ∈ dom (w_heap w).

(** Arrays are only added. *)
Definition heap_extends (h h' : heap) : Prop := dom h ⊆ dom h' ∧ ∀ l, l ∈ dom h → h' !! l = h !! l.

(** What everybody does to the store, and what everybody but the receive loop
    does. *)
Definition moves w w' : Prop :=
  later w w' ∧ heap_grows buf (w_heap w) (w_heap w') ∧ (honest w → honest w').

Definition spares w w' : Prop :=
  later w w' ∧ heap_extends (w_heap w) (w_heap w') ∧ (honest w → honest w').

#[global] Instance moves_preorder : PreOrder moves.
Proof.
  split; [by intros w; split_and!; [|split|]|].
  intros w1 w2 w3 (H1 & [Hd Hh] & Hs) (H1' & [Hd' Hh'] & Hs').
  split_and!; [by etrans| |auto]. split; [set_solver|]. intros l Hl Hne. rewrite Hh' by set_solver. by apply Hh.
Qed.

#[global] Instance spares_preorder : PreOrder spares.
Proof.
  split; [by intros w; split_and!; [|split|]|].
  intros w1 w2 w3 (H1 & [Hd Hh] & Hs) (H1' & [Hd' Hh'] & Hs').
  split_and!; [by etrans| |auto]. split; [set_solver|]. intros l Hl. rewrite Hh' by set_solver. by apply Hh.
Qed.

Lemma spares_moves w w' : spares w w' → moves w w'.
Proof. intros (Hl & [Hd Hh] & Hb). split_and!; [done| |done]. split; auto. Qed.

(** A move is honest if what can be looked up after it could be looked up
    before or is a frame received. *)
Lemma honest_stays w w' :
  later w w' → dom (w_heap w) ⊆ dom (w_heap w') →
  (honest w → ∀ t k v, env_clock (w_env w) (w_reads w) ≤ t → frame_key k →
     cb_view (w_heap w') (w_cache w') t k = Some v →
     cb_view (w_heap w) (w_cache w) t k = Some v ∨ origin v ∧ stored_under v k) →
  honest w → honest w'.
Proof.
  intros [He Hr] Hd Hv Hh. pose proof Hh as (Hm & Hg & Hb). unfold honest, genuine. rewrite He.
  split_and!; [done| |set_solver]. intros t k v Ht Hk Hview.
  assert (env_clock (w_env w) (w_reads w) ≤ t) as Ht' by (pose proof (clock_le _ _ _ Hm Hr); lia).
  destruct (Hv Hh t k v Ht' Hk Hview) as [Hold|Hnew]; [by eapply Hg|done].
Qed.

Lemma spares_intro w w' :
  later w w' → heap_extends (w_heap w) (w_heap w') →
  (honest w → ∀ t k v, env_clock (w_env w) (w_reads w) ≤ t → frame_key k →
     cb_view (w_heap w') (w_cache w') t k = Some v →
     cb_view (w_heap w) (w_cache w) t k = Some v ∨ origin v ∧ stored_under v k) →
  spares w w'.
Proof. intros Hl Hh Hv. split_and!; [done..|]. apply honest_stays; [done|by destruct Hh|done]. Qed.

(** An action that leaves the heap and the cache alone. *)
Lemma spares_same w w' :
  later w w' → w_heap w' = w_heap w → w_cache w' = w_cache w → spares w w'.
Proof.
  intros Hl Hh Hc. apply spares_intro; [done|by rewrite Hh|]. intros _ t k v _ _ Hv. left. by rewrite <- Hh, <- Hc.
Qed.

(** ** The actions of a worker *)

Section worker.
Variables (s : Server) (rq : nackRequest).

Local Abbreviation serves := (answers s origin rq).
Local Abbreviation act := (serving w_sent spares (answers s origin) rq).

(** An action that sends nothing. *)
Definition silent w w' : Prop := spares w w' ∧ w_sent w' = w_sent w.

Lemma silent_moves w w' : silent w w' → moves w w'.
Proof. intros []. by apply spares_moves. Qed.

Lemma silent_serving (m : unit) w w' : silent w w' → act m w m w'.
Proof. intros [Hs He]. split; [done|by apply emits_none]. Qed.

Local Abbreviation guarded := (guarded moves act (fun _ => True)).
Local Abbreviation guarded_bind := (guarded_bind moves act (fun _ => True)).
Local Abbreviation guarded_perform := (guarded_perform moves act (fun _ => True) tt tt).
Local Abbreviation guarded_silent :=
  (guarded_calm moves act (fun _ => True) silent silent_moves silent_serving).
Local Abbreviation guarded_silent_bind :=
  (guarded_calm_bind moves act (fun _ => True) silent silent_moves silent_serving).

Lemma silent_quiet w w' : quiet w w' → silent w w'.
Proof.
  intros Hq. split; [|by destruct Hq]. by apply spares_same; [apply quiet_later|destruct Hq..].
Qed.

Lemma steps_silent {A : Type} (body : Prog (World C) A) : steps quiet body → steps silent body.
Proof. apply steps_impl, silent_quiet. Qed.

(** The slice is over an array that nobody overwrites, and denotes [b]. *)
Definition holds (raw : slice) (b : bytes) w : Prop :=
  sl_buf raw ∈ dom (w_heap w) ∧ sl_buf raw ≠ buf ∧ contents (w_heap w) raw = b.

Lemma holds_stays raw b w w' : moves w w' → holds raw b w → holds raw b w'.
Proof.
  intros (_ & [Hd Hh] & _) (Hin & Hne & Hc). split_and!; [set_solver|done|].
  rewrite <- Hc. unfold contents. by rewrite Hh.
Qed.

Lemma guarded_held {A : Type} raw b (k : bytes → Prog (World C) A) Φ w :
  holds raw b w → (∀ w', moves w w' → guarded tt (k b) Φ w') →
  guarded tt (perform (read_slice raw) ≫= k) Φ w.
Proof.
  intros Hh Hk. apply guarded_bind, guarded_perform. intros w1 H1 _.
  split; [apply silent_serving, silent_quiet, quiet_read|]. intros w2 H2. cbn in *.
  destruct (holds_stays _ _ _ _ H1 Hh) as (_ & _ & ->). apply Hk. by etrans.
Qed.

Lemma serving_send d w : serves d → act tt w tt (net_send d w).2.
Proof.
  intros Hd. split; [by apply spares_same; [split|..]|]. exists (if env_write (w_env w) (w_writes w) then [d] else []).
  cbn. destruct (env_write _ _); [by split; [|constructor]|by rewrite app_nil_r].
Qed.

(** The response is one the request allows. *)
Lemma guarded_sendResponse a ty fl seq w :
  serves (SentResponse a (responseBytes ty fl seq)) → guarded tt (sendResponse a ty fl seq) (fun _ _ _ => True) w.
Proof.
  intros Hs. unfold sendResponse. apply guarded_bind, guarded_perform.
  intros w1 H1 _. split; [by apply serving_send|]. intros w2 H2.
  apply guarded_silent; [|done]. destruct (net_send _ w1) as [[] ?]; apply steps_silent, steps_with_rec.
Qed.

(** The frame is one the request allows. *)
Lemma guarded_frame raw b w :
  (∀ n, serves (SentFrame n (egressGroup (sv_retransmit s) b (frameTxID b)) b)) → holds raw b w →
  guarded tt (retransmit_send (sv_retransmit s) raw (frameTxID b)) (fun _ _ _ => True) w.
Proof.
  intros Hs Hh. unfold retransmit_send. apply guarded_held with (b := b); [done|]. intros w' Hm.
  apply guarded_perform. intros w1 H1 _. split; [|done].
  assert (holds raw b w1) as (_ & _ & Hc) by (eapply holds_stays, holds_stays; done).
  pose proof (egress_all_spec (egressGroup (sv_retransmit s) b (frameTxID b)) raw w1) as Hall.
  destruct (egress_all _ _ _) as [ok w2]. destruct Hall as (Hheap & He & Hca & _ & Hr & names & _ & _ & _ & Hsent).
  split; [by apply spares_same; [split; [|cbn; lia]|..]|]. eexists. split; [exact Hsent|].
  rewrite Hc. unfold frames. apply Forall_fmap, Forall_true. intros n. apply Hs.
Qed.

Lemma silent_SetNX f key ttl w :
  cb_SetNX = Some f → length key = 8%nat → silent w (gate_SetNX f key (str "1") ttl w).2.
Proof.
  intros Hf Hk. rewrite gate_SetNX_eq. cbv zeta. cbn [snd]. split; [|done].
  apply spares_intro; cbn; [by split; cbn; auto|done|]. intros _ t k v Ht Hfk Hv. left.
  by rewrite <- Hv, setnx_view.
Qed.

Lemma guarded_retransmission raw b w :
  (∀ n, serves (SentFrame n (egressGroup (sv_retransmit s) b (frameTxID b)) b)) → holds raw b w →
  guarded tt (Retransmit (E := E) (sv_retransmit s) raw (frameTxID b)) (fun _ _ _ => True) w.
Proof.
  intros Hs Hh. unfold Retransmit. destruct cb_SetNX as [f|] eqn:Hf; [|by apply guarded_frame].
  apply guarded_held with (b := b); [done|]. intros w1 H1. cbv zeta.
  pose proof (holds_stays _ _ _ _ H1 Hh) as Hh1. case_bool_decide as Hlen; [|by apply guarded_frame].
  assert (length (buildDedupKey b) = 8%nat) as H8.
  { apply length_buildDedupKey. unfold buildDedupKey in Hlen. case_bool_decide; [cbn in Hlen; lia|lia]. }
  apply guarded_silent_bind; [by apply steps_perform; intros w2; apply silent_SetNX|].
  intros [ok e] w2 H2. pose proof (holds_stays _ _ _ _ H2 Hh1) as Hh2. cbn [fst].
  destruct ok; cbn [negb]; [by apply guarded_frame|]. apply guarded_silent; [|done].
  apply steps_bind; [apply steps_silent, steps_with_rec|intros _; apply steps_mret].
Qed.
(** The request is one the server answers, and [b] is the frame it asks for. *)
Definition asks : Prop := validateNACK (rq_data rq) = None ∧ rq_end rq = rq_seq rq.

Definition asked (b : bytes) : Prop := origin b ∧ stored_under b (nackKey (rq_hash rq) (rq_seq rq)).

Lemma guarded_ack ok w :
  asks →
  guarded tt (if negb ok then mret tt else
    match rq_src rq with
    | Some a => if negb (sv_suppressACK s) then sendResponse a msgTypeACK 1 (rq_seq rq) else mret tt
    | None => mret tt
    end) (fun _ _ _ => True) w.
Proof.
  intros [Hv He]. destruct ok; [|by apply guarded_ret]. cbn [negb].
  destruct (rq_src rq) as [a|] eqn:Ha; [|by apply guarded_ret].
  destruct (negb _); [|by apply guarded_ret]. apply guarded_sendResponse. split_and!; auto.
Qed.

Lemma guarded_hit ip raw b w :
  asks → asked b → holds raw b w →
  guarded tt (serveHit (E := E) s (rq_src rq) ip raw (rq_seq rq)) (fun _ _ _ => True) w.
Proof.
  intros Hasks [Ho Hs] Hh. unfold serveHit. fold (groupTier (C := C) s ip).
  apply guarded_silent_bind; [apply steps_silent, steps_with_rec|]. intros _ w1 H1.
  apply guarded_held with (b := b); [by eapply holds_stays|]. intros w2 H2. cbv zeta.
  apply guarded_silent_bind; [apply steps_silent, steps_groupTier|]. intros throttled w3 H3.
  assert (holds raw b w3) as Hh3 by (eapply holds_stays; [exact H3|]; eapply holds_stays, holds_stays; done).
  unfold retransmitAndAck. apply guarded_bind.
  destruct throttled; [apply guarded_ret; intros w4 _; by apply guarded_ack|]. apply guarded_bind.
  eapply guarded_mono; [|apply guarded_retransmission; [|done]]; [|intros n; destruct Hasks; by split_and!].
  intros ok [] w' _. apply guarded_silent; [|intros ok' w'' _; by apply guarded_ack].
  destruct ok; [|apply steps_mret]. apply steps_bind; [apply steps_silent, steps_with_rec|intros _; apply steps_mret].
Qed.

(** A lookup sends nothing, and what it finds is the frame asked for, in an
    array of its own. *)
Lemma silent_Retrieve key w : silent w (cache_Retrieve key w).2.
Proof.
  rewrite cache_Retrieve_eq. cbv zeta. cbn [snd]. split; [|done].
  pose proof (retrieve_frame (w_heap w) (w_cache w) key (env_clock (w_env w) (w_reads w))) as [Hd Hh].
  apply spares_intro; cbn; [by split; cbn; auto|by split|]. intros _ t k v Ht Hk Hv. left.
  by rewrite <- Hv, retrieve_view.
Qed.

Lemma Retrieve_finds key raw w :
  honest w → frame_key key → (cache_Retrieve key w).1 = Ok (Some raw) →
  ∃ b, origin b ∧ stored_under b key ∧ holds raw b (cache_Retrieve key w).2.
Proof.
  intros (Hm & Hg & Hbuf) Hk. rewrite cache_Retrieve_eq. cbv zeta. cbn [fst snd]. intros Hr.
  set (now := env_clock (w_env w) (w_reads w)) in *.
  pose proof (retrieve_reply (w_heap w) (w_cache w) key now) as Hreply. rewrite Hr in Hreply.
  destruct (retrieve_new (w_heap w) (w_cache w) key now raw Hr) as [Hni Hin].
  destruct (Hg now key _ (Z.le_refl _) Hk Hreply) as [Ho Hs].
  eexists. split_and!; [exact Ho|exact Hs|]. split_and!; [done| |done]. congruence.
Qed.

Lemma guarded_request w :
  honest w → guarded tt (processNACK (E := E) s (rq_data rq) (rq_src rq)) (fun _ _ _ => True) w.
Proof.
  intros Hb. unfold processNACK. fold (rq_hash rq) (rq_seq rq) (rq_end rq).
  apply guarded_silent_bind; [apply steps_silent, steps_with_rec|]. intros _ w1 H1.
  destruct (validateNACK _) eqn:Hv; [by apply guarded_ret|]. cbv zeta.
  destruct (negb _) eqn:He; [by apply guarded_ret|]. breflect. assert asks as Hasks by done.
  apply guarded_silent_bind; [apply steps_silent, steps_Allow|]. intros allowed w2 H2.
  destruct (negb _); [by apply guarded_silent; [apply steps_silent, steps_with_rec|]|].
  apply guarded_silent_bind; [apply steps_silent, steps_AllowChain|]. intros ok w3 H3.
  destruct (negb ok); [by apply guarded_silent; [apply steps_silent, steps_with_rec|]|].
  assert (moves w w3) as (_ & _ & Hb3) by (etrans; [exact H1|by etrans]). specialize (Hb3 Hb).
  apply guarded_bind, guarded_perform. intros w4 (_ & _ & Hb4) _. specialize (Hb4 Hb3).
  split; [apply silent_serving, silent_Retrieve|]. intros w5 H5.
  pose proof (Retrieve_finds (nackKey (rq_hash rq) (rq_seq rq)))  as Hfind.
  destruct (cache_Retrieve _ w4).1 as [[raw|]|err] eqn:Hr.
  - destruct (Hfind raw w4 Hb4 (nackKey_frame_key _ _) Hr) as (b & Ho & Hs & Hh).
    apply guarded_hit with (b := b); [done|done|]. by eapply holds_stays.
  - apply guarded_silent_bind; [apply steps_silent, steps_with_rec|intros _ w6 _].
    destruct (rq_src rq) as [a|] eqn:Ha; [|by apply guarded_ret]. destruct (negb _); [|by apply guarded_ret].
    apply guarded_sendResponse. destruct Hasks. split_and!; auto.
  - apply guarded_silent; [apply steps_silent, steps_with_rec|done].
Qed.
End worker.

(** ** The receive loop *)

Local Abbreviation recv_act := (receiving w_sent moves (advert oob beacon)).
Local Abbreviation guarded := (guarded spares recv_act (fun _ => True)).

Lemma silent_spares w w' : silent w w' → spares w w'.
Proof. by intros []. Qed.

Lemma silent_receiving (m : unit) w w' : silent w w' → recv_act m w m w'.
Proof. intros [Hs He]. split; [by apply spares_moves|by apply emits_none]. Qed.

Local Abbreviation guarded_bind := (guarded_bind spares recv_act (fun _ => True)).
Local Abbreviation guarded_perform := (guarded_perform spares recv_act (fun _ => True) tt tt).
Local Abbreviation guarded_silent :=
  (guarded_calm spares recv_act (fun _ => True) silent silent_spares silent_receiving).
Local Abbreviation guarded_silent_bind :=
  (guarded_calm_bind spares recv_act (fun _ => True) silent silent_spares silent_receiving).

Abbreviation received bs := (Slice buf 0 (length bs)).

(** The buffer still holds the datagram. *)
Definition buffered (bs : bytes) w : Prop := buf ∈ dom (w_heap w) ∧ contents (w_heap w) (received bs) = bs.

Lemma buffered_stays bs w w' : spares w w' → buffered bs w → buffered bs w'.
Proof.
  intros (_ & [Hd Hh] & _) [Hb Hc]. split; [set_solver|]. rewrite <- Hc at 2. unfold contents. cbn [sl_buf].
  by rewrite Hh.
Qed.

Lemma guarded_buffer {A : Type} bs (k : bytes → Prog (World C) A) Φ w :
  buffered bs w → (∀ w', spares w w' → guarded tt (k bs) Φ w') →
  guarded tt (perform (read_slice (received bs)) ≫= k) Φ w.
Proof.
  intros Hb Hk. apply guarded_bind, guarded_perform. intros w1 H1 _.
  split; [apply silent_receiving, silent_quiet, quiet_read|]. intros w2 H2. cbn in *.
  destruct (buffered_stays _ _ _ H1 Hb) as [_ ->]. apply Hk. by etrans.
Qed.

(** A store of a received frame under its key. *)
Lemma spares_Store key bs ttl w :
  buffered bs w → origin bs → stored_under bs key → spares w (cache_Store key (received bs) ttl w).2.
Proof.
  intros [_ Hb] Ho Hs. rewrite cache_Store_eq. cbv zeta. cbn [snd].
  apply spares_intro; cbn; [by split; cbn; auto|done|]. intros _ t k v Ht Hk Hv.
  destruct (decide (k = key)) as [->|Hne].
  - apply store_value in Hv as [->|Hv]; [right; by rewrite Hb|by left|done].
  - left. edestruct (store_other (w_heap w) (w_cache w)) as [Heq|Heq]; [exact Ht|exact Hne|by rewrite <- Heq|].
    rewrite Heq in Hv. done.
Qed.

Lemma guarded_storeDecoded wk bs hd w :
  buffered bs w → origin bs → decode_frame bs = hd →
  guarded tt (storeDecoded (E := E) wk (received bs) hd) (fun _ _ _ => True) w.
Proof.
  intros Hb Ho Hd. destruct hd as [hd|]; cbn [storeDecoded];
    [|by apply guarded_silent; [apply steps_silent, steps_with_rec|]].
  apply guarded_silent_bind; [apply steps_silent, steps_with_rec|]. intros _ w1 H1.
  destruct (_ =? 0) eqn:Hz; [by apply guarded_ret|]. breflect. apply guarded_bind, guarded_perform.
  intros w2 H2 _. split.
  - split; [|apply emits_none; by rewrite cache_Store_eq]. apply spares_moves, spares_Store; [|done|by exists hd].
    eapply buffered_stays, buffered_stays; done.
  - intros w3 _. apply guarded_silent; [|done]. destruct (cache_Store _ _ _ w2).1 as [[]|]; apply steps_silent, steps_with_rec.
Qed.

Lemma guarded_processFrame wk bs w :
  buffered bs w → origin bs →
  guarded tt (processFrame (E := E) wk (received bs)) (fun _ _ _ => True) w.
Proof.
  intros Hb Ho. unfold processFrame. apply guarded_buffer; [done|]. intros w1 H1.
  pose proof (buffered_stays _ _ _ H1 Hb) as Hb1.
  assert (∀ d, decode_frame bs = d bs → guarded tt
    (bs' ← perform (read_slice (received bs)); storeDecoded (E := E) wk (received bs) (d bs')) (fun _ _ _ => True) w1) as Hread.
  { intros d Hd. apply guarded_buffer; [done|]. intros w2 H2.
    apply guarded_storeDecoded; [by eapply buffered_stays|done..]. }
  unfold decode_frame in Hread.
  destruct (IsBlockFrame bs) eqn:H4; [by apply (Hread DecodeBlock)|].
  destruct (IsSubtreeDataFrame bs) eqn:H5; [by apply (Hread DecodeSubtreeData)|].
  destruct (IsAnchorFrame bs) eqn:H6; [by apply (Hread DecodeAnchor)|].
  apply guarded_storeDecoded; [done..|]. unfold decode_frame. by rewrite H4, H5, H6.
Qed.

Lemma guarded_ingress_frame wk bs w :
  honest w → origin bs → guarded tt (ingress_frame (E := E) wk buf bs) (fun _ _ _ => True) w.
Proof.
  intros Hh Ho. unfold ingress_frame, receive_into. apply guarded_bind, guarded_perform. intros w1 H1 _.
  assert (buf ∈ dom (w_heap w1)) as Hin by (destruct H1 as (_ & [Hd _] & _), Hh as (_ & _ & Hb); set_solver).
  split.
  - split; [|by apply emits_none]. cbn [snd]. split_and!; [done| |].
    + unfold fill. split; [cbn; rewrite dom_insert; set_solver|]. intros l _ Hne. cbn. by rewrite lookup_insert_ne.
    + apply honest_stays; [done|cbn; unfold fill; rewrite dom_insert; set_solver|]. intros _ t k v _ _ Hv. left.
      rewrite <- Hv. apply view_heap.
  - intros w2 H2. apply guarded_processFrame; [|done]. eapply buffered_stays; [exact H2|]. cbn.
    split; [cbn; unfold fill; rewrite dom_insert; set_solver|apply contents_fill].
Qed.

(** ** The process *)

Local Abbreviation aside := (aside w_sent spares (advert oob beacon)).

Lemma silent_aside w w' : silent w w' → aside w w'.
Proof. intros [Hs He]. split; [done|by apply emits_none]. Qed.

Lemma aside_update_rec f w : aside w (update_rec f w).
Proof. apply silent_aside, silent_quiet, quiet_update_rec. Qed.

Lemma steps_aside {A : Type} (body : Prog (World C) A) : steps quiet body → steps aside body.
Proof. apply steps_impl. intros w w' Hq. by apply silent_aside, silent_quiet. Qed.

Lemma steps_adverts c conns :
  beacon = Some c → conns ⊆ beaconGroups c → steps aside (send (C := C) conns (buildADVERT oob c)).
Proof.
  intros Hc. induction conns as [|g conns IH]; intros Hg; cbn [send]; [apply steps_mret|].
  apply steps_bind.
  - apply steps_perform. intros w. split; [by apply spares_same; [split|..]|].
    exists (if env_write (w_env w) (w_writes w) then [SentAdvert g (buildADVERT oob c)] else []). cbn.
    destruct (env_write _ _); [|by rewrite app_nil_r]. split; [done|]. constructor; [|done].
    exists c. split_and!; [done|set_solver|done].
  - intros ok. apply steps_bind; [destruct ok; [apply steps_aside, steps_with_rec|apply steps_mret]|].
    intros _. apply IH. set_solver.
Qed.

(** What others do to the backend, frames being the program's. *)
Definition keeps_frames (bg : Z → C → C → Prop) : Prop :=
  ∀ h now c c' t k v, bg now c c' → now ≤ t → frame_key k → cb_view h c' t k = Some v →
    cb_view h c t k = Some v ∨ origin v ∧ stored_under v k.

Lemma aside_background bg w w' : keeps_frames bg → background bg w w' → aside w w'.
Proof.
  intros Hbg [c Hc]. apply silent_aside. split; [|done].
  apply spares_intro; cbn; [by split; cbn; auto|done|]. intros _ t k v Ht Hk Hv. by eapply Hbg.
Qed.

Lemma running_gors s sizer (o : outside E) w0 w :
  (∀ bs, RecvData bs ∈ ou_recvs o → origin bs) →
  Forall (gor_ok w_sent moves spares (advert oob beacon) origin w) (pc_gors (running oob s sizer beacon o w0)).
Proof.
  intros Ho. unfold running, goroutines. cbn [pc_gors]. rewrite !Forall_app. split_and!.
  - by repeat constructor.
  - destruct sizer; [|constructor]. apply Forall_cons_2; [|constructor].
    apply steps_bind; [by apply steps_aside, steps_perform|intros n; apply steps_aside, steps_with_rec].
  - apply Forall_cons_2; [|constructor]. unfold ingress_goroutine.
    destruct (ou_opened o), (head (omap id (ou_joins o))); try done. split.
    + apply Forall_forall. intros [bs|] Hin; [by apply Ho|done].
    + apply guarded_silent; [|done]. apply steps_silent, steps_with_rec.
  - assert (∀ b, b = beacon → Forall (gor_ok w_sent moves spares (advert oob beacon) origin w)
      (match b with Some c => [beacon_goroutine (C := C) oob c (ou_dial o) (ou_advertTicks o)] | None => [] end)) as Hb;
      [|by apply Hb].
    intros [c|] Hb; [|constructor]. apply Forall_cons_2; [|constructor].
    unfold beacon_goroutine. cbv zeta. case_bool_decide; [done|].
    assert (steps aside (send (filter (fun g => ou_dial o g = None) (beaconGroups c)) (buildADVERT oob c))).
    { apply steps_adverts; [done|]. intros x. rewrite list_elem_of_filter. tauto. }
    split; [done|]. by destruct (bc_Interval c <=? 0).
Qed.

Lemma running_one_receiver s sizer (o : outside E) w0 :
  one_receiver (pc_gors (running oob s sizer beacon o w0)).
Proof.
  unfold running, goroutines. cbn [pc_gors]. rewrite (assoc_L (++)). apply one_receiver_middle.
  - by destruct sizer; repeat constructor.
  - destruct beacon; [|done]. apply Forall_cons_2; [|done]. unfold beacon_goroutine. cbv zeta. by case_bool_decide.
Qed.

Lemma running_account s sizer (o : outside E) w :
  honest w → w_sent w = [] → (∀ bs, RecvData bs ∈ ou_recvs o → origin bs) →
  account w_sent moves spares (answers s origin) (advert oob beacon) honest origin (running oob s sizer beacon o w).
Proof.
  intros Hh Hs Ho. split_and!; [|by apply running_gors|by apply running_one_receiver].
  unfold running. cbn [pc_server]. unfold server_goroutine, server_Run.
  destruct (ou_listen o); split; cbn; rewrite ?Hs; try done. by apply Forall_replicate.
Qed.

Lemma program_account s wk f bg p p' :
  keeps_frames bg → rtc (program_step (E := E) s wk buf f bg) p p' →
  account w_sent moves spares (answers s origin) (advert oob beacon) honest origin p →
  account w_sent moves spares (answers s origin) (advert oob beacon) honest origin p'.
Proof.
  intros Hbg. apply (proc_reachable_account w_sent moves spares).
  - apply spares_moves.
  - by intros w w' (_ & _ & Hb).
  - intros rq w. apply guarded_request.
  - intros bs w. apply guarded_ingress_frame.
  - intros w. apply aside_update_rec.
  - intros w. apply aside_update_rec.
  - intros w. apply aside_update_rec.
  - intros w w' _. by apply aside_background.
Qed.
End integrity.

(** The endpoints that share a backend: they store frames they have received
    under their own keys, look up, and ask the gate. *)
Inductive neighbour {FL : FrameLib} {C E : Type} `{!Backend C E} (origin : bytes → Prop) (now : Z) : C → C → Prop :=
| nb_store h k s ttl p (c : C) :
    origin (contents h s) → stored_under (contents h s) k →
    neighbour origin now c (cb_Store h k s ttl p now c).2
| nb_retrieve h k (c : C) : neighbour origin now c (cb_Retrieve k now (h, c)).2.2
| nb_setnx f k v ttl (c : C) :
    cb_SetNX = Some f → length k = 8%nat → neighbour origin now c (f k v ttl now c).2.

Lemma neighbours_keep_frames {FL : FrameLib} {C E : Type} `{!Backend C E, !BackendSpec C E, !BackendLaws C E, !Copying C E}
    (origin : bytes → Prop) :
  keeps_frames (C := C) origin (neighbour origin).
Proof.
  intros h now c c' t k v [h' k' s ttl p c1 Ho Hs|h' k' c1|f k' v' ttl c1 Hf Hk'] Ht Hk Hv.
  - rewrite (view_heap h h') in Hv |- *. destruct (decide (k = k')) as [->|Hne].
    + apply store_value in Hv as [->|Hv]; [by right|by left|done].
    + left. edestruct (store_other h' c1) as [Heq|Heq]; [exact Ht|exact Hne|by rewrite <- Heq|].
      by rewrite Heq in Hv.
  - left. rewrite <- Hv, (view_heap h h').
    rewrite (view_heap h (cb_Retrieve k' now (h', c1)).2.1). by rewrite retrieve_view.
  - left. by rewrite <- Hv, setnx_view.
Qed.

(** C7: everything a running process sends is accounted for.  Take the whole
    program on a backend that copies what it stores, with whatever neighbours
    that store only their own frames.  However workers, receive loop, sampler,
    beacon, neighbours and shutdown interleave, and although the receive
    buffer is overwritten all the time: every datagram sent is an ADVERT of
    the configured beacon, or answers a well-formed request that a worker has
    taken.  It is then an ACK or MISS to the sender of that request, or a frame
    that was received, verbatim, whose header has the HashKey and SeqNum the
    request asks for, to the multicast group of that frame.  This is so whatever
    the beacon flags say: a frame goes to no other address.  And the cache
    still holds received frames only, each under the key of its header. *)
Theorem process_accountable {RL : RateLib} {FL : FrameLib} {SH : ShardLib} {C E : Type}
    `{!Backend C E, !BackendSpec C E, !BackendLaws C E, !Copying C E, !FreshRetrieve C E}
    (origin : bytes → Prop) (oob : float64 → Z) (s : Server) (wk : Worker) (buf : nat) (f : flags)
    (sizer : option (C → Z)) (beacon : option BeaconConfig) (o : outside E) (bg : Z → C → C → Prop)
    (w : World C) (p : proc (World C)) :
  monotone_clock (w_env w) → buf ∈ dom (w_heap w) → w_sent w = [] → genuine origin w →
  (∀ bs, RecvData bs ∈ ou_recvs o → origin bs) → keeps_frames origin bg →
  rtc (program_step s wk buf f bg) (running oob s sizer beacon o w) p →
  Forall (fun d => advert oob beacon d ∨ ∃ rq, rq ∈ rs_taken (pc_server p) ∧ answers s origin rq d)
    (w_sent (store_of p)) ∧
  genuine origin (store_of p).
Proof.
  intros Hm Hbuf Hs Hg Ho Hbg Hr.
  destruct (program_account buf origin oob beacon s wk f bg _ p Hbg Hr) as ([(_ & Hg' & _) _ He] & _ & _);
    [by apply running_account|done].
Qed.
