(* ===== verification/Aliasing.v ===== *)
(** * The in-memory cache and the receive buffer

    The ingress worker allocates one receive buffer and hands slices of it to
    the cache (ingress.go, [Run]); the in-memory cache keeps the slice it is
    given (memory.go, [Store]).  So every entry denotes the start of the same
    array.  This file computes what such an entry denotes after any number of
    further datagrams, and what a NACK for it obtains. *)

From S2P Require Import Prelude GoLib RateLimit RateLimitFacts Cache CacheMemory Metrics.
From S2P Require Import ShardCommon World Retransmit Ingress Server ServerFacts NackFacts.
From S2P Require Import Delivery System.

(** What a slice that denoted [cur] denotes after [d] has been received at
    the start of its array. *)
Definition overlay (cur d : bytes) : bytes := take (length cur) (d ++ drop (length d) cur).

Lemma length_overlay cur d : length (overlay cur d) = length cur.
Proof. unfold overlay. rewrite length_take, length_app, length_drop. lia. Qed.

(** A datagram of the same length replaces the bytes altogether. *)
Lemma overlay_same_length cur d : length d = length cur → overlay cur d = d.
Proof.
  intros Hl. unfold overlay. rewrite drop_ge, app_nil_r by lia. apply take_ge. lia.
Qed.

Lemma overlay_same_nil cur : overlay cur [] = cur.
Proof. unfold overlay. by rewrite drop_0, take_ge. Qed.

(** A longer one leaves its own prefix. *)
Lemma overlay_longer cur d : (length cur ≤ length d)%nat → overlay cur d = take (length cur) d.
Proof. intros Hl. unfold overlay. by rewrite take_app_le. Qed.

Lemma contents_overlay h buf n d :
  length (contents h (Slice buf 0 n)) = n →
  contents (fill h buf d) (Slice buf 0 n) = overlay (contents h (Slice buf 0 n)) d.
Proof.
  unfold contents, fill, overlay. cbn [sl_buf sl_off sl_len]. rewrite lookup_insert_eq.
  cbn [default from_option id]. rewrite !drop_0. unfold put_at. rewrite take_0, app_nil_l, Nat.add_0_l.
  set (arr := default [] (h !! buf)). intros Hl. rewrite Hl. rewrite length_take in Hl.
  destruct (decide (n ≤ length d)%nat) as [Hn|Hn].
  - by rewrite !take_app_le by lia.
  - rewrite !take_app_ge by lia. f_equal. rewrite skipn_firstn_comm. by rewrite take_take, Nat.min_id.
Qed.

Section aliasing.
Context {RL : RateLib} {FL : FrameLib} {SH : ShardLib} {E : Type}.
#[local] Existing Instance mem_backend.
Implicit Types w : World MemCache.

(** The entry of [key] is the slice of the first [length cur] bytes of [buf],
    which now hold [cur]; [deadline] is its expiry. *)
Definition holds w (buf : nat) (key cur : bytes) (deadline : Z) : Prop :=
  maxKeys (w_cache w) ≤ 0 ∧
  data (w_cache w) !! key = Some (Entry (Slice buf 0 (length cur)) deadline) ∧
  contents (w_heap w) (Slice buf 0 (length cur)) = cur.

Lemma holds_view w buf key cur deadline t :
  holds w buf key cur deadline → t ≤ deadline → view_at (E := E) w t key = Some cur.
Proof.
  intros (_ & Hd & Hc) Ht. unfold view_at. cbn. unfold mem_view, mem_Retrieve. rewrite Hd. cbn.
  rewrite (proj2 (Z.ltb_ge _ _)) by done. cbn. by rewrite Hc.
Qed.

(** Processing one more datagram: whether or not it is stored, the entry now
    denotes the overlay. *)
Lemma holds_receive wk buf key cur deadline d w :
  ¬ stored_under d key → holds w buf key cur deadline →
  ∃ w', run (processFrame (E := E) wk (Slice buf 0 (length d)))
          (set_heap (fill (w_heap w) buf d) w) = (Some tt, w') ∧
    holds w' buf key (overlay cur d) deadline ∧ w_env w' = w_env w ∧ w_sent w' = w_sent w ∧
    (w_reads w ≤ w_reads w')%nat.
Proof.
  intros Hd (Hmax & Hdata & Hc).
  set (w0 := set_heap (fill (w_heap w) buf d) w).
  destruct (processFrame_cases (E := E) wk (Slice buf 0 (length d)) w0)
    as (w' & Hr & Hs & Hh & He & _ & [Hn _] & Hcase).
  assert (contents (w_heap w0) (Slice buf 0 (length d)) = d) as Hcd by apply contents_fill.
  rewrite Hcd in Hcase.
  exists w'. split_and!; [exact Hr| |done|done|done].
  assert (data (w_cache w') !! key = data (w_cache w) !! key ∧ maxKeys (w_cache w') ≤ 0) as [Hd' Hm'].
  { destruct (decode_frame d) as [hd|] eqn:Hdec; [|by destruct Hcase as [-> _]].
    destruct (SeqNum hd =? 0) eqn:Hz; [by destruct Hcase as [-> _]|]. breflect.
    destruct Hcase as [-> _]. cbn -[mem_Store].
    assert (key ≠ indexKey (HashKey hd) (SeqNum hd)) as Hne by (intros ->; apply Hd; by exists hd).
    rewrite mem_Store_lookup_ne by done. split; [by rewrite mem_evict_roomy|].
    unfold mem_Store. cbn. by rewrite mem_evict_roomy. }
  split_and!; [done| |].
  - by rewrite Hd', Hdata, length_overlay.
  - rewrite Hh, length_overlay. cbn [w_heap w0 set_heap].
    rewrite contents_overlay by (by rewrite Hc). by rewrite Hc.
Qed.

Lemma holds_receive_all wk buf key deadline others w cur :
  Forall (fun d => ¬ stored_under d key) others → holds w buf key cur deadline →
  ∃ w', run (receive_all (E := E) wk buf others) w = (Some false, w') ∧
    holds w' buf key (fold_left (fun c d => overlay c d) others cur) deadline ∧
    w_env w' = w_env w ∧ w_sent w' = w_sent w ∧ (w_reads w ≤ w_reads w')%nat.
Proof.
  intros Hds. revert w cur. induction Hds as [|d ds Hd Hds IH]; intros w cur Hh.
  { exists w. by split_and!. }
  unfold receive_all. cbn [fmap list_fmap receive_loop fold_left]. case_bool_decide as Hlen.
  - destruct (holds_receive wk buf key cur deadline d w Hd Hh) as (w1 & Hr1 & Hh1 & He1 & Hs1 & Hn1).
    destruct (IH w1 _ Hh1) as (w' & Hr' & Hh' & He' & Hs' & Hn').
    exists w'. split_and!; [|done|by rewrite He'|by rewrite Hs'|lia].
    rewrite run_bind. cbn [run receive_into modify perform fst snd].
    rewrite run_bind, Hr1. exact Hr'.
  - destruct d as [|]; [|simpl in Hlen; lia]. rewrite overlay_same_nil. by apply IH.
Qed.

(** The frame just received is in the cache. *)
Lemma holds_stored wk buf f0 hd w :
  (0 < length f0)%nat → decode_frame f0 = Some hd → SeqNum hd ≠ 0 → maxKeys (w_cache w) ≤ 0 →
  ∃ w', run (receive_all (E := E) wk buf [f0]) w = (Some false, w') ∧
    holds w' buf (indexKey (HashKey hd) (SeqNum hd)) f0
      (env_clock (w_env w) (w_reads w) + wk_ttl wk) ∧
    w_env w' = w_env w ∧ w_sent w' = w_sent w ∧ (w_reads w ≤ w_reads w')%nat.
Proof.
  intros Hlen Hd Hz Hmax. unfold receive_all. cbn [fmap list_fmap receive_loop].
  rewrite bool_decide_eq_true_2 by done. rewrite run_bind.
  cbn [run receive_into modify perform fst snd]. set (w0 := set_heap (fill (w_heap w) buf f0) w).
  assert (contents (w_heap w0) (Slice buf 0 (length f0)) = f0) as Hc by apply contents_fill.
  rewrite run_bind.
  destruct (processFrame_cases (E := E) wk (Slice buf 0 (length f0)) w0)
    as (w1 & Hr & Hs & Hh & He & _ & [Hn _] & Hcase).
  rewrite Hr. rewrite Hc, Hd, (proj2 (Z.eqb_neq _ _) Hz) in Hcase. destruct Hcase as [Hcache _].
  exists w1. split_and!; [done| |done|done|done]. unfold holds. rewrite Hcache, Hh. split_and!.
  - cbn. by rewrite mem_evict_roomy.
  - cbn. apply lookup_insert_eq.
  - exact Hc.
Qed.

(** C4: what the in-memory cache retransmits.  A frame [f0] is received and
    stored; any number of datagrams, none of them stored under its key, are
    received after it; then a single-frame NACK for [f0] arrives before its
    TTL has passed and is let through by the tiers.  The endpoint sends not
    [f0] but the receive buffer's first [length f0] bytes as the later
    datagrams left them, to the group those bytes select, and acknowledges
    [f0]'s sequence number. *)
Theorem mem_retransmits_overlay (s : Server) (wk : Worker) (buf : nat) (f0 : bytes) (hd : Header)
    (others : list bytes) (d : bytes) (src : option UDPAddr) (w : World MemCache) :
  let t0 := env_clock (w_env w) (w_reads w) in
  let w1 := (run (receive_all (E := E) wk buf (f0 :: others)) w).2 in
  let sent := fold_left (fun c d => overlay c d) others f0 in
  maxKeys (w_cache w) ≤ 0 →
  (0 < length f0)%nat → decode_frame f0 = Some hd → SeqNum hd ≠ 0 →
  Forall (fun f => ¬ stored_under f (indexKey (HashKey hd) (SeqNum hd))) others →
  single_request d → nack_hash d = HashKey hd → nack_seq d = SeqNum hd →
  admits w1 (src_ip src) (nack_hash d) (nack_seq d) →
  lookup_time w1 (nack_hash d) ≤ t0 + wk_ttl wk →
  group_answers s w1 (src_ip src) (frameTxID sent) true →
  writes_succeed w →
  ∃ w' names, run (processNACK (E := E) s d src) w1 = (Some tt, w') ∧ names ≡ₚ socket_names w1 ∧
    w_sent w' = w_sent w ++
      frames (egressGroup (sv_retransmit s) sent (frameTxID sent)) sent names
      ++ ack_list s src (SeqNum hd).
Proof.
  intros t0 w1 sent Hmax Hlen Hd Hz Hoth Hreq Hh Hq Hadm Hlook Hgr Hw.
  destruct (holds_stored wk buf f0 hd w Hlen Hd Hz Hmax) as (wa & Hra & Hha & Hea & Hsa & Hna).
  destruct (holds_receive_all wk buf _ _ others wa f0 Hoth Hha) as (wb & Hrb & Hhb & Heb & Hsb & Hnb).
  assert (w1 = wb) as Hw1
    by (unfold w1; rewrite (receive_all_cons wk buf f0 others w wa Hra); by rewrite Hrb).
  clearbody w1. subst w1. fold sent in Hhb.
  destruct (run_processNACK_hit (E := E) s d src wb sent true true) as (w' & names & Hr & Hn & Hs & _);
    try done.
  - rewrite Hh, Hq. rewrite Hh in Hlook. by apply (holds_view wb buf _ sent _ _ Hhb).
  - intros n. rewrite Heb, Hea. apply Hw.
  - exists w', names. split_and!; [done|done|]. rewrite Hs, Hsb, Hsa. unfold hit_sent. by rewrite Hq.
Qed.
End aliasing.
