(* ===== verification/Scenario.v ===== *)
(** * Concrete runs

    The whole pipeline on concrete frames, with concrete instances of the
    external packages: the token bucket [Bucket], the frame layout
    [FrameModel], the group addresses [ShardModel] and the server
    [RedisModel].  These runs show that the hypotheses of the theorems can be
    met; the last sections run the in-memory cache on two frames of
    different flows, and the gate on two frames with one sequence number. *)

From S2P Require Import Prelude GoLib RateLimit RateLimitFacts Cache CacheMemory CacheRedis.
From S2P Require Import Metrics ShardCommon World Retransmit Ingress Server ServerRun.
From S2P Require Import ServerFacts NackFacts Concurrency Delivery System Gate Aliasing.

#[local] Existing Instance Bucket.lib.
#[local] Existing Instance FrameModel.lib.
#[local] Existing Instance FrameModel.laws.
#[local] Existing Instance ShardModel.lib.
#[local] Existing Instance RedisModel.lib.
#[local] Existing Instance RedisModel.spec.
#[local] Existing Instance RedisModel.laws.

(** ** Data *)

(** A BRC-124 frame of 92 header bytes and a payload. *)
Definition mk_frame (txid0 hash seq : Z) (payload : bytes) : bytes :=
  be_put 4 MagicBSV ++ be_put 2 ProtoVer ++ [2; 0] ++ (txid0 :: replicate 31 0)
  ++ be_put 8 hash ++ be_put 8 seq ++ replicate 36 0 ++ payload.

Definition frame_A : bytes := mk_frame 0x10 0xAA 7 [1; 2; 3].

Definition frame_B : bytes := mk_frame 0xC0 0xBB 8 [4; 5; 6].

(** The clock advances by 1 ns per reading; every write succeeds. *)
Definition demo_env : Env :=
  MkEnv (fun n => 1000 + Z.of_nat n) (fun _ => true) (fun _ => 0%nat).

(** The defaults of the configuration. *)
Definition demo_limits : Config :=
  MkConfig (float_of_Z 100) 10 float_zero 0 (float_of_Z 500) Minute 100 Minute (float_of_Z 200) 50.

Definition demo_engine : Engine := shard_New 0xFF05 0x000B 2.

Definition demo_rt : Retransmitter :=
  MkRetransmitter demo_engine [MkInterface (str "eth0") 2] 9001 Minute.

Definition demo_server : Server :=
  SetShardEngine demo_engine (server_New 9300 demo_rt 4).

Definition demo_worker : Worker := MkWorker Minute.

Definition demo_world {C : Type} (c : C) : World C :=
  MkWorld demo_env 0 0 0 {[0%nat := replicate 200 0]} (New (fun _ => 0) demo_limits) c
    (Some (metrics_New 1 0)) {[str "eth0" := 2]} [].

Definition demo_src : UDPAddr := MkUDPAddr ip_a 40000.

(** A NACK for [frame_A]. *)
Definition nack_A : bytes := encodeNACK 0 0xAA 7 7 (replicate 32 0).

Definition redis_world : World RedisDeployment :=
  demo_world (MkRedisDeployment (RedisModel.MkDb ∅ true)).

Definition mem_world : World MemCache := demo_world (mem_New 0).

#[local] Existing Instance mem_backend.

Abbreviation mem_be := (mem_backend redis_error).

(** ** Redis: the theorems apply *)

(** The world after [frame_A] and [frame_B] have been received. *)
Definition redis_after : World RedisDeployment :=
  (run (receive_all demo_worker 0 [frame_A; frame_B]) redis_world).2.

Lemma redis_admits : admits redis_after (src_ip (Some demo_src)) (nack_hash nack_A) (nack_seq nack_A).
Proof. intros t _. split_and!; by vm_compute. Qed.

Lemma redis_single : single_request nack_A.
Proof. split; by vm_compute. Qed.

Lemma redis_group :
  group_answers demo_server redis_after (src_ip (Some demo_src)) (frameTxID frame_A) true.
Proof. intros t _. by vm_compute. Qed.

Lemma not_stored_B : ¬ stored_under frame_B (indexKey 0xAA 7).
Proof. by intros (hd & Hd & _ & Hk); vm_compute in Hd; simplify_eq. Qed.

Lemma cached_frame_retransmitted_witness :
  ∃ w' names, run (processNACK demo_server nack_A (Some demo_src)) redis_after = (Some tt, w') ∧
    names ≡ₚ socket_names redis_after ∧
    w_sent w' = frames (egressGroup demo_rt frame_A (frameTxID frame_A)) frame_A names
                ++ [SentResponse demo_src (responseBytes msgTypeACK 1 7)].
Proof.
  apply (cached_frame_retransmitted demo_server demo_worker 0 frame_A (MkHeader 0xAA 7) [frame_B]
    nack_A (Some demo_src) redis_world).
  - intros n. cbn. lia.
  - exact I.
  - vm_compute. lia.
  - by vm_compute.
  - done.
  - done.
  - by vm_compute.
  - constructor; [exact not_stored_B|constructor].
  - exact redis_single.
  - by vm_compute.
  - by vm_compute.
  - exact redis_admits.
  - by vm_compute.
  - intros e. vm_compute. done.
  - exact redis_group.
  - split; [vm_compute; lia|]. intros c t -> _. vm_compute. reflexivity.
  - done.
Defined.

Lemma processNACK_sound_witness :
  w_sent (run (processNACK demo_server nack_A (Some demo_src)) redis_after).2 = w_sent redis_after ∨
  (single_request nack_A ∧
   answered demo_server nack_A (Some demo_src) redis_after
     (run (processNACK demo_server nack_A (Some demo_src)) redis_after).2).
Proof. apply (processNACK_sound demo_server nack_A (Some demo_src) redis_after). Defined.

(** The frame the lookup of [nack_A] finds. *)
Lemma redis_holds_A :
  cb_view (w_heap redis_after) (w_cache redis_after) (lookup_time redis_after (nack_hash nack_A))
    (nackKey (nack_hash nack_A) (nack_seq nack_A)) = Some frame_A.
Proof. by vm_compute. Qed.

Lemma redis_gate reply :
  reply = (cb_Retrieve (nackKey (nack_hash nack_A) (nack_seq nack_A))
    (lookup_time redis_after (nack_hash nack_A)) (w_heap redis_after, w_cache redis_after)).2.2 →
  gate_answers demo_rt (fun c => c = reply) redis_after frame_A true.
Proof. intros ->. split; [vm_compute; lia|]. intros c t -> _. by vm_compute. Qed.

Lemma processNACK_hit_witness :
  ∃ w' names, run (processNACK demo_server nack_A (Some demo_src)) redis_after = (Some tt, w') ∧
    names ≡ₚ socket_names redis_after ∧
    w_sent w' = w_sent redis_after ++ hit_sent demo_server (Some demo_src) frame_A 7 true true names ∧
    logged redis_after w' ([NACKRequests; CacheHits] ++ hit_log demo_server (Some demo_src) true true).
Proof.
  apply (processNACK_hit demo_server nack_A (Some demo_src) redis_after frame_A true true).
  - exact redis_single.
  - exact redis_admits.
  - exact redis_holds_A.
  - intros e. by vm_compute.
  - exact redis_group.
  - by apply redis_gate.
  - done.
Defined.

(** A NACK for a frame nobody has sent. *)
Definition nack_C : bytes := encodeNACK 0 0xAA 9 9 (replicate 32 0).

Lemma processNACK_miss_witness :
  ∃ w', run (processNACK demo_server nack_C (Some demo_src)) redis_after = (Some tt, w') ∧
    w_sent w' = w_sent redis_after ++ [SentResponse demo_src (responseBytes msgTypeMISS 0 0)] ∧
    logged redis_after w' [NACKRequests; CacheMisses; ResponsesSent (str "miss")].
Proof.
  apply (processNACK_miss demo_server nack_C (Some demo_src) redis_after).
  - split; by vm_compute.
  - intros t _. split_and!; by vm_compute.
  - by vm_compute.
  - intros e. by vm_compute.
  - done.
Defined.



(** ** The in-memory cache keeps the receive buffer *)

(** The world after [frame_A] and [frame_B] have been received. *)
Definition mem_after : World MemCache :=
  (run (receive_all (E := redis_error) demo_worker 0 [frame_A; frame_B]) mem_world).2.

Lemma mem_admits : admits mem_after (src_ip (Some demo_src)) (nack_hash nack_A) (nack_seq nack_A).
Proof. intros t _. split_and!; by vm_compute. Qed.

(** The request for [frame_A] is answered with [frame_B], in [frame_B]'s
    group, and with an ACK for [frame_A]. *)
Lemma mem_retransmits_overlay_witness :
  ∃ w' names, run (processNACK (E := redis_error) demo_server nack_A (Some demo_src)) mem_after
      = (Some tt, w') ∧
    names ≡ₚ socket_names mem_after ∧
    w_sent w' = frames (egressGroup demo_rt frame_B (frameTxID frame_B)) frame_B names
                ++ [SentResponse demo_src (responseBytes msgTypeACK 1 7)].
Proof.
  apply (mem_retransmits_overlay (E := redis_error) demo_server demo_worker 0 frame_A (MkHeader 0xAA 7)
    [frame_B] nack_A (Some demo_src) mem_world).
  - done.
  - vm_compute. lia.
  - by vm_compute.
  - done.
  - constructor; [exact not_stored_B|constructor].
  - exact redis_single.
  - by vm_compute.
  - by vm_compute.
  - exact mem_admits.
  - by vm_compute.
  - intros t _. by vm_compute.
  - done.
Defined.

(** ** The gate *)

(** Another flow's frame with [frame_A]'s sequence number. *)
Definition frame_D : bytes := mk_frame 0x20 0xDD 7 [9; 9; 9].

Lemma dedup_key_spec_witness :
  buildDedupKey frame_A = buildDedupKey frame_D ∧ indexKey 0xAA 7 ≠ indexKey 0xDD 7.
Proof.
  destruct (dedup_key_spec frame_A frame_D (MkHeader 0xAA 7) (MkHeader 0xDD 7)) as (_ & [_ H1] & H2);
    [by vm_compute|by vm_compute|]. split; [by apply H1|by apply H2].
Defined.

(** Both frames in the memory of the process. *)
Definition gate_world : World RedisDeployment :=
  MkWorld demo_env 0 0 0 {[0%nat := frame_A; 1%nat := frame_D]} (New (fun _ => 0) demo_limits)
    (MkRedisDeployment (RedisModel.MkDb ∅ true)) (Some (metrics_New 1 0)) {[str "eth0" := 2]} [].

Definition slice_A : slice := Slice 0 0 (length frame_A).

Definition slice_D : slice := Slice 1 0 (length frame_D).

Definition gate_after : World RedisDeployment :=
  (run (Retransmit demo_rt slice_A (frameTxID frame_A)) gate_world).2.

(** The frame of the other flow is suppressed. *)
Lemma dedup_window_witness :
  ∃ w', run (Retransmit demo_rt slice_D (frameTxID frame_D)) gate_after = (Some true, w') ∧
    w_sent w' = w_sent gate_after ∧ logged gate_after w' [RetransmitDedups].
Proof.
  apply (dedup_window demo_rt demo_rt slice_A slice_D (frameTxID frame_A) (frameTxID frame_D)
    gate_world gate_after).
  - vm_compute. lia.
  - by vm_compute.
  - by vm_compute.
  - constructor. by vm_compute.
  - by vm_compute.
  - vm_compute. lia.
  - by vm_compute.
Defined.

(** ** A gate that cannot be reached *)

Definition hybrid_world (up : bool) : World HybridDeployment :=
  demo_world (MkHybridDeployment (mem_New 0) (RedisModel.MkDb ∅ up)).

(** Frames in memory, Redis down: the request for [frame_A] is acknowledged,
    and nothing is retransmitted. *)
Theorem unreachable_gate_acks_without_frame :
  w_sent (run (processNACK demo_server nack_A (Some demo_src))
    (run (receive_all demo_worker 0 [frame_A]) (hybrid_world false)).2).2 =
  [SentResponse demo_src (responseBytes msgTypeACK 1 7)].
Proof. by vm_compute. Qed.
