(* ===== verification/ScenarioProcess.v ===== *)
(** * Concrete runs of the process

    The worker pool, the process, the beacon and the configuration on concrete
    inputs: the hypotheses of their theorems can be met. *)

From S2P Require Import Prelude GoLib Strconv NetIP GoParse Flag RateLimit RateLimitFacts.
From S2P Require Import ServiceConfig ConfigFacts CommandLine.
From S2P Require Import Cache CacheMemory CacheRedis Metrics ShardCommon World Retransmit Beacon.
From S2P Require Import Ingress Server Main MainFacts ServerRun ServerFacts NackFacts.
From S2P Require Import Concurrency Delivery System Scenario.

#[local] Existing Instance Bucket.lib.
#[local] Existing Instance FrameModel.lib.
#[local] Existing Instance FrameModel.laws.
#[local] Existing Instance ShardModel.lib.
#[local] Existing Instance ShardModel.laws.
#[local] Existing Instance mem_backend.

(** ** The worker pool *)

(** A server of one worker whose requests are one counter update. *)
Definition count_handle (rq : nackRequest) : Prog nat unit := modify S.

(** One request read, queued, taken and processed; then the context ends. *)
Definition pool_after : run_state nat :=
  cancel (set_worker 0 WIdle (worker_action 0 (WBusy (Ret tt)) 1%nat
    (take_request count_handle 0 (MkRequest nack_A None) []
      (enqueue (MkRequest nack_A None)
        (after_read (ReadDatagram (nack_A ++ [7]) None) (goto LRead (run_start 1 0%nat))))))).

Lemma pool_reached : rtc (run_step count_handle S) (run_start 1 0%nat) pool_after.
Proof.
  eapply rtc_l; [by apply rs_top_default|].
  eapply rtc_l; [by apply (rs_read _ _ _ (ReadDatagram (nack_A ++ [7]) None))|].
  eapply rtc_l; [apply (rs_send _ _ _ (MkRequest nack_A None)); [done|by vm_compute; lia]|].
  eapply rtc_l; [by apply (rs_take _ _ _ 0 (MkRequest nack_A None) [])|].
  eapply rtc_l; [by apply (rs_work _ _ _ 0 unit (fun n => (tt, S n)) Ret)|].
  eapply rtc_l; [by apply (rs_finish _ _ _ 0 tt)|].
  eapply rtc_l; [by apply rs_cancel|]. apply rtc_refl.
Qed.

Lemma channel_conserves_requests_witness :
  rs_accepted pool_after = rs_taken pool_after ++ rs_queue pool_after ∧
  rs_taken pool_after = [MkRequest nack_A None].
Proof.
  split; [|reflexivity]. apply (channel_conserves_requests count_handle S 1 0%nat pool_after pool_reached).
Defined.

Lemma shutdown_terminates_witness : sn (run_step count_handle S) pool_after.
Proof. apply (shutdown_terminates count_handle S pool_after). reflexivity. Defined.

(** ** The beacon *)

Definition demo_beacon : BeaconConfig :=
  MkBeaconConfig ip_a 9300 1 128 (60 * Second) 0xFF FlagMulticastRetransmit 77 0x000B None.

Lemma advert_roundtrip_witness :
  be_get (subslice (buildADVERT (fun _ => 0) demo_beacon) 28 30) = 60 ∧
  subslice (buildADVERT (fun _ => 0) demo_beacon) 8 24 = ip_a.
Proof.
  destruct (advert_roundtrip (fun _ => 0) demo_beacon 60) as
    (_ & _ & _ & _ & _ & H1 & _ & _ & _ & H2 & _); [done..|]. split; [exact H2|exact H1].
Defined.

Lemma beaconGroups_spec_witness : NoDup (beaconGroups demo_beacon).
Proof. apply (beaconGroups_spec demo_beacon). done. Defined.

Lemma beacon_schedule_witness :
  ∃ w', run (beacon_Run (E := unit) (fun _ => 0) demo_beacon (fun _ => None) [true; false]) mem_world
        = (Some true, w') ∧
    length (w_sent w') = 6%nat.
Proof.
  destruct (beacon_schedule (E := unit) (fun _ => 0) demo_beacon (fun _ => None) 1 mem_world)
    as (w' & Hr & Hs); [done|done|]. exists w'. split; [exact Hr|]. rewrite Hs. by vm_compute.
Defined.

(** ** The configuration *)

Definition host_has (n : bytes) : bool := bool_decide (n = str "eth0").

(** The defaults of an empty environment on a host of four CPUs. *)
Definition demo_flags : flags := flag_defaults (fun _ => []) 4.

Definition demo_config : ServiceConfig :=
  MkServiceConfig demo_flags 8 256 0xFF05 0x000B 1 4 [str "eth0"] 0 128 0x05 (30 * Second).

Lemma demo_Load : Load host_has 4 demo_flags = Ok demo_config.
Proof. by vm_compute. Qed.

Lemma parseGroupID_spec_witness :
  parseGroupID (str "11") = Ok 11 ∧ parseGroupID (str "0x000b") = Ok 11.
Proof. apply (parseGroupID_spec 11). lia. Defined.

Lemma Load_spec_witness : c_NumGroups demo_config = 2 ^ c_ShardBits demo_config.
Proof. apply (Load_spec host_has 4 demo_flags). exact demo_Load. Defined.

Lemma retransmit_group_joined_witness :
  ua_IP (egressGroup (retransmitter_of demo_config []) frame_A (frameTxID frame_A)) ∈
  ua_IP <$> buildGroups demo_config (engine_of demo_config).
Proof.
  apply (retransmit_group_joined host_has 4 demo_flags demo_config [] frame_A
    (frameTxID frame_A) demo_Load). right. by vm_compute.
Defined.

Lemma configured_advert_witness :
  byte_at (buildADVERT (fun _ => 0) (beacon_of demo_config (MkInterface (str "eth0") 2) ip_a
    (Ok (str "host1")))) 27 = 128.
Proof.
  apply (configured_advert host_has 4 (fun _ => 0) demo_flags demo_config
    (MkInterface (str "eth0") 2) ip_a (Ok (str "host1")) demo_Load); [done|done|].
  repeat (apply Forall_cons; split; [by vm_compute|]). constructor.
Defined.

(** RL_SENDER_RATE=3 in the environment and -rl-sender-rate=7 on the command
    line change nothing. *)
Definition alias_env (k : bytes) : bytes := if bool_decide (k = str "RL_SENDER_RATE") then str "3" else [].

Definition alias_args : gmap bytes flag_val := {[ str "rl-sender-rate" := VFloat (float_of_Z 7) ]}.

Lemma sender_alias_ignored_witness :
  f_RLSenderRate (flag_vars alias_env 4 alias_args) = float_of_Z 7 ∧
  wl_max (chainLimiter (New (fun _ => 0) (limits_of (flag_vars alias_env 4 alias_args)))) = 500.
Proof.
  split; [by vm_compute|].
  apply (sender_alias_ignored (fun _ => 0) alias_env 4 alias_args); reflexivity.
Defined.

(** ** The command line *)

Lemma demo_flags_typed : typed_flags demo_flags ∧ typed_rates demo_flags.
Proof. split; [split|]; repeat (apply Forall_cons; split); try apply Forall_nil_2; by vm_compute. Qed.

(** The defaults, written out. *)
Lemma configuration_roundtrip_witness :
  str "-cache-ttl=60000000000ns" ∈ flag_args demo_flags ∧
  Load_main host_has 4 alias_env (flag_args demo_flags) = LoadReturns (Ok demo_config).
Proof.
  split; [by apply (bool_decide_unpack _); vm_compute|]. rewrite <- demo_Load.
  apply (configuration_roundtrip host_has 4 alias_env demo_flags); apply demo_flags_typed.
Defined.

(** -nack-port=9400 --debug -cache-ttl 1h30m -nack-port 0x24B9 *)
Definition demo_settings : list setting :=
  [MkSetting (str "nack-port") (Inline false (str "9400")); MkSetting (str "debug") (Bare true);
   MkSetting (str "cache-ttl") (Next false (str "1h30m")); MkSetting (str "nack-port") (Next false (str "0x24B9"))].

Definition demo_args : list bytes :=
  [str "-nack-port=9400"; str "--debug"; str "-cache-ttl"; str "1h30m"; str "-nack-port"; str "0x24B9"].

Lemma demo_settings_good : Forall (good_setting formal_flags) demo_settings.
Proof.
  repeat (apply Forall_cons; split); try apply Forall_nil_2;
    (split; [by apply good_name_check|eexists; vm_compute; reflexivity]).
Qed.

(** EGRESS_PORT=9002, and a BEACON_TIER that is not a number. *)
Definition demo_getenv (k : bytes) : bytes :=
  if bool_decide (k = str "EGRESS_PORT") then str "9002"
  else if bool_decide (k = str "BEACON_TIER") then str "one" else [].

Lemma command_line_witness :
  flag_value demo_getenv 4 demo_settings (doc "nack-port" "NACK_PORT" "9300") = Some (VInt 9401) ∧
  flag_value demo_getenv 4 demo_settings (doc "egress-port" "EGRESS_PORT" "9001") = Some (VInt 9002) ∧
  flag_value demo_getenv 4 demo_settings (doc "beacon-tier" "BEACON_TIER" "0") = Some (VInt 0) ∧
  (∃ f, Load_main host_has 4 demo_getenv (demo_args ++ []) = LoadReturns (Load host_has 4 f) ∧
   Forall2 (fun nv d => nv.1 = d_flag d ∧ flag_value demo_getenv 4 demo_settings d = Some nv.2) (fields f)
     documented_flags) ∧
  Load_main host_has 4 demo_getenv (demo_args ++ [str "-sender-rate"]) = LoadExits 2.
Proof.
  do 3 (split; [by vm_compute|]).
  destruct (command_line host_has 4 demo_getenv demo_settings demo_settings_good) as [H1 H2].
  split; [exact (H1 [] [] eq_refl)|]. apply (H2 (str "sender-rate") false []); [by apply good_name_check|].
  by apply (bool_decide_unpack _); vm_compute.
Defined.

Lemma Load_typed_witness :
  (∃ c, Load_main host_has 4 (fun _ => []) demo_args = LoadReturns (Ok c) ∧ f_NACKPort (c_flags c) = 9401) ∧
  ∀ c, Load_main host_has 4 (fun _ => []) demo_args = LoadReturns (Ok c) → 0 ≤ c_BeaconTier c < 2 ^ 8.
Proof.
  split; [eexists; split; [by vm_compute|reflexivity]|].
  intros c Hc. destruct (Load_typed host_has 4 (fun _ => []) demo_args ltac:(lia) (Ok c) Hc)
    as (f & _ & _ & Hok). by destruct (Hok c eq_refl) as (_ & _ & ? & _).
Defined.
