(* ===== verification/ScenarioRun.v ===== *)
(** * Concrete runs of the whole program

    [run] on a host, from the configuration to its end; and the running process
    with two workers that are asked for the same frame. *)

From S2P Require Import Prelude GoLib Strconv NetIP GoParse Flag RateLimit RateLimitFacts.
From S2P Require Import ServiceConfig ConfigFacts CommandLine.
From S2P Require Import Cache CacheMemory CacheRedis Metrics ShardCommon World Retransmit Beacon.
From S2P Require Import Ingress Server Main MainFacts ServerRun ServerFacts NackFacts.
From S2P Require Import Concurrency Lifecycle Rights Process Startup StartupFacts.
From S2P Require Import Delivery System Gate GateRun Integrity Scenario ScenarioProcess.

#[local] Existing Instance Bucket.lib.
#[local] Existing Instance FrameModel.lib.
#[local] Existing Instance FrameModel.laws.
#[local] Existing Instance ShardModel.lib.
#[local] Existing Instance RedisModel.lib.
#[local] Existing Instance RedisModel.spec.
#[local] Existing Instance RedisModel.laws.

(** ** A worker that is not interrupted *)

Section serve.
Context {W : Type} (handle : nackRequest → Prog W unit) (worker_done : W → W).

(** A step of the pool that leaves the context alone. *)
Definition quiet_step (st st' : run_state W) : Prop :=
  run_step handle worker_done st st' ∧ rs_done st' = rs_done st.

Lemma worker_runs st i (body : Prog W unit) w' :
  rs_workers st !! i = Some (WBusy body) → run body (rs_store st) = (Some tt, w') →
  rtc quiet_step st (worker_action i WIdle w' st).
Proof.
  revert st. induction body as [[]| |X f k IH]; intros st Hi Hr; cbn in Hr; [|done|].
  - injection Hr as <-. apply rtc_once. split; [by apply (rs_finish _ _ st i tt)|done].
  - eapply rtc_l; [split; [by apply rs_work|done]|].
    specialize (IH (f (rs_store st)).1 (worker_action i (WBusy (k (f (rs_store st)).1)) (f (rs_store st)).2 st)).
    unfold worker_action in *. cbn in IH. rewrite list_insert_insert_eq in IH. apply IH; [|done].
    apply list_lookup_insert_eq. by eapply lookup_lt_Some.
Qed.

(** The loop reads a request, queues it, a worker takes it and answers. *)
Definition after_request (i : nat) (rq : nackRequest) (st : run_state W) : run_state W :=
  let st1 := take_request handle i rq [] (enqueue rq (goto (LSend rq) (goto LRead st))) in
  worker_action i WIdle (run (handle rq) (rs_store st)).2 st1.

Lemma serves_request st i d src :
  rs_loop st = LTop → rs_done st = false → rs_queue st = [] → rs_workers st !! i = Some WIdle →
  length d = NACKSize → (run (handle (MkRequest d src)) (rs_store st)).1 = Some tt →
  rtc quiet_step st (after_request i (MkRequest d src) st).
Proof.
  intros Hl Hd Hq Hi Hlen Hr. eapply rtc_l; [split; [by apply rs_top_default|done]|].
  eapply rtc_l; [split; [by apply (rs_read _ _ _ (ReadDatagram d src))|]|].
  { cbn [after_read]. by rewrite take_ge, bool_decide_eq_true_2 by lia. }
  cbn [after_read]. rewrite take_ge, bool_decide_eq_true_2 by lia. cbn [negb].
  eapply rtc_l; [split; [apply (rs_send _ _ _ (MkRequest d src)); [done|]|done]|].
  { cbn. rewrite Hq. unfold queue_capacity. simpl. lia. }
  eapply rtc_l; [split; [apply (rs_take _ _ _ i (MkRequest d src) []); [done|]|done]|].
  { cbn. by rewrite Hq. }
  apply worker_runs with (body := handle (MkRequest d src)).
  - cbn. apply list_lookup_insert_eq. by eapply lookup_lt_Some.
  - cbn. destruct (run _ _); cbn in *. by subst.
Qed.
End serve.

(** Steps of the pool are steps of the process. *)
Lemma server_steps {W : Type} (handle : nackRequest → Prog W unit) (worker_done set_draining ingress_done : W → W)
    (background : W → W → Prop) (drain : bool) (on_frame : bytes → Prog W unit) m d st st' gs n :
  rtc (quiet_step handle worker_done) st st' →
  rtc (proc_step handle worker_done set_draining drain on_frame ingress_done background)
    (MkProc m d st gs n) (MkProc m d st' gs n).
Proof. induction 1 as [st|st1 st2 st3 [Hs Hd] _ IH]; [done|]. eapply rtc_l; [by apply ps_server|done]. Qed.

(** The receive loop, not interrupted, on one datagram. *)
Section receive.
Context {W : Type} (handle : nackRequest → Prog W unit) (worker_done set_draining ingress_done : W → W)
  (background : W → W → Prop) (drain : bool) (on_frame : bytes → Prog W unit).

Local Abbreviation step := (proc_step handle worker_done set_draining drain on_frame ingress_done background).

Lemma recv_body_runs m d st gs n i evs (body : Prog W unit) w' :
  gs !! i = Some (GRecvBusy evs body) → run body (rs_store st) = (Some tt, w') →
  rtc step (MkProc m d st gs n) (MkProc m d (with_store w' st) (<[i := GRecv evs]> gs) n).
Proof.
  revert st gs. induction body as [[]| |X f k IH]; intros st gs Hi Hr; cbn in Hr; [|done|].
  - injection Hr as <-. apply rtc_once. by eapply ps_gor, gs_busy, bs_recv_end.
  - eapply rtc_l; [by eapply ps_gor, gs_busy, bs_recv|].
    specialize (IH (f (rs_store st)).1 (with_store (f (rs_store st)).2 st)
      (<[i := GRecvBusy evs (k (f (rs_store st)).1)]> gs)).
    rewrite list_insert_insert_eq in IH. apply IH; [|done].
    apply list_lookup_insert_eq. by eapply lookup_lt_Some.
Qed.

Definition after_datagram (bs : bytes) (st : run_state W) : run_state W :=
  with_store (run (on_frame bs) (rs_store st)).2 st.

Lemma receives_datagram m d st gs n i bs evs :
  gs !! i = Some (GRecv (RecvData bs :: evs)) → (0 < length bs)%nat → (run (on_frame bs) (rs_store st)).1 = Some tt →
  rtc step (MkProc m d st gs n) (MkProc m d (after_datagram bs st) (<[i := GRecv evs]> gs) n).
Proof.
  intros Hi Hb Hr. eapply rtc_l; [by eapply ps_gor, gs_recv|]. cbn [after_recv].
  rewrite bool_decide_eq_true_2 by done.
  replace (<[i := GRecv evs]> gs) with (<[i := GRecv evs]> (<[i := GRecvBusy evs (on_frame bs)]> gs))
    by apply list_insert_insert_eq.
  apply (recv_body_runs m d (with_store (rs_store st) st) _ n i evs (on_frame bs)).
  - apply list_lookup_insert_eq. by eapply lookup_lt_Some.
  - cbn. destruct (run _ _); cbn in *. by subst.
Qed.
End receive.

(** The backend moves in the background. *)
Definition background_store {C : Type} (step : Z → C → C) (st : run_state (World C)) : run_state (World C) :=
  let w := rs_store st in
  with_store (set_cache (step (env_clock (w_env w) (w_reads w)) (w_cache w)) (time_now w).2) st.

Lemma background_steps {RL : RateLib} {FL : FrameLib} {SH : ShardLib} {C E : Type} `{!Backend C E}
    s wk buf f (bg : Z → C → C → Prop) step m d st gs n :
  (∀ now c, bg now c (step now c)) →
  program_step s wk buf f bg (MkProc m d st gs (S n)) (MkProc m d (background_store step st) gs n).
Proof. intros Hbg. apply ps_background, Background, Hbg. Qed.

(** ** Two workers, one frame *)

Definition demo_outside : outside redis_error :=
  MkOutside None [None] [] 0 (fun _ => None) 0 None 1.

(** The process on Redis, after [frame_A] has been received. *)
Definition demo_running : proc (World RedisDeployment) :=
  running (fun _ => 0) demo_server None None demo_outside redis_after.

(** Worker 0, then worker 1 answer a request for [frame_A]; in between another
    endpoint asks the gate of the same Redis for the same frame. *)
Definition one_served : run_state (World RedisDeployment) :=
  after_request (server_handle demo_server) 0 (MkRequest nack_A (Some demo_src)) (pc_server demo_running).

Definition dedup_A : bytes := buildDedupKey frame_A.

Definition other_endpoint (now : Z) (c : RedisDeployment) : RedisDeployment :=
  match cb_SetNX with Some f => (f dedup_A (str "1") 60000000000 now c).2 | None => c end.

Lemma other_endpoint_step now c : backend_step now c (other_endpoint now c).
Proof. by apply (bs_setnx now). Qed.

Definition other_asked : run_state (World RedisDeployment) := background_store other_endpoint one_served.

Definition two_served : run_state (World RedisDeployment) :=
  after_request (server_handle demo_server) 1 (MkRequest nack_A (Some demo_src)) other_asked.

Definition demo_served : proc (World RedisDeployment) :=
  MkProc MSignal false two_served (pc_gors demo_running) 0.

Lemma two_reached :
  rtc (program_step (E := redis_error) demo_server demo_worker 0 demo_flags backend_step) demo_running demo_served.
Proof.
  transitivity (MkProc MSignal false one_served (pc_gors demo_running) 1).
  { apply (server_steps (server_handle demo_server) (update_rec rec_WorkerDone) _ _ _ _ _ MSignal false
      (pc_server demo_running) one_served).
    apply (serves_request (server_handle demo_server) (update_rec rec_WorkerDone) (pc_server demo_running) 0
      nack_A (Some demo_src)); [reflexivity..|vm_compute; reflexivity]. }
  eapply rtc_l; [apply (background_steps _ _ _ _ _ other_endpoint), other_endpoint_step|]. fold other_asked.
  apply (server_steps (server_handle demo_server) (update_rec rec_WorkerDone) _ _ _ _ _ MSignal false
    other_asked two_served).
  apply (serves_request (server_handle demo_server) (update_rec rec_WorkerDone) other_asked 1
    nack_A (Some demo_src)); [reflexivity..|vm_compute; reflexivity].
Qed.

Lemma demo_env_kept : w_env redis_after = demo_env.
Proof. reflexivity. Qed.

Lemma gate_admits_once_witness :
  copies (str "eth0") dedup_A (store_of demo_served) = 1%nat ∧
  length (w_sent (store_of demo_served)) = 3%nat ∧
  (copies (str "eth0") dedup_A (store_of demo_served) ≤
   S (copies (str "eth0") dedup_A (store_of demo_running)))%nat.
Proof.
  split; [by vm_compute|]. split; [by vm_compute|].
  refine (gate_admits_once (E := redis_error) (fun _ => 0) demo_server demo_worker 0 demo_flags None None
    demo_outside backend_step redis_after demo_running demo_served
    (str "eth0") dedup_A _ _ _ _ _ _ _ two_reached _).
  - by vm_compute.
  - by vm_compute.
  - rewrite demo_env_kept. intros n. cbn [env_clock demo_env]. lia.
  - apply sharing_keeps_marks.
  - apply rtc_refl.
  - by repeat constructor.
  - by vm_compute.
  - intros i Hi. assert (w_reads (store_of demo_served) = 15%nat) as Hn by (by vm_compute).
    rewrite Hn in Hi. change (w_env (store_of demo_running)) with (w_env redis_after).
    rewrite demo_env_kept. change (rt_dedupWindow (sv_retransmit demo_server)) with 60000000000.
    cbn [env_clock demo_env]. lia.
Defined.

(** ** Two frames received, one requested *)

Definition two_recvs : outside redis_error :=
  MkOutside None [None] [RecvData frame_A; RecvData frame_B] 0 (fun _ => None) 0 None 1.

Definition two_running : proc (World RedisDeployment) :=
  running (fun _ => 0) demo_server None None two_recvs redis_world.

Definition two_ready : run_state (World RedisDeployment) :=
  with_store (update_rec rec_WorkerReady (rs_store (pc_server two_running))) (pc_server two_running).

Definition frames_received : run_state (World RedisDeployment) :=
  after_datagram (ingress_frame demo_worker 0) frame_B
    (after_datagram (ingress_frame demo_worker 0) frame_A two_ready).

(** Another endpoint asks the gate for [frame_B]; then [frame_A] is requested. *)
Definition other_gates (now : Z) (c : RedisDeployment) : RedisDeployment :=
  match cb_SetNX with Some f => (f (buildDedupKey frame_B) (str "1") 60000000000 now c).2 | None => c end.

Lemma other_gates_step origin now c : neighbour origin now c (other_gates now c).
Proof. by apply (nb_setnx origin now). Qed.

Definition frame_requested : run_state (World RedisDeployment) :=
  after_request (server_handle demo_server) 2 (MkRequest nack_A (Some demo_src))
    (background_store other_gates frames_received).

Definition two_done : proc (World RedisDeployment) :=
  MkProc MSignal false frame_requested [GServe SListening; GRecv []] 0.

Definition from_wire (b : bytes) : Prop := b = frame_A ∨ b = frame_B.

Lemma two_done_reached :
  rtc (program_step (E := redis_error) demo_server demo_worker 0 demo_flags (neighbour from_wire)) two_running two_done.
Proof.
  transitivity (MkProc (W := World RedisDeployment) MSignal false two_ready
    [GServe SListening; GRecv [RecvData frame_A; RecvData frame_B]] 1).
  { apply (recv_body_runs (server_handle demo_server) _ _ _ _ _ _ MSignal false (pc_server two_running)
      (pc_gors two_running) 1 1 [RecvData frame_A; RecvData frame_B] (with_rec rec_WorkerReady)); reflexivity. }
  transitivity (MkProc (W := World RedisDeployment) MSignal false
    (after_datagram (ingress_frame demo_worker 0) frame_A two_ready) [GServe SListening; GRecv [RecvData frame_B]] 1).
  { apply (receives_datagram (server_handle demo_server) _ _ _ _ _ (ingress_frame demo_worker 0) MSignal false two_ready
      [GServe SListening; GRecv [RecvData frame_A; RecvData frame_B]] 1 1 frame_A [RecvData frame_B]);
      [reflexivity|vm_compute; lia|vm_compute; reflexivity]. }
  transitivity (MkProc (W := World RedisDeployment) MSignal false frames_received [GServe SListening; GRecv []] 1).
  { apply (receives_datagram (server_handle demo_server) _ _ _ _ _ (ingress_frame demo_worker 0) MSignal false
      (after_datagram (ingress_frame demo_worker 0) frame_A two_ready)
      [GServe SListening; GRecv [RecvData frame_B]] 1 1 frame_B []);
      [reflexivity|vm_compute; lia|vm_compute; reflexivity]. }
  eapply rtc_l; [apply (background_steps _ _ _ _ _ other_gates), other_gates_step|].
  apply (server_steps (server_handle demo_server) (update_rec rec_WorkerDone) _ _ _ _ _ MSignal false
    (background_store other_gates frames_received) frame_requested).
  apply (serves_request (server_handle demo_server) (update_rec rec_WorkerDone)
    (background_store other_gates frames_received) 2 nack_A (Some demo_src));
    [reflexivity..|vm_compute; reflexivity].
Qed.

Lemma redis_empty_genuine : genuine (E := redis_error) from_wire redis_world.
Proof. intros t k v _ _. cbn. by unfold RedisModel.lookup. Qed.

Lemma process_accountable_witness :
  w_sent (store_of two_done) =
    [SentFrame (str "eth0") (egressGroup demo_rt frame_A (frameTxID frame_A)) frame_A;
     SentResponse demo_src (responseBytes msgTypeACK 1 7)] ∧
  Forall (fun d => ∃ rq, rq ∈ rs_taken (pc_server two_done) ∧ answers demo_server from_wire rq d)
    (w_sent (store_of two_done)).
Proof.
  split; [by vm_compute|].
  destruct (process_accountable (E := redis_error) from_wire (fun _ => 0) demo_server demo_worker 0 demo_flags None None
    two_recvs (neighbour from_wire) redis_world two_done) as [Hall _].
  - intros n. cbn [env_clock redis_world demo_world w_env demo_env]. lia.
  - by vm_compute.
  - reflexivity.
  - exact redis_empty_genuine.
  - intros bs [[= ->]|[[= ->]|[]%elem_of_nil]%elem_of_cons]%elem_of_cons; [by left|by right].
  - apply neighbours_keep_frames.
  - exact two_done_reached.
  - eapply Forall_impl; [exact Hall|]. intros d [Had|Hrq]; [by destruct d; try done; destruct Had as (c & ? & _)|done].
Defined.

(** ** One worker, no frame, a sweep *)

#[local] Existing Instance mem_backend.

Definition mem_running : proc (World MemCache) :=
  running (E := unit) (fun _ => 0) demo_server (Some mem_Len) None
    (MkOutside None [None] [] 0 (fun _ => None) 0 None 1) mem_world.

Definition miss_served : run_state (World MemCache) :=
  after_request (server_handle (E := unit) demo_server) 0 (MkRequest nack_A (Some demo_src)) (pc_server mem_running).

Definition mem_swept : proc (World MemCache) :=
  MkProc MSignal false (background_store mem_tick miss_served) (pc_gors mem_running) 0.

Lemma mem_swept_reached :
  rtc (program_step (E := unit) demo_server demo_worker 0 demo_flags mem_background) mem_running mem_swept.
Proof.
  transitivity (MkProc MSignal false miss_served (pc_gors mem_running) 1); [|by apply rtc_once, background_steps].
  apply (server_steps (server_handle demo_server) (update_rec rec_WorkerDone) _ _ _ _ _ MSignal false
    (pc_server mem_running) miss_served).
  apply (serves_request (server_handle demo_server) (update_rec rec_WorkerDone) (pc_server mem_running) 0
    nack_A (Some demo_src)); [reflexivity..|vm_compute; reflexivity].
Qed.

Lemma process_limits_witness :
  length (w_sent (store_of mem_swept)) = 1%nat ∧
  Forall (sent_ok (w_sockets (store_of mem_swept))) (w_sent (store_of mem_swept)).
Proof.
  split; [by vm_compute|].
  apply (process_limits (E := unit) (fun _ => 0) demo_limits 0 demo_server demo_worker 0 demo_flags
    (Some mem_Len) None (MkOutside None [None] [] 0 (fun _ => None) 0 None 1) mem_world mem_swept);
    [reflexivity|reflexivity|reflexivity|done|exact mem_swept_reached].
Defined.

(** ** [run] on a host *)

Definition otel_fine : OTelLib unit :=
  {| resource_New _ := None; prometheus_New := None; otlp_New _ := None; new_instrument _ _ := None |}.

#[local] Existing Instance otel_fine.

Definition eth0 : Interface := MkInterface (str "eth0") 2.

(** A host with one interface, "eth0", and the arguments -debug and
    -drain-timeout 5s. *)
Definition demo_host : host (E := unit) :=
  MkHost [str "-debug"; str "-drain-timeout"; str "5s"] (fun _ => []) 4 host_has (Ok (str "host1")) 1000 None
    (fun n => if bool_decide (n = str "eth0") then Some eth0 else None) (fun _ => None)
    (fun _ _ => Some [IPNet ip_a]).

Definition demo_started : started * progress :=
  match run_main demo_host with
  | Waiting s g => (s, g)
  | _ => (MkStarted demo_config (metrics_New 1 0) (MkProvider [] [] []) MemoryOnly [] eth0 [] demo_limits ∅
            demo_server demo_worker None, MkProgress [] [])
  end.

Lemma demo_waits : run_main demo_host = Waiting demo_started.1 demo_started.2.
Proof. reflexivity. Qed.

(** The configuration of the host: the beacon advertises [ip_a], which the
    server binds. *)
Lemma bound_address_advertised_witness :
  sv_bindAddr (sd_server demo_started.1) = str "fd20::24" ∧
  ∃ b, sd_beacon demo_started.1 = Some b ∧ subslice (buildADVERT (fun _ => 0) b) 8 24 = ip_a ∧
    be_get (subslice (buildADVERT (fun _ => 0) b) 24 26) = 9300.
Proof.
  split; [by vm_compute|].
  assert (is_Some (sd_beacon demo_started.1)) as [b Hb] by (vm_compute; by eexists).
  assert (ParseIP (sv_bindAddr (sd_server demo_started.1)) = Some ip_a) as Hip by (by vm_compute).
  assert (sv_port (sd_server demo_started.1) = 9300) as Hport by (by vm_compute).
  pose proof (bound_address_advertised demo_host) as Hadv. rewrite demo_waits in Hadv.
  destruct (Hadv ltac:(done) ltac:(by intros n i l [= <-]; repeat constructor) b (fun _ => 0) Hb)
    as (ip & _ & _ & Hp & Hs & Hn).
  rewrite Hip in Hp. apply (inj Some) in Hp. rewrite Hport in Hn. exists b.
  split; [exact Hb|]. split; [|exact (Hn ltac:(lia))]. rewrite Hs. by symmetry.
Defined.

(** A signal, the drain, the cancellation. *)
Definition demo_program : proc (World MemCache) :=
  running (E := unit) (fun _ => 0) (sd_server demo_started.1) (Some mem_Len) (sd_beacon demo_started.1)
    (MkOutside None [None] [] 1 (fun _ => None) 1 None 2) mem_world.

Definition demo_cancelled : proc (World MemCache) :=
  MkProc MCloseDone false (cancel (on_signal (update_rec rec_SetDraining) true (pc_server demo_program)).2)
    (pc_gors demo_program) 2.

Lemma demo_cancelled_reached :
  rtc (program_step (E := unit) (sd_server demo_started.1) (sd_worker demo_started.1) 0
    (c_flags (sd_config demo_started.1)) mem_background) demo_program demo_cancelled.
Proof.
  eapply rtc_l; [apply ps_signal|]. eapply rtc_l; [apply ps_slept|]. eapply rtc_l; [apply ps_cancel|]. done.
Qed.

Lemma run_ends_witness :
  pg_acquired demo_started.2 = [RCache; RSocket (str "eth0"); RContext] ∧
  released demo_started.2 ≡ₚ pg_acquired demo_started.2 ∧
  sn (program_step (E := unit) (sd_server demo_started.1) (sd_worker demo_started.1) 0
    (c_flags (sd_config demo_started.1)) mem_background) demo_cancelled.
Proof.
  split; [by vm_compute|].
  destruct (run_ends (E' := unit) (fun _ => 0) demo_host demo_started.1 demo_started.2 0 (Some mem_Len)
    (MkOutside None [None] [] 1 (fun _ => None) 1 None 2) mem_background mem_world demo_cancelled demo_waits
    ltac:(reflexivity) ltac:(reflexivity) ltac:(reflexivity) ltac:(reflexivity) demo_cancelled_reached)
    as (_ & _ & Hsn & _ & Hrel).
  split; [|by apply Hsn]. apply Hrel. by repeat constructor; apply not_elem_of_nil.
Defined.
